(* ===== verification/_CoqProject ===== *)
-Q . S2P
Prelude.v
GoStrings.v
Compare.v
Limiter.v
Json.v
Cloudscale.v
ServiceInfo.v
Actions.v
LbState.v
NextActions.v
Examples.v
NextActionsSpec.v
NextActionsPlan.v
KeysSpec.v
ServiceInfoSpec.v
LbStateSpec.v
Locks.v
LbMapper.v
ActualState.v
ActualStateSpec.v
ApiLaws.v
FakeApi.v
Reconcile.v
ReconcileSpec.v
Descent.v
Tasks.v
Progress.v
PlanTasks.v
Settings.v
Converge.v
Realisable.v
FakeApiLaws.v
ProviderID.v
ServerMapper.v
Instances.v
InstancesSpec.v
JsonEncode.v
KubeUtil.v
KubeUtilSpec.v
LoadBalancerHandlers.v
LoadBalancerSpec.v
HandlersConverge.v
Sharing.v
Others.v
Disturbed.v
HandlersDisturbed.v
FakeCluster.v
FakeClusterLaws.v
FakeDisturbed.v
Footprint.v
Interleaving.v
Scripts.v
Causality.v
Isolation.v
SystemIsolation.v
SystemConverge.v
SystemSpared.v
SystemSettles.v
FakeScopes.v
FakeSystem.v
FakeSettles.v
Cloud.v
Command.v
Http.v
HttpEcho.v
Testkit.v
TestkitSpec.v
