(* ===== verification/Prelude.v ===== *)
(** * The cloudscale.ch cloud controller manager, verified

    The program connects a Kubernetes cluster with the cloudscale.ch API.  Two
    controllers of Kubernetes call it: the node controllers ask about the
    servers behind nodes, and the service controller asks for load balancers.
    For a service of type LoadBalancer it computes the state desired for the
    service and the selected nodes, reads the actual state from the API, plans
    the actions that lead from one to the other, runs them, and repeats this
    until a plan no longer changes the structure of the load balancer.

    ** Files

    External interfaces and generic parts:
    - [Prelude]: errors, results, loops over slices, iteration over Go maps;
    - [GoStrings]: what is used of the packages strings, strconv, fmt, time;
    - [Json], [JsonEncode]: what is used of encoding/json, the scanner as an
      automaton and the encoder, with the round trip between the two;
    - [Http]: what is used of net/http: the mux, its patterns, and what the
      server answers without a handler;
    - [Cloudscale]: the structs of the SDK and of Kubernetes, the state monad
      [M], and the class [Client] of the API calls, the context and the clock.

    Components, with their source under src/pkg:
    - [Compare]: internal/compare/compare.go, [Diff] and [Match] by key;
    - [Limiter]: internal/limiter/limiter.go, answers with an error;
    - [Actions]: internal/actions, one constructor per action struct, [Label]
      and [Run];
    - [ServiceInfo]: cloudscale_ccm/service_info.go and the annotation names;
    - [LbState]: the state record, names and [desiredLbState] of
      cloudscale_ccm/reconcile.go; [NextActions]: [nextLbActions] in stages;
      [ActualState]: [actualLbState]; [Reconcile]: [runActions] and
      [reconcileLbState];
    - [LbMapper], [ServerMapper], [ProviderID], [Instances]: lb_mapper.go,
      server_mapper.go, provider_id.go and instances.go of cloudscale_ccm;
    - [KubeUtil]: internal/kubeutil/annotate.go, and the class [Kube] of the
      Kubernetes calls;
    - [LoadBalancerHandlers]: the handlers, validation and status of
      cloudscale_ccm/loadbalancer.go; [Locks]: its mutex per service;
    - [Cloud]: cloudscale_ccm/cloud.go, from the environment to the provider,
      and [Initialize];
    - [Testkit]: internal/testkit, the mock API server, the builders of nodes
      and services, and the reader of the greeting of nginx;
    and under src/cmd:
    - [Command]: cloudscale-cloud-controller-manager/main.go, and the
      registration of the provider in cloud.go;
    - [HttpEcho]: http-echo/main.go.

    Theorems about one component: [NextActionsSpec], [NextActionsPlan],
    [KeysSpec], [ServiceInfoSpec], [LbStateSpec], [ActualStateSpec],
    [ReconcileSpec], [InstancesSpec], [KubeUtilSpec], [LoadBalancerSpec],
    [TestkitSpec]; the files of the small components hold theirs at the end.

    Convergence, the composition of planner, actions, loop and API:
    - [ApiLaws]: the effect of every write on an account, and the class of the
      clients that have these effects;
    - [Descent], [Progress]: how far an account is from a structure, a number;
    - [Tasks], [PlanTasks]: structural plans as lists of tasks that run to
      their end and bring that number down; [Settings]: the last plan, which
      only updates settings and assigns Floating IPs;
    - [Converge]: the loop; [Realisable]: the states it is run with;
      [HandlersConverge]: the handlers, with the class [KubeLaws];
    - [Sharing]: what a service sees of an account it shares, and which effects
      do not concern it; [Others]: the world in which others act after every
      call; [Disturbed]: that it obeys [ApiLaws] for what the service sees, if
      the others spare the service; [HandlersDisturbed]: the handlers in it.

    Concurrency, the composition of handlers with each other:
    - [Footprint]: what a handler writes, by rules for the monad: every write
      is about a resource of its own load balancers, its name or its addresses;
    - [Interleaving]: the handlers as threads that take the lock of [Locks] and
      interleave call by call; [Scripts]: a handler alone with a script makes
      the calls it makes among others; [Causality]: what a handler did does not
      depend on what it meets later, so that every run goes on; no deadlock;
    - [Isolation]: the classes [ApiScopes] and [KubeScopes], what a call can
      change; [SystemIsolation]: what handlers do to each other;
    - [SystemConverge]: a thread whose service the others spare ends as in
      [HandlersDisturbed]; [SystemSpared]: handlers of other services do spare
      it; [SystemSettles]: in a fair execution such a thread comes to its return
      ([system_converges]), and the system as a whole ends, with all services
      served.

    [Examples], [FakeApi] and [FakeCluster] hold concrete inputs and simulated
    services, on which theorems with hypotheses are applied and the program is
    run end to end; [FakeApiLaws], [FakeClusterLaws] and [FakeScopes] show that
    the simulated services are instances of [ApiLaws], [KubeLaws], [ApiScopes]
    and [KubeScopes]; [FakeScopes], [FakeSystem] and [FakeSettles] also run two
    handlers in turns, the last one to the end of both, and [FakeDisturbed] one
    next to a neighbour that creates and deletes.

    ** How the code is modelled

    A function that returns a value and an error gives a [result]; a nil
    dereference and an explicit panic are its third case.  A function that
    calls the API or the cluster is in [M W], for an arbitrary world [W] with
    an instance of [Client] or [Kube]: theorems hold for every behaviour of
    the services outside, or name the behaviour they rely on ([serves],
    [serves_servers], [pages], [ApiLaws], [KubeLaws]).  What the code leaves
    to packages that are not part of the repository is a class: printing and
    decoding of SDK structs ([SDK], [MockValues]), UUIDs ([UUIDPackage]),
    label selectors ([LabelsPackage]), case mapping and formats with verbs
    outside ASCII names ([GoExt]), client-go ([ClientGo]), the framework of
    cloud controllers and its registry ([Framework], [Plugins]), its logger
    ([Klog]), the texts of foreign errors ([ErrorText]), the clock and the
    HTTP requests of the tests ([TimePackage], [HttpPackage]).

    Iterating over a Go map has no fixed order.  Every such loop takes the
    order from a [MapOrder], which may differ per loop and per round, and the
    theorems hold for all of them.  Pointers that are compared or used as map
    keys carry their address; the mux a mock server shares with its HTTP
    server is a location of a heap.  Integers are [Z]; where the code computes
    with them ([wait_time], [apiTimeout]) the result is wrapped to 64 bits.
    The program is sequential but for the handlers, which Kubernetes calls
    concurrently.  In [Command], the process ends at the first exit.

    A handler is a function on the world and runs to its end.  [Interleaving]
    interrupts it between any two calls of the API, the cluster or the clock:
    the same definition, run in the world [solo], meets before each call the
    next state of a script, and notes what the call makes of it.  A thread's
    next step is what its handler does after the states its calls have met so
    far.  No number of rounds limits it, as the calls of a run are those of
    every run with more rounds, and a script is met with as many rounds as it
    has states ([system_progress]).  A [registry] names, for an execution, the
    load balancer each URL and UUID belongs to and the service each load
    balancer was made for; [recorded] says that it is true, so that addresses
    are not used again, and that nobody else changes the load balancers of the
    services or takes their names.  [orderly] says that the account the API
    laws are about is the listed one, and that what happens outside spares
    every service.  [GetLoadBalancer] takes no lock and only reads.

    To take a thread out of a system, the others are read off its execution:
    after the n-th call of the thread they do what led to the state its next
    call met ([rejoin]).  That is an interference as in [Others], considerate
    by isolation, and in the world disturbed by it the handler makes the same
    calls.  [system_ends] and [system_converges] are the theorems that use
    classical logic, the one to bound the calls of all threads at once, the
    other to find the end of an infinite execution.

    The loop of [reconcileLbState] and the paging of
    [findIPsAssignedElsewhere] have no bound in the code.  The definitions
    take a number of rounds and give [None], no outcome, when it is used up;
    [reconcileLbState_rounds] shows that enough rounds give exactly the
    outcomes of the unbounded loop, [rounds_bound] is enough for an API with
    [ApiLaws] ([reconcileLbState_converges]), and a listing needs as many
    rounds as it has pages.

    [ApiLaws] is about an API that accepts every well-formed write about
    resources that exist, and whose load balancers are busy for a bounded time
    after a write.  The account it is about may be a part of the whole: reads
    are only known as far as they concern the names, UUIDs and addresses of one
    service.  So the same theorems cover an account that nobody else changes
    meanwhile and, by [Disturbed], one that others change between any two
    calls, in any way that does not concern the service ([Considerate]).  Each
    of its load balancers has a time it may still be changing, which the others
    must not prolong.  An update
    request cannot carry a zero number, an empty text, an empty list of codes
    or the absence of a host: settings that ask for one of them are only as
    desired if the resource is created, and [Settings] states which remain.

    ** What is shown

    - Composition: the loop ends within [rounds_bound] rounds, and what is
      desired is then [in_place]: one load balancer of the service, with the
      desired keys of pools, members, listeners and monitors and no others
      (how often a key occurs is left open), settings as far as a request can
      carry them, and every desired Floating IP assigned (the program takes
      none away, as documented, so others may stay); deletion ends and leaves
      no load balancer; the handlers do so from the call on, whatever others
      do to other load balancers between their calls; what [desiredLbState]
      asks for, the API can hold.
    - Planning: a plan is empty but for waiting iff the states agree; all it
      does is justified by them and each stage is complete, where the updates
      of settings are specified one by one ([listener_update],
      [monitor_update]), apart from the code; map order does not
      matter; a plan exists for the vocabulary of the API; a refetch ends a
      plan iff the structure changes; keys tell resources apart.
    - States: when the desired state exists, in terms of the annotations, the
      zones and the ports, and what it asks for, field by field; what is read
      from an API that answers.
    - Reconciling: a plan is run in order up to the first stop; success means
      that the last look showed the desired structure; a settled load
      balancer is left alone.
    - Handlers: success of creation and deletion, validation before any
      change, existence, an empty selection of nodes.
    - Concurrency: mutual exclusion per service; whatever the interleaving and
      whatever fails, a call of a handler is confined to the load balancers of
      its service, its name and its addresses, and a handler meets its load
      balancers as it left them; the handlers never deadlock; each comes to its
      return unless it is left waiting forever; all come to an end together,
      and then the account holds what every service asks for ([in_place]).
    - Nodes: the mapping to servers, a node is reported gone only on a 404,
      metadata and provider IDs.
    - Annotations: defaults, integers and lists; the patch that is sent.
    - Processes: how the controller manager starts and with which status it
      ends; what http-echo answers to a connection.
    - Test tools: the invariant of the mock server, its refinement of a finite
      map of paths, and what is read from the greeting of nginx.
    - Deviations: [lookup_errors_create_lb], [null_http_annotation_panics],
      [host_updated_despite_equal_hosts], [Join_drops_errors],
      [apiTimeout_correct], [main_correct] (options that could not be made
      are dereferenced; the provider's name is only the default of a flag, so
      nothing is assumed of the name the command runs with), [On_while_running] (a handler registered on a running
      server takes effect).

    ** What is not modelled

    The log of the handlers and of the reconciler; of the HTTP client all but
    the token, the timeout and the user agent; the parsing of the flags of
    http-echo; patterns of a mux with hosts or wildcards, percent-encoded
    paths, and requests that net/http refuses before it calls a handler; the
    line the mock server prints about a request it does not know.

    ** Plan

    Every component is modelled.  What could follow: the update requests of
    [Actions] field by field, against the JSON the SDK makes of them, once the
    SDK's declarations are at hand. *)


From Stdlib Require Export ZArith Ascii String.
From stdpp Require Export base tactics list gmap fin_maps sets strings.

#[global] Set Default Goal Selector "!".

(** ** Errors

    The values of Go's [error] interface the program builds or receives.
    [errors.New], and [fmt.Errorf] without a [%w] verb, give [ErrorString];
    [fmt.Errorf] whose format ends in [%w] gives [WrapError] of the text in
    front of it.  A [StdError] comes from the standard library and carries the
    package and the kind of failure, not the exact text.  An [ErrorResponse]
    is the SDK's [*cloudscale.ErrorResponse], the only error type the program
    inspects with [errors.As]; every other error value made outside the
    repository is a [ForeignError]. *)

Inductive error : Type :=
| ErrorString (msg : string)
| WrapError (msg : string) (cause : error)
| StdError (package kind : string)
| ErrorResponse (StatusCode : Z) (msg : string)
| ForeignError (msg : string).

#[global] Instance error_eq_dec : EqDecision error.
Proof. solve_decision. Defined.

(** [errors.As(err, &response)] for a [*cloudscale.ErrorResponse] target: the
    first match along the chain of wrapped errors. *)
Fixpoint errors_As (e : error) : option Z :=
  match e with
  | ErrorResponse code _ => Some code
  | WrapError _ cause => errors_As cause
  | ErrorString _ | StdError _ _ | ForeignError _ => None
  end.

(** ** Results

    A Go function that returns [(T, error)] gives [Ok] of its value or [Err]
    of its error.  [Panic] is a run-time panic (a nil pointer dereference or
    an explicit [panic]). *)

Inductive result (A : Type) : Type :=
| Ok (a : A)
| Err (e : error)
| Panic (msg : string).
Arguments Ok {A} a.
Arguments Err {A} e.
Arguments Panic {A} msg.

#[global] Instance result_eq_dec `{EqDecision A} : EqDecision (result A).
Proof. solve_decision. Defined.

#[global] Instance result_ret : MRet result := λ A, Ok.
#[global] Instance result_bind : MBind result := λ A B f r,
  match r with Ok a => f a | Err e => Err e | Panic msg => Panic msg end.
#[global] Instance result_fmap : FMap result := λ A B f r,
  match r with Ok a => Ok (f a) | Err e => Err e | Panic msg => Panic msg end.

Definition is_Ok {A} (r : result A) : Prop := ∃ a, r = Ok a.

(** [if err != nil { return nil, fmt.Errorf("msg: %w", err) }] *)
Definition wrap_err {A} (f : error → error) (r : result A) : result A :=
  match r with Ok a => Ok a | Err e => Err (f e) | Panic msg => Panic msg end.

Definition result_of_option {A} (e : error) (o : option A) : result A :=
  match o with Some a => Ok a | None => Err e end.

Lemma bind_Ok {A B} (r : result A) (f : A → result B) b :
  r ≫= f = Ok b ↔ ∃ a, r = Ok a ∧ f a = Ok b.
Proof. destruct r; simpl; naive_solver. Qed.

Lemma Ok_bind {A B} (a : A) (f : A → result B) : Ok a ≫= f = f a.
Proof. done. Qed.

Lemma fmap_Ok {A B} (r : result A) (f : A → B) b :
  f <$> r = Ok b ↔ ∃ a, r = Ok a ∧ f a = b.
Proof. destruct r; simpl; naive_solver. Qed.

Lemma wrap_err_Ok {A} f (r : result A) a : wrap_err f r = Ok a ↔ r = Ok a.
Proof. destruct r; simpl; naive_solver. Qed.

(** Loops over a slice whose body can return early with an error. *)
Fixpoint mapR {A B} (f : A → result B) (l : list A) : result (list B) :=
  match l with
  | [] => Ok []
  | x :: l' => y ← f x; ys ← mapR f l'; Ok (y :: ys)
  end.

Fixpoint foldR {A S} (f : S → A → result S) (s : S) (l : list A) : result S :=
  match l with
  | [] => Ok s
  | x :: l' => s' ← f s x; foldR f s' l'
  end.

(** ** Lists *)

Section lists.
Context {A B : Type}.
Implicit Types (l : list A).

Lemma flat_map_nil (f : A → list B) l :
  flat_map f l = [] ↔ ∀ x, x ∈ l → f x = [].
Proof.
  induction l as [|x l IH]; simpl; [set_solver|].
  rewrite app_nil, IH. set_solver.
Qed.

Lemma elem_of_flat_map (f : A → list B) l y :
  y ∈ flat_map f l ↔ ∃ x, x ∈ l ∧ y ∈ f x.
Proof.
  induction l as [|x l IH]; simpl; [set_solver|].
  rewrite elem_of_app, IH. set_solver.
Qed.

(** Items with distinct keys are identified by them. *)
Lemma NoDup_key_inj (f : A → B) l x y :
  NoDup (f <$> l) → x ∈ l → y ∈ l → f x = f y → x = y.
Proof.
  induction l as [|a l IH]; [by intros _ ?%not_elem_of_nil|].
  csimpl. rewrite NoDup_cons, !elem_of_cons. intros [Ha Hnd] [->|Hx] [->|Hy] Hf; auto.
  - destruct Ha. rewrite Hf. by apply list_elem_of_fmap_2.
  - destruct Ha. rewrite <- Hf. by apply list_elem_of_fmap_2.
Qed.

Lemma filter_id (P : A → Prop) `{∀ a, Decision (P a)} l :
  (∀ a, a ∈ l → P a) → filter P l = l.
Proof.
  induction l as [|a l IH]; intros Hl; [done|].
  rewrite filter_cons, decide_True by (apply Hl; by left).
  f_equal. apply IH. intros b ?. apply Hl. by right.
Qed.
End lists.

(** ** Iterating over a Go map

    [for k, v := range m] visits every entry exactly once, in an unspecified
    order.  A [MapOrder] is one behaviour of the Go runtime: the order in
    which each dynamic occurrence of such a loop, told apart by its [site],
    visits the keys.  Theorems are stated for every [MapOrder]. *)

Definition site := list nat.

Class MapOrder := {
  order_keys : site → list string → list string;
  order_keys_perm s ks : order_keys s ks ≡ₚ ks }.

(** The order in which [map_to_list] lists the entries, used in examples. *)
Program Definition default_order : MapOrder := {| order_keys _ ks := ks |}.
Next Obligation. done. Qed.

(** A second behaviour: the reverse of the first. *)
Program Definition reverse_order : MapOrder := {| order_keys _ ks := reverse ks |}.
Next Obligation. intros. apply reverse_Permutation. Qed.

Definition range `{MapOrder} {A} (s : site) (m : gmap string A)
    : list (string * A) :=
  omap (λ k, (k,.) <$> m !! k) (order_keys s (map_to_list m).*1).

Lemma range_perm `{MapOrder} {A} s (m : gmap string A) :
  range s m ≡ₚ map_to_list m.
Proof.
  unfold range. rewrite order_keys_perm.
  assert (∀ k x, (k, x) ∈ map_to_list m → m !! k = Some x) as Hin.
  { intros k x ?. by apply elem_of_map_to_list. }
  induction (map_to_list m) as [|[k x] l IH]; simpl; [done|].
  rewrite (Hin k x) by set_solver. simpl. rewrite IH; [done|set_solver].
Qed.

Lemma elem_of_range `{MapOrder} {A} s (m : gmap string A) k x :
  (k, x) ∈ range s m ↔ m !! k = Some x.
Proof. rewrite range_perm. apply elem_of_map_to_list. Qed.

(** ** Automation

    The database [ccm] collects the facts that close side conditions: which
    bytes a text is free of, which texts are ASCII, which states are well
    formed.  The files that prove such a fact add it. *)

Create HintDb ccm discriminated.
#[export] Hint Constants Opaque : ccm.

(** Decide a closed proposition by evaluation. *)
Ltac by_decide := apply (bool_decide_unpack _); vm_compute; exact I.
