(* ===== verification/GoStrings.v ===== *)
(** * GoStrings

    The operations of Go's [strings], [strconv] and [fmt] packages that the
    program uses, on byte strings ([String.string], one [ascii] per byte), and
    64-bit integer wrap-around.  Two behaviours stay parameters, in the class
    [GoExt]: Unicode case mapping outside ASCII, and [fmt.Sprintf] for a format
    that contains a percent sign (the program passes names it received from
    outside as formats; every name it generates itself has none). *)

From stdpp Require Import base tactics list strings pretty.
From Stdlib Require Import ZArith HexadecimalString.
From S2P Require Import Prelude.

(** ** Machine integers: Go's [int], [int64] and [time.Duration] *)

Definition maxInt64 : Z := 2 ^ 63 - 1.
Definition minInt64 : Z := - 2 ^ 63.

(** Two's complement wrap-around to 64 bits. *)
Definition wrap64 (z : Z) : Z := ((z + 2 ^ 63) mod 2 ^ 64 - 2 ^ 63)%Z.

Lemma wrap64_id z : (minInt64 ≤ z ≤ maxInt64)%Z → wrap64 z = z.
Proof.
  unfold wrap64, minInt64, maxInt64. intros.
  rewrite Z.mod_small by lia. lia.
Qed.

(** ** Package [strings] *)

(** [strings.Cut]: the text around the first occurrence of [sep]. *)
Fixpoint drop_prefix (p s : string) : option string :=
  match p, s with
  | EmptyString, _ => Some s
  | String a p', String b s' => if Ascii.eqb a b then drop_prefix p' s' else None
  | String _ _, EmptyString => None
  end.

Fixpoint Cut (s sep : string) : option (string * string) :=
  match drop_prefix sep s with
  | Some rest => Some ("", rest)
  | None =>
      match s with
      | EmptyString => None
      | String c s' => '(before, after) ← Cut s' sep; Some (String c before, after)
      end
  end.

Definition Contains (s substr : string) : bool :=
  match Cut s substr with Some _ => true | None => false end.

(** [strings.SplitN(s, sep, 2)] *)
Definition SplitN2 (s sep : string) : list string :=
  match Cut s sep with Some (a, b) => [a; b] | None => [s] end.

(** [strings.TrimLeft], [TrimRight] and [Trim] for a cutset of ASCII bytes. *)
Fixpoint TrimLeft (p : ascii → bool) (s : string) : string :=
  match s with
  | String c s' => if p c then TrimLeft p s' else s
  | EmptyString => ""
  end.

Fixpoint TrimRight (p : ascii → bool) (s : string) : string :=
  match s with
  | String c s' =>
      match TrimRight p s' with
      | EmptyString => if p c then "" else String c ""
      | r => String c r
      end
  | EmptyString => ""
  end.

Definition Trim (p : ascii → bool) (s : string) : string :=
  TrimRight p (TrimLeft p s).

Definition is_space (c : ascii) : bool := Ascii.eqb c " ".
Definition is_digit (c : ascii) : bool :=
  let n := nat_of_ascii c in (48 <=? n)%nat && (n <=? 57)%nat.

(** [strings.ReplaceAll] for an [old] of one byte. *)
Fixpoint ReplaceAll (s : string) (old : ascii) (new : string) : string :=
  match s with
  | EmptyString => ""
  | String c s' =>
      if Ascii.eqb c old then new +:+ ReplaceAll s' old new
      else String c (ReplaceAll s' old new)
  end.

Fixpoint Repeat (s : string) (n : nat) : string :=
  match n with O => "" | S n' => s +:+ Repeat s n' end.

Fixpoint Join (elems : list string) (sep : string) : string :=
  match elems with
  | [] => ""
  | [s] => s
  | s :: elems' => s +:+ sep +:+ Join elems' sep
  end.

(** [strings.ToLower] *)
Definition lower_ascii (c : ascii) : ascii :=
  let n := nat_of_ascii c in
  if ((65 <=? n) && (n <=? 90))%nat then ascii_of_nat (n + 32) else c.

Fixpoint map_string (f : ascii → ascii) (s : string) : string :=
  match s with String c s' => String (f c) (map_string f s') | EmptyString => "" end.

Fixpoint all_bytes (p : ascii → bool) (s : string) : bool :=
  match s with String c s' => p c && all_bytes p s' | EmptyString => true end.

Definition is_ascii (s : string) : bool :=
  all_bytes (λ c, nat_of_ascii c <? 128)%nat s.

(** The arguments of a [fmt.Sprintf] call whose format is data: booleans,
    integers, strings, and structs given by their type name and [%v] text. *)
Inductive arg : Type :=
| ArgBool (b : bool)
| ArgInt (z : Z)
| ArgString (s : string)
| ArgStruct (type_name text : string).

Class GoExt := {
  ToLower_unicode : string → string;
  Sprintf_percent : string → list arg → string }.

Definition ToLower `{GoExt} (s : string) : string :=
  if is_ascii s then map_string lower_ascii s else ToLower_unicode s.

(** ** Package [strconv] *)

Definition Itoa (z : Z) : string := pretty z.

(** The digits of [strconv.ParseUint(s, 10, 64)]: the bytes are read left to
    right, and both a bad byte and an overflow end the scan. *)
Inductive parse_uint : Type :=
| PU_ok (n : Z)
| PU_syntax
| PU_range.

Definition maxUint64 : Z := 2 ^ 64 - 1.

Fixpoint ParseUint_loop (s : string) (n : Z) : parse_uint :=
  match s with
  | EmptyString => PU_ok n
  | String c s' =>
      if is_digit c then
        let n' := (10 * n + Z.of_nat (nat_of_ascii c - 48))%Z in
        if (maxUint64 <? n')%Z then PU_range else ParseUint_loop s' n'
      else PU_syntax
  end.

Definition err_syntax : error := StdError "strconv" "invalid syntax".
Definition err_range : error := StdError "strconv" "value out of range".

(** [strconv.Atoi].  Like the Go function it returns a value next to the
    error: on overflow the value is the nearest [int]. *)
Definition ParseInt_sign (neg : bool) (digits : string) : Z * option error :=
  match digits with
  | EmptyString => (0%Z, Some err_syntax)
  | _ =>
      match ParseUint_loop digits 0 with
      | PU_syntax => (0%Z, Some err_syntax)
      | PU_range => ((if neg then minInt64 else maxInt64), Some err_range)
      | PU_ok n =>
          if neg then
            if (2 ^ 63 <? n)%Z then (minInt64, Some err_range) else ((- n)%Z, None)
          else if (maxInt64 <? n)%Z then (maxInt64, Some err_range) else (n, None)
      end
  end.

Definition Atoi (s : string) : Z * option error :=
  match s with
  | String "-" s' => ParseInt_sign true s'
  | String "+" s' => ParseInt_sign false s'
  | _ => ParseInt_sign false s
  end.

(** ** Package [time] *)

(** [fmtFrac]: the fraction of [u] over [10 ^ prec], without trailing zeros and
    without a lone point. *)
Definition fmtFrac (u : Z) (prec : nat) : string :=
  let digits := Itoa (u mod 10 ^ Z.of_nat prec) in
  let padded := Repeat "0" (prec - String.length digits) +:+ digits in
  match TrimRight (λ c, Ascii.eqb c "0") padded with
  | EmptyString => ""
  | frac => "." +:+ frac
  end.

(** [time.Duration.String], for a number of nanoseconds. *)
Definition Duration_String (d : Z) : string :=
  let u := Z.abs d in
  let sub_second (prec : nat) (unit_ : string) :=
    Itoa (u / 10 ^ Z.of_nat prec) +:+ (if decide (prec = 0)%nat then "" else fmtFrac u prec)
      +:+ unit_ in
  let text :=
    if decide (u = 0)%Z then "0s"
    else if decide (u < 1000)%Z then sub_second 0%nat "ns"
    else if decide (u < 1000000)%Z then sub_second 3%nat "µs"
    else if decide (u < 1000000000)%Z then sub_second 6%nat "ms"
    else
      let secs := (u / 1000000000)%Z in
      let mins := (secs / 60)%Z in
      let hours := (mins / 60)%Z in
      (if decide (0 < hours)%Z then Itoa hours +:+ "h" else "") +:+
      (if decide (0 < mins)%Z then Itoa (mins mod 60) +:+ "m" else "") +:+
      Itoa (secs mod 60) +:+ fmtFrac u 9 +:+ "s" in
  (if decide (d < 0)%Z then "-" else "") +:+ text.

(** ** Package [fmt] *)

(** [%v] of a pointer that is not nil. *)
Definition pointer_text (p : positive) : string :=
  "0x" +:+ NilEmpty.string_of_uint (Pos.to_hex_uint p).

(** [%s] of a [[]string]. *)
Definition strings_text (l : list string) : string := "[" +:+ Join l " " +:+ "]".

Definition arg_text (a : arg) : string :=
  match a with
  | ArgBool b => "bool=" +:+ (if b then "true" else "false")
  | ArgInt z => "int=" +:+ Itoa z
  | ArgString s => "string=" +:+ s
  | ArgStruct ty v => ty +:+ "=" +:+ v
  end.

Definition is_percent (c : ascii) : bool := Ascii.eqb c "%".
Definition no_percent (s : string) : bool := all_bytes (λ c, negb (is_percent c)) s.

(** [fmt.Sprintf(format, args...)] where the format is a run-time value.  A
    format without verbs is copied and the unused arguments are reported. *)
Definition Sprintf `{GoExt} (format : string) (args : list arg) : string :=
  if no_percent format then
    match args with
    | [] => format
    | _ => format +:+ "%!(EXTRA " +:+ Join (arg_text <$> args) ", " +:+ ")"
    end
  else Sprintf_percent format args.

(** [fmt.Sprint] of string operands: no spaces are added between strings. *)
Definition Sprint_strings (args : list string) : string := Join args "".

(** Concrete instance for examples: case mapping that leaves other scripts
    alone, and a format with verbs printed as it is. *)
Definition example_GoExt : GoExt :=
  {| ToLower_unicode s := s; Sprintf_percent f _ := f |}.

(** ** Facts: bytes and separators *)

Lemma append_cons c s1 s2 : String c s1 +:+ s2 = String c (s1 +:+ s2).
Proof. done. Qed.

Lemma append_nil s : "" +:+ s = s.
Proof. done. Qed.

Lemma append_inj_l s s1 s2 : s +:+ s1 = s +:+ s2 → s1 = s2.
Proof. induction s as [|c s IH]; [done|]. rewrite !append_cons. intros [= ?]. auto. Qed.

Lemma all_bytes_app p s1 s2 : all_bytes p (s1 +:+ s2) = all_bytes p s1 && all_bytes p s2.
Proof.
  induction s1 as [|c s1 IH]; [done|].
  rewrite append_cons. simpl. by rewrite IH, andb_assoc.
Qed.

Lemma all_bytes_impl (p q : ascii → bool) s :
  (∀ c, p c = true → q c = true) → all_bytes p s = true → all_bytes q s = true.
Proof.
  intros Hpq. induction s as [|c s IH]; simpl; [done|].
  rewrite !andb_true_iff. intros [??]. auto.
Qed.

(** No byte of the string is [c]. *)
Definition without (c : ascii) (s : string) : bool := all_bytes (λ d, negb (Ascii.eqb d c)) s.

Lemma without_app c s1 s2 : without c (s1 +:+ s2) = without c s1 && without c s2.
Proof. apply all_bytes_app. Qed.

Lemma without_cons c a s : without c (String a s) = negb (Ascii.eqb a c) && without c s.
Proof. done. Qed.

Lemma without_sep c s1 s2 : without c (s1 +:+ String c s2) = false.
Proof. by rewrite without_app, without_cons, Ascii.eqb_refl, andb_false_r. Qed.

(** The text in front of the first separator is determined. *)
Lemma first_sep_inj c s1 s2 r1 r2 :
  without c s1 = true → without c s2 = true →
  s1 +:+ String c r1 = s2 +:+ String c r2 → s1 = s2 ∧ r1 = r2.
Proof.
  revert s2. induction s1 as [|a s1 IH]; intros [|b s2];
    rewrite ?append_cons, ?append_nil, ?without_cons; intros H1 H2 Heq; simplify_eq; [done|..].
  - by rewrite Ascii.eqb_refl in H2.
  - by rewrite Ascii.eqb_refl in H1.
  - apply andb_true_iff in H1 as [_ H1], H2 as [_ H2].
    by destruct (IH s2 H1 H2) as [-> ->].
Qed.

(** The text behind the last separator is determined. *)
Lemma last_sep_inj c s1 s2 r1 r2 :
  without c r1 = true → without c r2 = true →
  s1 +:+ String c r1 = s2 +:+ String c r2 → s1 = s2 ∧ r1 = r2.
Proof.
  intros H1 H2. revert s2. induction s1 as [|a s1 IH]; intros [|b s2];
    rewrite ?append_cons, ?append_nil; intros Heq; simplify_eq; [done|..].
  - by rewrite without_sep in H1.
  - by rewrite without_sep in H2.
  - by destruct (IH s2) as [-> ->].
Qed.

(** ** Facts: decimal numbers *)

Lemma pretty_N_char_digit d :
  (d < 10)%N →
  is_digit (pretty_N_char d) = true ∧
  Z.of_nat (nat_of_ascii (pretty_N_char d) - 48) = Z.of_N d.
Proof.
  intros. assert (d = 0 ∨ d = 1 ∨ d = 2 ∨ d = 3 ∨ d = 4 ∨ d = 5 ∨ d = 6 ∨ d = 7 ∨
    d = 8 ∨ d = 9)%N as Hd by lia. by repeat destruct Hd as [->|Hd]; subst.
Qed.

Lemma pretty_N_go_ind (P : string → Prop) x s :
  (∀ d s, (d < 10)%N → P s → P (String (pretty_N_char d) s)) →
  P s → P (pretty_N_go x s).
Proof.
  intros HP. revert s. induction (N.lt_wf_0 x) as [x _ IH]; intros s Hs.
  assert (x = 0 ∨ 0 < x)%N as [->|?] by lia; [by rewrite pretty_N_go_0|].
  rewrite pretty_N_go_step by done. apply IH; [by apply N.div_lt|].
  apply HP; [by apply N.mod_lt|done].
Qed.

Lemma ParseUint_pretty_N_go x s :
  (Z.of_N x ≤ maxUint64)%Z →
  ParseUint_loop (pretty_N_go x s) 0 = ParseUint_loop s (Z.of_N x).
Proof.
  revert s. induction (N.lt_wf_0 x) as [x _ IH]; intros s Hx.
  assert (x = 0 ∨ 0 < x)%N as [->|?] by lia; [by rewrite pretty_N_go_0|].
  pose proof (N.div_lt x 10 ltac:(done) ltac:(done)).
  rewrite pretty_N_go_step, IH by lia. simpl.
  destruct (pretty_N_char_digit (x `mod` 10)) as [-> ->]; [by apply N.mod_lt|].
  pose proof (N.div_mod x 10 ltac:(done)).
  replace (10 * Z.of_N (x `div` 10) + Z.of_N (x `mod` 10))%Z with (Z.of_N x) by lia.
  by destruct (Z.ltb_spec maxUint64 (Z.of_N x)); [lia|].
Qed.

Lemma pretty_N_digits (x : N) : all_bytes is_digit (pretty x) = true ∧ pretty x ≠ "".
Proof.
  unfold pretty, pretty_N. case_decide; [done|].
  assert (0 < x)%N by lia. split.
  - apply pretty_N_go_ind; [|done]. intros d s Hd Hs. simpl.
    by destruct (pretty_N_char_digit d) as [-> _].
  - rewrite pretty_N_go_step by done. by apply pretty_N_go_ind.
Qed.

Lemma ParseUint_pretty (x : N) :
  (Z.of_N x ≤ maxUint64)%Z → ParseUint_loop (pretty x) 0 = PU_ok (Z.of_N x).
Proof.
  intros. unfold pretty, pretty_N. case_decide; [by subst|].
  by rewrite ParseUint_pretty_N_go.
Qed.

Lemma Itoa_cases z :
  (0 ≤ z)%Z ∧ Itoa z = pretty (Z.to_N z) ∨
  (z < 0)%Z ∧ Itoa z = String "-" (pretty (Z.to_N (- z))).
Proof. destruct z as [|p|p]; [left|left|right]; done. Qed.

Lemma ParseInt_sign_digits neg s n :
  s ≠ "" → ParseUint_loop s 0 = PU_ok n →
  ParseInt_sign neg s =
  if neg then if (2 ^ 63 <? n)%Z then (minInt64, Some err_range) else ((- n)%Z, None)
  else if (maxInt64 <? n)%Z then (maxInt64, Some err_range) else (n, None).
Proof. intros Hs Hn. unfold ParseInt_sign. rewrite Hn. by destruct s. Qed.

Lemma Atoi_digits s :
  all_bytes is_digit s = true → Atoi s = ParseInt_sign false s.
Proof.
  destruct s as [|c s]; [done|]. simpl. rewrite andb_true_iff. intros [Hc _].
  by destruct c as [[] [] [] [] [] [] [] []].
Qed.

(** Printing and reading back a 64-bit integer. *)
Lemma Atoi_Itoa z : (minInt64 ≤ z ≤ maxInt64)%Z → Atoi (Itoa z) = (z, None).
Proof.
  unfold minInt64, maxInt64. intros Hz.
  destruct (Itoa_cases z) as [[Hs ->]|[Hs ->]].
  - destruct (pretty_N_digits (Z.to_N z)) as [Hd Hne].
    rewrite Atoi_digits by done.
    rewrite (ParseInt_sign_digits _ _ z); [|done|].
    + unfold maxInt64. by destruct (Z.ltb_spec (2 ^ 63 - 1) z); [lia|].
    + rewrite ParseUint_pretty; unfold maxUint64; [f_equal|]; lia.
  - destruct (pretty_N_digits (Z.to_N (- z))) as [Hd Hne]. simpl.
    rewrite (ParseInt_sign_digits _ _ (- z)); [|done|].
    + destruct (Z.ltb_spec (2 ^ 63) (- z)); [lia|]. f_equal. lia.
    + rewrite ParseUint_pretty; unfold maxUint64; [f_equal|]; lia.
Qed.

Lemma ParseUint_loop_range s n m :
  (0 ≤ n)%Z → ParseUint_loop s n = PU_ok m → (0 ≤ m)%Z.
Proof.
  revert n. induction s as [|c s IH]; simpl; intros n Hn; [by intros [= <-]|].
  destruct (is_digit c); [|done]. destruct (_ <? _)%Z; [done|].
  apply IH. lia.
Qed.

(** Every value [Atoi] returns, with or without an error, is an [int]. *)
Lemma Atoi_range s : (minInt64 ≤ (Atoi s).1 ≤ maxInt64)%Z.
Proof.
  assert (∀ neg d, minInt64 ≤ (ParseInt_sign neg d).1 ≤ maxInt64)%Z as Hr.
  { intros neg d. unfold ParseInt_sign, minInt64, maxInt64.
    destruct d as [|c d]; [simpl; lia|].
    destruct (ParseUint_loop (String c d) 0) as [n| |] eqn:Hn;
      [|simpl; lia|destruct neg; simpl; lia].
    apply ParseUint_loop_range in Hn; [|done].
    destruct neg.
    - destruct (Z.ltb_spec (2 ^ 63) n); simpl; lia.
    - destruct (Z.ltb_spec (2 ^ 63 - 1) n); simpl; lia. }
  unfold Atoi. repeat case_match; apply Hr.
Qed.

Lemma digit_without c s :
  is_digit c = false → all_bytes is_digit s = true → without c s = true.
Proof.
  intros Hc. apply all_bytes_impl. intros d Hd.
  destruct (Ascii.eqb_spec d c) as [->|]; [congruence|done].
Qed.

Lemma Itoa_without c z : is_digit c = false → c ≠ "-"%char → without c (Itoa z) = true.
Proof.
  intros Hc Hdash. destruct (Itoa_cases z) as [[_ ->]|[_ ->]].
  - apply digit_without; [done|apply pretty_N_digits].
  - rewrite without_cons. destruct (Ascii.eqb_spec "-" c); [congruence|].
    apply digit_without; [done|apply pretty_N_digits].
Qed.

Lemma Itoa_inj z1 z2 : Itoa z1 = Itoa z2 → z1 = z2.
Proof. apply (inj pretty). Qed.

(** ** Facts: cutting and trimming *)

Lemma drop_prefix_app p s : drop_prefix p (p +:+ s) = Some s.
Proof.
  induction p as [|c p IH]; [by destruct s|].
  rewrite append_cons. simpl. by rewrite Ascii.eqb_refl.
Qed.

Lemma drop_prefix_Some p s r : drop_prefix p s = Some r → s = p +:+ r.
Proof.
  revert s. induction p as [|a p IH]; intros s; simpl; [by intros [= ->]|].
  destruct s as [|b s]; [done|]. destruct (Ascii.eqb a b) eqn:He; [|done].
  apply Ascii.eqb_eq in He as ->. by intros ->%IH.
Qed.

(** [Cut] finds the first separator. *)
Lemma Cut_Some s sep a b : Cut s sep = Some (a, b) → s = a +:+ sep +:+ b.
Proof.
  revert a. induction s as [|c s IH]; intros a; simpl.
  - destruct (drop_prefix sep "") as [r|] eqn:Hd; [|done]. intros [= <- <-].
    by apply drop_prefix_Some in Hd.
  - destruct (drop_prefix sep (String c s)) as [r|] eqn:Hd.
    + intros [= <- <-]. by apply drop_prefix_Some in Hd.
    + destruct (Cut s sep) as [[a' b']|] eqn:Hc; [|done]. intros [= <- <-].
      rewrite append_cons. f_equal. by apply IH.
Qed.

Lemma TrimLeft_bytes p q s :
  (∀ c, q c = true → p c = false) → all_bytes q s = true → TrimLeft p s = s.
Proof.
  intros Hpq. destruct s as [|c s]; [done|]. simpl. rewrite andb_true_iff.
  intros [Hc _]. by rewrite Hpq.
Qed.

Lemma TrimRight_bytes p q s :
  (∀ c, q c = true → p c = false) → all_bytes q s = true → TrimRight p s = s.
Proof.
  intros Hpq. induction s as [|c s IH]; [done|]. simpl. rewrite andb_true_iff.
  intros [Hc Hs]. rewrite IH by done. destruct s; [by rewrite Hpq|done].
Qed.

(** Text without spaces is not trimmed. *)
Lemma Trim_bytes q s :
  (∀ c, q c = true → is_space c = false) → all_bytes q s = true → Trim is_space s = s.
Proof.
  intros Hq Hs. unfold Trim. by rewrite (TrimLeft_bytes _ q), (TrimRight_bytes _ q).
Qed.

(** ** Facts: numbers with a suffix *)

Lemma ParseUint_loop_plus s n : ∀ m, ParseUint_loop (s +:+ "+") n ≠ PU_ok m.
Proof.
  revert n. induction s as [|c s IH]; intros n m; [by rewrite append_nil|].
  rewrite append_cons. simpl. repeat case_match; (done || apply IH).
Qed.

Lemma ParseInt_sign_plus neg s : ∃ v e, ParseInt_sign neg (s +:+ "+") = (v, Some e).
Proof.
  unfold ParseInt_sign. pose proof (ParseUint_loop_plus s 0) as Hp.
  destruct (s +:+ "+"); [by eexists _, _|].
  destruct (ParseUint_loop _ _) as [n| |]; [by destruct (Hp n)|by eexists _, _..].
Qed.

Lemma Atoi_plus s : ∃ v e, Atoi (s +:+ "+") = (v, Some e).
Proof.
  destruct s as [|c s]; [by eexists _, _|].
  assert (Atoi (String c s +:+ "+") = ParseInt_sign true (s +:+ "+") ∨
    Atoi (String c s +:+ "+") = ParseInt_sign false (s +:+ "+") ∨
    Atoi (String c s +:+ "+") = ParseInt_sign false (String c s +:+ "+")) as Hc.
  { rewrite append_cons. simpl. destruct c as [[] [] [] [] [] [] [] []]; auto. }
  destruct Hc as [-> | [-> | ->]]; apply ParseInt_sign_plus.
Qed.

(** ** Facts: lengths and lists of bytes *)

Lemma length_string_app s1 s2 :
  String.length (s1 +:+ s2) = (String.length s1 + String.length s2)%nat.
Proof. induction s1 as [|c s1 IH]; [done|]. rewrite append_cons. simpl. by rewrite IH. Qed.

Lemma length_list_ascii_of_string s : length (list_ascii_of_string s) = String.length s.
Proof. induction s as [|c s IH]; [done|]. simpl. by rewrite IH. Qed.

Lemma length_string_of_list_ascii l : String.length (string_of_list_ascii l) = length l.
Proof. induction l as [|c l IH]; [done|]. simpl. by rewrite IH. Qed.

Lemma string_of_list_ascii_app l1 l2 :
  string_of_list_ascii (l1 ++ l2) = string_of_list_ascii l1 +:+ string_of_list_ascii l2.
Proof. induction l1 as [|c l1 IH]; [done|]. simpl. by rewrite append_cons, IH. Qed.
