(* ===== verification/Compare.v ===== *)
(** * Compare

    Package [compare] (src/pkg/internal/compare/compare.go): [Diff] finds the
    items to delete and to create by comparing the string keys of a desired
    and an actual list, [Match] pairs the items with equal keys.  Both index
    their arguments in a Go map, so a later duplicate of a key replaces an
    earlier one, and [Diff] returns its items in an unspecified order. *)

From stdpp Require Import base tactics list gmap strings.
From S2P Require Import Prelude.

Section Compare.
Context {T : Type}.
Implicit Types (key : T → string) (l desired actual : list T).

(** [for _, i := range l { m[key(i)] = i }] *)
Definition index_by key l : gmap string T :=
  fold_left (λ m i, <[key i := i]> m) l ∅.

(** The items of [range m] whose key is not in [other]. *)
Definition missing_from (other : gmap string T) (entries : list (string * T))
    : list T :=
  omap (λ '(k, i), match other !! k with Some _ => None | None => Some i end)
    entries.

Definition Diff `{MapOrder} (s : site) desired actual key : list T * list T :=
  let d := index_by key desired in
  let a := index_by key actual in
  let toCreate := missing_from a (range (0%nat :: s) d) in
  let toDelete := missing_from d (range (1%nat :: s) a) in
  (toDelete, toCreate).

Definition Match (xs ys : list T) key : list (T * T) :=
  let keys := index_by key ys in
  omap (λ x, v ← keys !! key x; Some (x, v)) xs.

(** ** The index *)

(** The item an index holds for a key: the last one of the list. *)
Definition last_with key l (k : string) : option T :=
  last (filter (λ i, key i = k) l).

Lemma index_by_snoc key l i :
  index_by key (l ++ [i]) = <[key i := i]> (index_by key l).
Proof. unfold index_by. by rewrite fold_left_app. Qed.

Lemma index_by_lookup key l k : index_by key l !! k = last_with key l k.
Proof.
  unfold last_with. induction l as [|i l IH] using rev_ind; [done|].
  rewrite index_by_snoc, filter_app, filter_cons, filter_nil.
  destruct (decide (key i = k)) as [<-|Hk].
  - by rewrite lookup_insert_eq, last_snoc.
  - by rewrite lookup_insert_ne, app_nil_r by done.
Qed.

Lemma last_with_Some key l k i :
  last_with key l k = Some i → key i = k ∧ i ∈ l.
Proof.
  intros Hi%last_Some_elem_of. by apply list_elem_of_filter in Hi.
Qed.

Lemma last_with_None key l k : last_with key l k = None ↔ k ∉ key <$> l.
Proof.
  unfold last_with. rewrite last_None, list_elem_of_fmap. split.
  - intros Hf (i & -> & Hi).
    assert (i ∈ filter (λ j, key j = key i) l) as Hi'
      by (by apply list_elem_of_filter).
    rewrite Hf in Hi'. by apply not_elem_of_nil in Hi'.
  - intros Hk. destruct (filter _ l) as [|i f] eqn:Hf; [done|].
    assert (i ∈ filter (λ j, key j = k) l) as [<- ?]%list_elem_of_filter
      by (rewrite Hf; constructor).
    destruct Hk. by exists i.
Qed.

Lemma last_with_is_Some key l k : is_Some (last_with key l k) ↔ k ∈ key <$> l.
Proof.
  rewrite <- not_eq_None_Some, last_with_None.
  destruct (decide (k ∈ key <$> l)); tauto.
Qed.

(** ** Diff *)

Lemma elem_of_missing_from other entries i :
  i ∈ missing_from other entries ↔
  ∃ k, (k, i) ∈ entries ∧ other !! k = None.
Proof.
  unfold missing_from. rewrite list_elem_of_omap. split.
  - intros ([k j] & Hin & Hj). exists k.
    destruct (other !! k); naive_solver.
  - intros (k & Hin & Hk). exists (k, i). by rewrite Hk.
Qed.

Lemma elem_of_missing_range `{MapOrder} key l l' s i :
  i ∈ missing_from (index_by key l') (range s (index_by key l)) ↔
  last_with key l (key i) = Some i ∧ key i ∉ key <$> l'.
Proof.
  rewrite elem_of_missing_from. setoid_rewrite elem_of_range.
  setoid_rewrite index_by_lookup. setoid_rewrite last_with_None. split.
  - intros (k & Hi & Hk). by destruct (last_with_Some _ _ _ _ Hi) as [<- _].
  - intros [Hi Hk]. by exists (key i).
Qed.

Lemma NoDup_keys_missing_range `{MapOrder} key l other s :
  NoDup (key <$> missing_from other (range s (index_by key l))).
Proof.
  assert (NoDup (range s (index_by key l)).*1) as Hnd.
  { rewrite range_perm. apply NoDup_fst_map_to_list. }
  assert (∀ k i, (k, i) ∈ range s (index_by key l) → key i = k) as Hkey.
  { intros k i Hki%elem_of_range. rewrite index_by_lookup in Hki.
    by apply last_with_Some in Hki as [? _]. }
  revert Hnd Hkey. induction (range s (index_by key l)) as [|[k i] es IH];
    intros Hnd Hkey; simpl; [constructor|].
  apply NoDup_cons in Hnd as [Hk Hnd].
  specialize (IH Hnd ltac:(intros; apply Hkey; by right)).
  destruct (other !! k); [done|]. simpl. constructor; [|done].
  intros (j & Hj & (k' & Hin & _)%elem_of_missing_from)%list_elem_of_fmap.
  apply Hk, list_elem_of_fmap. exists (k', j). simpl. split; [|done].
  rewrite (Hkey k i), (Hkey k' j) in Hj by (by constructor). done.
Qed.

(** The specification of [Diff]: what is created is what is desired (the
    last item of each key) and has no actual counterpart; what is deleted is
    what is actual and has no desired counterpart; both without duplicates. *)
Record diff_spec key desired actual (toDelete toCreate : list T) : Prop := {
  diff_create i : i ∈ toCreate ↔
    last_with key desired (key i) = Some i ∧ key i ∉ key <$> actual;
  diff_delete i : i ∈ toDelete ↔
    last_with key actual (key i) = Some i ∧ key i ∉ key <$> desired;
  diff_create_nodup : NoDup (key <$> toCreate);
  diff_delete_nodup : NoDup (key <$> toDelete) }.

Lemma Diff_spec `{MapOrder} s desired actual key :
  diff_spec key desired actual
    (Diff s desired actual key).1 (Diff s desired actual key).2.
Proof.
  split; intros; simpl;
    first [apply elem_of_missing_range|apply NoDup_keys_missing_range].
Qed.

(** A result that satisfies the specification is unique up to order. *)
Lemma diff_spec_perm key desired actual del cre del' cre' :
  diff_spec key desired actual del cre →
  diff_spec key desired actual del' cre' →
  del ≡ₚ del' ∧ cre ≡ₚ cre'.
Proof.
  intros [Hc Hd Nc Nd] [Hc' Hd' Nc' Nd'].
  split; apply NoDup_Permutation; eauto using NoDup_fmap_1; intros i.
  - by rewrite Hd, Hd'.
  - by rewrite Hc, Hc'.
Qed.

Lemma elem_of_keys key l k : k ∈ key <$> l ↔ ∃ i, last_with key l k = Some i.
Proof. symmetry. apply last_with_is_Some. Qed.

Lemma diff_spec_create_key key desired actual del cre k :
  diff_spec key desired actual del cre →
  k ∈ key <$> cre ↔ k ∈ key <$> desired ∧ k ∉ key <$> actual.
Proof.
  intros [Hc _ _ _]. rewrite list_elem_of_fmap. setoid_rewrite Hc. split.
  - intros (i & -> & Hi & Hk). split; [|done].
    apply last_with_is_Some. eauto.
  - intros [[i Hi]%elem_of_keys Hk].
    destruct (last_with_Some _ _ _ _ Hi) as [<- _]. by exists i.
Qed.

Lemma diff_spec_delete_key key desired actual del cre k :
  diff_spec key desired actual del cre →
  k ∈ key <$> del ↔ k ∈ key <$> actual ∧ k ∉ key <$> desired.
Proof.
  intros [_ Hd _ _]. rewrite list_elem_of_fmap. setoid_rewrite Hd. split.
  - intros (i & -> & Hi & Hk). split; [|done].
    apply last_with_is_Some. eauto.
  - intros [[i Hi]%elem_of_keys Hk].
    destruct (last_with_Some _ _ _ _ Hi) as [<- _]. by exists i.
Qed.

(** ** Equality of keys *)

(** The two lists carry the same keys: there is nothing to create and
    nothing to delete. *)
Definition same_keys key desired actual : Prop :=
  ∀ k, k ∈ key <$> desired ↔ k ∈ key <$> actual.

Lemma nil_of_no_keys key l : (∀ k, k ∉ key <$> l) → l = [].
Proof.
  destruct l as [|i l]; [done|]. intros H. destruct (H (key i)). by left.
Qed.

Lemma Diff_nil_iff `{MapOrder} s desired actual key :
  Diff s desired actual key = ([], []) ↔ same_keys key desired actual.
Proof.
  pose proof (Diff_spec s desired actual key) as HD.
  pose proof (λ k, diff_spec_create_key _ _ _ _ _ k HD) as Hc.
  pose proof (λ k, diff_spec_delete_key _ _ _ _ _ k HD) as Hd.
  destruct (Diff s desired actual key) as [del cre]; simpl in *.
  unfold same_keys. split.
  - intros [= -> ->] k. specialize (Hc k); specialize (Hd k). simpl in *.
    destruct (decide (k ∈ key <$> desired)), (decide (k ∈ key <$> actual));
      set_solver.
  - intros Hk. f_equal; apply (nil_of_no_keys key); intros k Hin.
    + apply Hd in Hin. rewrite Hk in Hin. tauto.
    + apply Hc in Hin. rewrite Hk in Hin. tauto.
Qed.

(** ** Match *)

Lemma Match_cons x xs ys key :
  Match (x :: xs) ys key =
  match last_with key ys (key x) with
  | Some y => (x, y) :: Match xs ys key
  | None => Match xs ys key
  end.
Proof.
  unfold Match. simpl. rewrite index_by_lookup. by destruct (last_with _ _ _).
Qed.

Lemma elem_of_Match xs ys key x y :
  (x, y) ∈ Match xs ys key ↔ x ∈ xs ∧ last_with key ys (key x) = Some y.
Proof.
  unfold Match. rewrite list_elem_of_omap. setoid_rewrite index_by_lookup.
  split.
  - intros (x' & Hx & Hy). destruct (last_with key ys (key x')) eqn:E;
      naive_solver.
  - intros [Hx Hy]. exists x. by rewrite Hy.
Qed.
End Compare.

Lemma Diff_perm {T} (o1 o2 : MapOrder) s (desired actual : list T) key :
  (@Diff T o1 s desired actual key).1 ≡ₚ (@Diff T o2 s desired actual key).1 ∧
  (@Diff T o1 s desired actual key).2 ≡ₚ (@Diff T o2 s desired actual key).2.
Proof. eapply diff_spec_perm; apply Diff_spec. Qed.

(** ** Properties *)

(** C23. [Diff] finds exactly the items to create and to delete, whatever order Go
    iterates its maps in: an item is created iff it is the last desired item of
    its key and no actual item has that key, an item is deleted iff it is the
    last actual item of its key and no desired item has that key, and no key is
    created or deleted twice. *)
Theorem Diff_correct {T} `{MapOrder} (s : site) (desired actual : list T)
    (key : T → string) :
  let '(toDelete, toCreate) := Diff s desired actual key in
  (∀ i, i ∈ toCreate ↔
     last (filter (λ j, key j = key i) desired) = Some i ∧ key i ∉ key <$> actual) ∧
  (∀ i, i ∈ toDelete ↔
     last (filter (λ j, key j = key i) actual) = Some i ∧ key i ∉ key <$> desired) ∧
  NoDup (key <$> toCreate) ∧ NoDup (key <$> toDelete).
Proof.
  pose proof (Diff_spec s desired actual key) as [Hc Hd Nc Nd].
  by destruct (Diff s desired actual key).
Qed.

(** Applying the result of [Diff] reaches the desired keys: the keys of the
    actual items that are kept, together with the keys of the created items,
    are exactly the keys of the desired items. *)
Theorem Diff_reconciles {T} `{MapOrder} (s : site) (desired actual : list T)
    (key : T → string) (k : string) :
  let '(toDelete, toCreate) := Diff s desired actual key in
  (k ∈ key <$> actual ∧ k ∉ key <$> toDelete) ∨ k ∈ key <$> toCreate ↔
  k ∈ key <$> desired.
Proof.
  pose proof (Diff_spec s desired actual key) as HD.
  pose proof (diff_spec_create_key _ _ _ _ _ k HD) as Hc.
  pose proof (diff_spec_delete_key _ _ _ _ _ k HD) as Hd.
  destruct (Diff s desired actual key) as [del cre]; simpl in *.
  destruct (decide (k ∈ key <$> desired)), (decide (k ∈ key <$> actual)); tauto.
Qed.

(** The iteration order of Go maps only permutes what [Diff] returns. *)
Theorem Diff_order_independent {T} (o1 o2 : MapOrder) (s1 s2 : site)
    (desired actual : list T) (key : T → string) :
  (@Diff T o1 s1 desired actual key).1 ≡ₚ (@Diff T o2 s2 desired actual key).1 ∧
  (@Diff T o1 s1 desired actual key).2 ≡ₚ (@Diff T o2 s2 desired actual key).2.
Proof. eapply diff_spec_perm; apply Diff_spec. Qed.

(** [Match] pairs every item of the first list that has a counterpart, in the
    order of that list, with the last item of the second list with its key. *)
Theorem Match_correct {T} (xs ys : list T) (key : T → string) :
  (Match xs ys key).*1 = filter (λ x, key x ∈ key <$> ys) xs ∧
  ∀ x y, (x, y) ∈ Match xs ys key ↔
    x ∈ xs ∧ last (filter (λ z, key z = key x) ys) = Some y.
Proof.
  split; [|apply elem_of_Match].
  induction xs as [|x xs IH]; [done|].
  rewrite Match_cons, filter_cons. destruct (last_with key ys (key x)) eqn:E.
  - rewrite decide_True by (apply elem_of_keys; eauto). by rewrite fmap_cons, IH.
  - rewrite decide_False by (by apply last_with_None). done.
Qed.
