(* ===== verification/Limiter.v ===== *)
(** * Limiter

    Package [limiter] (src/pkg/internal/limiter/limiter.go): a slice answer
    together with an error, and the accessors that check how many elements
    were found.  [Unique] takes its comparison on values: the comparison
    functions of the program only read through their pointers. *)

From stdpp Require Import base tactics list.
From S2P Require Import Prelude.

Record Limiter (T : Type) : Type := MkLimiter {
  Error : option error;
  elements : list T }.
Arguments MkLimiter {T} _ _.
Arguments Error {T} _.
Arguments elements {T} _.

Section Limiter.
Context {T : Type}.
Implicit Types (t : Limiter T) (eq : T → T → bool).

Definition New (err : option error) (elements : list T) : Limiter T :=
  {| Error := err; elements := elements |}.

Definition join_step (joined limiter : Limiter T) : Limiter T :=
  {| Error :=
       match Error joined, Error limiter with
       | Some _, Some e => Some e
       | err, _ => err
       end;
     elements := elements joined ++ elements limiter |}.

Definition Join (limiters : list (Limiter T)) : Limiter T :=
  fold_left join_step limiters {| Error := None; elements := [] |}.

Definition unique_step eq (result : list T) (a : T) : list T :=
  if existsb (λ b, eq a b) result then result else result ++ [a].

Definition Unique eq t : Limiter T :=
  {| Error := Error t; elements := fold_left (unique_step eq) (elements t) [] |}.

Definition All t : result (list T) :=
  match Error t with Some e => Err e | None => Ok (elements t) end.

Definition err_more_than_one : error := ErrorString "found more than one".
Definition err_none : error := ErrorString "found none".
Definition err_some : error := ErrorString "found some elements".

Definition One t : result T :=
  match Error t with
  | Some e => Err e
  | None =>
      match elements t with
      | [] => Err err_none
      | [x] => Ok x
      | _ => Err err_more_than_one
      end
  end.

Definition None_ t : option error :=
  match Error t with
  | Some e => Some e
  | None => match elements t with [] => None | _ => Some err_some end
  end.

Definition AtMostOne t : result (option T) :=
  match Error t with
  | Some e => Err e
  | None =>
      match elements t with
      | [] => Ok None
      | [x] => Ok (Some x)
      | _ => Err err_more_than_one
      end
  end.

Definition Count t : Z :=
  match Error t with Some _ => 0 | None => Z.of_nat (length (elements t)) end.

(** ** Join *)

Lemma fold_join_Error t limiters :
  Error t = None → Error (fold_left join_step limiters t) = None.
Proof.
  revert t. induction limiters as [|l ls IH]; intros t Ht; simpl; [done|].
  apply IH. simpl. by rewrite Ht.
Qed.

Lemma fold_join_elements t limiters :
  elements (fold_left join_step limiters t) =
  elements t ++ flat_map elements limiters.
Proof.
  revert t. induction limiters as [|l ls IH]; intros t; simpl.
  - by rewrite app_nil_r.
  - rewrite IH. simpl. by rewrite app_assoc.
Qed.

Lemma Join_eq limiters : Join limiters = New None (flat_map elements limiters).
Proof.
  unfold Join, New.
  pose proof (fold_join_Error (MkLimiter None []) limiters eq_refl) as He.
  pose proof (fold_join_elements (MkLimiter None []) limiters) as Hx.
  destruct (fold_left _ _ _); simpl in *. by subst.
Qed.

(** ** Unique *)

Section unique.
Context (R : T → T → bool).

Lemma unique_step_spec acc a :
  (existsb (R a) acc = true ∧ unique_step R acc a = acc) ∨
  (existsb (R a) acc = false ∧ unique_step R acc a = acc ++ [a]).
Proof.
  unfold unique_step. change (λ b, R a b) with (R a).
  destruct (existsb (R a) acc); auto.
Qed.

Lemma elem_of_fold_unique acc l x :
  x ∈ fold_left (unique_step R) l acc → x ∈ acc ∨ x ∈ l.
Proof.
  revert acc. induction l as [|a l IH]; intros acc; simpl; [by left|].
  intros [Hx|Hx]%IH; [|set_solver].
  destruct (unique_step_spec acc a) as [[_ E]|[_ E]]; rewrite E in Hx;
    set_solver.
Qed.

Lemma fold_unique_mono acc l x :
  x ∈ acc → x ∈ fold_left (unique_step R) l acc.
Proof.
  revert acc. induction l as [|a l IH]; intros acc Hx; simpl; [done|].
  apply IH. destruct (unique_step_spec acc a) as [[_ ->]|[_ ->]]; set_solver.
Qed.

Lemma fold_unique_covers acc l x :
  (∀ y, R y y = true) → x ∈ l →
  ∃ y, y ∈ fold_left (unique_step R) l acc ∧ R x y = true.
Proof.
  intros Hrefl. revert acc. induction l as [|a l IH]; intros acc Hx; simpl;
    [by apply not_elem_of_nil in Hx|].
  apply elem_of_cons in Hx as [->|Hx]; [|by apply IH].
  destruct (unique_step_spec acc a) as [[Ha ->]|[_ ->]].
  - apply existsb_exists in Ha as (y & Hy%list_elem_of_In & HR).
    exists y. eauto using fold_unique_mono.
  - exists a. split; [|done]. apply fold_unique_mono. set_solver.
Qed.

Lemma fold_unique_distinct acc l :
  ForallOrdPairs (λ x y, R y x = false) acc →
  ForallOrdPairs (λ x y, R y x = false) (fold_left (unique_step R) l acc).
Proof.
  revert acc. induction l as [|a l IH]; intros acc Hacc; simpl; [done|].
  apply IH. destruct (unique_step_spec acc a) as [[_ ->]|[Ha ->]]; [done|].
  assert (Forall (λ x, R a x = false) acc) as Hfr.
  { apply Forall_forall. intros x Hx.
    destruct (R a x) eqn:E; [|done]. rewrite <- Ha. symmetry.
    apply existsb_exists. exists x. by rewrite <- list_elem_of_In. }
  clear IH Ha. induction Hacc as [|x acc Hx Hacc IH]; simpl.
  - repeat constructor.
  - apply Forall_cons in Hfr as [Hax Hfr]. constructor; [|by apply IH].
    apply Forall_app. by repeat constructor.
Qed.
End unique.

Lemma One_Ok t x : One t = Ok x ↔ Error t = None ∧ elements t = [x].
Proof.
  unfold One. destruct (Error t); [naive_solver|].
  destruct (elements t) as [|y [|]]; naive_solver.
Qed.

Lemma AtMostOne_Ok t o :
  AtMostOne t = Ok o ↔ Error t = None ∧ elements t = option_list o.
Proof.
  unfold AtMostOne. destruct (Error t); [naive_solver|].
  destruct o; simpl; destruct (elements t) as [|y [|]]; naive_solver.
Qed.
End Limiter.

(** ** Properties *)

(** The accessors agree with the number of elements: [One] succeeds iff there
    is exactly one, [AtMostOne] iff there is at most one, [None_] reports
    nothing iff there is none, all of them report a stored error first, and
    [Count] is the length, or zero next to an error. *)
Theorem accessors_correct {T} (t : Limiter T) :
  match Error t with
  | Some e =>
      All t = Err e ∧ One t = Err e ∧ AtMostOne t = Err e ∧
      None_ t = Some e ∧ Count t = 0%Z
  | None =>
      All t = Ok (elements t) ∧ Count t = Z.of_nat (length (elements t)) ∧
      (∀ x, One t = Ok x ↔ elements t = [x]) ∧
      (∀ o, AtMostOne t = Ok o ↔ elements t = option_list o) ∧
      (is_Ok (One t) ↔ Count t = 1%Z) ∧
      (is_Ok (AtMostOne t) ↔ (Count t ≤ 1)%Z) ∧
      (None_ t = None ↔ Count t = 0%Z)
  end.
Proof.
  pose proof (One_Ok t) as H1. pose proof (AtMostOne_Ok t) as H2.
  unfold All, Count, is_Ok in *.
  destruct (Error t) eqn:E.
  - unfold One, AtMostOne, None_. by rewrite E.
  - split_and!; try done.
    + intros x. rewrite H1. naive_solver.
    + intros o. rewrite H2. naive_solver.
    + setoid_rewrite H1. split.
      * intros (x & _ & ->). done.
      * destruct (elements t) as [|x [|]]; simpl; try lia. eauto.
    + setoid_rewrite H2. split.
      * intros ([x|] & _ & ->); simpl; lia.
      * destruct (elements t) as [|x [|]]; simpl; try lia; intros _;
          [by exists None|by exists (Some x)].
    + unfold None_. rewrite E. destruct (elements t); simpl; [done|].
      split; [done|lia].
Qed.

(** [Unique] keeps only listed elements, keeps for every element one that
    compares equal, and keeps no two elements that compare equal. *)
Theorem Unique_correct {T} (eq : T → T → bool) (t : Limiter T)
    (eq_refl' : ∀ x, eq x x = true) :
  let u := elements (Unique eq t) in
  u ⊆ elements t ∧
  (∀ x, x ∈ elements t → ∃ y, y ∈ u ∧ eq x y = true) ∧
  ForallOrdPairs (λ x y, eq y x = false) u ∧
  Error (Unique eq t) = Error t.
Proof.
  simpl. split_and!; [| | |done].
  - intros x [?%not_elem_of_nil|]%elem_of_fold_unique; done.
  - intros x. by apply fold_unique_covers.
  - apply fold_unique_distinct. constructor.
Qed.

Theorem Unique_correct_witness :
  elements (Unique Nat.eqb (New None [1; 2; 1; 3; 2])) = [1; 2; 3] ∧
  ForallOrdPairs (λ x y, Nat.eqb y x = false)
    (elements (Unique Nat.eqb (New None [1; 2; 1; 3; 2]))).
Proof.
  split; [reflexivity|].
  apply (Unique_correct Nat.eqb (New None [1; 2; 1; 3; 2])).
  apply Nat.eqb_refl.
Defined.

(** [Join] concatenates the elements of its limiters, but never carries an
    error over: its guard tests the error of the empty accumulator, so an
    error in any of the limiters is lost and [All] succeeds. *)
Theorem Join_drops_errors {T} (limiters : list (Limiter T)) :
  Error (Join limiters) = None ∧
  All (Join limiters) = Ok (flat_map elements limiters).
Proof. by rewrite Join_eq. Qed.
