(* ===== verification/Json.v ===== *)
(** * Json

    The part of Go's [encoding/json] the program uses to read annotations.
    [parse] is the package's scanner, a pushdown automaton that consumes one
    byte per step, extended to build the value it scans; it is total by
    construction.  [Unmarshal_strings] decodes into a fresh [[]string],
    [Unmarshal_structs] and [Unmarshal_pointer] into a fresh slice of structs
    and a nil pointer to a struct, for a given decoder of JSON objects (the
    struct tags belong to the SDK). *)

From stdpp Require Import base tactics list strings.
From Stdlib Require Import ZArith.
From S2P Require Import Prelude.
From S2P Require Import GoStrings.

Inductive json : Type :=
| JNull
| JBool (b : bool)
| JNumber (literal : string)
| JString (s : string)
| JArray (elems : list json)
| JObject (fields : list (string * json)).

(** ** Character classes *)

Definition json_space (c : ascii) : bool :=
  let n := nat_of_ascii c in
  (n =? 32)%nat || (n =? 9)%nat || (n =? 13)%nat || (n =? 10)%nat.

Definition hex_value (c : ascii) : option Z :=
  let n := nat_of_ascii c in
  if (48 <=? n)%nat && (n <=? 57)%nat then Some (Z.of_nat (n - 48))
  else if (97 <=? n)%nat && (n <=? 102)%nat then Some (Z.of_nat (n - 87))
  else if (65 <=? n)%nat && (n <=? 70)%nat then Some (Z.of_nat (n - 55))
  else None.

Definition in_bytes (lo hi : nat) (c : ascii) : bool :=
  (lo <=? nat_of_ascii c)%nat && (nat_of_ascii c <=? hi)%nat.

(** ** UTF-8 *)

(** The width of the valid UTF-8 encoding at the start of the bytes, if there
    is one ([utf8.DecodeRune] otherwise consumes one byte). *)
Definition rune_width (s : list ascii) : option nat :=
  let tail := in_bytes 128 191 in
  match s with
  | [] => None
  | c :: s' =>
      if in_bytes 0 127 c then Some 1%nat
      else match s' with
      | [] => None
      | c1 :: s'' =>
          if in_bytes 194 223 c then if tail c1 then Some 2%nat else None
          else match s'' with
          | [] => None
          | c2 :: s3 =>
              if in_bytes 224 239 c then
                let lo := if in_bytes 224 224 c then 160%nat else 128%nat in
                let hi := if in_bytes 237 237 c then 159%nat else 191%nat in
                if in_bytes lo hi c1 && tail c2 then Some 3%nat else None
              else match s3 with
              | c3 :: _ =>
                  let lo := if in_bytes 240 240 c then 144%nat else 128%nat in
                  let hi := if in_bytes 244 244 c then 143%nat else 191%nat in
                  if in_bytes 240 244 c && in_bytes lo hi c1 && tail c2 && tail c3
                  then Some 4%nat else None
              | [] => None
              end
          end
      end
  end.

Definition byte_of_Z (z : Z) : ascii := ascii_of_nat (Z.to_nat z).

(** [utf8.EncodeRune] for a code point that is not a surrogate. *)
Definition encode_rune (r : Z) : list ascii :=
  let tail z := byte_of_Z (Z.lor 128 (Z.land z 63)) in
  if (r <? 128)%Z then [byte_of_Z r]
  else if (r <? 2048)%Z then [byte_of_Z (Z.lor 192 (Z.shiftr r 6)); tail r]
  else if (r <? 65536)%Z then
    [byte_of_Z (Z.lor 224 (Z.shiftr r 12)); tail (Z.shiftr r 6); tail r]
  else
    [byte_of_Z (Z.lor 240 (Z.shiftr r 18)); tail (Z.shiftr r 12);
     tail (Z.shiftr r 6); tail r].

Definition replacement_char : Z := 65533.

(** ** String literals *)

Definition hex4 (a b c d : ascii) : option Z :=
  a ← hex_value a; b ← hex_value b; c ← hex_value c; d ← hex_value d;
  Some (((a * 16 + b) * 16 + c) * 16 + d)%Z.

Definition is_high (r : Z) : bool := ((55296 <=? r) && (r <? 56320))%Z.
Definition is_low (r : Z) : bool := ((56320 <=? r) && (r <? 57344))%Z.
Definition is_surrogate (r : Z) : bool := is_high r || is_low r.

(** [utf16.DecodeRune], [None] for the replacement character. *)
Definition decode_pair (r1 r2 : Z) : option Z :=
  if is_high r1 && is_low r2
  then Some ((r1 - 55296) * 1024 + (r2 - 56320) + 65536)%Z else None.

Definition unescape (c : ascii) : ascii :=
  match c with
  | "b" => ascii_of_nat 8
  | "f" => ascii_of_nat 12
  | "n" => ascii_of_nat 10
  | "r" => ascii_of_nat 13
  | "t" => ascii_of_nat 9
  | _ => c
  end%char.

(** [unquote]: the value of a scanned literal, given without its quotes. *)
Fixpoint unquote (s : list ascii) : list ascii :=
  match s with
  | [] => []
  | "\"%char :: "u"%char :: a :: b :: c :: d :: s' =>
      match hex4 a b c d with
      | None => []
      | Some r =>
          if is_surrogate r then
            match s' with
            | "\"%char :: "u"%char :: a' :: b' :: c' :: d' :: s'' =>
                match r2 ← hex4 a' b' c' d'; decode_pair r r2 with
                | Some dec => encode_rune dec ++ unquote s''
                | None => encode_rune replacement_char ++ unquote s'
                end
            | _ => encode_rune replacement_char ++ unquote s'
            end
          else encode_rune r ++ unquote s'
      end
  | "\"%char :: c :: s' => unescape c :: unquote s'
  | c :: s' =>
      match rune_width s, s' with
      | Some 1%nat, _ => c :: unquote s'
      | Some 2%nat, c1 :: s'' => c :: c1 :: unquote s''
      | Some 3%nat, c1 :: c2 :: s'' => c :: c1 :: c2 :: unquote s''
      | Some _, c1 :: c2 :: c3 :: s'' => c :: c1 :: c2 :: c3 :: unquote s''
      | _, _ => encode_rune replacement_char ++ unquote s'
      end
  end.

Definition string_value (rev_literal : list ascii) : string :=
  string_of_list_ascii (unquote (rev rev_literal)).

(** ** The scanner *)

(** The enclosing arrays and objects, with the elements read so far, last
    first; an object also holds the key whose value is being read. *)
Inductive frame : Type :=
| InArray (elems : list json)
| InObject (fields : list (string * json)) (key : string).

(** What the next byte may be; [lit] is the literal read so far, last first. *)
Inductive mode : Type :=
| BeginValue
| BeginValueOrEmpty
| BeginString (fields : list (string * json))
| BeginStringOrEmpty
| EndKey (fields : list (string * json)) (key : string)
| EndValue (v : json)
| InString (key : option (list (string * json))) (lit : list ascii)
| InStringEsc (key : option (list (string * json))) (lit : list ascii)
| InStringEscU (n : nat) (key : option (list (string * json))) (lit : list ascii)
| InLiteral (rest : list ascii) (v : json)
| NumNeg (lit : list ascii)
| Num0 (lit : list ascii)
| Num1 (lit : list ascii)
| NumDot (lit : list ascii)
| NumDot0 (lit : list ascii)
| NumE (lit : list ascii)
| NumESign (lit : list ascii)
| NumE0 (lit : list ascii).

Definition state : Type := list frame * mode.

Definition maxNestingDepth : nat := Z.to_nat 10000.

Definition push (f : frame) (m : mode) (st : list frame) : option state :=
  if (length (f :: st) <=? maxNestingDepth)%nat then Some (f :: st, m) else None.

Definition number (lit : list ascii) : json :=
  JNumber (string_of_list_ascii (rev lit)).

Definition begin_value (st : list frame) (c : ascii) : option state :=
  if json_space c then Some (st, BeginValue) else
  match c with
  | "{" => push (InObject [] "") BeginStringOrEmpty st
  | "[" => push (InArray []) BeginValueOrEmpty st
  | "034" => Some (st, InString None [])
  | "-" => Some (st, NumNeg [c])
  | "0" => Some (st, Num0 [c])
  | "t" => Some (st, InLiteral (list_ascii_of_string "rue") (JBool true))
  | "f" => Some (st, InLiteral (list_ascii_of_string "alse") (JBool false))
  | "n" => Some (st, InLiteral (list_ascii_of_string "ull") JNull)
  | _ => if in_bytes 49 57 c then Some (st, Num1 [c]) else None
  end%char.

Definition end_value (st : list frame) (v : json) (c : ascii) : option state :=
  if json_space c then Some (st, EndValue v) else
  match st, c with
  | InArray elems :: st', "," => Some (InArray (v :: elems) :: st', BeginValue)
  | InArray elems :: st', "]" => Some (st', EndValue (JArray (rev (v :: elems))))
  | InObject fields key :: st', "," =>
      Some (st, BeginString ((key, v) :: fields))
  | InObject fields key :: st', "}" =>
      Some (st', EndValue (JObject (rev ((key, v) :: fields))))
  | _, _ => None
  end%char.

Definition begin_string (fields : list (string * json)) (st : list frame)
    (c : ascii) : option state :=
  if json_space c then Some (st, BeginString fields) else
  match c with
  | "034"%char => Some (st, InString (Some fields) [])
  | _ => None
  end.

Definition begin_string_or_empty (st : list frame) (c : ascii) : option state :=
  match st, c with
  | InObject _ _ :: st', "}" => Some (st', EndValue (JObject []))
  | _, _ =>
      if json_space c then Some (st, BeginStringOrEmpty)
      else begin_string [] st c
  end%char.

Definition begin_value_or_empty (st : list frame) (c : ascii) : option state :=
  match st, c with
  | InArray _ :: st', "]" => Some (st', EndValue (JArray []))
  | _, _ =>
      if json_space c then Some (st, BeginValueOrEmpty) else begin_value st c
  end%char.

Definition end_key (fields : list (string * json)) (key : string)
    (st : list frame) (c : ascii) : option state :=
  if json_space c then Some (st, EndKey fields key) else
  match st, c with
  | InObject _ _ :: st', ":" => Some (InObject fields key :: st', BeginValue)
  | _, _ => None
  end%char.

Definition in_string (key : option (list (string * json))) (lit : list ascii)
    (st : list frame) (c : ascii) : option state :=
  match c with
  | "034" =>
      Some (st, match key with
                | None => EndValue (JString (string_value lit))
                | Some fields => EndKey fields (string_value lit)
                end)
  | "\" => Some (st, InStringEsc key (c :: lit))
  | _ => if in_bytes 0 31 c then None else Some (st, InString key (c :: lit))
  end%char.

Definition in_string_esc (key : option (list (string * json))) (lit : list ascii)
    (st : list frame) (c : ascii) : option state :=
  match c with
  | "b" | "f" | "n" | "r" | "t" | "\" | "/" | "034" =>
      Some (st, InString key (c :: lit))
  | "u" => Some (st, InStringEscU 4 key (c :: lit))
  | _ => None
  end%char.

Definition in_string_esc_u (n : nat) (key : option (list (string * json)))
    (lit : list ascii) (st : list frame) (c : ascii) : option state :=
  match hex_value c, n with
  | Some _, S (S n') => Some (st, InStringEscU (S n') key (c :: lit))
  | Some _, _ => Some (st, InString key (c :: lit))
  | None, _ => None
  end.

Definition exponent (lit : list ascii) (st : list frame) (c : ascii)
    : option state :=
  match c with
  | "e" | "E" => Some (st, NumE (c :: lit))
  | _ => end_value st (number lit) c
  end%char.

Definition dot_or_exponent (lit : list ascii) (st : list frame) (c : ascii)
    : option state :=
  match c with
  | "."%char => Some (st, NumDot (c :: lit))
  | _ => exponent lit st c
  end.

Definition in_number (m : mode) (st : list frame) (c : ascii) : option state :=
  match m with
  | NumNeg lit =>
      if Ascii.eqb c "0" then Some (st, Num0 (c :: lit))
      else if is_digit c then Some (st, Num1 (c :: lit)) else None
  | Num0 lit => dot_or_exponent lit st c
  | Num1 lit =>
      if is_digit c then Some (st, Num1 (c :: lit)) else dot_or_exponent lit st c
  | NumDot lit => if is_digit c then Some (st, NumDot0 (c :: lit)) else None
  | NumDot0 lit =>
      if is_digit c then Some (st, NumDot0 (c :: lit)) else exponent lit st c
  | NumE lit =>
      if Ascii.eqb c "+" || Ascii.eqb c "-" then Some (st, NumESign (c :: lit))
      else if is_digit c then Some (st, NumE0 (c :: lit)) else None
  | NumESign lit => if is_digit c then Some (st, NumE0 (c :: lit)) else None
  | NumE0 lit =>
      if is_digit c then Some (st, NumE0 (c :: lit))
      else end_value st (number lit) c
  | _ => None
  end.

Definition step (s : state) (c : ascii) : option state :=
  let '(st, m) := s in
  match m with
  | BeginValue => begin_value st c
  | BeginValueOrEmpty => begin_value_or_empty st c
  | BeginString fields => begin_string fields st c
  | BeginStringOrEmpty => begin_string_or_empty st c
  | EndKey fields key => end_key fields key st c
  | EndValue v => end_value st v c
  | InString key lit => in_string key lit st c
  | InStringEsc key lit => in_string_esc key lit st c
  | InStringEscU n key lit => in_string_esc_u n key lit st c
  | InLiteral [] _ => None
  | InLiteral (a :: rest) v =>
      if Ascii.eqb a c then
        Some (st, match rest with [] => EndValue v | _ => InLiteral rest v end)
      else None
  | m => in_number m st c
  end.

Fixpoint steps (s : state) (l : list ascii) : option state :=
  match l with
  | [] => Some s
  | c :: l' => s' ← step s c; steps s' l'
  end.

(** Like Go's scanner, the end of the input is one more space. *)
Definition parse (s : string) : option json :=
  match steps ([], BeginValue) (list_ascii_of_string s ++ [" "%char]) with
  | Some ([], EndValue v) => Some v
  | _ => None
  end.

(** ** Decoding *)

Definition err_json_syntax : error := StdError "encoding/json" "syntax error".
Definition err_json_type : error :=
  StdError "encoding/json" "cannot unmarshal value into Go type".

Definition parseR (s : string) : result json :=
  result_of_option err_json_syntax (parse s).

(** An element of a [[]string]: [null] leaves the zero value. *)
Definition decode_string (j : json) : result string :=
  match j with JString s => Ok s | JNull => Ok "" | _ => Err err_json_type end.

(** The elements of a slice: [null] gives a nil slice. *)
Definition decode_slice {A} (decode : json → result A) (j : json)
    : result (list A) :=
  match j with
  | JArray elems => mapR decode elems
  | JNull => Ok []
  | _ => Err err_json_type
  end.

Definition Unmarshal_strings (s : string) : result (list string) :=
  j ← parseR s; decode_slice decode_string j.

Section structs.
Context {A : Type} (zero : A) (decode_object : list (string * json) → result A).

Definition decode_struct (j : json) : result A :=
  match j with
  | JObject fields => decode_object fields
  | JNull => Ok zero
  | _ => Err err_json_type
  end.

Definition Unmarshal_structs (s : string) : result (list A) :=
  j ← parseR s; decode_slice decode_struct j.

(** Into a nil pointer: [null] leaves it nil, an object is decoded into a
    newly allocated struct. *)
Definition Unmarshal_pointer (s : string) : result (option A) :=
  j ← parseR s;
  match j with
  | JNull => Ok None
  | j => Some <$> decode_struct j
  end.
End structs.
