(* ===== verification/Cloudscale.v ===== *)
(** * Cloudscale

    The data the program exchanges with the cloudscale.ch API through the SDK
    and with Kubernetes: for each struct, the fields the repository reads or
    writes, under their Go names.  A nil slice and an empty one are the same
    list (the program only takes lengths and iterates).  A pointer the code
    compares or uses as a map key has an identity next to its value.  What the
    SDK decides and the repository relies on without naming it (how a struct
    prints, how its JSON tags map) is the class [SDK]. *)

From stdpp Require Import base tactics list gmap strings.
From Stdlib Require Import ZArith.
From S2P Require Import Prelude.
From S2P Require Import GoStrings.
From S2P Require Import Json.

(** ** SDK structs *)

(** [rest] stands for the fields of the SDK struct the program never names:
    they are copied with the struct and compared as part of it. *)
Module SubnetStub.
Record t := Mk { UUID : string; rest : string }.
Definition zero : t := Mk "" "".
#[global] Instance t_eq_dec : EqDecision t.
Proof. solve_decision. Defined.
End SubnetStub.

Module VIPAddress.
Record t := Mk { Address : string; Subnet : SubnetStub.t }.
#[global] Instance t_eq_dec : EqDecision t.
Proof. solve_decision. Defined.
End VIPAddress.

Module VIPAddressRequest.
Record t := Mk { Address : string; Subnet : string }.
Definition zero : t := Mk "" "".
#[global] Instance t_eq_dec : EqDecision t.
Proof. solve_decision. Defined.
End VIPAddressRequest.

(** [Flavor] and [Zone] hold the slugs of the respective stubs. *)
Module LoadBalancer.
Record t := Mk {
  HREF : string;
  UUID : string;
  Name : string;
  Status : string;
  VIPAddresses : list VIPAddress.t;
  Flavor : string;
  Zone : string }.
#[global] Instance t_eq_dec : EqDecision t.
Proof. solve_decision. Defined.
End LoadBalancer.

(** [LoadBalancer] is the UUID of the pool's load balancer stub. *)
Module Pool.
Record t := Mk {
  HREF : string;
  UUID : string;
  Name : string;
  Algorithm : string;
  Protocol : string;
  LoadBalancer : string }.
#[global] Instance t_eq_dec : EqDecision t.
Proof. solve_decision. Defined.
End Pool.

Module PoolMember.
Record t := Mk {
  HREF : string;
  Name : string;
  Enabled : bool;
  Address : string;
  Subnet : SubnetStub.t;
  ProtocolPort : Z;
  MonitorPort : Z }.
#[global] Instance t_eq_dec : EqDecision t.
Proof. solve_decision. Defined.
End PoolMember.

(** [Pool] is the UUID of the pool stub, nil for a floating listener;
    [LoadBalancer] the UUID of the load balancer stub. *)
Module Listener.
Record t := Mk {
  HREF : string;
  UUID : string;
  Name : string;
  Protocol : string;
  ProtocolPort : Z;
  AllowedCIDRs : list string;
  TimeoutClientDataMS : Z;
  TimeoutMemberConnectMS : Z;
  TimeoutMemberDataMS : Z;
  Pool : option string;
  LoadBalancer : string }.
#[global] Instance t_eq_dec : EqDecision t.
Proof. solve_decision. Defined.
End Listener.

(** A [*string]: the address of the allocation and what it holds. *)
Record strptr := MkPtr { addr : positive; deref : string }.

#[global] Instance strptr_eq_dec : EqDecision strptr.
Proof. solve_decision. Defined.

(** Go's [==] on two [*string]: the addresses, not the strings. *)
Definition ptr_eqb (p q : option strptr) : bool :=
  bool_decide (addr <$> p = addr <$> q).

Module MonitorHTTP.
Record t := Mk {
  ExpectedCodes : list string;
  Method : string;
  URLPath : string;
  Version : string;
  Host : option strptr }.
Definition zero : t := Mk [] "" "" "" None.
#[global] Instance t_eq_dec : EqDecision t.
Proof. solve_decision. Defined.
End MonitorHTTP.

Module HealthMonitor.
Record t := Mk {
  HREF : string;
  UUID : string;
  Type_ : string;
  HTTP : option MonitorHTTP.t;
  DelayS : Z;
  TimeoutS : Z;
  UpThreshold : Z;
  DownThreshold : Z;
  Pool : string }.
#[global] Instance t_eq_dec : EqDecision t.
Proof. solve_decision. Defined.
End HealthMonitor.

(** [LoadBalancer] is the UUID of the load balancer stub, if not nil. *)
Module FloatingIP.
Record t := Mk { Network : string; LoadBalancer : option string }.
#[global] Instance t_eq_dec : EqDecision t.
Proof. solve_decision. Defined.
End FloatingIP.

Module ServerAddress.
Record t := Mk { Address : string; Subnet : SubnetStub.t }.
#[global] Instance t_eq_dec : EqDecision t.
Proof. solve_decision. Defined.
End ServerAddress.

Module ServerInterface.
Record t := Mk { Type_ : string; Addresses : list ServerAddress.t }.
#[global] Instance t_eq_dec : EqDecision t.
Proof. solve_decision. Defined.
End ServerInterface.

Module Server.
Record t := Mk {
  UUID : string;
  Name : string;
  Status : string;
  Zone : string;
  Flavor : string;
  Interfaces : list ServerInterface.t }.
#[global] Instance t_eq_dec : EqDecision t.
Proof. solve_decision. Defined.
End Server.

(** What the SDK's declarations decide: the [%v] text of a [SubnetStub] and
    the decoding of a JSON object into the two structs read from annotations
    (which allocates the strings it points to). *)
Class SDK := {
  SubnetStub_text : SubnetStub.t → string;
  decode_VIPAddressRequest : list (string * json) → result VIPAddressRequest.t;
  decode_MonitorHTTP : list (string * json) → result MonitorHTTP.t }.

(** ** Requests *)

(** A field left out of a Go composite literal is its zero value. *)
Module LoadBalancerRequest.
Record t := Mk {
  Name : string;
  Flavor : string;
  VIPAddresses : option (list VIPAddressRequest.t);
  Zone : string }.
Definition zero : t := Mk "" "" None "".
End LoadBalancerRequest.

Module PoolRequest.
Record t := Mk { Name : string; LoadBalancer : string; Algorithm : string; Protocol : string }.
End PoolRequest.

Module PoolMemberRequest.
Record t := Mk {
  Name : string;
  ProtocolPort : Z;
  MonitorPort : Z;
  Address : string;
  Subnet : string }.
End PoolMemberRequest.

Module ListenerRequest.
Record t := Mk {
  Pool : string;
  Name : string;
  Protocol : string;
  ProtocolPort : Z;
  AllowedCIDRs : option (list string);
  TimeoutClientDataMS : Z;
  TimeoutMemberConnectMS : Z;
  TimeoutMemberDataMS : Z }.
Definition zero : t := Mk "" "" "" 0 None 0 0 0.
End ListenerRequest.

Module MonitorHTTPRequest.
Record t := Mk {
  ExpectedCodes : list string;
  Method : string;
  URLPath : string;
  Version : string;
  Host : option strptr }.
Definition zero : t := Mk [] "" "" "" None.
End MonitorHTTPRequest.

Module HealthMonitorRequest.
Record t := Mk {
  Pool : string;
  DelayS : Z;
  TimeoutS : Z;
  UpThreshold : Z;
  DownThreshold : Z;
  Type_ : string;
  HTTP : option MonitorHTTPRequest.t }.
Definition zero : t := Mk "" 0 0 0 0 "" None.
End HealthMonitorRequest.

(** ** Kubernetes objects *)

Module ServicePort.
Record t := Mk { Name : string; Protocol : string; Port : Z; NodePort : Z }.
#[global] Instance t_eq_dec : EqDecision t.
Proof. solve_decision. Defined.
End ServicePort.

Module Service.
Record t := Mk {
  Namespace : string;
  Name : string;
  UID : string;
  Annotations : option (gmap string string);
  Type_ : string;
  LoadBalancerClass : option string;
  ExternalTrafficPolicy : string;
  HealthCheckNodePort : Z;
  Ports : list ServicePort.t }.
#[global] Instance t_eq_dec : EqDecision t.
Proof. solve_decision. Defined.
End Service.

Module Node.
Record t := Mk { Name : string; Labels : gmap string string; ProviderID : string }.
End Node.

(** ** Effects

    [W] is the state of everything outside the program: the API, the cluster,
    the clock, the context.  A call takes it to a result and the next state. *)

Definition M (W A : Type) : Type := W → result A * W.

Section monad.
Context {W : Type}.

#[global] Instance M_ret : MRet (M W) := λ A a w, (Ok a, w).
#[global] Instance M_bind : MBind (M W) := λ A B f m w,
  match m w with
  | (Ok a, w') => f a w'
  | (Err e, w') => (Err e, w')
  | (Panic msg, w') => (Panic msg, w')
  end.

Definition lift {A} (r : result A) : M W A := λ w, (r, w).
Definition throw {A} (e : error) : M W A := lift (Err e).

(** Call and look at the outcome: the [if err != nil] after a call.  A panic
    is not caught. *)
Definition try {A B} (m : M W A) (on_ok : A → M W B) (on_err : error → M W B)
    : M W B := λ w,
  match m w with
  | (Ok a, w') => on_ok a w'
  | (Err e, w') => on_err e w'
  | (Panic msg, w') => (Panic msg, w')
  end.

Definition wrapM {A} (f : error → error) (m : M W A) : M W A :=
  λ w, let '(r, w') := m w in (wrap_err f r, w').

(** A loop over a slice whose body can return early with an error. *)
Fixpoint foldM {A S} (f : S → A → M W S) (s : S) (l : list A) : M W S :=
  match l with
  | [] => mret s
  | x :: l' => s' ← f s x; foldM f s' l'
  end.

Lemma M_bind_Ok {A B} (m : M W A) (f : A → M W B) w b w' :
  (m ≫= f) w = (Ok b, w') ↔ ∃ a w1, m w = (Ok a, w1) ∧ f a w1 = (Ok b, w').
Proof.
  unfold mbind, M_bind. destruct (m w) as [[a|e|msg] w1]; naive_solver.
Qed.

Lemma wrapM_Ok {A} f (m : M W A) w a w' :
  wrapM f m w = (Ok a, w') ↔ m w = (Ok a, w').
Proof.
  unfold wrapM. destruct (m w) as [[]]; naive_solver.
Qed.
End monad.

(** The SDK client, the context and the clock.  [Do] performs a prepared
    request; [select_after d] is [select] on [ctx.Done()] and
    [time.After(d)] (nanoseconds) and tells whether the former was chosen;
    [rand_Intn] is [rand.Intn]. *)
Class Client (W : Type) := {
  Request : Type;
  NewRequest : string → string → M W Request;
  Do : Request → M W unit;
  LoadBalancers_Get : string → M W LoadBalancer.t;
  LoadBalancers_List : M W (list LoadBalancer.t);
  LoadBalancers_Create : LoadBalancerRequest.t → M W LoadBalancer.t;
  LoadBalancers_Update : string → LoadBalancerRequest.t → M W unit;
  Pools_List : M W (list Pool.t);
  Pools_Create : PoolRequest.t → M W Pool.t;
  PoolMembers_List : string → M W (list PoolMember.t);
  PoolMembers_Create : string → PoolMemberRequest.t → M W PoolMember.t;
  Listeners_List : M W (list Listener.t);
  Listeners_Create : ListenerRequest.t → M W Listener.t;
  Listeners_Update : string → ListenerRequest.t → M W unit;
  HealthMonitors_List : M W (list HealthMonitor.t);
  HealthMonitors_Create : HealthMonitorRequest.t → M W HealthMonitor.t;
  HealthMonitors_Update : string → HealthMonitorRequest.t → M W unit;
  FloatingIPs_List : M W (list FloatingIP.t);
  FloatingIPs_Update : string → string → M W unit;
  Servers_Get : string → M W Server.t;
  Servers_List : M W (list Server.t);
  ctx_Err : W → option error * W;
  select_after : Z → W → bool * W;
  rand_Intn : Z → W → Z * W }.

(** Durations are nanoseconds, as in Go. *)
Definition Millisecond : Z := 1000000.
Definition Second : Z := 1000 * Millisecond.
