(* ===== verification/ServiceInfo.v ===== *)
(** * ServiceInfo

    src/pkg/cloudscale_ccm/service_info.go and the annotation names of
    loadbalancer.go: a Kubernetes service with the program's reading of its
    annotations, defaults included. *)

From stdpp Require Import base tactics list gmap strings pretty.
From Stdlib Require Import ZArith.
From S2P Require Import Prelude.
From S2P Require Import GoStrings.
From S2P Require Import Json.
From S2P Require Import Cloudscale.

(** ** Annotation names *)

Definition LoadBalancerUUID : string := "k8s.cloudscale.ch/loadbalancer-uuid".
Definition LoadBalancerConfigVersion : string := "k8s.cloudscale.ch/loadbalancer-config-version".
Definition LoadBalancerName : string := "k8s.cloudscale.ch/loadbalancer-name".
Definition LoadBalancerFlavor : string := "k8s.cloudscale.ch/loadbalancer-flavor".
Definition LoadBalancerZone : string := "k8s.cloudscale.ch/loadbalancer-zone".
Definition LoadBalancerVIPAddresses : string := "k8s.cloudscale.ch/loadbalancer-vip-addresses".
Definition LoadBalancerFloatingIPs : string := "k8s.cloudscale.ch/loadbalancer-floating-ips".
Definition LoadBalancerPoolAlgorithm : string := "k8s.cloudscale.ch/loadbalancer-pool-algorithm".
Definition LoadBalancerPoolProtocol : string := "k8s.cloudscale.ch/loadbalancer-pool-protocol".
Definition LoadBalancerForceHostname : string := "k8s.cloudscale.ch/loadbalancer-force-hostname".
Definition LoadBalancerIPMode : string := "k8s.cloudscale.ch/loadbalancer-ip-mode".
Definition LoadBalancerHealthMonitorDelayS : string := "k8s.cloudscale.ch/loadbalancer-health-monitor-delay-s".
Definition LoadBalancerHealthMonitorTimeoutS : string := "k8s.cloudscale.ch/loadbalancer-health-monitor-timeout-s".
Definition LoadBalancerHealthMonitorUpThreshold : string := "k8s.cloudscale.ch/loadbalancer-health-monitor-up-threshold".
Definition LoadBalancerHealthMonitorDownThreshold : string := "k8s.cloudscale.ch/loadbalancer-health-monitor-down-threshold".
Definition LoadBalancerHealthMonitorType : string := "k8s.cloudscale.ch/loadbalancer-health-monitor-type".
Definition LoadBalancerHealthMonitorHTTP : string := "k8s.cloudscale.ch/loadbalancer-health-monitor-http".
Definition LoadBalancerListenerProtocol : string := "k8s.cloudscale.ch/loadbalancer-listener-protocol".
Definition LoadBalancerListenerAllowedCIDRs : string := "k8s.cloudscale.ch/loadbalancer-listener-allowed-cidrs".
Definition LoadBalancerListenerTimeoutClientDataMS : string := "k8s.cloudscale.ch/loadbalancer-timeout-client-data-ms".
Definition LoadBalancerListenerTimeoutMemberConnectMS : string := "k8s.cloudscale.ch/loadbalancer-timeout-member-connect-ms".
Definition LoadBalancerListenerTimeoutMemberDataMS : string := "k8s.cloudscale.ch/loadbalancer-timeout-member-data-ms".
Definition LoadBalancerListenerAllowedSubnets : string := "k8s.cloudscale.ch/loadbalancer-listener-allowed-subnets".
Definition LoadBalancerNodeSelector : string := "k8s.cloudscale.ch/loadbalancer-node-selector".

(** ** The wrapped service *)

Record serviceInfo : Type := MkServiceInfo {
  svc : Service.t;
  clusterName : string }.

(** The service is a pointer; the function panics when it is nil. *)
Definition newServiceInfo (service : option Service.t) (clusterName : string)
    : result serviceInfo :=
  match service with
  | None => Panic "v1.Service pointer is nil"
  | Some service => Ok (MkServiceInfo service clusterName)
  end.

(** The boolean and the error of the Go function. *)
Definition isSupported (s : serviceInfo) : bool * option error :=
  match Service.LoadBalancerClass (svc s) with
  | Some class => (false, Some (ErrorString ("not supported LoadBalancerClass: " +:+ class)))
  | None => (true, None)
  end.

Definition annotationOrElse (s : serviceInfo) (key : string) (fn : unit → string)
    : string :=
  match Service.Annotations (svc s) with
  | None => fn tt
  | Some annotations =>
      match annotations !! key with None => fn tt | Some value => value end
  end.

Definition annotationOrDefault (s : serviceInfo) (key value : string) : string :=
  annotationOrElse s key (λ _, value).

Definition annotation (s : serviceInfo) (key : string) : string :=
  if decide (key = LoadBalancerConfigVersion) then "1"
  else if decide (key = LoadBalancerName) then
    annotationOrElse s key (λ _, "k8s-service-" +:+ Service.UID (svc s))
  else if decide (key = LoadBalancerZone) then annotationOrDefault s key ""
  else if decide (key = LoadBalancerUUID) then annotationOrDefault s key ""
  else if decide (key = LoadBalancerPoolProtocol) then annotationOrDefault s key "tcp"
  else if decide (key = LoadBalancerForceHostname) then annotationOrDefault s key ""
  else if decide (key = LoadBalancerIPMode) then annotationOrDefault s key "Proxy"
  else if decide (key = LoadBalancerFlavor) then annotationOrDefault s key "lb-standard"
  else if decide (key = LoadBalancerVIPAddresses) then annotationOrDefault s key "[]"
  else if decide (key = LoadBalancerFloatingIPs) then annotationOrDefault s key "[]"
  else if decide (key = LoadBalancerPoolAlgorithm) then annotationOrDefault s key "round_robin"
  else if decide (key = LoadBalancerHealthMonitorDelayS) then annotationOrDefault s key "2"
  else if decide (key = LoadBalancerHealthMonitorTimeoutS) then annotationOrDefault s key "1"
  else if decide (key = LoadBalancerHealthMonitorUpThreshold) then annotationOrDefault s key "2"
  else if decide (key = LoadBalancerHealthMonitorDownThreshold) then annotationOrDefault s key "3"
  else if decide (key = LoadBalancerHealthMonitorType) then annotationOrDefault s key "tcp"
  else if decide (key = LoadBalancerHealthMonitorHTTP) then annotationOrDefault s key "{}"
  else if decide (key = LoadBalancerListenerProtocol) then annotationOrDefault s key "tcp"
  else if decide (key = LoadBalancerListenerAllowedCIDRs) then annotationOrDefault s key "[]"
  else if decide (key = LoadBalancerListenerTimeoutClientDataMS) then annotationOrDefault s key "50000"
  else if decide (key = LoadBalancerListenerTimeoutMemberConnectMS) then annotationOrDefault s key "5000"
  else if decide (key = LoadBalancerListenerTimeoutMemberDataMS) then annotationOrDefault s key "50000"
  else if decide (key = LoadBalancerListenerAllowedSubnets) then annotationOrDefault s key "[]"
  else if decide (key = LoadBalancerNodeSelector) then annotationOrDefault s key ""
  else annotationOrElse s key (λ _, "").

(** The errors of [annotationInt] and [annotationList] always name the delay
    annotation, whatever [key] is. *)
Definition annotationInt (s : serviceInfo) (key : string) : result Z :=
  match Atoi (annotation s key) with
  | (v, None) => Ok v
  | (_, Some err) =>
      Err (WrapError ("cannot convert " +:+ annotation s key +:+ " to int (" +:+
                      LoadBalancerHealthMonitorDelayS +:+ "): ") err)
  end.

Definition annotationList (s : serviceInfo) (key : string) : result (list string) :=
  let value := annotation s key in
  if decide (Trim is_space value = "") then Ok []
  else
    wrap_err
      (WrapError ("not a valid JSON string list: " +:+ value +:+ " (" +:+
                  LoadBalancerHealthMonitorDelayS +:+ "): "))
      (Unmarshal_strings value).

(** [annotationMarshal] into a nil [[]VIPAddressRequest], its only use. *)
Definition annotationMarshal `{SDK} (s : serviceInfo) (key : string)
    : result (list VIPAddressRequest.t) :=
  wrap_err (WrapError ("failed to parse " +:+ key +:+ ": "))
    (Unmarshal_structs VIPAddressRequest.zero decode_VIPAddressRequest
      (annotation s key)).
