(* ===== verification/Actions.v ===== *)
(** * Actions

    Package [actions] (src/pkg/internal/actions): the commands the reconciler
    produces, one constructor per Go struct that implements [Action], the
    functions that build them, their labels, and [Run], which performs the API
    call of an action and answers with a control code. *)

From stdpp Require Import base tactics list gmap strings.
From Stdlib Require Import ZArith.
From S2P Require Import Prelude.
From S2P Require Import GoStrings.
From S2P Require Import Cloudscale.

(** ** Control codes (control.go) *)

Inductive Control : Type := Errored | Proceed | Refresh.

#[global] Instance Control_eq_dec : EqDecision Control.
Proof. solve_decision. Defined.

(** The integer behind a control code. *)
Definition control_code (c : Control) : Z :=
  match c with Errored => 0 | Proceed => 10 | Refresh => 20 end.

Definition ProceedOnSuccess (err : option error) : Control * option error :=
  match err with Some e => (Errored, Some e) | None => (Proceed, None) end.

Definition RefreshOnSuccess (err : option error) : Control * option error :=
  match err with Some e => (Errored, Some e) | None => (Refresh, None) end.

(** ** The action structs (actions.go) *)

Inductive Action : Type :=
| RefetchAction
| CreateLbAction (lb : LoadBalancer.t)
| RenameLbAction (UUID Name : string)
| AwaitLbAction (lb : LoadBalancer.t)
| DeleteResourceAction (url : string)
| SleepAction (duration : Z)
| CreatePoolAction (lbUUID : string) (pool : Pool.t)
| CreatePoolMemberAction (poolUUID : string) (member : PoolMember.t)
| CreateListenerAction (poolUUID : string) (listener : Listener.t)
| UpdateListenerAllowedCIDRsAction (listenerUUID : string) (allowedCIDRs : list string)
| UpdateListenerTimeoutAction (key listenerUUID : string) (timeout : Z)
| CreateHealthMonitorAction (poolUUID : string) (monitor : HealthMonitor.t)
| UpdateMonitorHTTPMethodAction (monitorUUID method : string)
| UpdateMonitorHTTPPathAction (monitorUUID path : string)
| UpdateMonitorHTTPHostAction (monitorUUID : string) (host : option strptr)
| UpdateMonitorHTTPExpectedCodesAction (monitorUUID : string) (expectedCodes : list string)
| UpdateMonitorNumberAction (monitorUUID : string) (number : Z) (key : string)
| AssignFloatingIPAction (ip lbUUID : string).

#[global] Instance Action_eq_dec : EqDecision Action.
Proof. solve_decision. Defined.

Definition Refetch : Action := RefetchAction.
Definition CreateLb (lb : LoadBalancer.t) : Action := CreateLbAction lb.
Definition RenameLb (uuid name : string) : Action := RenameLbAction uuid name.
Definition AwaitLb (lb : LoadBalancer.t) : Action := AwaitLbAction lb.
Definition DeleteResource (url : string) : Action := DeleteResourceAction url.
Definition Sleep (duration : Z) : Action := SleepAction duration.
Definition CreatePool (lbUUID : string) (pool : Pool.t) : Action :=
  CreatePoolAction lbUUID pool.
Definition CreatePoolMember (poolUUID : string) (member : PoolMember.t) : Action :=
  CreatePoolMemberAction poolUUID member.
Definition CreateListener (poolUUID : string) (listener : Listener.t) : Action :=
  CreateListenerAction poolUUID listener.
Definition UpdateListenerAllowedCIDRs (listenerUUID : string)
    (allowedCIDRs : list string) : Action :=
  UpdateListenerAllowedCIDRsAction listenerUUID allowedCIDRs.
Definition UpdateListenerTimeout (listenerUUID : string) (timeout : Z)
    (key : string) : Action :=
  UpdateListenerTimeoutAction key listenerUUID timeout.
Definition CreateHealthMonitor (poolUUID : string) (monitor : HealthMonitor.t)
    : Action :=
  CreateHealthMonitorAction poolUUID monitor.
Definition UpdateMonitorHTTPMethod (monitorUUID method : string) : Action :=
  UpdateMonitorHTTPMethodAction monitorUUID method.
Definition UpdateMonitorHTTPPath (monitorUUID path : string) : Action :=
  UpdateMonitorHTTPPathAction monitorUUID path.
Definition UpdateMonitorHTTPHost (monitorUUID : string) (host : option strptr)
    : Action :=
  UpdateMonitorHTTPHostAction monitorUUID host.
Definition UpdateMonitorHTTPExpectedCodes (monitorUUID : string)
    (expectedCodes : list string) : Action :=
  UpdateMonitorHTTPExpectedCodesAction monitorUUID expectedCodes.
Definition UpdateMonitorNumber (monitorUUID : string) (number : Z) (key : string)
    : Action :=
  UpdateMonitorNumberAction monitorUUID number key.
Definition AssignFloatingIP (ip lbUUID : string) : Action :=
  AssignFloatingIPAction ip lbUUID.

(** ** Label *)

Definition host_text (host : option strptr) : string :=
  match host with None => "<nil>" | Some p => pointer_text (addr p) end.

Definition label_Refetch : string :=
  "refetch".

Definition label_CreateLb (lb : LoadBalancer.t) : string :=
  "create-lb(" +:+ LoadBalancer.Name lb +:+ ")".

Definition label_RenameLb (uuid name : string) : string :=
  "rename-lb(" +:+ uuid +:+ " -> " +:+ name +:+ ")".

Definition label_AwaitLb (lb : LoadBalancer.t) : string :=
  "await-lb(" +:+ LoadBalancer.Name lb +:+ " is " +:+ LoadBalancer.Status lb +:+ ")".

Definition label_DeleteResource (url : string) : string :=
  "delete-resource(" +:+ url +:+ ")".

Definition label_Sleep (d : Z) : string :=
  "sleep-" +:+ Duration_String d.

Definition label_CreatePool (lbUUID : string) (pool : Pool.t) : string :=
  "create-pool(" +:+ lbUUID +:+ "/" +:+ Pool.Name pool +:+ ")".

Definition label_CreatePoolMember (poolUUID : string) (m : PoolMember.t) : string :=
  "create-pool-member(" +:+ poolUUID +:+ "/" +:+ PoolMember.Name m +:+ ")".

Definition label_CreateListener (poolUUID : string) (l : Listener.t) : string :=
  "create-listener(" +:+ poolUUID +:+ "/" +:+ Listener.Name l +:+ ")".

Definition label_UpdateListenerAllowedCIDRs (uuid : string) (cidrs : list string) : string :=
  "update-cidrs(" +:+ uuid +:+ "/" +:+ Join cidrs "," +:+ ")".

Definition label_UpdateListenerTimeout (key uuid : string) (timeout : Z) : string :=
  "update-listener-timeout-" +:+ key +:+ "(" +:+ uuid +:+ ": " +:+ Itoa timeout +:+ "ms)".

Definition label_CreateHealthMonitor (poolUUID : string) (m : HealthMonitor.t) : string :=
  "create-monitor(" +:+ poolUUID +:+ "/" +:+ HealthMonitor.Type_ m +:+ ")".

Definition label_UpdateMonitorHTTPMethod (uuid method : string) : string :=
  "update-monitor-http-method (" +:+ uuid +:+ ": " +:+ method +:+ ")".

Definition label_UpdateMonitorHTTPPath (uuid path : string) : string :=
  "update-monitor-http-path (" +:+ uuid +:+ ": " +:+ path +:+ ")".

Definition label_UpdateMonitorHTTPHost (uuid : string) (host : option strptr) : string :=
  "update-monitor-http-host (" +:+ uuid +:+ ": " +:+ host_text host +:+ ")".

Definition label_UpdateMonitorHTTPExpectedCodes (uuid : string) (codes : list string) : string :=
  "update-monitor-http-expected-codes (" +:+ uuid +:+ ": " +:+ strings_text codes +:+ ")".

Definition label_UpdateMonitorNumber (uuid : string) (number : Z) (key : string) : string :=
  "update-monitor-" +:+ key +:+ "(" +:+ uuid +:+ ": " +:+ Itoa number +:+ ")".

Definition label_AssignFloatingIP (ip lbUUID : string) : string :=
  "assign-floating-ip(" +:+ ip +:+ " -> " +:+ lbUUID +:+ ")".

(** The method of the interface. *)
Definition Label (a : Action) : string :=
  match a with
  | RefetchAction => label_Refetch
  | CreateLbAction lb => label_CreateLb lb
  | RenameLbAction uuid name => label_RenameLb uuid name
  | AwaitLbAction lb => label_AwaitLb lb
  | DeleteResourceAction url => label_DeleteResource url
  | SleepAction d => label_Sleep d
  | CreatePoolAction lbUUID pool => label_CreatePool lbUUID pool
  | CreatePoolMemberAction poolUUID m => label_CreatePoolMember poolUUID m
  | CreateListenerAction poolUUID l => label_CreateListener poolUUID l
  | UpdateListenerAllowedCIDRsAction uuid cidrs => label_UpdateListenerAllowedCIDRs uuid cidrs
  | UpdateListenerTimeoutAction key uuid timeout => label_UpdateListenerTimeout key uuid timeout
  | CreateHealthMonitorAction poolUUID m => label_CreateHealthMonitor poolUUID m
  | UpdateMonitorHTTPMethodAction uuid method => label_UpdateMonitorHTTPMethod uuid method
  | UpdateMonitorHTTPPathAction uuid path => label_UpdateMonitorHTTPPath uuid path
  | UpdateMonitorHTTPHostAction uuid host => label_UpdateMonitorHTTPHost uuid host
  | UpdateMonitorHTTPExpectedCodesAction uuid codes => label_UpdateMonitorHTTPExpectedCodes uuid codes
  | UpdateMonitorNumberAction uuid number key => label_UpdateMonitorNumber uuid number key
  | AssignFloatingIPAction ip lbUUID => label_AssignFloatingIP ip lbUUID
  end.

(** ** Run *)

Section Run.
Context {W : Type} `{Client W}.

(** The error of a call, and nothing else of it. *)
Definition err_of {A} (m : M W A) : M W (option error) :=
  try m (λ _, mret None) (λ e, mret (Some e)).

Definition proceed_on_success {A} (m : M W A) : M W (Control * option error) :=
  err ← err_of m; mret (ProceedOnSuccess err).

Definition err_aborted : error := ErrorString "action has been aborted".

Definition run_CreateLb (lb : LoadBalancer.t) : M W (Control * option error) :=
  let addrs := (λ a, VIPAddressRequest.Mk (VIPAddress.Address a)
                       (SubnetStub.UUID (VIPAddress.Subnet a)))
               <$> LoadBalancer.VIPAddresses lb in
  proceed_on_success (LoadBalancers_Create
    {| LoadBalancerRequest.Name := LoadBalancer.Name lb;
       LoadBalancerRequest.Flavor := LoadBalancer.Flavor lb;
       LoadBalancerRequest.VIPAddresses := Some addrs;
       LoadBalancerRequest.Zone := LoadBalancer.Zone lb |}).

Definition run_RenameLb (uuid name : string) : M W (Control * option error) :=
  proceed_on_success (LoadBalancers_Update uuid
    {| LoadBalancerRequest.Name := name;
       LoadBalancerRequest.Flavor := "";
       LoadBalancerRequest.VIPAddresses := None;
       LoadBalancerRequest.Zone := "" |}).

Definition run_AwaitLb (lb : LoadBalancer.t) : M W (Control * option error) :=
  mret (if decide (LoadBalancer.Status lb = "changing") then (Refresh, None)
        else (Proceed, None)).

Definition run_DeleteResource (url : string) : M W (Control * option error) :=
  try (NewRequest "DELETE" url)
    (λ req, proceed_on_success (Do req))
    (λ err, mret (Errored, Some (WrapError
       ("delete resource action for " +:+ url +:+ " failed: ") err))).

Definition run_Sleep (duration : Z) : M W (Control * option error) := λ w,
  let '(done, w') := select_after duration w in
  (Ok (if done then (Errored, Some err_aborted) else (Proceed, None)), w').

Definition run_CreatePool (lbUUID : string) (pool : Pool.t)
    : M W (Control * option error) :=
  proceed_on_success (Pools_Create
    {| PoolRequest.Name := Pool.Name pool;
       PoolRequest.LoadBalancer := lbUUID;
       PoolRequest.Algorithm := Pool.Algorithm pool;
       PoolRequest.Protocol := Pool.Protocol pool |}).

Definition run_CreatePoolMember (poolUUID : string) (member : PoolMember.t)
    : M W (Control * option error) :=
  proceed_on_success (PoolMembers_Create poolUUID
    {| PoolMemberRequest.Name := PoolMember.Name member;
       PoolMemberRequest.ProtocolPort := PoolMember.ProtocolPort member;
       PoolMemberRequest.MonitorPort := PoolMember.MonitorPort member;
       PoolMemberRequest.Address := PoolMember.Address member;
       PoolMemberRequest.Subnet := SubnetStub.UUID (PoolMember.Subnet member) |}).

Definition run_CreateListener (poolUUID : string) (l : Listener.t)
    : M W (Control * option error) :=
  proceed_on_success (Listeners_Create
    {| ListenerRequest.Pool := poolUUID;
       ListenerRequest.Name := Listener.Name l;
       ListenerRequest.Protocol := Listener.Protocol l;
       ListenerRequest.ProtocolPort := Listener.ProtocolPort l;
       ListenerRequest.AllowedCIDRs := Some (Listener.AllowedCIDRs l);
       ListenerRequest.TimeoutClientDataMS := Listener.TimeoutClientDataMS l;
       ListenerRequest.TimeoutMemberConnectMS := Listener.TimeoutMemberConnectMS l;
       ListenerRequest.TimeoutMemberDataMS := Listener.TimeoutMemberDataMS l |}).

Definition run_UpdateListenerAllowedCIDRs (uuid : string) (cidrs : list string)
    : M W (Control * option error) :=
  proceed_on_success (Listeners_Update uuid
    {| ListenerRequest.Pool := ""; ListenerRequest.Name := "";
       ListenerRequest.Protocol := ""; ListenerRequest.ProtocolPort := 0;
       ListenerRequest.AllowedCIDRs := Some cidrs;
       ListenerRequest.TimeoutClientDataMS := 0;
       ListenerRequest.TimeoutMemberConnectMS := 0;
       ListenerRequest.TimeoutMemberDataMS := 0 |}).

Definition listener_timeouts (client_data connect data : Z) : ListenerRequest.t :=
  {| ListenerRequest.Pool := ""; ListenerRequest.Name := "";
     ListenerRequest.Protocol := ""; ListenerRequest.ProtocolPort := 0;
     ListenerRequest.AllowedCIDRs := None;
     ListenerRequest.TimeoutClientDataMS := client_data;
     ListenerRequest.TimeoutMemberConnectMS := connect;
     ListenerRequest.TimeoutMemberDataMS := data |}.

Definition err_unknown_key (key : string) : error :=
  ErrorString ("unknown timeout key: " +:+ key).

Definition run_UpdateListenerTimeout (key uuid : string) (timeout : Z)
    : M W (Control * option error) :=
  let update req := proceed_on_success (Listeners_Update uuid req) in
  if decide (key = "client-data-ms") then update (listener_timeouts timeout 0 0)
  else if decide (key = "member-connect-ms") then update (listener_timeouts 0 timeout 0)
  else if decide (key = "member-data-ms") then update (listener_timeouts 0 0 timeout)
  else mret (Errored, Some (err_unknown_key key)).

Definition http_request (http : MonitorHTTP.t) : MonitorHTTPRequest.t :=
  {| MonitorHTTPRequest.ExpectedCodes := MonitorHTTP.ExpectedCodes http;
     MonitorHTTPRequest.Method := MonitorHTTP.Method http;
     MonitorHTTPRequest.URLPath := MonitorHTTP.URLPath http;
     MonitorHTTPRequest.Version := MonitorHTTP.Version http;
     MonitorHTTPRequest.Host := MonitorHTTP.Host http |}.

Definition run_CreateHealthMonitor (poolUUID : string) (m : HealthMonitor.t)
    : M W (Control * option error) :=
  let http := default MonitorHTTP.zero (HealthMonitor.HTTP m) in
  proceed_on_success (HealthMonitors_Create
    {| HealthMonitorRequest.Pool := poolUUID;
       HealthMonitorRequest.DelayS := HealthMonitor.DelayS m;
       HealthMonitorRequest.TimeoutS := HealthMonitor.TimeoutS m;
       HealthMonitorRequest.UpThreshold := HealthMonitor.UpThreshold m;
       HealthMonitorRequest.DownThreshold := HealthMonitor.DownThreshold m;
       HealthMonitorRequest.Type_ := HealthMonitor.Type_ m;
       HealthMonitorRequest.HTTP := Some (http_request http) |}).

(** An update request that only carries HTTP settings. *)
Definition update_monitor_http (uuid : string) (http : MonitorHTTPRequest.t)
    : M W (Control * option error) :=
  proceed_on_success (HealthMonitors_Update uuid
    {| HealthMonitorRequest.Pool := "";
       HealthMonitorRequest.DelayS := 0; HealthMonitorRequest.TimeoutS := 0;
       HealthMonitorRequest.UpThreshold := 0; HealthMonitorRequest.DownThreshold := 0;
       HealthMonitorRequest.Type_ := "";
       HealthMonitorRequest.HTTP := Some http |}).

Definition run_UpdateMonitorHTTPMethod (uuid method : string)
    : M W (Control * option error) :=
  update_monitor_http uuid (MonitorHTTPRequest.Mk [] method "" "" None).

Definition run_UpdateMonitorHTTPPath (uuid path : string)
    : M W (Control * option error) :=
  update_monitor_http uuid (MonitorHTTPRequest.Mk [] "" path "" None).

Definition run_UpdateMonitorHTTPHost (uuid : string) (host : option strptr)
    : M W (Control * option error) :=
  update_monitor_http uuid (MonitorHTTPRequest.Mk [] "" "" "" host).

Definition run_UpdateMonitorHTTPExpectedCodes (uuid : string) (codes : list string)
    : M W (Control * option error) :=
  update_monitor_http uuid (MonitorHTTPRequest.Mk codes "" "" "" None).

Definition monitor_numbers (delay timeout up down : Z) : HealthMonitorRequest.t :=
  {| HealthMonitorRequest.Pool := "";
     HealthMonitorRequest.DelayS := delay;
     HealthMonitorRequest.TimeoutS := timeout;
     HealthMonitorRequest.UpThreshold := up;
     HealthMonitorRequest.DownThreshold := down;
     HealthMonitorRequest.Type_ := "";
     HealthMonitorRequest.HTTP := None |}.

Definition run_UpdateMonitorNumber (uuid : string) (number : Z) (key : string)
    : M W (Control * option error) :=
  let update req := proceed_on_success (HealthMonitors_Update uuid req) in
  if decide (key = "delay-s") then update (monitor_numbers number 0 0 0)
  else if decide (key = "timeout-s") then update (monitor_numbers 0 number 0 0)
  else if decide (key = "up-threshold") then update (monitor_numbers 0 0 number 0)
  else if decide (key = "down-threshold") then update (monitor_numbers 0 0 0 number)
  else mret (Errored, Some (err_unknown_key key)).

(** [ip, _, _ := strings.Cut(a.ip, "/")] *)
Definition ip_of_cidr (cidr : string) : string :=
  match Cut cidr "/" with Some (ip, _) => ip | None => cidr end.

Definition run_AssignFloatingIP (ip lbUUID : string) : M W (Control * option error) :=
  proceed_on_success (FloatingIPs_Update (ip_of_cidr ip) lbUUID).

Definition Run (a : Action) : M W (Control * option error) :=
  match a with
  | RefetchAction => mret (Refresh, None)
  | CreateLbAction lb => run_CreateLb lb
  | RenameLbAction uuid name => run_RenameLb uuid name
  | AwaitLbAction lb => run_AwaitLb lb
  | DeleteResourceAction url => run_DeleteResource url
  | SleepAction d => run_Sleep d
  | CreatePoolAction uuid pool => run_CreatePool uuid pool
  | CreatePoolMemberAction uuid m => run_CreatePoolMember uuid m
  | CreateListenerAction uuid l => run_CreateListener uuid l
  | UpdateListenerAllowedCIDRsAction uuid cidrs =>
      run_UpdateListenerAllowedCIDRs uuid cidrs
  | UpdateListenerTimeoutAction key uuid t => run_UpdateListenerTimeout key uuid t
  | CreateHealthMonitorAction uuid m => run_CreateHealthMonitor uuid m
  | UpdateMonitorHTTPMethodAction uuid s => run_UpdateMonitorHTTPMethod uuid s
  | UpdateMonitorHTTPPathAction uuid s => run_UpdateMonitorHTTPPath uuid s
  | UpdateMonitorHTTPHostAction uuid h => run_UpdateMonitorHTTPHost uuid h
  | UpdateMonitorHTTPExpectedCodesAction uuid codes =>
      run_UpdateMonitorHTTPExpectedCodes uuid codes
  | UpdateMonitorNumberAction uuid n key => run_UpdateMonitorNumber uuid n key
  | AssignFloatingIPAction ip uuid => run_AssignFloatingIP ip uuid
  end.
End Run.
