(* ===== verification/LbState.v ===== *)
(** * LbState

    The load balancer state of src/pkg/cloudscale_ccm/reconcile.go, the names
    of its parts, and [desiredLbState], which computes it from a service and
    the servers behind its nodes.

    The code keys the members, listeners and monitors of a pool by a pointer to
    the pool.  A pool pointer is modelled by [PoolPtr], the address of the
    allocation together with the pool it points to (pools are never written
    after they are allocated); the maps are keyed by the address, [None] being
    the nil pointer. *)

From stdpp Require Import base tactics list gmap strings pretty.
From Stdlib Require Import ZArith.
From S2P Require Import Prelude.
From S2P Require Import GoStrings.
From S2P Require Import Json.
From S2P Require Import Cloudscale.
From S2P Require Import ServiceInfo.

Record PoolPtr : Type := MkPoolPtr { ptr : nat; pool : Pool.t }.

#[global] Instance PoolPtr_eq_dec : EqDecision PoolPtr.
Proof. solve_decision. Defined.

Record lbState : Type := MkLbState {
  lb : option LoadBalancer.t;
  pools : list PoolPtr;
  members : gmap (option nat) (list PoolMember.t);
  monitors : gmap (option nat) (list HealthMonitor.t);
  listeners : gmap (option nat) (list Listener.t);
  floatingIPs : list string }.

(** [&lbState{}] *)
Definition zeroLbState : lbState := MkLbState None [] ∅ ∅ ∅ [].

Definition newLbState (lb : LoadBalancer.t) : lbState :=
  MkLbState (Some lb) [] ∅ ∅ ∅ [].

(** [m[k]] of a map of slices, nil where the key is missing. *)
Definition slice_at {A} (m : gmap (option nat) (list A)) (k : option nat) : list A :=
  default [] (m !! k).

(** [m[k] = append(m[k], xs...)] *)
Definition append_at {A} (m : gmap (option nat) (list A)) (k : option nat)
    (xs : list A) : gmap (option nat) (list A) :=
  <[k := slice_at m k ++ xs]> m.

Lemma slice_at_append {A} (m : gmap (option nat) (list A)) k k' xs :
  slice_at (append_at m k xs) k' =
  if decide (k = k') then slice_at m k ++ xs else slice_at m k'.
Proof.
  unfold append_at, slice_at. rewrite lookup_insert. by case_decide; subst.
Qed.

(** ** Names *)

Definition ProtocolTCP : string := "TCP".
Definition ProtocolUDP : string := "UDP".

Section names.
Context `{GoExt}.

Definition poolName (protocol name : string) : string :=
  let p := ToLower protocol in
  if decide (name = "") then p else p +:+ "/" +:+ name.

Definition poolMemberName (address : string) (port : Z) : string :=
  let address := if Contains address ":" then "[" +:+ address +:+ "]" else address in
  address +:+ ":" +:+ Itoa port.

Definition listenerName (protocol : string) (port : Z) : string :=
  ToLower (protocol +:+ "/" +:+ Itoa port).
End names.

(** ** The desired state *)

Section desired.
Context `{GoExt} `{SDK}.

Definition err_bad_mapping : error := ErrorString "bad node to server mapping".
Definition err_multiple_zones : error :=
  ErrorString "no loadbalancer zone set and nodes in multiple zones".
Definition err_no_zone : error :=
  ErrorString "no loadbalancer zone set and no server zone information available - nodes may not be provisioned yet".

(** The loop over the servers' zones. *)
Fixpoint serversZone (zone : string) (servers : list Server.t) : result string :=
  match servers with
  | [] => Ok zone
  | s :: servers' =>
      if decide (zone ≠ "" ∧ zone ≠ Server.Zone s) then Err err_multiple_zones
      else serversZone (Server.Zone s) servers'
  end.

Definition desiredZone (info : serviceInfo) (servers : list Server.t) : result string :=
  let zone := annotation info LoadBalancerZone in
  if decide (zone = "") then
    zone ← serversZone zone servers;
    if decide (zone = "") then Err err_no_zone else Ok zone
  else Ok zone.

Definition listenerForPort (info : serviceInfo) (port : ServicePort.t)
    : result Listener.t :=
  let protocol :=
    if decide (ServicePort.Protocol port = ProtocolTCP)
    then annotation info LoadBalancerListenerProtocol else "udp" in
  client_data ← annotationInt info LoadBalancerListenerTimeoutClientDataMS;
  connect ← annotationInt info LoadBalancerListenerTimeoutMemberConnectMS;
  member_data ← annotationInt info LoadBalancerListenerTimeoutMemberDataMS;
  cidrs ← annotationList info LoadBalancerListenerAllowedCIDRs;
  Ok {| Listener.HREF := ""; Listener.UUID := "";
        Listener.Name := listenerName protocol (ServicePort.Port port);
        Listener.Protocol := protocol;
        Listener.ProtocolPort := ServicePort.Port port;
        Listener.AllowedCIDRs := cidrs;
        Listener.TimeoutClientDataMS := client_data;
        Listener.TimeoutMemberConnectMS := connect;
        Listener.TimeoutMemberDataMS := member_data;
        Listener.Pool := None;
        Listener.LoadBalancer := "" |}.

(** The defaults filled into decoded HTTP options; the code dereferences the
    pointer without a check. *)
Definition fill_http_defaults (http : option MonitorHTTP.t) : result MonitorHTTP.t :=
  match http with
  | None => Panic "invalid memory address or nil pointer dereference"
  | Some h =>
      Ok {| MonitorHTTP.Method :=
              if decide (MonitorHTTP.Method h = "") then "GET" else MonitorHTTP.Method h;
            MonitorHTTP.URLPath :=
              if decide (MonitorHTTP.URLPath h = "") then "/" else MonitorHTTP.URLPath h;
            MonitorHTTP.ExpectedCodes :=
              if decide (MonitorHTTP.ExpectedCodes h = []) then ["200"]
              else MonitorHTTP.ExpectedCodes h;
            MonitorHTTP.Version :=
              if decide (MonitorHTTP.Version h = "") then "1.1" else MonitorHTTP.Version h;
            MonitorHTTP.Host := MonitorHTTP.Host h |}
  end.

Definition livez_http : MonitorHTTP.t :=
  {| MonitorHTTP.URLPath := "/livez";
     MonitorHTTP.Version := "1.0";
     MonitorHTTP.Host := None;
     MonitorHTTP.Method := "GET";
     MonitorHTTP.ExpectedCodes := ["200"] |}.

Definition healthMonitorForPort (info : serviceInfo) : result HealthMonitor.t :=
  delay ← annotationInt info LoadBalancerHealthMonitorDelayS;
  timeout ← annotationInt info LoadBalancerHealthMonitorTimeoutS;
  up ← annotationInt info LoadBalancerHealthMonitorUpThreshold;
  down ← annotationInt info LoadBalancerHealthMonitorDownThreshold;
  let http := annotation info LoadBalancerHealthMonitorHTTP in
  options ←
    (if decide (http = "{}") then Ok None
     else
       h ← wrap_err (WrapError ("invalid json in " +:+ LoadBalancerHealthMonitorHTTP +:+ ": "))
             (Unmarshal_pointer MonitorHTTP.zero decode_MonitorHTTP http);
       Some <$> fill_http_defaults h);
  let local := bool_decide (Service.ExternalTrafficPolicy (svc info) = "Local") in
  Ok {| HealthMonitor.HREF := ""; HealthMonitor.UUID := "";
        HealthMonitor.Type_ :=
          if local then "http" else annotation info LoadBalancerHealthMonitorType;
        HealthMonitor.HTTP :=
          if local && bool_decide (http = "{}") then Some livez_http else options;
        HealthMonitor.DelayS := delay;
        HealthMonitor.TimeoutS := timeout;
        HealthMonitor.UpThreshold := up;
        HealthMonitor.DownThreshold := down;
        HealthMonitor.Pool := "" |}.

(** The pool members of the servers' private addresses, for the subnets of
    the allowed-subnets annotation ([[]] allows every subnet). *)
Definition allowed_address (allowed : list string) (a : ServerAddress.t) : bool :=
  let subnet := SubnetStub.UUID (ServerAddress.Subnet a) in
  negb (bool_decide (subnet = "")) &&
  (bool_decide (allowed = []) || bool_decide (subnet ∈ allowed)).

Definition poolMember (nodePort monitorPort : Z) (a : ServerAddress.t) : PoolMember.t :=
  {| PoolMember.HREF := "";
     PoolMember.Name := poolMemberName (ServerAddress.Address a) nodePort;
     PoolMember.Enabled := true;
     PoolMember.Address := ServerAddress.Address a;
     PoolMember.Subnet := ServerAddress.Subnet a;
     PoolMember.ProtocolPort := nodePort;
     PoolMember.MonitorPort := monitorPort |}.

Definition interfaceMembers (allowed : list string) (nodePort monitorPort : Z)
    (iface : ServerInterface.t) : list PoolMember.t :=
  if decide (ServerInterface.Type_ iface = "public") then []
  else flat_map (λ a, if allowed_address allowed a
                      then [poolMember nodePort monitorPort a] else [])
         (ServerInterface.Addresses iface).

Definition desiredMembers (allowed : list string) (nodePort monitorPort : Z)
    (servers : list Server.t) : list PoolMember.t :=
  flat_map (λ s, flat_map (interfaceMembers allowed nodePort monitorPort)
                   (Server.Interfaces s)) servers.

Definition err_protocol (info : serviceInfo) (port : ServicePort.t) : error :=
  ErrorString ("service " +:+ Service.Name (svc info) +:+ ": cannot use " +:+
    ServicePort.Protocol port +:+ " for " +:+ Itoa (ServicePort.Port port) +:+
    ", only TCP and UDP are supported").

Definition err_port (info : serviceInfo) (port : ServicePort.t) : error :=
  ErrorString ("service " +:+ Service.Name (svc info) +:+ ": unknown port: " +:+
    Itoa (ServicePort.NodePort port)).

Definition monitorPortFor (info : serviceInfo) (nodePort : Z) : Z :=
  if decide (Service.ExternalTrafficPolicy (svc info) = "Local") then
    if decide (0 < Service.HealthCheckNodePort (svc info))%Z
    then Service.HealthCheckNodePort (svc info) else nodePort
  else nodePort.

Definition desiredPool (info : serviceInfo) (port : ServicePort.t) : Pool.t :=
  {| Pool.HREF := ""; Pool.UUID := "";
     Pool.Name := poolName (ServicePort.Protocol port) (ServicePort.Name port);
     Pool.Algorithm := annotation info LoadBalancerPoolAlgorithm;
     Pool.Protocol :=
       if decide (ServicePort.Protocol port = ProtocolTCP)
       then annotation info LoadBalancerPoolProtocol else "udp";
     Pool.LoadBalancer := "" |}.

(** One iteration of the loop over the service ports.  The new pool is
    allocated at a fresh address: one more than the pools so far. *)
Definition desiredPort (info : serviceInfo) (servers : list Server.t)
    (s : lbState) (port : ServicePort.t) : result lbState :=
  if decide (ServicePort.Protocol port ≠ ProtocolTCP ∧
             ServicePort.Protocol port ≠ ProtocolUDP)
  then Err (err_protocol info port)
  else
  let nodePort := ServicePort.NodePort port in
  if decide (nodePort = 0)%Z then Err (err_port info port)
  else
  let monitorPort := monitorPortFor info nodePort in
  let p := MkPoolPtr (length (pools s)) (desiredPool info port) in
  let k := Some (ptr p) in
  allowed ← annotationList info LoadBalancerListenerAllowedSubnets;
  monitor ← healthMonitorForPort info;
  listener ← listenerForPort info port;
  Ok {| lb := lb s;
        pools := pools s ++ [p];
        members := append_at (members s) k (desiredMembers allowed nodePort monitorPort servers);
        monitors := append_at (monitors s) k [monitor];
        listeners := append_at (listeners s) k [listener];
        floatingIPs := floatingIPs s |}.

Definition err_parse_floating : error :=
  ErrorString ("could not parse " +:+ LoadBalancerFloatingIPs).

Definition desiredLbState (info : serviceInfo) (nodes : list Node.t)
    (servers : list Server.t) : result lbState :=
  if decide (length nodes ≠ length servers) then Err err_bad_mapping
  else
  zone ← desiredZone info servers;
  vip ← annotationMarshal info LoadBalancerVIPAddresses;
  let addrs := (λ v, VIPAddress.Mk (VIPAddressRequest.Address v)
                       (SubnetStub.Mk (VIPAddressRequest.Subnet v) "")) <$> vip in
  let s := newLbState
    {| LoadBalancer.HREF := ""; LoadBalancer.UUID := "";
       LoadBalancer.Name := annotation info LoadBalancerName;
       LoadBalancer.Status := "";
       LoadBalancer.VIPAddresses := addrs;
       LoadBalancer.Flavor := annotation info LoadBalancerFlavor;
       LoadBalancer.Zone := zone |} in
  ips ← wrap_err (λ _, err_parse_floating)
          (annotationList info LoadBalancerFloatingIPs);
  foldR (desiredPort info servers)
    {| lb := lb s; pools := pools s; members := members s; monitors := monitors s;
       listeners := listeners s; floatingIPs := ips |}
    (Service.Ports (svc info)).
End desired.
