(* ===== verification/NextActions.v ===== *)
(** * NextActions

    [nextLbActions] of src/pkg/cloudscale_ccm/reconcile.go: the actions that
    bring an actual load balancer state closer to a desired one.  The function
    appends to one slice and returns early; here each stage is a definition
    that gives the actions it appends, and [nextLbActions] puts them together
    in the order of the code. *)

From stdpp Require Import base tactics list gmap strings.
From Stdlib Require Import ZArith.
From S2P Require Import Prelude.
From S2P Require Import GoStrings.
From S2P Require Import Compare.
From S2P Require Import Cloudscale.
From S2P Require Import Actions.
From S2P Require Import ServiceInfo.
From S2P Require Import LbState.

(** ** Keys *)

Definition poolKey (p : PoolPtr) : string :=
  Sprint_strings [Pool.Name (pool p); Pool.Algorithm (pool p); Pool.Protocol (pool p)].

Section keys.
Context `{GoExt} `{SDK}.

Definition poolMemberKey (m : PoolMember.t) : string :=
  Sprintf (PoolMember.Name m)
    [ArgBool (PoolMember.Enabled m); ArgInt (PoolMember.MonitorPort m);
     ArgInt (PoolMember.ProtocolPort m); ArgString (PoolMember.Address m);
     ArgStruct "cloudscale.SubnetStub" (SubnetStub_text (PoolMember.Subnet m))].

Definition listenerKey (l : Listener.t) : string :=
  Sprintf (Listener.Name l)
    [ArgString (Listener.Protocol l); ArgInt (Listener.ProtocolPort l)].

Definition httpVersion (m : HealthMonitor.t) : string :=
  match HealthMonitor.HTTP m with
  | Some h => if decide (MonitorHTTP.Version h = "") then "1.1" else MonitorHTTP.Version h
  | None => "1.1"
  end.

Definition monitorKey (m : HealthMonitor.t) : string :=
  Sprintf (HealthMonitor.Type_ m) [ArgString (httpVersion m)].
End keys.

(** ** Stages *)

Definition deleteResource (url : string) : list Action :=
  [DeleteResource url; Sleep (500 * Millisecond)].

(** The comparison of the VIP addresses: [slices.EqualFunc]. *)
Definition vip_match (d a : VIPAddress.t) : bool :=
  (bool_decide (VIPAddress.Address d = "") ||
   bool_decide (VIPAddress.Address d = VIPAddress.Address a)) &&
  bool_decide (SubnetStub.UUID (VIPAddress.Subnet d) =
               SubnetStub.UUID (VIPAddress.Subnet a)).

Fixpoint EqualFunc {A B} (eq : A → B → bool) (xs : list A) (ys : list B) : bool :=
  match xs, ys with
  | [], [] => true
  | x :: xs', y :: ys' => eq x y && EqualFunc eq xs' ys'
  | _, _ => false
  end.

Definition err_vip (a : LoadBalancer.t) : error :=
  ErrorString ("VIP addresses for " +:+ LoadBalancer.HREF a +:+
               " changed, please re-create the service").
Definition err_flavor (a : LoadBalancer.t) : error :=
  ErrorString ("flavor for " +:+ LoadBalancer.HREF a +:+
               " changed, please configure the previous flavor or contact support").
Definition err_zone (a : LoadBalancer.t) : error :=
  ErrorString ("zone for " +:+ LoadBalancer.HREF a +:+
               " changed, please configure the previous zone or contact support").

(** The changes that need a new load balancer, which are refused.  The VIP
    addresses are only compared when some are desired. *)
Definition check_immutable (d a : LoadBalancer.t) : option error :=
  let vips := LoadBalancer.VIPAddresses d in
  if bool_decide (vips ≠ []) &&
     negb (EqualFunc vip_match vips (LoadBalancer.VIPAddresses a))
  then Some (err_vip a)
  else if decide (LoadBalancer.Flavor d ≠ LoadBalancer.Flavor a) then Some (err_flavor a)
  else if decide (LoadBalancer.Zone d ≠ LoadBalancer.Zone a) then Some (err_zone a)
  else None.

Definition renameActions (d a : LoadBalancer.t) : list Action :=
  if decide (LoadBalancer.Name d ≠ LoadBalancer.Name a)
  then [RenameLb (LoadBalancer.UUID a) (LoadBalancer.Name d)] else [].

(** The pools to delete, with their members, and the pools to create. *)
Definition poolActions (actual : lbState) (a : LoadBalancer.t)
    (toDelete toCreate : list PoolPtr) : list Action :=
  flat_map (λ p,
    flat_map (λ m, deleteResource (PoolMember.HREF m))
      (slice_at (members actual) (Some (ptr p))) ++
    deleteResource (Pool.HREF (pool p))) toDelete ++
  map (λ p, CreatePool (LoadBalancer.UUID a) (pool p)) toCreate.

(** [pools[p.Name] = p] *)
Definition poolsByName (l : lbState) : gmap string PoolPtr :=
  fold_left (λ m p, <[Pool.Name (pool p) := p]> m) (pools l) ∅.

(** Delete, pause if there is also something to create, create: the shape of
    the three diffs of a pool. *)
Definition replaceActions {T} (href : T → string) (create : T → Action)
    (diff : list T * list T) : list Action :=
  let '(toDelete, toCreate) := diff in
  flat_map (λ x, deleteResource (href x)) toDelete ++
  (if decide (0 < length toDelete ∧ 0 < length toCreate)%nat
   then [Sleep (5 * Second)] else []) ++
  map create toCreate.

Section stages.
Context `{GoExt} `{SDK} `{MapOrder}.

(** The body of the first loop over the desired pools, [i]-th iteration. *)
Definition syncPool (desired actual : lbState) (i : nat) (d a : PoolPtr)
    : list Action :=
  let kd := Some (ptr d) in
  let ka := Some (ptr a) in
  let uuid := Pool.UUID (pool a) in
  replaceActions PoolMember.HREF (CreatePoolMember uuid)
    (Diff [i; 0%nat] (slice_at (members desired) kd) (slice_at (members actual) ka)
       poolMemberKey) ++
  replaceActions Listener.HREF (CreateListener uuid)
    (Diff [i; 1%nat] (slice_at (listeners desired) kd) (slice_at (listeners actual) ka)
       listenerKey) ++
  replaceActions HealthMonitor.HREF (CreateHealthMonitor uuid)
    (Diff [i; 2%nat] (slice_at (monitors desired) kd) (slice_at (monitors actual) ka)
       monitorKey).

Definition err_no_pool (d : PoolPtr) : error :=
  ErrorString ("no existing pool found for " +:+ Pool.Name (pool d)).

(** The first loop: it stops with an error at a pool without counterpart. *)
Fixpoint syncPools (desired actual : lbState) (i : nat) (ds : list PoolPtr)
    : result (list Action) :=
  match ds with
  | [] => Ok []
  | d :: ds' =>
      match poolsByName actual !! Pool.Name (pool d) with
      | None => Err (err_no_pool d)
      | Some a =>
          rest ← syncPools desired actual (S i) ds';
          Ok (syncPool desired actual i d a ++ rest)
      end
  end.

Definition when (b : bool) (a : Action) : list Action := if b then [a] else [].

Definition updateListener (dl al : Listener.t) : list Action :=
  let uuid := Listener.UUID al in
  when (bool_decide (Listener.AllowedCIDRs dl ≠ Listener.AllowedCIDRs al))
    (UpdateListenerAllowedCIDRs uuid (Listener.AllowedCIDRs dl)) ++
  when (bool_decide (Listener.TimeoutClientDataMS dl ≠ Listener.TimeoutClientDataMS al))
    (UpdateListenerTimeout uuid (Listener.TimeoutClientDataMS dl) "client-data-ms") ++
  when (bool_decide (Listener.TimeoutMemberConnectMS dl ≠ Listener.TimeoutMemberConnectMS al))
    (UpdateListenerTimeout uuid (Listener.TimeoutMemberConnectMS dl) "member-connect-ms") ++
  when (bool_decide (Listener.TimeoutMemberDataMS dl ≠ Listener.TimeoutMemberDataMS al))
    (UpdateListenerTimeout uuid (Listener.TimeoutMemberDataMS dl) "member-data-ms").

Definition updateMonitorHTTP (uuid : string) (dh ah : MonitorHTTP.t) : list Action :=
  when (negb (ptr_eqb (MonitorHTTP.Host dh) (MonitorHTTP.Host ah)))
    (UpdateMonitorHTTPHost uuid (MonitorHTTP.Host dh)) ++
  when (bool_decide (MonitorHTTP.URLPath dh ≠ MonitorHTTP.URLPath ah))
    (UpdateMonitorHTTPPath uuid (MonitorHTTP.URLPath dh)) ++
  when (bool_decide (MonitorHTTP.Method dh ≠ MonitorHTTP.Method ah))
    (UpdateMonitorHTTPMethod uuid (MonitorHTTP.Method dh)) ++
  when (bool_decide (MonitorHTTP.ExpectedCodes dh ≠ MonitorHTTP.ExpectedCodes ah))
    (UpdateMonitorHTTPExpectedCodes uuid (MonitorHTTP.ExpectedCodes dh)).

Definition updateMonitor (dm am : HealthMonitor.t) : list Action :=
  let uuid := HealthMonitor.UUID am in
  match HealthMonitor.HTTP dm, HealthMonitor.HTTP am with
  | Some dh, Some ah => updateMonitorHTTP uuid dh ah
  | _, _ => []
  end ++
  when (bool_decide (HealthMonitor.DelayS dm ≠ HealthMonitor.DelayS am))
    (UpdateMonitorNumber uuid (HealthMonitor.DelayS dm) "delay-s") ++
  when (bool_decide (HealthMonitor.TimeoutS dm ≠ HealthMonitor.TimeoutS am))
    (UpdateMonitorNumber uuid (HealthMonitor.TimeoutS dm) "timeout-s") ++
  when (bool_decide (HealthMonitor.UpThreshold dm ≠ HealthMonitor.UpThreshold am))
    (UpdateMonitorNumber uuid (HealthMonitor.UpThreshold dm) "up-threshold") ++
  when (bool_decide (HealthMonitor.DownThreshold dm ≠ HealthMonitor.DownThreshold am))
    (UpdateMonitorNumber uuid (HealthMonitor.DownThreshold dm) "down-threshold").

(** The body of the second loop; a pool without counterpart is nil. *)
Definition updatePool (desired actual : lbState) (d : PoolPtr) : list Action :=
  let kd := Some (ptr d) in
  let ka := ptr <$> poolsByName actual !! Pool.Name (pool d) in
  flat_map (λ '(dl, al), updateListener dl al)
    (Match (slice_at (listeners desired) kd) (slice_at (listeners actual) ka) listenerKey) ++
  flat_map (λ '(dm, am), updateMonitor dm am)
    (Match (slice_at (monitors desired) kd) (slice_at (monitors actual) ka) monitorKey).

Definition assignActions (desired actual : lbState) (a : LoadBalancer.t) : list Action :=
  map (λ ip, AssignFloatingIP ip (LoadBalancer.UUID a))
    (Diff [3%nat] (floatingIPs desired) (floatingIPs actual) (λ ip, ip)).2.

(** The stages below the load balancer itself, [next] being the actions so
    far. *)
Definition reconcileParts (desired actual : lbState) (d a : LoadBalancer.t)
    (next : list Action) : result (list Action) :=
  let '(toDelete, toCreate) := Diff [4%nat] (pools desired) (pools actual) poolKey in
  let next := next ++ poolActions actual a toDelete toCreate in
  if decide (0 < length toDelete ∨ 0 < length toCreate)%nat then Ok (next ++ [Refetch])
  else
  changes ← syncPools desired actual 0 (pools desired);
  if decide (0 < length changes)%nat then Ok (next ++ changes ++ [Refetch])
  else
  Ok (next ++ changes ++ flat_map (updatePool desired actual) (pools desired) ++
      assignActions desired actual a).

Definition err_no_desired : error := ErrorString "no desired state given".

Definition nextLbActions (desired actual : option lbState) : result (list Action) :=
  match desired, actual with
  | None, _ | _, None => Err err_no_desired
  | Some desired, Some actual =>
      match lb desired, lb actual with
      | None, None => Ok []
      | Some d, None => Ok [CreateLb d; Refetch]
      | None, Some a => Ok [AwaitLb a; DeleteResource (LoadBalancer.HREF a)]
      | Some d, Some a =>
          match check_immutable d a with
          | Some e => Err e
          | None =>
              reconcileParts desired actual d a ([AwaitLb a] ++ renameActions d a)
          end
      end
  end.
End stages.
