(* ===== verification/Examples.v ===== *)
(** * Examples

    Concrete inputs on which the theorems are applied: an instance of the
    external code, a service with two ports, two servers, the state desired
    for them, and states as the API would report them. *)

From stdpp Require Import base tactics list gmap strings.
From Stdlib Require Import ZArith.
From S2P Require Import Prelude.
From S2P Require Import GoStrings.
From S2P Require Import Json.
From S2P Require Import Cloudscale.
From S2P Require Import ServiceInfo.
From S2P Require Import LbState.

(** ** External code *)

(** The last field with the given name, if it is a string. *)
Definition string_field (fields : list (string * json)) (name : string) : string :=
  match last (filter (λ f, f.1 = name) fields) with
  | Some (_, JString s) => s
  | _ => ""
  end.

Definition strings_field (fields : list (string * json)) (name : string) : list string :=
  match last (filter (λ f, f.1 = name) fields) with
  | Some (_, j) => match decode_slice decode_string j with Ok l => l | _ => [] end
  | _ => []
  end.

(** An SDK whose structs carry plain tags, and whose decoder allocates a host
    at address 1. *)
Definition example_SDK : SDK := {|
  SubnetStub_text s := "{" +:+ SubnetStub.UUID s +:+ " " +:+ SubnetStub.rest s +:+ "}";
  decode_VIPAddressRequest fields :=
    Ok (VIPAddressRequest.Mk (string_field fields "address") (string_field fields "subnet"));
  decode_MonitorHTTP fields :=
    Ok (MonitorHTTP.Mk (strings_field fields "expected_codes")
          (string_field fields "method") (string_field fields "url_path")
          (string_field fields "version")
          (match string_field fields "host" with "" => None | h => Some (MkPtr 1 h) end)) |}.

(** A JSON text written with single quotes. *)
Definition quoted (s : string) : string :=
  map_string (λ c, if Ascii.eqb c "'" then "034"%char else c) s.

(** ** A service *)

Definition example_ports : list ServicePort.t :=
  [ServicePort.Mk "http" "TCP" 80 30080; ServicePort.Mk "dns" "UDP" 53 30053].

Definition example_service (annotations : list (string * string)) : serviceInfo :=
  MkServiceInfo
    {| Service.Namespace := "default";
       Service.Name := "web";
       Service.UID := "deadbeef";
       Service.Annotations := Some (list_to_map annotations);
       Service.Type_ := "LoadBalancer";
       Service.LoadBalancerClass := None;
       Service.ExternalTrafficPolicy := "Cluster";
       Service.HealthCheckNodePort := 0;
       Service.Ports := example_ports |} "kubernetes".

Definition example_subnet : SubnetStub.t := SubnetStub.Mk "subnet-1" "10.0.0.0/24".

Definition example_server (name public private : string) : Server.t :=
  {| Server.UUID := name; Server.Name := name; Server.Status := "running";
     Server.Zone := "lpg1"; Server.Flavor := "flex-4-2";
     Server.Interfaces :=
       [ServerInterface.Mk "public" [ServerAddress.Mk public (SubnetStub.Mk "public-subnet" "")];
        ServerInterface.Mk "private" [ServerAddress.Mk private example_subnet]] |}.

Definition example_servers : list Server.t :=
  [example_server "worker-1" "5.102.144.1" "10.0.0.1";
   example_server "worker-2" "5.102.144.2" "10.0.0.2"].

Definition example_nodes : list Node.t :=
  [Node.Mk "worker-1" ∅ ""; Node.Mk "worker-2" ∅ ""].

(** ** Load balancer states *)

Definition state_or_zero (r : result lbState) : lbState :=
  match r with Ok s => s | _ => zeroLbState end.

Definition example_desired (annotations : list (string * string)) : lbState :=
  state_or_zero (@desiredLbState example_GoExt example_SDK
                   (example_service annotations) example_nodes example_servers).

(** The state the API reports when it has everything a desired state asks for:
    the same parts, with identifiers, and hosts in new allocations. *)
Definition reported_lb (l : LoadBalancer.t) : LoadBalancer.t :=
  {| LoadBalancer.HREF := "/lb/1"; LoadBalancer.UUID := "lb-1";
     LoadBalancer.Name := LoadBalancer.Name l; LoadBalancer.Status := "running";
     LoadBalancer.VIPAddresses := LoadBalancer.VIPAddresses l;
     LoadBalancer.Flavor := LoadBalancer.Flavor l; LoadBalancer.Zone := LoadBalancer.Zone l |}.

Definition reported_pool (p : PoolPtr) : PoolPtr :=
  MkPoolPtr (ptr p)
    {| Pool.HREF := "/pool/" +:+ Pool.Name (pool p); Pool.UUID := Pool.Name (pool p);
       Pool.Name := Pool.Name (pool p); Pool.Algorithm := Pool.Algorithm (pool p);
       Pool.Protocol := Pool.Protocol (pool p); Pool.LoadBalancer := "lb-1" |}.

Definition reported_member (m : PoolMember.t) : PoolMember.t :=
  {| PoolMember.HREF := "/member/" +:+ PoolMember.Name m; PoolMember.Name := PoolMember.Name m;
     PoolMember.Enabled := PoolMember.Enabled m; PoolMember.Address := PoolMember.Address m;
     PoolMember.Subnet := PoolMember.Subnet m;
     PoolMember.ProtocolPort := PoolMember.ProtocolPort m;
     PoolMember.MonitorPort := PoolMember.MonitorPort m |}.

Definition reported_listener (l : Listener.t) : Listener.t :=
  {| Listener.HREF := "/listener/" +:+ Listener.Name l; Listener.UUID := Listener.Name l;
     Listener.Name := Listener.Name l; Listener.Protocol := Listener.Protocol l;
     Listener.ProtocolPort := Listener.ProtocolPort l;
     Listener.AllowedCIDRs := Listener.AllowedCIDRs l;
     Listener.TimeoutClientDataMS := Listener.TimeoutClientDataMS l;
     Listener.TimeoutMemberConnectMS := Listener.TimeoutMemberConnectMS l;
     Listener.TimeoutMemberDataMS := Listener.TimeoutMemberDataMS l;
     Listener.Pool := Some "pool"; Listener.LoadBalancer := "lb-1" |}.

Definition reported_host (h : MonitorHTTP.t) : MonitorHTTP.t :=
  {| MonitorHTTP.ExpectedCodes := MonitorHTTP.ExpectedCodes h;
     MonitorHTTP.Method := MonitorHTTP.Method h; MonitorHTTP.URLPath := MonitorHTTP.URLPath h;
     MonitorHTTP.Version := MonitorHTTP.Version h;
     MonitorHTTP.Host := (λ p, MkPtr 2 (deref p)) <$> MonitorHTTP.Host h |}.

Definition reported_monitor (m : HealthMonitor.t) : HealthMonitor.t :=
  {| HealthMonitor.HREF := "/monitor/" +:+ HealthMonitor.Type_ m;
     HealthMonitor.UUID := "monitor-" +:+ HealthMonitor.Type_ m;
     HealthMonitor.Type_ := HealthMonitor.Type_ m;
     HealthMonitor.HTTP := reported_host <$> HealthMonitor.HTTP m;
     HealthMonitor.DelayS := HealthMonitor.DelayS m;
     HealthMonitor.TimeoutS := HealthMonitor.TimeoutS m;
     HealthMonitor.UpThreshold := HealthMonitor.UpThreshold m;
     HealthMonitor.DownThreshold := HealthMonitor.DownThreshold m;
     HealthMonitor.Pool := "pool" |}.

Definition reported (s : lbState) : lbState :=
  {| lb := option_map reported_lb (lb s);
     pools := map reported_pool (pools s);
     members := map reported_member <$> members s;
     monitors := map reported_monitor <$> monitors s;
     listeners := map reported_listener <$> listeners s;
     floatingIPs := floatingIPs s |}.

(** Without the members of the first pool. *)
Definition without_members (s : lbState) : lbState :=
  {| lb := lb s; pools := pools s; members := delete (Some 0%nat) (members s);
     monitors := monitors s; listeners := listeners s; floatingIPs := floatingIPs s |}.

(** A load balancer to fall back on when a state has none. *)
Definition no_lb : LoadBalancer.t := LoadBalancer.Mk "" "" "" "" [] "" "".
Definition lb_of (s : lbState) : LoadBalancer.t := default no_lb (lb s).

Definition first_pool (s : lbState) : PoolPtr :=
  match pools s with p :: _ => p | [] => MkPoolPtr 0 (Pool.Mk "" "" "" "" "" "") end.
Definition first_monitor (s : lbState) : HealthMonitor.t :=
  match slice_at (monitors s) (Some 0%nat) with
  | m :: _ => m
  | [] => HealthMonitor.Mk "" "" "" None 0 0 0 0 ""
  end.
Definition http_of (m : HealthMonitor.t) : MonitorHTTP.t :=
  default MonitorHTTP.zero (HealthMonitor.HTTP m).

(** A service whose monitor checks a virtual host. *)
Definition host_annotations : list (string * string) :=
  [(LoadBalancerHealthMonitorHTTP, quoted "{'host':'example.org'}");
   (LoadBalancerHealthMonitorType, "http")].
