(* ===== verification/NextActionsSpec.v ===== *)
(** * NextActionsSpec

    What [nextLbActions] promises: a declarative notion of a settled load
    balancer and the proof that exactly the settled states need no action, the
    stages an action list consists of, what may be deleted, and independence
    of Go's map iteration order. *)

From stdpp Require Import base tactics list gmap strings.
From Stdlib Require Import ZArith.
From S2P Require Import Prelude.
From S2P Require Import GoStrings.
From S2P Require Import Compare.
From S2P Require Import Cloudscale.
From S2P Require Import Actions.
From S2P Require Import ServiceInfo.
From S2P Require Import LbState.
From S2P Require Import NextActions.
From S2P Require Import Examples.

(** ** The specification of a settled state *)

(** The desired address may be left open, the subnet may not. *)
Definition vip_accepts (d a : VIPAddress.t) : Prop :=
  (VIPAddress.Address d = "" ∨ VIPAddress.Address d = VIPAddress.Address a) ∧
  SubnetStub.UUID (VIPAddress.Subnet d) = SubnetStub.UUID (VIPAddress.Subnet a).

(** What cannot be changed on an existing load balancer. *)
Record immutable_ok (d a : LoadBalancer.t) : Prop := {
  vips_ok : LoadBalancer.VIPAddresses d = [] ∨
    Forall2 vip_accepts (LoadBalancer.VIPAddresses d) (LoadBalancer.VIPAddresses a);
  flavor_ok : LoadBalancer.Flavor d = LoadBalancer.Flavor a;
  zone_ok : LoadBalancer.Zone d = LoadBalancer.Zone a }.

Record listener_settled (dl al : Listener.t) : Prop := {
  cidrs_settled : Listener.AllowedCIDRs dl = Listener.AllowedCIDRs al;
  client_data_settled : Listener.TimeoutClientDataMS dl = Listener.TimeoutClientDataMS al;
  connect_settled : Listener.TimeoutMemberConnectMS dl = Listener.TimeoutMemberConnectMS al;
  member_data_settled : Listener.TimeoutMemberDataMS dl = Listener.TimeoutMemberDataMS al }.

(** The host is compared as a pointer. *)
Record http_settled (dh ah : MonitorHTTP.t) : Prop := {
  host_settled : addr <$> MonitorHTTP.Host dh = addr <$> MonitorHTTP.Host ah;
  path_settled : MonitorHTTP.URLPath dh = MonitorHTTP.URLPath ah;
  method_settled : MonitorHTTP.Method dh = MonitorHTTP.Method ah;
  codes_settled : MonitorHTTP.ExpectedCodes dh = MonitorHTTP.ExpectedCodes ah }.

Record monitor_settled (dm am : HealthMonitor.t) : Prop := {
  http_options_settled dh ah :
    HealthMonitor.HTTP dm = Some dh → HealthMonitor.HTTP am = Some ah → http_settled dh ah;
  delay_settled : HealthMonitor.DelayS dm = HealthMonitor.DelayS am;
  timeout_settled : HealthMonitor.TimeoutS dm = HealthMonitor.TimeoutS am;
  up_settled : HealthMonitor.UpThreshold dm = HealthMonitor.UpThreshold am;
  down_settled : HealthMonitor.DownThreshold dm = HealthMonitor.DownThreshold am }.

(** The updates that two matching listeners or monitors need: one action per
    deviating setting, which carries the desired value to the actual part. *)
Inductive listener_update (dl al : Listener.t) : Action → Prop :=
| update_cidrs :
    Listener.AllowedCIDRs dl ≠ Listener.AllowedCIDRs al →
    listener_update dl al
      (UpdateListenerAllowedCIDRsAction (Listener.UUID al) (Listener.AllowedCIDRs dl))
| update_client_data :
    Listener.TimeoutClientDataMS dl ≠ Listener.TimeoutClientDataMS al →
    listener_update dl al
      (UpdateListenerTimeoutAction "client-data-ms" (Listener.UUID al)
         (Listener.TimeoutClientDataMS dl))
| update_member_connect :
    Listener.TimeoutMemberConnectMS dl ≠ Listener.TimeoutMemberConnectMS al →
    listener_update dl al
      (UpdateListenerTimeoutAction "member-connect-ms" (Listener.UUID al)
         (Listener.TimeoutMemberConnectMS dl))
| update_member_data :
    Listener.TimeoutMemberDataMS dl ≠ Listener.TimeoutMemberDataMS al →
    listener_update dl al
      (UpdateListenerTimeoutAction "member-data-ms" (Listener.UUID al)
         (Listener.TimeoutMemberDataMS dl)).

(** The hosts differ when the pointers do, whatever they point to. *)
Inductive http_update (uuid : string) (dh ah : MonitorHTTP.t) : Action → Prop :=
| update_host :
    addr <$> MonitorHTTP.Host dh ≠ addr <$> MonitorHTTP.Host ah →
    http_update uuid dh ah (UpdateMonitorHTTPHostAction uuid (MonitorHTTP.Host dh))
| update_path :
    MonitorHTTP.URLPath dh ≠ MonitorHTTP.URLPath ah →
    http_update uuid dh ah (UpdateMonitorHTTPPathAction uuid (MonitorHTTP.URLPath dh))
| update_method :
    MonitorHTTP.Method dh ≠ MonitorHTTP.Method ah →
    http_update uuid dh ah (UpdateMonitorHTTPMethodAction uuid (MonitorHTTP.Method dh))
| update_codes :
    MonitorHTTP.ExpectedCodes dh ≠ MonitorHTTP.ExpectedCodes ah →
    http_update uuid dh ah
      (UpdateMonitorHTTPExpectedCodesAction uuid (MonitorHTTP.ExpectedCodes dh)).

Inductive monitor_update (dm am : HealthMonitor.t) : Action → Prop :=
| update_http dh ah x :
    HealthMonitor.HTTP dm = Some dh → HealthMonitor.HTTP am = Some ah →
    http_update (HealthMonitor.UUID am) dh ah x → monitor_update dm am x
| update_delay :
    HealthMonitor.DelayS dm ≠ HealthMonitor.DelayS am →
    monitor_update dm am
      (UpdateMonitorNumberAction (HealthMonitor.UUID am) (HealthMonitor.DelayS dm) "delay-s")
| update_timeout :
    HealthMonitor.TimeoutS dm ≠ HealthMonitor.TimeoutS am →
    monitor_update dm am
      (UpdateMonitorNumberAction (HealthMonitor.UUID am) (HealthMonitor.TimeoutS dm) "timeout-s")
| update_up_threshold :
    HealthMonitor.UpThreshold dm ≠ HealthMonitor.UpThreshold am →
    monitor_update dm am
      (UpdateMonitorNumberAction (HealthMonitor.UUID am) (HealthMonitor.UpThreshold dm)
         "up-threshold")
| update_down_threshold :
    HealthMonitor.DownThreshold dm ≠ HealthMonitor.DownThreshold am →
    monitor_update dm am
      (UpdateMonitorNumberAction (HealthMonitor.UUID am) (HealthMonitor.DownThreshold dm)
         "down-threshold").

Section spec.
Context `{GoExt} `{SDK}.
Implicit Types (desired actual : lbState) (d a : PoolPtr).

(** The parts of the desired pool [d] exist on the actual pool [a], and [a]
    has no others. *)
Record pool_parts_match desired actual d a : Prop := {
  members_match : same_keys poolMemberKey
    (slice_at (members desired) (Some (ptr d))) (slice_at (members actual) (Some (ptr a)));
  listeners_match : same_keys listenerKey
    (slice_at (listeners desired) (Some (ptr d))) (slice_at (listeners actual) (Some (ptr a)));
  monitors_match : same_keys monitorKey
    (slice_at (monitors desired) (Some (ptr d))) (slice_at (monitors actual) (Some (ptr a))) }.

(** Matching listeners and monitors have the desired settings. *)
Record pool_settings_match desired actual d a : Prop := {
  listener_settings dl al :
    dl ∈ slice_at (listeners desired) (Some (ptr d)) →
    last_with listenerKey (slice_at (listeners actual) (Some (ptr a))) (listenerKey dl) = Some al →
    listener_settled dl al;
  monitor_settings dm am :
    dm ∈ slice_at (monitors desired) (Some (ptr d)) →
    last_with monitorKey (slice_at (monitors actual) (Some (ptr a))) (monitorKey dm) = Some am →
    monitor_settled dm am }.

Record in_sync desired actual (dlb alb : LoadBalancer.t) : Prop := {
  sync_immutable : immutable_ok dlb alb;
  sync_name : LoadBalancer.Name dlb = LoadBalancer.Name alb;
  sync_pools : same_keys poolKey (pools desired) (pools actual);
  sync_parts d : d ∈ pools desired → ∃ a,
    poolsByName actual !! Pool.Name (pool d) = Some a ∧
    pool_parts_match desired actual d a ∧ pool_settings_match desired actual d a;
  sync_floating : floatingIPs desired ⊆ floatingIPs actual }.

(** ** When a stage has nothing to do *)

Lemma EqualFunc_Forall2 {A B} (eq : A → B → bool) (P : A → B → Prop) xs ys :
  (∀ x y, eq x y = true ↔ P x y) →
  EqualFunc eq xs ys = true ↔ Forall2 P xs ys.
Proof.
  intros HP. revert ys. induction xs as [|x xs IH]; intros [|y ys]; simpl.
  - split; [constructor|done].
  - by split; [|inversion 1].
  - by split; [|inversion 1].
  - by rewrite andb_true_iff, IH, Forall2_cons, HP.
Qed.

Lemma vip_match_spec (d a : VIPAddress.t) : vip_match d a = true ↔ vip_accepts d a.
Proof.
  unfold vip_match, vip_accepts.
  by rewrite andb_true_iff, orb_true_iff, !bool_decide_eq_true.
Qed.

Lemma check_immutable_spec (d a : LoadBalancer.t) : check_immutable d a = None ↔ immutable_ok d a.
Proof.
  unfold check_immutable.
  assert (bool_decide (LoadBalancer.VIPAddresses d ≠ []) &&
          negb (EqualFunc vip_match (LoadBalancer.VIPAddresses d)
                  (LoadBalancer.VIPAddresses a)) = false ↔
          LoadBalancer.VIPAddresses d = [] ∨
          Forall2 vip_accepts (LoadBalancer.VIPAddresses d)
            (LoadBalancer.VIPAddresses a)) as Hvip.
  { rewrite andb_false_iff, bool_decide_eq_false, negb_false_iff.
    rewrite (EqualFunc_Forall2 _ _ _ _ vip_match_spec).
    destruct (LoadBalancer.VIPAddresses d); naive_solver. }
  destruct (_ && _).
  - split; [done|]. intros [Hv _ _]. by apply Hvip in Hv.
  - apply proj1 in Hvip. specialize (Hvip eq_refl).
    destruct (decide (LoadBalancer.Flavor d ≠ LoadBalancer.Flavor a)) as [Hf|Hf].
    { split; [done|]. by intros []. }
    destruct (decide (LoadBalancer.Zone d ≠ LoadBalancer.Zone a)) as [Hz|Hz].
    { split; [done|]. by intros []. }
    split; [|done]. intros _. split; [done|by apply dec_stable..].
Qed.

Lemma when_nil b x : when b x = [] ↔ b = false.
Proof. by destruct b. Qed.

Lemma neq_false {A} `{EqDecision A} (x y : A) :
  bool_decide (x ≠ y) = false ↔ x = y.
Proof. rewrite bool_decide_eq_false. split; [apply dec_stable|tauto]. Qed.

Lemma elem_of_when b x y : x ∈ when b y ↔ b = true ∧ x = y.
Proof. destruct b; simpl; set_solver. Qed.

Lemma elem_of_when_neq {A} `{EqDecision A} (n m : A) x y :
  x ∈ when (bool_decide (n ≠ m)) y ↔ n ≠ m ∧ x = y.
Proof. by rewrite elem_of_when, bool_decide_eq_true. Qed.

Lemma elem_of_updateListener dl al x : x ∈ updateListener dl al ↔ listener_update dl al x.
Proof.
  unfold updateListener. rewrite !elem_of_app, !elem_of_when_neq. split.
  - intros [[? ->]|[[? ->]|[[? ->]|[? ->]]]]; by constructor.
  - destruct 1; tauto.
Qed.

Lemma elem_of_updateMonitorHTTP uuid dh ah x :
  x ∈ updateMonitorHTTP uuid dh ah ↔ http_update uuid dh ah x.
Proof.
  unfold updateMonitorHTTP, ptr_eqb. rewrite !elem_of_app, !elem_of_when_neq, elem_of_when,
    negb_true_iff, bool_decide_eq_false. split.
  - intros [[? ->]|[[? ->]|[[? ->]|[? ->]]]]; by constructor.
  - destruct 1; tauto.
Qed.

Lemma elem_of_updateMonitor dm am x : x ∈ updateMonitor dm am ↔ monitor_update dm am x.
Proof.
  unfold updateMonitor. rewrite !elem_of_app, !elem_of_when_neq. split.
  - intros [Hx|[[? ->]|[[? ->]|[[? ->]|[? ->]]]]]; [|by constructor..].
    destruct (HealthMonitor.HTTP dm) as [dh|] eqn:Hd, (HealthMonitor.HTTP am) as [ah|] eqn:Ha;
      try by apply not_elem_of_nil in Hx.
    by eapply update_http, elem_of_updateMonitorHTTP.
  - destruct 1 as [dh ah x -> -> Hx|?|?|?|?]; [|tauto..].
    left. by apply elem_of_updateMonitorHTTP.
Qed.

Lemma updateListener_nil dl al : updateListener dl al = [] ↔ listener_settled dl al.
Proof.
  unfold updateListener. rewrite !app_nil, !when_nil, !neq_false.
  split; [intros (?&?&?&?); by split|by intros []].
Qed.

Lemma updateMonitorHTTP_nil uuid dh ah :
  updateMonitorHTTP uuid dh ah = [] ↔ http_settled dh ah.
Proof.
  unfold updateMonitorHTTP, ptr_eqb.
  rewrite !app_nil, !when_nil, !neq_false, negb_false_iff, bool_decide_eq_true.
  split; [intros (?&?&?&?); by split|by intros []].
Qed.

Lemma updateMonitor_nil dm am : updateMonitor dm am = [] ↔ monitor_settled dm am.
Proof.
  unfold updateMonitor. rewrite !app_nil, !when_nil, !neq_false. split.
  - intros (Hhttp & ?&?&?&?). split; try done.
    intros dh ah Hd Ha. rewrite Hd, Ha in Hhttp. by apply updateMonitorHTTP_nil in Hhttp.
  - intros [Hhttp ????]. split_and!; try done.
    destruct (HealthMonitor.HTTP dm), (HealthMonitor.HTTP am); try done.
    by apply updateMonitorHTTP_nil, Hhttp.
Qed.

Lemma replaceActions_nil {T} (href : T → string) create del cre :
  replaceActions href create (del, cre) = [] ↔ (del, cre) = ([], []).
Proof.
  split; [|by intros [= -> ->]]. unfold replaceActions.
  destruct del; [|done]. destruct cre; [done|]. by case_decide.
Qed.

Section order.
Context `{MapOrder}.

Lemma replace_diff_nil {T} (href : T → string) create s des act key :
  replaceActions href create (Diff s des act key) = [] ↔ same_keys key des act.
Proof.
  rewrite <- (Diff_nil_iff s). destruct (Diff s des act key).
  apply replaceActions_nil.
Qed.

Lemma syncPool_nil desired actual i d a :
  syncPool desired actual i d a = [] ↔ pool_parts_match desired actual d a.
Proof.
  unfold syncPool. rewrite !app_nil, !replace_diff_nil.
  split; [intros (?&?&?); by split|by intros []].
Qed.

Lemma syncPools_Ok desired actual i ds acts :
  syncPools desired actual i ds = Ok acts →
  ∀ d, d ∈ ds → ∃ a, poolsByName actual !! Pool.Name (pool d) = Some a.
Proof.
  revert i acts. induction ds as [|d' ds IH]; intros i acts Hs d;
    simpl in *; [by intros ?%not_elem_of_nil|].
  destruct (poolsByName actual !! Pool.Name (pool d')) as [a|] eqn:Ha; [|done].
  apply bind_Ok in Hs as (rest & Hs & _).
  intros [->|Hd]%elem_of_cons; eauto.
Qed.

Lemma syncPools_nil desired actual i ds :
  syncPools desired actual i ds = Ok [] ↔
  ∀ d, d ∈ ds → ∃ a, poolsByName actual !! Pool.Name (pool d) = Some a ∧
    pool_parts_match desired actual d a.
Proof.
  revert i. induction ds as [|d ds IH]; intros i; simpl.
  { split; [|done]. by intros _ d ?%not_elem_of_nil. }
  setoid_rewrite elem_of_cons.
  destruct (poolsByName actual !! Pool.Name (pool d)) as [a|] eqn:Ha.
  - rewrite bind_Ok. split.
    + intros (rest & Hrest & [= [Hd ->]%app_nil]) d' [->|Hd'].
      * exists a. by apply syncPool_nil in Hd.
      * by eapply IH.
    + intros Hall. exists []. split; [apply (IH (S i)); eauto|].
      destruct (Hall d (or_introl eq_refl)) as (a' & Ha' & Hm).
      rewrite Ha in Ha'. simplify_eq. f_equal. apply app_nil.
      split; [by apply syncPool_nil|done].
  - split; [done|]. intros Hall.
    destruct (Hall d (or_introl eq_refl)) as (a' & Ha' & _). congruence.
Qed.

Lemma updatePool_nil desired actual d a :
  poolsByName actual !! Pool.Name (pool d) = Some a →
  updatePool desired actual d = [] ↔ pool_settings_match desired actual d a.
Proof.
  intros Ha. unfold updatePool. rewrite Ha. simpl.
  rewrite app_nil, !flat_map_nil. split.
  - intros [Hl Hm]. split.
    + intros dl al Hdl Hal. apply updateListener_nil.
      by apply (Hl (dl, al)), elem_of_Match.
    + intros dm am Hdm Ham. apply updateMonitor_nil.
      by apply (Hm (dm, am)), elem_of_Match.
  - intros [Hl Hm]. split; intros [x y] [??]%elem_of_Match.
    + by apply updateListener_nil, Hl.
    + by apply updateMonitor_nil, Hm.
Qed.

Lemma assignActions_nil desired actual alb :
  assignActions desired actual alb = [] ↔ floatingIPs desired ⊆ floatingIPs actual.
Proof.
  unfold assignActions.
  pose proof (Diff_spec [3%nat] (floatingIPs desired) (floatingIPs actual) (λ ip, ip)) as HD.
  pose proof (λ k, diff_spec_create_key _ _ _ _ _ k HD) as Hc.
  set (cre := (Diff _ _ _ _).2) in *. clearbody cre. rewrite !list_fmap_id in Hc.
  split.
  - intros ->%map_eq_nil ip Hip. specialize (Hc ip).
    destruct (decide (ip ∈ floatingIPs actual)); set_solver.
  - intros Hsub. destruct cre as [|ip cre]; [done|].
    destruct (proj1 (Hc ip)) as [? []]; [set_solver|by apply Hsub].
Qed.

Lemma renameActions_nil (d a : LoadBalancer.t) :
  renameActions d a = [] ↔ LoadBalancer.Name d = LoadBalancer.Name a.
Proof.
  unfold renameActions. case_decide as Hn.
  - by split; [|intros ?].
  - by split.
Qed.

(** ** The result as a whole *)

(** The three shapes of a plan for an existing load balancer: pool
    changes, changes of pool parts, or updates in place; the first two end
    in a [Refetch]. *)
Lemma reconcileParts_cases desired actual (d a : LoadBalancer.t) next del cre :
  Diff [4%nat] (pools desired) (pools actual) poolKey = (del, cre) →
  reconcileParts desired actual d a next =
  if decide ((del, cre) = ([], [])) then
    changes ← syncPools desired actual 0 (pools desired);
    Ok (if decide (changes = [])
        then next ++ flat_map (updatePool desired actual) (pools desired) ++
             assignActions desired actual a
        else next ++ changes ++ [Refetch])
  else Ok (next ++ poolActions actual a del cre ++ [Refetch]).
Proof.
  intros Hdiff. unfold reconcileParts. rewrite Hdiff.
  destruct (decide ((del, cre) = ([], []))) as [[= -> ->]|Hne].
  - rewrite decide_False by (simpl; lia). simpl. rewrite app_nil_r.
    destruct (syncPools desired actual 0 (pools desired)) as [[|c cs]| |]; try done.
  - rewrite decide_True; [by rewrite <- app_assoc|].
    destruct del, cre; simpl; [done|lia..].
Qed.

Lemma updates_nil desired actual (alb : LoadBalancer.t) :
  syncPools desired actual 0 (pools desired) = Ok [] →
  flat_map (updatePool desired actual) (pools desired) ++
    assignActions desired actual alb = [] ↔
  (∀ d a, d ∈ pools desired → poolsByName actual !! Pool.Name (pool d) = Some a →
     pool_settings_match desired actual d a) ∧
  floatingIPs desired ⊆ floatingIPs actual.
Proof.
  intros Hs. rewrite app_nil, flat_map_nil, assignActions_nil.
  split; intros [Hu ?]; (split; [|done]).
  - intros d a Hd Ha. eapply updatePool_nil; eauto.
  - intros d Hd. edestruct syncPools_Ok as [a Ha]; [done..|].
    eapply updatePool_nil; eauto.
Qed.

Lemma reconcileParts_settled desired actual (dlb alb : LoadBalancer.t) x :
  immutable_ok dlb alb →
  reconcileParts desired actual dlb alb ([x] ++ renameActions dlb alb) = Ok [x] ↔
  in_sync desired actual dlb alb.
Proof.
  intros Himm.
  destruct (Diff [4%nat] (pools desired) (pools actual) poolKey) as [del cre] eqn:Hdiff.
  rewrite (reconcileParts_cases _ _ _ _ _ _ _ Hdiff).
  pose proof (Diff_nil_iff [4%nat] (pools desired) (pools actual) poolKey) as Hkeys.
  rewrite Hdiff in Hkeys. case_decide as Hne.
  2:{ split; [|intros []; tauto].
      by intros [= [_ [_ ?]%app_nil]%app_nil]. }
  apply Hkeys in Hne. rewrite bind_Ok. split.
  - intros (changes & Hs & [= Hr]). case_decide as Hc; subst.
    2:{ by injection Hr as [_ [_ ?]%app_nil]%app_nil. }
    injection Hr as [Hn%renameActions_nil Hu]%app_nil.
    apply updates_nil in Hu as [Hu Hf]; [|done].
    split; try done. intros d Hd.
    destruct (proj1 (syncPools_nil _ _ _ _) Hs d Hd) as (a & Ha & Hm). eauto.
  - intros [_ Hn _ Hp Hf]. exists [].
    assert (syncPools desired actual 0 (pools desired) = Ok []) as Hs.
    { apply syncPools_nil. intros d Hd. destruct (Hp d Hd) as (a & ?&?&?). eauto. }
    split; [done|]. rewrite decide_True by done. f_equal. simpl. f_equal.
    apply app_nil. split; [by apply renameActions_nil|].
    apply updates_nil; [done|]. split; [|done].
    intros d a Hd Ha. destruct (Hp d Hd) as (a' & Ha' & _ & ?). congruence.
Qed.

(** ** What each action is for *)

(** The resources of the actual state that are not desired. *)
Inductive undesired desired actual : string → Prop :=
| undesired_pool p :
    p ∈ pools actual → poolKey p ∉ poolKey <$> pools desired →
    undesired desired actual (Pool.HREF (pool p))
| undesired_pool_member p m :
    p ∈ pools actual → poolKey p ∉ poolKey <$> pools desired →
    m ∈ slice_at (members actual) (Some (ptr p)) →
    undesired desired actual (PoolMember.HREF m)
| undesired_member d a m :
    d ∈ pools desired → poolsByName actual !! Pool.Name (pool d) = Some a →
    m ∈ slice_at (members actual) (Some (ptr a)) →
    poolMemberKey m ∉ poolMemberKey <$> slice_at (members desired) (Some (ptr d)) →
    undesired desired actual (PoolMember.HREF m)
| undesired_listener d a l :
    d ∈ pools desired → poolsByName actual !! Pool.Name (pool d) = Some a →
    l ∈ slice_at (listeners actual) (Some (ptr a)) →
    listenerKey l ∉ listenerKey <$> slice_at (listeners desired) (Some (ptr d)) →
    undesired desired actual (Listener.HREF l)
| undesired_monitor d a m :
    d ∈ pools desired → poolsByName actual !! Pool.Name (pool d) = Some a →
    m ∈ slice_at (monitors actual) (Some (ptr a)) →
    monitorKey m ∉ monitorKey <$> slice_at (monitors desired) (Some (ptr d)) →
    undesired desired actual (HealthMonitor.HREF m).

(** Why an action may be part of a plan for an existing load balancer. *)
Inductive planned desired actual (dlb alb : LoadBalancer.t) : Action → Prop :=
| planned_await : planned desired actual dlb alb (AwaitLb alb)
| planned_rename :
    LoadBalancer.Name dlb ≠ LoadBalancer.Name alb →
    planned desired actual dlb alb
      (RenameLb (LoadBalancer.UUID alb) (LoadBalancer.Name dlb))
| planned_sleep t :
    t = (500 * Millisecond)%Z ∨ t = (5 * Second)%Z →
    planned desired actual dlb alb (Sleep t)
| planned_refetch : planned desired actual dlb alb Refetch
| planned_delete url :
    undesired desired actual url → planned desired actual dlb alb (DeleteResource url)
| planned_pool p :
    p ∈ pools desired → poolKey p ∉ poolKey <$> pools actual →
    planned desired actual dlb alb (CreatePool (LoadBalancer.UUID alb) (pool p))
| planned_member d a m :
    d ∈ pools desired → poolsByName actual !! Pool.Name (pool d) = Some a →
    m ∈ slice_at (members desired) (Some (ptr d)) →
    poolMemberKey m ∉ poolMemberKey <$> slice_at (members actual) (Some (ptr a)) →
    planned desired actual dlb alb (CreatePoolMember (Pool.UUID (pool a)) m)
| planned_listener d a l :
    d ∈ pools desired → poolsByName actual !! Pool.Name (pool d) = Some a →
    l ∈ slice_at (listeners desired) (Some (ptr d)) →
    listenerKey l ∉ listenerKey <$> slice_at (listeners actual) (Some (ptr a)) →
    planned desired actual dlb alb (CreateListener (Pool.UUID (pool a)) l)
| planned_monitor d a m :
    d ∈ pools desired → poolsByName actual !! Pool.Name (pool d) = Some a →
    m ∈ slice_at (monitors desired) (Some (ptr d)) →
    monitorKey m ∉ monitorKey <$> slice_at (monitors actual) (Some (ptr a)) →
    planned desired actual dlb alb (CreateHealthMonitor (Pool.UUID (pool a)) m)
| planned_listener_update d a dl al x :
    d ∈ pools desired → poolsByName actual !! Pool.Name (pool d) = Some a →
    dl ∈ slice_at (listeners desired) (Some (ptr d)) →
    last_with listenerKey (slice_at (listeners actual) (Some (ptr a))) (listenerKey dl) = Some al →
    listener_update dl al x →
    planned desired actual dlb alb x
| planned_monitor_update d a dm am x :
    d ∈ pools desired → poolsByName actual !! Pool.Name (pool d) = Some a →
    dm ∈ slice_at (monitors desired) (Some (ptr d)) →
    last_with monitorKey (slice_at (monitors actual) (Some (ptr a))) (monitorKey dm) = Some am →
    monitor_update dm am x →
    planned desired actual dlb alb x
| planned_assign ip :
    ip ∈ floatingIPs desired → ip ∉ floatingIPs actual →
    planned desired actual dlb alb (AssignFloatingIP ip (LoadBalancer.UUID alb)).

Lemma elem_of_deleteResource url x :
  x ∈ deleteResource url ↔ x = DeleteResource url ∨ x = Sleep (500 * Millisecond).
Proof. unfold deleteResource. set_solver. Qed.

Lemma elem_of_replaceActions {T} (href : T → string) create s des act key x :
  x ∈ replaceActions href create (Diff s des act key) →
  (∃ t, (t = (500 * Millisecond)%Z ∨ t = (5 * Second)%Z) ∧ x = Sleep t) ∨
  (∃ i, i ∈ act ∧ (key i ∉ key <$> des) ∧ x = DeleteResource (href i)) ∨
  (∃ i, i ∈ des ∧ (key i ∉ key <$> act) ∧ x = create i).
Proof.
  pose proof (Diff_spec s des act key) as [Hc Hd _ _].
  destruct (Diff s des act key) as [del cre]; simpl in *.
  unfold replaceActions. rewrite !elem_of_app, elem_of_flat_map.
  intros [(i & [Hi Hk]%Hd & Hx%elem_of_deleteResource)|[Hx|Hx]].
  - apply last_with_Some in Hi as [_ Hi]. destruct Hx; subst; eauto 6.
  - case_decide; [|by apply not_elem_of_nil in Hx].
    apply list_elem_of_singleton in Hx. eauto 6.
  - apply list_elem_of_fmap in Hx as (i & -> & [Hi Hk]%Hc).
    apply last_with_Some in Hi as [_ Hi]. eauto 7.
Qed.

Lemma syncPool_planned desired actual dlb alb i d a x :
  d ∈ pools desired → poolsByName actual !! Pool.Name (pool d) = Some a →
  x ∈ syncPool desired actual i d a → planned desired actual dlb alb x.
Proof.
  intros Hd Ha. unfold syncPool. rewrite !elem_of_app.
  intros [Hx|[Hx|Hx]]; apply elem_of_replaceActions in Hx
    as [(t & Ht & ->)|[(y & Hy & Hk & ->)|(y & Hy & Hk & ->)]];
    eauto using planned, undesired.
Qed.

Lemma syncPools_planned desired actual dlb alb i ds acts :
  ds ⊆ pools desired → syncPools desired actual i ds = Ok acts →
  Forall (planned desired actual dlb alb) acts.
Proof.
  revert i acts. induction ds as [|d ds IH]; intros i acts Hds Hs; simpl in Hs.
  { injection Hs as <-. constructor. }
  destruct (poolsByName actual !! Pool.Name (pool d)) as [a|] eqn:Ha; [|done].
  apply bind_Ok in Hs as (rest & Hs & [= <-]).
  apply Forall_app. split.
  - apply Forall_forall. intros x. apply syncPool_planned; [set_solver|done].
  - eapply IH; [set_solver|done].
Qed.

Lemma poolActions_planned desired actual (dlb alb : LoadBalancer.t) del cre :
  Diff [4%nat] (pools desired) (pools actual) poolKey = (del, cre) →
  Forall (planned desired actual dlb alb) (poolActions actual alb del cre).
Proof.
  intros Hdiff. pose proof (Diff_spec [4%nat] (pools desired) (pools actual) poolKey)
    as [Hc Hd _ _]. rewrite Hdiff in Hc, Hd; simpl in *.
  unfold poolActions. apply Forall_app. split; apply Forall_forall.
  - intros x (p & [Hp Hk]%Hd & Hx)%elem_of_flat_map.
    apply last_with_Some in Hp as [_ Hp].
    apply elem_of_app in Hx as [(m & Hm & Hx)%elem_of_flat_map|Hx];
      apply elem_of_deleteResource in Hx as [->| ->]; eauto using planned, undesired.
  - intros x (p & -> & [Hp Hk]%Hc)%list_elem_of_fmap.
    apply last_with_Some in Hp as [_ Hp]. eauto using planned.
Qed.

Lemma updatePool_planned desired actual dlb alb d a x :
  d ∈ pools desired → poolsByName actual !! Pool.Name (pool d) = Some a →
  x ∈ updatePool desired actual d → planned desired actual dlb alb x.
Proof.
  intros Hd Ha. unfold updatePool. rewrite Ha. simpl. rewrite elem_of_app.
  intros [Hx|Hx]; apply elem_of_flat_map in Hx as ([y z] & [Hy Hz]%elem_of_Match & Hx).
  - apply elem_of_updateListener in Hx. by eapply planned_listener_update.
  - apply elem_of_updateMonitor in Hx. by eapply planned_monitor_update.
Qed.

Lemma assignActions_planned desired actual (dlb alb : LoadBalancer.t) :
  Forall (planned desired actual dlb alb) (assignActions desired actual alb).
Proof.
  apply Forall_forall. unfold assignActions. intros x (ip & -> & Hip)%list_elem_of_fmap.
  apply diff_create with (1 := Diff_spec _ _ _ _) in Hip as [Hi Hk].
  apply last_with_Some in Hi as [_ Hi]. rewrite list_fmap_id in Hk.
  by constructor.
Qed.
End order.
End spec.

(** ** Independence of the iteration order *)

Section perm.
Context `{GoExt} `{SDK} (o1 o2 : MapOrder).

(** Equal up to the order of the actions, errors included. *)
Definition plan_equiv (r1 r2 : result (list Action)) : Prop :=
  match r1, r2 with
  | Ok acts1, Ok acts2 => acts1 ≡ₚ acts2
  | Err e1, Err e2 => e1 = e2
  | Panic m1, Panic m2 => m1 = m2
  | _, _ => False
  end.

Lemma replaceActions_perm {T} (href : T → string) create diff1 diff2 :
  diff1.1 ≡ₚ diff2.1 → diff1.2 ≡ₚ diff2.2 →
  replaceActions href create diff1 ≡ₚ replaceActions href create diff2.
Proof.
  destruct diff1 as [del1 cre1], diff2 as [del2 cre2]; simpl.
  intros Hd Hc. unfold replaceActions.
  apply Permutation_app; [by apply Permutation_flat_map|].
  rewrite (Permutation_length Hd), (Permutation_length Hc).
  by apply Permutation_app, Permutation_map.
Qed.

Lemma replace_Diff_perm {T} (href : T → string) create s des act key :
  replaceActions href create (@Diff T o1 s des act key) ≡ₚ
  replaceActions href create (@Diff T o2 s des act key).
Proof.
  apply replaceActions_perm; apply Diff_perm.
Qed.

Lemma syncPool_perm desired actual i d a :
  @syncPool _ _ o1 desired actual i d a ≡ₚ @syncPool _ _ o2 desired actual i d a.
Proof.
  unfold syncPool.
  apply Permutation_app; [|apply Permutation_app]; apply replace_Diff_perm.
Qed.

Lemma syncPools_perm desired actual i ds :
  plan_equiv (@syncPools _ _ o1 desired actual i ds) (@syncPools _ _ o2 desired actual i ds).
Proof.
  revert i. induction ds as [|d ds IH]; intros i; simpl; [done|].
  destruct (poolsByName actual !! Pool.Name (pool d)) as [a|]; [|done].
  specialize (IH (S i)).
  destruct (@syncPools _ _ o1 desired actual (S i) ds),
    (@syncPools _ _ o2 desired actual (S i) ds); simpl in *; try done.
  by apply Permutation_app; [apply syncPool_perm|].
Qed.

Lemma poolActions_perm actual (a : LoadBalancer.t) del1 del2 cre1 cre2 :
  del1 ≡ₚ del2 → cre1 ≡ₚ cre2 →
  poolActions actual a del1 cre1 ≡ₚ poolActions actual a del2 cre2.
Proof.
  intros Hd Hc. unfold poolActions.
  apply Permutation_app; [by apply Permutation_flat_map|by apply Permutation_map].
Qed.

Lemma reconcileParts_perm desired actual (d a : LoadBalancer.t) next :
  plan_equiv (@reconcileParts _ _ o1 desired actual d a next)
    (@reconcileParts _ _ o2 desired actual d a next).
Proof.
  destruct (@Diff _ o1 [4%nat] (pools desired) (pools actual) poolKey) as [del1 cre1] eqn:D1.
  destruct (@Diff _ o2 [4%nat] (pools desired) (pools actual) poolKey) as [del2 cre2] eqn:D2.
  pose proof (@Diff_spec _ o1 [4%nat] (pools desired) (pools actual) poolKey) as S1.
  pose proof (@Diff_spec _ o2 [4%nat] (pools desired) (pools actual) poolKey) as S2.
  rewrite D1 in S1. rewrite D2 in S2. simpl in *.
  destruct (diff_spec_perm _ _ _ _ _ _ _ S1 S2) as [Hdel Hcre].
  rewrite (@reconcileParts_cases _ _ o1 _ _ _ _ _ _ _ D1).
  rewrite (@reconcileParts_cases _ _ o2 _ _ _ _ _ _ _ D2).
  destruct (decide ((del1, cre1) = ([], []))) as [[= -> ->]|Hne].
  - apply Permutation_nil in Hdel as ->. apply Permutation_nil in Hcre as ->.
    rewrite decide_True by done. pose proof (syncPools_perm desired actual 0 (pools desired)) as Hs.
    destruct (@syncPools _ _ o1 desired actual 0 (pools desired)) as [acts1| |],
      (@syncPools _ _ o2 desired actual 0 (pools desired)) as [acts2| |]; simpl in *; try done.
    case_decide as Hnil.
    + subst. apply Permutation_nil in Hs as ->. rewrite decide_True by done.
      apply Permutation_app; [done|]. apply Permutation_app; [done|].
      unfold assignActions. apply Permutation_map.
      apply Diff_perm.
    + rewrite decide_False by (by intros ->; destruct Hnil; apply Permutation_nil).
      simpl. by rewrite Hs.
  - rewrite decide_False.
    + simpl. by rewrite (poolActions_perm actual a _ _ _ _ Hdel Hcre).
    + intros [= -> ->]. apply Hne.
      by rewrite (Permutation_nil (Permutation_sym Hdel)),
        (Permutation_nil (Permutation_sym Hcre)).
Qed.
End perm.

Lemma settled_plan_iff `{GoExt} `{SDK} `{MapOrder}
    (desired actual : lbState) (alb : LoadBalancer.t) :
  nextLbActions (Some desired) (Some actual) = Ok [AwaitLb alb] ↔
  lb actual = Some alb ∧
  ∃ dlb, lb desired = Some dlb ∧ in_sync desired actual dlb alb.
Proof.
  unfold nextLbActions. destruct (lb desired) as [dlb|], (lb actual) as [a|];
    [|naive_solver..].
  destruct (check_immutable dlb a) eqn:Hi.
  - split; [done|]. intros ([= ->] & ? & [= <-] & [Himm _ _ _ _]).
    apply check_immutable_spec in Himm. congruence.
  - apply check_immutable_spec in Hi. split.
    + intros Hr. assert (a = alb) as ->.
      { unfold reconcileParts in Hr. destruct (Diff _ _ _ _). case_decide; [by simplify_eq|].
        apply bind_Ok in Hr as (? & _ & Hr). case_decide; by simplify_eq. }
      split; [done|]. exists dlb. split; [done|].
      by apply (reconcileParts_settled _ _ _ _ (AwaitLb alb)).
    + intros ([= ->] & ? & [= <-] & Hs).
      by apply (reconcileParts_settled _ _ _ _ (AwaitLb alb)).
Qed.

Lemma plan_planned `{GoExt} `{SDK} `{MapOrder}
    (desired actual : lbState) (dlb alb : LoadBalancer.t) (acts : list Action) :
  lb desired = Some dlb → lb actual = Some alb →
  nextLbActions (Some desired) (Some actual) = Ok acts →
  immutable_ok dlb alb ∧ Forall (planned desired actual dlb alb) acts.
Proof.
  intros Hd Ha. unfold nextLbActions. rewrite Hd, Ha.
  destruct (check_immutable dlb alb) eqn:Hi; [done|].
  apply check_immutable_spec in Hi. intros Hr. split; [done|].
  assert (Forall (planned desired actual dlb alb) ([AwaitLb alb] ++ renameActions dlb alb))
    as Hnext.
  { repeat constructor. unfold renameActions. case_decide; repeat constructor; done. }
  revert Hr Hnext. generalize ([AwaitLb alb] ++ renameActions dlb alb) as next. intros next Hr Hnext.
  destruct (Diff [4%nat] (pools desired) (pools actual) poolKey) as [del cre] eqn:Hdiff.
  rewrite (reconcileParts_cases _ _ _ _ _ _ _ Hdiff) in Hr. case_decide.
  - apply bind_Ok in Hr as (changes & Hs & [= <-]).
    case_decide; (apply Forall_app; split; [done|]); apply Forall_app; split.
    + apply Forall_forall. intros x (d & Hin & Hx)%elem_of_flat_map.
      destruct (syncPools_Ok _ _ _ _ _ Hs d Hin) as [a ?].
      by eapply updatePool_planned.
    + apply assignActions_planned.
    + by eapply syncPools_planned.
    + repeat constructor.
  - injection Hr as <-.
    apply Forall_app; split; [done|]. apply Forall_app; split.
    + by apply poolActions_planned.
    + repeat constructor.
Qed.

(** ** Properties *)

(** C10. A load balancer needs no further action iff it is settled: the plan is to
    wait for the load balancer and nothing else exactly when it may keep its
    addresses, flavor and zone, carries the desired name, has the desired
    pools, every pool has exactly the desired members, listeners and monitors
    with the desired settings, and every desired Floating IP is assigned. *)
Theorem nextLbActions_settled_iff `{GoExt} `{SDK} `{MapOrder}
    (desired actual : lbState) (alb : LoadBalancer.t) :
  nextLbActions (Some desired) (Some actual) = Ok [AwaitLb alb] ↔
  lb actual = Some alb ∧
  ∃ dlb, lb desired = Some dlb ∧ in_sync desired actual dlb alb.
Proof. apply settled_plan_iff. Qed.

(** C11. Every action planned for an existing load balancer is justified by the two
    states: only resources of the load balancer whose key is not desired are
    deleted, only desired parts without a counterpart are created, a setting is
    updated only where the desired listener or monitor and the actual one of
    the same key differ in that setting, with the desired value
    and on the actual part (the HTTP hosts, which are pointers, differ when
    their addresses do), only desired and unassigned Floating IPs are
    assigned, and the load balancer itself is at most renamed, never deleted
    or recreated. *)
Theorem nextLbActions_sound `{GoExt} `{SDK} `{MapOrder}
    (desired actual : lbState) (dlb alb : LoadBalancer.t) (acts : list Action) :
  lb desired = Some dlb → lb actual = Some alb →
  nextLbActions (Some desired) (Some actual) = Ok acts →
  immutable_ok dlb alb ∧ Forall (planned desired actual dlb alb) acts.
Proof. apply plan_planned. Qed.

Theorem nextLbActions_sound_witness :
  let desired := example_desired [] in
  let actual := without_members (reported desired) in
  ∃ acts, @nextLbActions example_GoExt example_SDK reverse_order (Some desired) (Some actual) = Ok acts ∧
    length acts = 4%nat ∧
    Forall (@planned example_GoExt example_SDK desired actual (lb_of desired) (lb_of actual)) acts.
Proof.
  eexists. split; [vm_compute; reflexivity|]. split; [reflexivity|].
  refine (proj2 (@nextLbActions_sound example_GoExt example_SDK reverse_order
    _ _ _ _ _ _ _ _)); vm_compute; reflexivity.
Defined.

(** C17. Go's map iteration order never changes what is planned: two runs fail with
    the same error or plan the same actions up to their order. *)
Theorem nextLbActions_order_independent `{GoExt} `{SDK} (o1 o2 : MapOrder)
    (desired actual : option lbState) :
  plan_equiv (@nextLbActions _ _ o1 desired actual) (@nextLbActions _ _ o2 desired actual).
Proof.
  destruct desired as [desired|], actual as [actual|]; try done.
  unfold nextLbActions. destruct (lb desired) as [d|], (lb actual) as [a|]; simpl; try done.
  destruct (check_immutable d a); [done|]. apply reconcileParts_perm.
Qed.
