(* ===== verification/NextActionsPlan.v ===== *)
(** * NextActionsPlan

    More of what [nextLbActions] promises: each stage does all of its work,
    structural changes end in a refetch, pools are matched reliably for the
    API's vocabulary of algorithms and protocols, and where the comparison of
    keys and host pointers goes wrong. *)

From stdpp Require Import base tactics list gmap strings.
From Stdlib Require Import ZArith.
From S2P Require Import Prelude.
From S2P Require Import GoStrings.
From S2P Require Import Compare.
From S2P Require Import Cloudscale.
From S2P Require Import Actions.
From S2P Require Import ServiceInfo.
From S2P Require Import LbState.
From S2P Require Import NextActions.
From S2P Require Import Examples.
From S2P Require Import NextActionsSpec.

(** ** The work of each stage *)

Section work.
Context `{GoExt} `{SDK} `{MapOrder}.
Implicit Types (desired actual : lbState) (d a p : PoolPtr).

(** [x] is the item of [l] for its key, and [other] has none. *)
Definition lacks {T} (key : T → string) (l other : list T) (x : T) : Prop :=
  last_with key l (key x) = Some x ∧ key x ∉ key <$> other.

Inductive pool_work desired actual (alb : LoadBalancer.t) : Action → Prop :=
| delete_pool p :
    lacks poolKey (pools actual) (pools desired) p →
    pool_work desired actual alb (DeleteResource (Pool.HREF (pool p)))
| delete_pool_member p m :
    lacks poolKey (pools actual) (pools desired) p →
    m ∈ slice_at (members actual) (Some (ptr p)) →
    pool_work desired actual alb (DeleteResource (PoolMember.HREF m))
| create_pool p :
    lacks poolKey (pools desired) (pools actual) p →
    pool_work desired actual alb (CreatePool (LoadBalancer.UUID alb) (pool p)).

Inductive pool_part_work desired actual d a : Action → Prop :=
| delete_member m :
    lacks poolMemberKey (slice_at (members actual) (Some (ptr a)))
      (slice_at (members desired) (Some (ptr d))) m →
    pool_part_work desired actual d a (DeleteResource (PoolMember.HREF m))
| create_member m :
    lacks poolMemberKey (slice_at (members desired) (Some (ptr d)))
      (slice_at (members actual) (Some (ptr a))) m →
    pool_part_work desired actual d a (CreatePoolMember (Pool.UUID (pool a)) m)
| delete_listener l :
    lacks listenerKey (slice_at (listeners actual) (Some (ptr a)))
      (slice_at (listeners desired) (Some (ptr d))) l →
    pool_part_work desired actual d a (DeleteResource (Listener.HREF l))
| create_listener l :
    lacks listenerKey (slice_at (listeners desired) (Some (ptr d)))
      (slice_at (listeners actual) (Some (ptr a))) l →
    pool_part_work desired actual d a (CreateListener (Pool.UUID (pool a)) l)
| delete_monitor m :
    lacks monitorKey (slice_at (monitors actual) (Some (ptr a)))
      (slice_at (monitors desired) (Some (ptr d))) m →
    pool_part_work desired actual d a (DeleteResource (HealthMonitor.HREF m))
| create_monitor m :
    lacks monitorKey (slice_at (monitors desired) (Some (ptr d)))
      (slice_at (monitors actual) (Some (ptr a))) m →
    pool_part_work desired actual d a (CreateHealthMonitor (Pool.UUID (pool a)) m).

Inductive setting_work desired actual (alb : LoadBalancer.t) : Action → Prop :=
| update_listener d a dl al x :
    d ∈ pools desired → poolsByName actual !! Pool.Name (pool d) = Some a →
    dl ∈ slice_at (listeners desired) (Some (ptr d)) →
    last_with listenerKey (slice_at (listeners actual) (Some (ptr a))) (listenerKey dl) = Some al →
    listener_update dl al x → setting_work desired actual alb x
| update_monitor d a dm am x :
    d ∈ pools desired → poolsByName actual !! Pool.Name (pool d) = Some a →
    dm ∈ slice_at (monitors desired) (Some (ptr d)) →
    last_with monitorKey (slice_at (monitors actual) (Some (ptr a))) (monitorKey dm) = Some am →
    monitor_update dm am x → setting_work desired actual alb x
| assign_ip ip :
    ip ∈ floatingIPs desired → ip ∉ floatingIPs actual →
    setting_work desired actual alb (AssignFloatingIP ip (LoadBalancer.UUID alb)).

(** ** Each stage does its work *)

Lemma replaceActions_complete {T} (href : T → string) create s des act key :
  (∀ i, lacks key act des i →
     DeleteResource (href i) ∈ replaceActions href create (Diff s des act key)) ∧
  (∀ i, lacks key des act i →
     create i ∈ replaceActions href create (Diff s des act key)).
Proof.
  pose proof (Diff_spec s des act key) as [Hc Hd _ _].
  destruct (Diff s des act key) as [del cre]; simpl in *.
  unfold replaceActions. split; intros i Hi; rewrite !elem_of_app.
  - left. apply elem_of_flat_map. exists i. split; [by apply Hd|]. by left.
  - right; right. apply list_elem_of_fmap. exists i. split; [done|]. by apply Hc.
Qed.

Lemma syncPool_complete desired actual i d a x :
  pool_part_work desired actual d a x → x ∈ syncPool desired actual i d a.
Proof.
  unfold syncPool. rewrite !elem_of_app.
  destruct 1;
    [left|left|right; left|right; left|right; right|right; right];
    by apply replaceActions_complete.
Qed.

Lemma syncPools_complete desired actual i ds acts d a x :
  syncPools desired actual i ds = Ok acts → d ∈ ds →
  poolsByName actual !! Pool.Name (pool d) = Some a →
  pool_part_work desired actual d a x → x ∈ acts.
Proof.
  revert i acts. induction ds as [|d' ds IH]; intros i acts Hs Hd Ha Hx;
    [by apply not_elem_of_nil in Hd|]. simpl in Hs.
  destruct (poolsByName actual !! Pool.Name (pool d')) as [a'|] eqn:Ha'; [|done].
  apply bind_Ok in Hs as (rest & Hs & [= <-]). apply elem_of_app.
  apply elem_of_cons in Hd as [->|Hd]; [left|right; eauto].
  simplify_eq. by apply syncPool_complete.
Qed.

Lemma poolActions_complete desired actual alb del cre x :
  Diff [4%nat] (pools desired) (pools actual) poolKey = (del, cre) →
  pool_work desired actual alb x → x ∈ poolActions actual alb del cre.
Proof.
  intros Hdiff. pose proof (Diff_spec [4%nat] (pools desired) (pools actual) poolKey)
    as [Hc Hd _ _]. rewrite Hdiff in Hc, Hd; simpl in *.
  unfold poolActions. rewrite elem_of_app.
  destruct 1 as [p Hp|p m Hp Hm|p Hp].
  - left. apply elem_of_flat_map. exists p. split; [by apply Hd|].
    apply elem_of_app. right. by left.
  - left. apply elem_of_flat_map. exists p. split; [by apply Hd|].
    apply elem_of_app. left. apply elem_of_flat_map. exists m. split; [done|]. by left.
  - right. apply list_elem_of_fmap. exists p. split; [done|]. by apply Hc.
Qed.

Lemma setting_work_complete desired actual alb x :
  setting_work desired actual alb x →
  x ∈ flat_map (updatePool desired actual) (pools desired) ++ assignActions desired actual alb.
Proof.
  rewrite elem_of_app, elem_of_flat_map.
  destruct 1 as [d a dl al x Hd Ha Hdl Hal Hx|d a dm am x Hd Ha Hdm Ham Hx|ip Hi Hk].
  - left. exists d. split; [done|]. unfold updatePool. rewrite Ha. simpl.
    apply elem_of_app. left. apply elem_of_flat_map. exists (dl, al).
    split; [by apply elem_of_Match|by apply elem_of_updateListener].
  - left. exists d. split; [done|]. unfold updatePool. rewrite Ha. simpl.
    apply elem_of_app. right. apply elem_of_flat_map. exists (dm, am).
    split; [by apply elem_of_Match|by apply elem_of_updateMonitor].
  - right. unfold assignActions.
    pose proof (Diff_spec [3%nat] (floatingIPs desired) (floatingIPs actual) (λ ip, ip)) as HD.
    pose proof (diff_spec_create_key _ _ _ _ _ ip HD) as Hc. rewrite !list_fmap_id in Hc.
    apply list_elem_of_fmap. exists ip. split; [done|]. by apply Hc.
Qed.

(** ** Structure and refetch *)

(** The actions that add or remove a resource. *)
Definition is_structural (x : Action) : bool :=
  match x with
  | CreateLbAction _ | DeleteResourceAction _ | CreatePoolAction _ _
  | CreatePoolMemberAction _ _ | CreateListenerAction _ _
  | CreateHealthMonitorAction _ _ => true
  | _ => false
  end.

Lemma replaceActions_no_refetch {T} (href : T → string) create s des act key :
  (∀ i, create i ≠ Refetch) → Refetch ∉ replaceActions href create (Diff s des act key).
Proof.
  intros Hcreate [(t & _ & Hx)|[(i & _ & _ & Hx)|(i & _ & _ & Hx)]]%elem_of_replaceActions;
    [done..|]. by destruct (Hcreate i).
Qed.

Lemma syncPools_no_refetch desired actual i ds acts :
  syncPools desired actual i ds = Ok acts → Refetch ∉ acts.
Proof.
  revert i acts. induction ds as [|d ds IH]; intros i acts Hs; simpl in Hs.
  { injection Hs as <-. apply not_elem_of_nil. }
  destruct (poolsByName actual !! Pool.Name (pool d)) as [a|]; [|done].
  apply bind_Ok in Hs as (rest & Hs & [= <-]).
  rewrite elem_of_app. intros [Hx|Hx]; [|by eapply IH].
  unfold syncPool in Hx. rewrite !elem_of_app in Hx.
  destruct Hx as [Hx|[Hx|Hx]]; by apply replaceActions_no_refetch in Hx.
Qed.

Lemma poolActions_no_refetch actual (alb : LoadBalancer.t) del cre :
  Refetch ∉ poolActions actual alb del cre.
Proof.
  unfold poolActions. rewrite elem_of_app, elem_of_flat_map, list_elem_of_fmap.
  setoid_rewrite elem_of_app. setoid_rewrite elem_of_flat_map.
  setoid_rewrite elem_of_deleteResource. naive_solver.
Qed.

Lemma replaceActions_structural {T} (href : T → string) create s des act key x :
  (∀ i, is_structural (create i) = true) →
  x ∈ replaceActions href create (Diff s des act key) →
  ∃ y, y ∈ replaceActions href create (Diff s des act key) ∧ is_structural y = true.
Proof.
  intros Hcreate Hx. destruct (Diff s des act key) as [[|i del] [|j cre]]; unfold replaceActions in *.
  - case_decide; [simpl in *; lia|by apply not_elem_of_nil in Hx].
  - exists (create j). split; [|done]. rewrite !elem_of_app. right; right. by left.
  - exists (DeleteResource (href i)). split; [|done]. by left.
  - exists (DeleteResource (href i)). split; [|done]. by left.
Qed.

Lemma syncPools_structural desired actual i ds acts :
  syncPools desired actual i ds = Ok acts → acts ≠ [] →
  ∃ y, y ∈ acts ∧ is_structural y = true.
Proof.
  revert i acts. induction ds as [|d ds IH]; intros i acts Hs Hne; simpl in Hs; [by simplify_eq|].
  destruct (poolsByName actual !! Pool.Name (pool d)) as [a|]; [|done].
  apply bind_Ok in Hs as (rest & Hs & [= <-]).
  destruct (syncPool desired actual i d a) as [|x xs] eqn:Hp.
  { simpl in *. eauto. }
  assert (x ∈ syncPool desired actual i d a) as Hx by (rewrite Hp; by left).
  rewrite <- Hp. clear Hp. unfold syncPool in *. rewrite !elem_of_app in Hx.
  destruct Hx as [Hx|[Hx|Hx]]; apply replaceActions_structural in Hx as (y & ? & ?);
    try done; exists y; rewrite !elem_of_app; auto.
Qed.

Lemma poolActions_structural actual (alb : LoadBalancer.t) del cre :
  (del, cre) ≠ ([], []) →
  ∃ y, y ∈ poolActions actual alb del cre ∧ is_structural y = true.
Proof.
  intros Hne. unfold poolActions. setoid_rewrite elem_of_app.
  destruct del as [|p del]; [destruct cre as [|p cre]; [done|]|].
  - exists (CreatePool (LoadBalancer.UUID alb) (pool p)). split; [|done]. right. by left.
  - exists (DeleteResource (Pool.HREF (pool p))). split; [|done]. left.
    apply elem_of_flat_map. exists p. split; [by left|]. apply elem_of_app. right. by left.
Qed.

Lemma updates_not_structural desired actual (alb : LoadBalancer.t) x :
  x ∈ flat_map (updatePool desired actual) (pools desired) ++ assignActions desired actual alb →
  is_structural x = false ∧ x ≠ Refetch.
Proof.
  rewrite elem_of_app, elem_of_flat_map.
  intros [(d & _ & Hx)|(ip & -> & _)%list_elem_of_fmap]; [|done].
  unfold updatePool in Hx.
  apply elem_of_app in Hx as [([dl al] & _ & Hx)%elem_of_flat_map|([dm am] & _ & Hx)%elem_of_flat_map].
  - by apply elem_of_updateListener in Hx as [].
  - apply elem_of_updateMonitor in Hx as [? ? ? _ _ []| | | |]; done.
Qed.

(** Conversely, the last stage does nothing else. *)
Lemma setting_work_sound desired actual alb x :
  (∀ d, d ∈ pools desired → is_Some (poolsByName actual !! Pool.Name (pool d))) →
  x ∈ flat_map (updatePool desired actual) (pools desired) ++ assignActions desired actual alb →
  setting_work desired actual alb x.
Proof.
  intros Hsome. rewrite elem_of_app, elem_of_flat_map. intros [(d & Hd & Hx)|Hx].
  - destruct (Hsome d Hd) as [a Ha]. unfold updatePool in Hx. rewrite Ha in Hx. simpl in Hx.
    apply elem_of_app in Hx as [Hx|Hx]; apply elem_of_flat_map in Hx as ([y z] & [Hy Hz]%elem_of_Match & Hx).
    + eapply update_listener; [done..|]. by apply elem_of_updateListener.
    + eapply update_monitor; [done..|]. by apply elem_of_updateMonitor.
  - unfold assignActions in Hx. apply list_elem_of_fmap in Hx as (ip & -> & Hip).
    apply diff_create with (1 := Diff_spec _ _ _ _) in Hip as [Hi Hk].
    apply last_with_Some in Hi as [_ Hi]. rewrite list_fmap_id in Hk. by constructor.
Qed.

(** A plan for an existing load balancer, by its last stage. *)
Lemma nextLbActions_cases desired actual (dlb alb : LoadBalancer.t) acts :
  lb desired = Some dlb → lb actual = Some alb →
  nextLbActions (Some desired) (Some actual) = Ok acts →
  ∃ del cre, Diff [4%nat] (pools desired) (pools actual) poolKey = (del, cre) ∧
  let next := AwaitLb alb :: renameActions dlb alb in
  ((del, cre) ≠ ([], []) ∧ acts = next ++ poolActions actual alb del cre ++ [Refetch]) ∨
  ((del, cre) = ([], []) ∧ ∃ changes, syncPools desired actual 0 (pools desired) = Ok changes ∧
    (changes ≠ [] ∧ acts = next ++ changes ++ [Refetch] ∨
     changes = [] ∧ acts = next ++ flat_map (updatePool desired actual) (pools desired) ++
                           assignActions desired actual alb)).
Proof.
  intros Hd Ha. unfold nextLbActions. rewrite Hd, Ha.
  destruct (check_immutable dlb alb); [done|]. intros Hr.
  destruct (Diff _ _ _ _) as [del cre] eqn:Hdiff. exists del, cre. split; [done|].
  rewrite (reconcileParts_cases _ _ _ _ _ _ _ Hdiff) in Hr. case_decide.
  - right. split; [done|]. apply bind_Ok in Hr as (changes & Hs & [= <-]).
    exists changes. split; [done|]. case_decide; [by right|by left].
  - left. split; [done|]. by injection Hr as <-.
Qed.

(** [AwaitLb] and a rename add or remove nothing and ask for no refetch. *)
Lemma next_not_structural (dlb alb : LoadBalancer.t) x :
  x ∈ AwaitLb alb :: renameActions dlb alb → is_structural x = false ∧ x ≠ Refetch.
Proof.
  unfold renameActions. case_decide; intros Hx; set_unfold; naive_solver.
Qed.

(** The settings are updated once pools and pool parts agree. *)
Lemma nextLbActions_settings desired actual (dlb alb : LoadBalancer.t) acts x :
  lb desired = Some dlb → lb actual = Some alb →
  nextLbActions (Some desired) (Some actual) = Ok acts →
  same_keys poolKey (pools desired) (pools actual) →
  (∀ d a, d ∈ pools desired → poolsByName actual !! Pool.Name (pool d) = Some a →
     pool_parts_match desired actual d a) →
  setting_work desired actual alb x → x ∈ acts.
Proof.
  intros Hd Ha Hr Hk Hparts Hx. destruct (nextLbActions_cases _ _ _ _ _ Hd Ha Hr)
    as (del & cre & Hdiff & [[Hne _]|[_ (changes & Hs & Hacts)]]).
  { destruct Hne. rewrite <- Hdiff. by apply Diff_nil_iff. }
  assert (changes = []) as ->.
  { destruct (syncPools_nil desired actual 0 (pools desired)) as [_ Hnil].
    rewrite Hnil in Hs; [by injection Hs|]. intros d Hin.
    destruct (syncPools_Ok _ _ _ _ _ Hs d Hin) as [a Hda]. eauto. }
  destruct Hacts as [[? _]|[_ ->]]; [done|].
  rewrite elem_of_app. right. by apply setting_work_complete.
Qed.

Lemma parts_match_of_sync desired actual :
  syncPools desired actual 0 (pools desired) = Ok [] →
  ∀ d a, d ∈ pools desired → poolsByName actual !! Pool.Name (pool d) = Some a →
    pool_parts_match desired actual d a.
Proof.
  intros Hs d a Hd Ha. destruct (proj1 (syncPools_nil _ _ _ _) Hs d Hd) as (a' & Ha' & ?).
  by simplify_eq.
Qed.

Lemma only_last_lookup {A} (l : list A) x i :
  x ∉ l → (l ++ [x]) !! i = Some x → S i = length (l ++ [x]).
Proof.
  intros Hx Hi. rewrite length_app. simpl.
  destruct (decide (i < length l)%nat) as [Hlt|Hge].
  - rewrite lookup_app_l in Hi by done. by apply list_elem_of_lookup_2 in Hi.
  - apply lookup_lt_Some in Hi as Hlt. rewrite length_app in Hlt. simpl in Hlt. lia.
Qed.
End work.

(** ** Matching pools by their key *)

(** No string of the list ends in another one. *)
Definition suffix_free (ss : list string) : Prop :=
  Forall (λ x, Forall (λ y,
    list_ascii_of_string x `suffix_of` list_ascii_of_string y → x = y) ss) ss.

#[global] Instance suffix_free_dec ss : Decision (suffix_free ss).
Proof. unfold suffix_free. apply _. Defined.

Lemma list_ascii_app s1 s2 :
  list_ascii_of_string (s1 +:+ s2) = list_ascii_of_string s1 ++ list_ascii_of_string s2.
Proof. induction s1 as [|c s1 IH]; [done|]. simpl. by rewrite <- IH. Qed.

Lemma list_ascii_inj s1 s2 : list_ascii_of_string s1 = list_ascii_of_string s2 → s1 = s2.
Proof.
  intros Heq%(f_equal string_of_list_ascii).
  by rewrite !string_of_list_ascii_of_string in Heq.
Qed.

Lemma append_suffix_free ss x1 x2 y1 y2 :
  suffix_free ss → y1 ∈ ss → y2 ∈ ss → x1 +:+ y1 = x2 +:+ y2 → x1 = x2 ∧ y1 = y2.
Proof.
  unfold suffix_free. rewrite Forall_forall. setoid_rewrite Forall_forall.
  intros Hss H1 H2 Heq%(f_equal list_ascii_of_string). rewrite !list_ascii_app in Heq.
  assert (y1 = y2) as ->.
  { apply app_eq_inv in Heq as [(k & _ & Hk)|(k & _ & Hk)].
    - apply Hss; try done. by exists k.
    - symmetry. apply Hss; try done. by exists k. }
  split; [|done]. by apply app_inj_2 in Heq as [?%list_ascii_inj _].
Qed.

Lemma poolKey_eq p :
  poolKey p = (Pool.Name (pool p) +:+ Pool.Algorithm (pool p)) +:+ Pool.Protocol (pool p).
Proof.
  unfold poolKey, Sprint_strings. simpl. apply list_ascii_inj.
  rewrite !list_ascii_app. simpl. by rewrite app_assoc.
Qed.

(** The pool's algorithm and protocol come from known vocabularies. *)
Definition pool_vocabulary (algorithms protocols : list string) (p : PoolPtr) : Prop :=
  Pool.Algorithm (pool p) ∈ algorithms ∧ Pool.Protocol (pool p) ∈ protocols.

Lemma poolKey_injective algorithms protocols p q :
  suffix_free algorithms → suffix_free protocols →
  pool_vocabulary algorithms protocols p → pool_vocabulary algorithms protocols q →
  poolKey p = poolKey q →
  Pool.Name (pool p) = Pool.Name (pool q) ∧
  Pool.Algorithm (pool p) = Pool.Algorithm (pool q) ∧
  Pool.Protocol (pool p) = Pool.Protocol (pool q).
Proof.
  intros Ha Hp [Hpa Hpp] [Hqa Hqp]. rewrite !poolKey_eq.
  intros [Heq Hprot]%(append_suffix_free protocols); [|done..].
  by apply (append_suffix_free algorithms) in Heq as [? ?].
Qed.

Lemma poolsByName_index l :
  poolsByName l = index_by (λ p, Pool.Name (pool p)) (pools l).
Proof. done. Qed.

Lemma poolsByName_is_Some l name :
  is_Some (poolsByName l !! name) ↔ ∃ p, p ∈ pools l ∧ Pool.Name (pool p) = name.
Proof.
  rewrite poolsByName_index, index_by_lookup, last_with_is_Some, list_elem_of_fmap.
  naive_solver.
Qed.

Lemma syncPools_total `{GoExt} `{SDK} `{MapOrder} desired actual i ds :
  (∀ d, d ∈ ds → is_Some (poolsByName actual !! Pool.Name (pool d))) →
  is_Ok (syncPools desired actual i ds).
Proof.
  revert i. induction ds as [|d ds IH]; intros i Hds; simpl; [by eexists|].
  destruct (Hds d) as [a ->]; [by left|].
  destruct (IH (S i)) as [rest ->]; [intros; apply Hds; by right|]. by eexists.
Qed.

Lemma plan_exists `{GoExt} `{SDK} `{MapOrder} (algorithms protocols : list string)
    (desired actual : lbState) (dlb alb : LoadBalancer.t) :
  suffix_free algorithms → suffix_free protocols →
  Forall (pool_vocabulary algorithms protocols) (pools desired) →
  Forall (pool_vocabulary algorithms protocols) (pools actual) →
  lb desired = Some dlb → lb actual = Some alb → immutable_ok dlb alb →
  is_Ok (nextLbActions (Some desired) (Some actual)).
Proof.
  rewrite !Forall_forall. intros Halg Hprot Hdes Hact Hd Ha Hi%check_immutable_spec.
  unfold nextLbActions. rewrite Hd, Ha, Hi.
  destruct (Diff [4%nat] (pools desired) (pools actual) poolKey) as [del cre] eqn:Hdiff.
  rewrite (reconcileParts_cases _ _ _ _ _ _ _ Hdiff).
  case_decide as Hnil; [|by eexists].
  rewrite Hnil in Hdiff. apply Diff_nil_iff in Hdiff.
  destruct (syncPools_total desired actual 0 (pools desired)) as [changes ->]; [|by eexists].
  intros d Hin. apply poolsByName_is_Some.
  assert (poolKey d ∈ poolKey <$> pools actual) as (p & Hk & Hp)%list_elem_of_fmap.
  { apply Hdiff, list_elem_of_fmap. eauto. }
  exists p. split; [done|].
  by edestruct (poolKey_injective algorithms protocols d p) as [-> _]; auto.
Qed.

(** ** Properties *)

(** C12. Each stage of a plan is complete.  Every pool that is not desired is
    deleted together with its members and every missing pool is created; once
    the pools agree, every member, listener and monitor that is not desired is
    deleted and every missing one created; once those agree too, each of the
    four settings of a listener and the eight of a monitor that differs from
    the desired one is updated to it (the HTTP hosts differ when their
    addresses do), and every missing Floating IP is assigned. *)
Theorem nextLbActions_complete `{GoExt} `{SDK} `{MapOrder}
    (desired actual : lbState) (dlb alb : LoadBalancer.t) (acts : list Action) :
  lb desired = Some dlb → lb actual = Some alb →
  nextLbActions (Some desired) (Some actual) = Ok acts →
  (∀ x, pool_work desired actual alb x → x ∈ acts) ∧
  (same_keys poolKey (pools desired) (pools actual) →
   ∀ d, d ∈ pools desired → ∃ a, poolsByName actual !! Pool.Name (pool d) = Some a ∧
     ∀ x, pool_part_work desired actual d a x → x ∈ acts) ∧
  (same_keys poolKey (pools desired) (pools actual) →
   (∀ d a, d ∈ pools desired → poolsByName actual !! Pool.Name (pool d) = Some a →
      pool_parts_match desired actual d a) →
   ∀ x, setting_work desired actual alb x → x ∈ acts).
Proof.
  intros Hd Ha Hr. destruct (nextLbActions_cases _ _ _ _ _ Hd Ha Hr)
    as (del & cre & Hdiff & [[Hne ->]|[Heq (changes & Hs & Hacts)]]).
  - assert (¬ same_keys poolKey (pools desired) (pools actual)) as Hk
      by (by rewrite <- (Diff_nil_iff [4%nat]), Hdiff).
    split_and!; [|done..]. intros x Hx. rewrite !elem_of_app.
    right; left. by apply (poolActions_complete desired).
  - assert (changes ⊆ acts) as Hsub.
    { destruct Hacts as [[_ ->]|[-> _]]; [|set_solver].
      intros x. rewrite !elem_of_app. by auto. }
    split_and!.
    + intros x Hx. apply (poolActions_complete _ _ _ _ _ _ Hdiff) in Hx.
      injection Heq as -> ->. by apply not_elem_of_nil in Hx.
    + intros _ d Hin. destruct (syncPools_Ok _ _ _ _ _ Hs d Hin) as [a Hda].
      exists a. split; [done|]. intros x Hx. by eapply Hsub, syncPools_complete.
    + intros Hk Hparts x. by apply (nextLbActions_settings _ _ _ _ _ _ Hd Ha Hr).
Qed.

Theorem nextLbActions_complete_witness :
  let desired := example_desired [] in
  let actual := newLbState (reported_lb (lb_of desired)) in
  ∃ acts, @nextLbActions example_GoExt example_SDK default_order (Some desired) (Some actual) = Ok acts ∧
    ∀ x, pool_work desired actual (lb_of actual) x → x ∈ acts.
Proof.
  eexists. split; [vm_compute; reflexivity|].
  refine (proj1 (@nextLbActions_complete example_GoExt example_SDK default_order
    _ _ (lb_of (example_desired [])) _ _ _ _ _)); vm_compute; reflexivity.
Defined.



(** C22. With algorithms and protocols from vocabularies in which no word ends in
    another (as in the API's), equal pool keys mean equal pools, so every
    desired pool finds its counterpart and a plan is always found when nothing
    immutable has changed: the internal error for a missing pool is not
    reachable. *)
Theorem nextLbActions_total `{GoExt} `{SDK} `{MapOrder} (algorithms protocols : list string)
    (desired actual : lbState) (dlb alb : LoadBalancer.t) :
  suffix_free algorithms → suffix_free protocols →
  Forall (pool_vocabulary algorithms protocols) (pools desired) →
  Forall (pool_vocabulary algorithms protocols) (pools actual) →
  lb desired = Some dlb → lb actual = Some alb → immutable_ok dlb alb →
  is_Ok (nextLbActions (Some desired) (Some actual)).
Proof. apply plan_exists. Qed.

(** The API's algorithms and protocols. *)
Definition api_algorithms : list string := ["round_robin"; "least_connections"; "source_ip"].
Definition api_protocols : list string := ["tcp"; "proxy"; "proxyv2"; "udp"].

Theorem nextLbActions_total_witness :
  suffix_free api_algorithms ∧ suffix_free api_protocols ∧
  is_Ok (@nextLbActions example_GoExt example_SDK default_order
           (Some (example_desired [])) (Some (reported (example_desired [])))).
Proof.
  assert (suffix_free api_algorithms) as Ha by (by_decide).
  assert (suffix_free api_protocols) as Hp by (by_decide).
  split; [exact Ha|]. split; [exact Hp|].
  apply (@nextLbActions_total example_GoExt example_SDK default_order
    api_algorithms api_protocols _ _ (lb_of (example_desired []))
    (lb_of (reported (example_desired [])))); try assumption.
  - repeat constructor; by_decide.
  - repeat constructor; by_decide.
  - vm_compute; reflexivity.
  - vm_compute; reflexivity.
  - split; [left|..]; vm_compute; reflexivity.
Defined.

(** C33. The HTTP host of a health monitor is a pointer, and the plan compares the
    addresses of the two pointers instead of the hosts: when two matching
    monitors both have a host, stored in different allocations, the host is
    updated in every round although the hosts are equal. *)
Theorem host_updated_despite_equal_hosts `{GoExt} `{SDK} `{MapOrder}
    (desired actual : lbState) (dlb alb : LoadBalancer.t) (acts : list Action)
    (d a : PoolPtr) (dm am : HealthMonitor.t) (dh ah : MonitorHTTP.t) (p q : strptr) :
  lb desired = Some dlb → lb actual = Some alb →
  nextLbActions (Some desired) (Some actual) = Ok acts →
  same_keys poolKey (pools desired) (pools actual) →
  (∀ d a, d ∈ pools desired → poolsByName actual !! Pool.Name (pool d) = Some a →
     pool_parts_match desired actual d a) →
  d ∈ pools desired → poolsByName actual !! Pool.Name (pool d) = Some a →
  dm ∈ slice_at (monitors desired) (Some (ptr d)) →
  last_with monitorKey (slice_at (monitors actual) (Some (ptr a))) (monitorKey dm) = Some am →
  HealthMonitor.HTTP dm = Some dh → HealthMonitor.HTTP am = Some ah →
  MonitorHTTP.Host dh = Some p → MonitorHTTP.Host ah = Some q →
  deref p = deref q → addr p ≠ addr q →
  UpdateMonitorHTTPHost (HealthMonitor.UUID am) (Some p) ∈ acts.
Proof.
  intros Hd Ha Hr Hk Hparts Hin Hda Hdm Ham Hdh Hah Hp Hq _ Hne.
  apply (nextLbActions_settings _ _ _ _ _ _ Hd Ha Hr Hk Hparts).
  apply (update_monitor _ _ _ d a dm am); try done.
  apply (update_http _ _ dh ah); [done..|]. rewrite <- Hp. apply update_host.
  rewrite Hp, Hq. simpl. congruence.
Qed.

Theorem host_updated_despite_equal_hosts_witness :
  let desired := example_desired host_annotations in
  let actual := reported desired in
  ∃ acts,
    @nextLbActions example_GoExt example_SDK default_order (Some desired) (Some actual) = Ok acts ∧
    UpdateMonitorHTTPHost "monitor-http" (Some (MkPtr 1 "example.org")) ∈ acts.
Proof.
  eexists. split; [vm_compute; reflexivity|].
  set (desired := example_desired host_annotations). set (actual := reported desired).
  apply (@host_updated_despite_equal_hosts example_GoExt example_SDK default_order
    desired actual (lb_of desired) (lb_of actual) _ (first_pool desired) (first_pool actual)
    (first_monitor desired) (first_monitor actual) (http_of (first_monitor desired))
    (http_of (first_monitor actual)) (MkPtr 1 "example.org") (MkPtr 2 "example.org"));
    try (vm_compute; reflexivity).
  - apply (@Diff_nil_iff _ default_order []); vm_compute; reflexivity.
  - apply (@parts_match_of_sync example_GoExt example_SDK default_order);
      vm_compute; reflexivity.
  - vm_compute; left.
  - vm_compute; left.
  - done.
Defined.
