(* ===== verification/KeysSpec.v ===== *)
(** * KeysSpec

    The keys by which the plan compares members, listeners and monitors are
    texts printed by [fmt.Sprintf] with a name as the format; on names without
    a percent sign they tell apart what they should.  Also, what the control
    code of an action says. *)

From stdpp Require Import base tactics list gmap strings pretty.
From Stdlib Require Import ZArith.
From S2P Require Import Prelude.
From S2P Require Import GoStrings.
From S2P Require Import Cloudscale.
From S2P Require Import Actions.
From S2P Require Import LbState.
From S2P Require Import NextActions.
From S2P Require Import NextActionsSpec.

(** ** Printed arguments *)

Lemma append_inj_r c s1 s2 : s1 +:+ String c "" = s2 +:+ String c "" → s1 = s2.
Proof. intros Heq. by eapply (last_sep_inj c _ _ "" ""). Qed.

Lemma Sprintf_inj `{GoExt} n1 n2 a1 a2 args1 args2 :
  no_percent n1 = true → no_percent n2 = true →
  Sprintf n1 (a1 :: args1) = Sprintf n2 (a2 :: args2) →
  n1 = n2 ∧ Join (arg_text <$> a1 :: args1) ", " = Join (arg_text <$> a2 :: args2) ", ".
Proof.
  intros H1 H2. unfold Sprintf. rewrite H1, H2. rewrite !append_cons.
  intros [-> Heq]%first_sep_inj; [|done..]. split; [done|].
  rewrite !append_nil in Heq. repeat (injection Heq as Heq). by eapply append_inj_r.
Qed.

Lemma Join_cons x y l sep : Join (x :: y :: l) sep = x +:+ sep +:+ Join (y :: l) sep.
Proof. done. Qed.

(** The first of the printed arguments, if it has no comma. *)
Lemma Join_comma_inj x1 x2 y1 y2 l1 l2 :
  without "," x1 = true → without "," x2 = true →
  Join (x1 :: y1 :: l1) ", " = Join (x2 :: y2 :: l2) ", " →
  x1 = x2 ∧ Join (y1 :: l1) ", " = Join (y2 :: l2) ", ".
Proof.
  intros H1 H2. rewrite !Join_cons, !append_cons, !append_nil.
  intros [-> Heq]%first_sep_inj; [|done..]. split; [done|]. by injection Heq.
Qed.

Lemma arg_bool_inj b1 b2 : arg_text (ArgBool b1) = arg_text (ArgBool b2) → b1 = b2.
Proof. by destruct b1, b2. Qed.

Lemma arg_int_inj z1 z2 : arg_text (ArgInt z1) = arg_text (ArgInt z2) → z1 = z2.
Proof. intros Heq%append_inj_l. by apply Itoa_inj. Qed.

Lemma arg_string_inj s1 s2 : arg_text (ArgString s1) = arg_text (ArgString s2) → s1 = s2.
Proof. apply append_inj_l. Qed.

Lemma arg_int_without z : without "," (arg_text (ArgInt z)) = true.
Proof. cbn [arg_text]. rewrite without_app. by rewrite Itoa_without. Qed.

Lemma arg_bool_without b : without "," (arg_text (ArgBool b)) = true.
Proof. by destruct b. Qed.

Lemma arg_string_without s : without "," s = true → without "," (arg_text (ArgString s)) = true.
Proof. intros Hs. cbn [arg_text]. by rewrite without_app, Hs. Qed.

#[export] Hint Resolve arg_int_without arg_bool_without arg_string_without : ccm.

(** ** Keys *)

Section keys.
Context `{GoExt} `{SDK}.

(** Names as the program builds them, addresses as the API has them. *)
Definition plain_member (m : PoolMember.t) : Prop :=
  no_percent (PoolMember.Name m) = true ∧ without "," (PoolMember.Address m) = true.
Definition plain_listener (l : Listener.t) : Prop :=
  no_percent (Listener.Name l) = true ∧ without "," (Listener.Protocol l) = true.
Definition plain_monitor (m : HealthMonitor.t) : Prop :=
  no_percent (HealthMonitor.Type_ m) = true.

Lemma poolMemberKey_inj m1 m2 :
  plain_member m1 → plain_member m2 → poolMemberKey m1 = poolMemberKey m2 →
  PoolMember.Name m1 = PoolMember.Name m2 ∧
  PoolMember.Enabled m1 = PoolMember.Enabled m2 ∧
  PoolMember.MonitorPort m1 = PoolMember.MonitorPort m2 ∧
  PoolMember.ProtocolPort m1 = PoolMember.ProtocolPort m2 ∧
  PoolMember.Address m1 = PoolMember.Address m2 ∧
  SubnetStub_text (PoolMember.Subnet m1) = SubnetStub_text (PoolMember.Subnet m2).
Proof.
  intros [Hn1 Ha1] [Hn2 Ha2] [Hname Heq]%Sprintf_inj; [|done..]. cbn [fmap list_fmap] in Heq.
  apply Join_comma_inj in Heq as [Hen%arg_bool_inj Heq]; [|auto with ccm..].
  apply Join_comma_inj in Heq as [Hmp%arg_int_inj Heq]; [|auto with ccm..].
  apply Join_comma_inj in Heq as [Hpp%arg_int_inj Heq]; [|auto with ccm..].
  apply Join_comma_inj in Heq as [Had%arg_string_inj Heq]; [|auto with ccm..].
  split_and!; try assumption. exact (append_inj_l "cloudscale.SubnetStub=" _ _ Heq).
Qed.

Lemma listenerKey_inj l1 l2 :
  plain_listener l1 → plain_listener l2 → listenerKey l1 = listenerKey l2 →
  Listener.Name l1 = Listener.Name l2 ∧ Listener.Protocol l1 = Listener.Protocol l2 ∧
  Listener.ProtocolPort l1 = Listener.ProtocolPort l2.
Proof.
  intros [Hn1 Hp1] [Hn2 Hp2] [Hname Heq]%Sprintf_inj; [|done..]. cbn [fmap list_fmap] in Heq.
  apply Join_comma_inj in Heq as [Hpr%arg_string_inj Heq]; [|auto with ccm..].
  split_and!; try assumption. by apply arg_int_inj.
Qed.

Lemma monitorKey_inj m1 m2 :
  plain_monitor m1 → plain_monitor m2 → monitorKey m1 = monitorKey m2 →
  HealthMonitor.Type_ m1 = HealthMonitor.Type_ m2 ∧ httpVersion m1 = httpVersion m2.
Proof.
  intros H1 H2 [Hname Heq]%Sprintf_inj; [|done..]. split; [done|]. by apply arg_string_inj.
Qed.

(** C24. Equal keys mean equal parts, in everything that cannot be updated in
    place: a member is the same in name, state, ports, address and subnet, a
    listener in name, protocol and port, a monitor in type and HTTP version. *)
Theorem keys_injective :
  (∀ m1 m2, plain_member m1 → plain_member m2 →
     poolMemberKey m1 = poolMemberKey m2 ↔
     PoolMember.Name m1 = PoolMember.Name m2 ∧
     PoolMember.Enabled m1 = PoolMember.Enabled m2 ∧
     PoolMember.MonitorPort m1 = PoolMember.MonitorPort m2 ∧
     PoolMember.ProtocolPort m1 = PoolMember.ProtocolPort m2 ∧
     PoolMember.Address m1 = PoolMember.Address m2 ∧
     SubnetStub_text (PoolMember.Subnet m1) = SubnetStub_text (PoolMember.Subnet m2)) ∧
  (∀ l1 l2, plain_listener l1 → plain_listener l2 →
     listenerKey l1 = listenerKey l2 ↔
     Listener.Name l1 = Listener.Name l2 ∧ Listener.Protocol l1 = Listener.Protocol l2 ∧
     Listener.ProtocolPort l1 = Listener.ProtocolPort l2) ∧
  (∀ m1 m2, plain_monitor m1 → plain_monitor m2 →
     monitorKey m1 = monitorKey m2 ↔
     HealthMonitor.Type_ m1 = HealthMonitor.Type_ m2 ∧ httpVersion m1 = httpVersion m2).
Proof.
  split_and!.
  - intros m1 m2 H1 H2. split; [by apply poolMemberKey_inj|].
    intros (Hn & He & Hm & Hp & Ha & Hs). unfold poolMemberKey. by rewrite Hn, He, Hm, Hp, Ha, Hs.
  - intros l1 l2 H1 H2. split; [by apply listenerKey_inj|].
    intros (Hn & Hp & Hpp). unfold listenerKey. by rewrite Hn, Hp, Hpp.
  - intros m1 m2 H1 H2. split; [by apply monitorKey_inj|].
    intros [Ht Hv]. unfold monitorKey. by rewrite Ht, Hv.
Qed.
End keys.

(** ** Control codes *)

Section control.
Context {W : Type} `{Client W}.

(** The shapes of an answer that are consistent and do not ask to refresh. *)
Definition proceed_or_error (r : result (Control * option error)) : Prop :=
  match r with
  | Ok (Proceed, None) | Ok (Errored, Some _) | Err _ | Panic _ => True
  | _ => False
  end.

Lemma proceed_on_success_control {A} (m : M W A) w :
  proceed_or_error (proceed_on_success m w).1.
Proof.
  unfold proceed_on_success, err_of, try, mbind, M_bind. by destruct (m w) as [[|e|msg] w'].
Qed.

(** An action fails exactly with an error and never without one, so the
    error for a missing error does not occur; and only [Refetch] and waiting
    for a load balancer that is changing ask for the state to be fetched
    again. *)
Theorem Run_control (a : Action) w c o w' :
  Run a w = (Ok (c, o), w') →
  (c = Errored ↔ is_Some o) ∧
  (c = Refresh ↔
     a = Refetch ∨ ∃ l, a = AwaitLb l ∧ LoadBalancer.Status l = "changing").
Proof.
  intros Hr.
  assert (proceed_or_error (Run a w).1 ∧ a ≠ Refetch ∧
      (∀ l, a = AwaitLb l → LoadBalancer.Status l ≠ "changing") ∨
    (Run a w).1 = Ok (Refresh, None) ∧
      (a = Refetch ∨ ∃ l, a = AwaitLb l ∧ LoadBalancer.Status l = "changing")) as Hcases.
  { clear Hr. destruct a; try (left; split; [by apply proceed_on_success_control|done]);
      cbn [Run].
    - right. split; [done|by left].
    - unfold run_AwaitLb. case_decide; [right; eauto|left]. split; [done|]. split; [done|].
      by intros l [= <-].
    - left. split; [|done]. unfold run_DeleteResource.
      unfold try. destruct (NewRequest "DELETE" url w) as [[req|e|msg] w1]; [|done..].
      apply proceed_on_success_control.
    - left. split; [|done]. unfold run_Sleep. by destruct (select_after duration w) as [[] w1].
    - left. split; [|done]. unfold run_UpdateListenerTimeout.
      repeat case_decide; (done || apply proceed_on_success_control).
    - left. split; [|done]. unfold run_UpdateMonitorNumber.
      repeat case_decide; (done || apply proceed_on_success_control). }
  rewrite Hr in Hcases. cbn in Hcases. destruct Hcases as [[Hp [Hne Hl]]|[[= -> ->] Ha]].
  - destruct c, o; try done; split; split; try done; try (by intros [? ?]);
      try (intros [->|(l & -> & ?)]; [done|by destruct (Hl l)]).
  - split; split; (done || by intros [? ?]).
Qed.

End control.
