(* ===== verification/ServiceInfoSpec.v ===== *)
(** * ServiceInfoSpec

    The contract of the annotation readers: which value an annotation has,
    the round trips of integers and string lists through their text, and the
    errors. *)

From stdpp Require Import base tactics list gmap strings pretty.
From Stdlib Require Import ZArith.
From S2P Require Import Prelude.
From S2P Require Import GoStrings.
From S2P Require Import Json.
From S2P Require Import Cloudscale.
From S2P Require Import ServiceInfo.
From S2P Require Import Examples.

(** ** Values and defaults *)

(** The documented defaults; other annotations default to the empty string. *)
Definition default_table : list (string * string) :=
  [(LoadBalancerPoolProtocol, "tcp");
   (LoadBalancerIPMode, "Proxy");
   (LoadBalancerFlavor, "lb-standard");
   (LoadBalancerVIPAddresses, "[]");
   (LoadBalancerFloatingIPs, "[]");
   (LoadBalancerPoolAlgorithm, "round_robin");
   (LoadBalancerHealthMonitorDelayS, "2");
   (LoadBalancerHealthMonitorTimeoutS, "1");
   (LoadBalancerHealthMonitorUpThreshold, "2");
   (LoadBalancerHealthMonitorDownThreshold, "3");
   (LoadBalancerHealthMonitorType, "tcp");
   (LoadBalancerHealthMonitorHTTP, "{}");
   (LoadBalancerListenerProtocol, "tcp");
   (LoadBalancerListenerAllowedCIDRs, "[]");
   (LoadBalancerListenerTimeoutClientDataMS, "50000");
   (LoadBalancerListenerTimeoutMemberConnectMS, "5000");
   (LoadBalancerListenerTimeoutMemberDataMS, "50000");
   (LoadBalancerListenerAllowedSubnets, "[]")].

Definition annotation_default (s : serviceInfo) (key : string) : string :=
  if decide (key = LoadBalancerName) then "k8s-service-" +:+ Service.UID (svc s)
  else default "" ((list_to_map default_table : gmap string string) !! key).

(** What the user wrote, if anything. *)
Definition set_annotation (s : serviceInfo) (key : string) : option string :=
  annotations ← Service.Annotations (svc s); annotations !! key.

Lemma annotationOrElse_default s key fn :
  annotationOrElse s key fn = default (fn tt) (set_annotation s key).
Proof.
  unfold annotationOrElse, set_annotation.
  destruct (Service.Annotations (svc s)) as [m|]; simpl; [|done].
  by destruct (m !! key).
Qed.

Lemma default_table_None key :
  key ∉ default_table.*1 → (list_to_map default_table : gmap string string) !! key = None.
Proof. apply not_elem_of_list_to_map. Qed.

(** ** Scanning a list of plain strings *)

(** Printable ASCII without quotes and backslashes: nothing to escape. *)
Definition plain_byte (c : ascii) : bool :=
  in_bytes 32 126 c && negb (Ascii.eqb c "034") && negb (Ascii.eqb c "\").
Definition plain (s : string) : Prop := Forall (λ c, plain_byte c = true) (list_ascii_of_string s).

Definition json_quote (s : string) : list ascii :=
  "034"%char :: list_ascii_of_string s ++ ["034"%char].

(** [["a","b"]], as Go prints a list of plain strings. *)
Fixpoint json_elems (l : list string) : list ascii :=
  match l with
  | [] => []
  | [s] => json_quote s
  | s :: l' => json_quote s ++ ","%char :: json_elems l'
  end.
Definition json_of_strings (l : list string) : string :=
  string_of_list_ascii ("["%char :: json_elems l ++ ["]"%char]).

Lemma in_string_plain key lit st c :
  plain_byte c = true → in_string key lit st c = Some (st, InString key (c :: lit)).
Proof. by destruct c as [[] [] [] [] [] [] [] []]. Qed.

Lemma unquote_plain l : Forall (λ c, plain_byte c = true) l → unquote l = l.
Proof.
  induction 1 as [|c l Hc Hl IH]; [done|].
  destruct c as [[] [] [] [] [] [] [] []]; try done; simpl; by rewrite IH.
Qed.

Lemma steps_app s l1 l2 : steps s (l1 ++ l2) = s' ← steps s l1; steps s' l2.
Proof.
  revert s. induction l1 as [|c l1 IH]; intros s; simpl; [done|].
  by destruct (step s c); simpl.
Qed.

Lemma steps_string st l lit rest :
  Forall (λ c, plain_byte c = true) l →
  steps (st, InString None lit) (l ++ "034"%char :: rest) =
  steps (st, EndValue (JString (string_value (rev l ++ lit)))) rest.
Proof.
  intros Hl. revert lit. induction Hl as [|c l Hc Hl IH]; intros lit; [done|].
  simpl. rewrite (in_string_plain _ _ _ _ Hc). simpl. rewrite IH. by rewrite <- app_assoc.
Qed.

Lemma steps_quote st s rest :
  plain s →
  steps (st, BeginValue) (json_quote s ++ rest) = steps (st, EndValue (JString s)) rest ∧
  (∀ elems st', st = InArray elems :: st' →
   steps (st, BeginValueOrEmpty) (json_quote s ++ rest) = steps (st, EndValue (JString s)) rest).
Proof.
  intros Hs.
  assert (steps (st, InString None []) (list_ascii_of_string s ++ "034"%char :: rest) =
          steps (st, EndValue (JString s)) rest) as Hstr.
  { rewrite (steps_string _ _ _ _ Hs), app_nil_r. unfold string_value.
    by rewrite rev_involutive, (unquote_plain _ Hs), string_of_list_ascii_of_string. }
  unfold json_quote. split.
  - simpl. by rewrite <- app_assoc.
  - intros elems st' ->. simpl. by rewrite <- app_assoc.
Qed.

Lemma steps_elems st acc s l :
  Forall plain (s :: l) →
  steps (InArray acc :: st, BeginValue) (json_elems (s :: l) ++ ["]"%char]) =
  Some (st, EndValue (JArray (rev (rev (map JString (s :: l)) ++ acc)))).
Proof.
  revert acc s. induction l as [|s' l IH]; intros acc s [Hs Hl]%Forall_cons.
  - simpl json_elems. rewrite (proj1 (steps_quote _ s _ Hs)). simpl. done.
  - change (json_elems (s :: s' :: l)) with (json_quote s ++ ","%char :: json_elems (s' :: l)).
    rewrite <- app_assoc, (proj1 (steps_quote _ s _ Hs)).
    trans (steps (InArray (JString s :: acc) :: st, BeginValue)
             (json_elems (s' :: l) ++ ["]"%char])); [done|].
    rewrite IH by done. simpl. by rewrite <- !app_assoc.
Qed.

Lemma parse_json_of_strings l :
  Forall plain l → parse (json_of_strings l) = Some (JArray (map JString l)).
Proof.
  intros Hl. unfold parse, json_of_strings.
  rewrite list_ascii_of_string_of_list_ascii.
  destruct l as [|s l]; [done|].
  assert (∀ acc st, steps (InArray acc :: st, BeginValueOrEmpty)
                      (json_elems (s :: l) ++ ["]"%char]) =
                    steps (InArray acc :: st, BeginValue)
                      (json_elems (s :: l) ++ ["]"%char])) as Hbegin.
  { intros acc st. apply Forall_cons in Hl as [Hs _].
    assert (∃ rest, json_elems (s :: l) ++ ["]"%char] = json_quote s ++ rest) as [rest ->].
    { destruct l as [|s' l]; [by eexists|].
      exists (","%char :: json_elems (s' :: l) ++ ["]"%char]). simpl. by rewrite <- app_assoc. }
    rewrite (proj1 (steps_quote _ s _ Hs)). by eapply (steps_quote _ s _ Hs). }
  rewrite steps_app.
  assert (steps ([], BeginValue) ("["%char :: json_elems (s :: l) ++ ["]"%char]) =
          steps ([InArray []], BeginValueOrEmpty) (json_elems (s :: l) ++ ["]"%char])) as ->
    by done.
  rewrite Hbegin, steps_elems by done.
  by rewrite app_nil_r, rev_involutive.
Qed.

Lemma decode_strings l : mapR decode_string (map JString l) = Ok l.
Proof. induction l as [|s l IH]; simpl; [done|]. by rewrite IH. Qed.

Lemma Trim_not_empty c s : is_space c = false → Trim is_space (String c s) ≠ "".
Proof.
  intros Hc. unfold Trim. simpl. rewrite Hc. simpl.
  by destruct (TrimRight is_space s); [rewrite Hc|].
Qed.

(** ** Properties *)

(** An annotation is what the user set, else its default; only the
    configuration version ignores what is set and is always [1]. *)
Theorem annotation_correct (s : serviceInfo) (key : string) :
  annotation s key =
  if decide (key = LoadBalancerConfigVersion) then "1"
  else default (annotation_default s key) (set_annotation s key).
Proof.
  unfold annotation, annotationOrDefault. rewrite !annotationOrElse_default.
  unfold annotation_default.
  repeat (case_decide; [try done; subst; try done|]).
  rewrite default_table_None; [done|].
  simpl. rewrite !not_elem_of_cons. split_and!; try done. apply not_elem_of_nil.
Qed.

(** C30. Integer annotations: every 64-bit integer is read back from its decimal
    text, whatever is read is a 64-bit integer, and anything else is an error
    that names the delay annotation even when another one was read. *)
Theorem annotationInt_correct (s : serviceInfo) (key : string) :
  (∀ z, (minInt64 ≤ z ≤ maxInt64)%Z → annotation s key = Itoa z → annotationInt s key = Ok z) ∧
  match annotationInt s key with
  | Ok z => (minInt64 ≤ z ≤ maxInt64)%Z
  | Err e => ∃ err, e = WrapError ("cannot convert " +:+ annotation s key +:+
      " to int (k8s.cloudscale.ch/loadbalancer-health-monitor-delay-s): ") err
  | Panic _ => False
  end.
Proof.
  unfold annotationInt. split.
  - intros z Hz ->. by rewrite Atoi_Itoa.
  - pose proof (Atoi_range (annotation s key)) as Hr.
    destruct (Atoi (annotation s key)) as [z [err|]]; [by eexists|done].
Qed.

(** List annotations: a printed list of plain strings is read back, a blank
    annotation is the empty list, [null] too, and errors name the delay
    annotation whatever annotation was read. *)
Theorem annotationList_correct (s : serviceInfo) (key : string) :
  (∀ l, Forall plain l → annotation s key = json_of_strings l → annotationList s key = Ok l) ∧
  (∀ n, annotation s key = Repeat " " n → annotationList s key = Ok []) ∧
  (annotation s key = "null" → annotationList s key = Ok []) ∧
  (∀ e, annotationList s key = Err e → ∃ err, e = WrapError
     ("not a valid JSON string list: " +:+ annotation s key +:+
      " (k8s.cloudscale.ch/loadbalancer-health-monitor-delay-s): ") err).
Proof.
  unfold annotationList. split_and!.
  - intros l Hl ->. rewrite decide_False by (by apply Trim_not_empty).
    unfold Unmarshal_strings, parseR. rewrite (parse_json_of_strings l Hl). simpl.
    by rewrite decode_strings.
  - intros n ->. rewrite decide_True; [done|].
    unfold Trim. replace (TrimLeft is_space (Repeat " " n)) with ""; [done|].
    induction n as [|n IH]; [done|exact IH].
  - by intros ->.
  - intros e. case_decide; [done|]. destruct (Unmarshal_strings _); simpl; try done.
    intros [= <-]. by eexists.
Qed.
