(* ===== verification/LbStateSpec.v ===== *)
(** * LbStateSpec

    The contract of [desiredLbState]: when it succeeds and what it then asks
    for, port by port, which addresses become pool members, how the zone is
    found, and that the names it generates identify what they name. *)

From stdpp Require Import base tactics list gmap strings pretty.
From Stdlib Require Import ZArith.
From S2P Require Import Prelude.
From S2P Require Import GoStrings.
From S2P Require Import Json.
From S2P Require Import Cloudscale.
From S2P Require Import ServiceInfo.
From S2P Require Import LbState.
From S2P Require Import Examples.

(** ** The loop over the ports *)

Definition valid_port (port : ServicePort.t) : Prop :=
  (ServicePort.Protocol port = ProtocolTCP ∨ ServicePort.Protocol port = ProtocolUDP) ∧
  ServicePort.NodePort port ≠ 0%Z.

Section ports.
Context `{GoExt} `{SDK}.
Implicit Types (info : serviceInfo) (s : lbState) (port : ServicePort.t).

(** The state after one successful iteration. *)
Definition add_port info (servers : list Server.t) s port (allowed : list string)
    (monitor : HealthMonitor.t) (listener : Listener.t) : lbState :=
  let k := Some (length (pools s)) in
  let nodePort := ServicePort.NodePort port in
  {| lb := lb s;
     pools := pools s ++ [MkPoolPtr (length (pools s)) (desiredPool info port)];
     members := append_at (members s) k
       (desiredMembers allowed nodePort (monitorPortFor info nodePort) servers);
     monitors := append_at (monitors s) k [monitor];
     listeners := append_at (listeners s) k [listener];
     floatingIPs := floatingIPs s |}.

(** What one iteration needs. *)
Definition port_inputs info port (allowed : list string) (monitor : HealthMonitor.t)
    (listener : Listener.t) : Prop :=
  valid_port port ∧
  annotationList info LoadBalancerListenerAllowedSubnets = Ok allowed ∧
  healthMonitorForPort info = Ok monitor ∧
  listenerForPort info port = Ok listener.

Lemma desiredPort_Ok info servers s port s' :
  desiredPort info servers s port = Ok s' ↔
  ∃ allowed monitor listener, port_inputs info port allowed monitor listener ∧
    s' = add_port info servers s port allowed monitor listener.
Proof.
  unfold desiredPort, port_inputs, valid_port, add_port. case_decide as Hp.
  { split; [done|]. intros (al & mo & li & ([[Hv|Hv] _] & _) & _); by destruct Hp. }
  case_decide as Hn.
  { split; [done|]. by intros (al & mo & li & ([_ ?] & _) & _). }
  assert (ServicePort.Protocol port = ProtocolTCP ∨ ServicePort.Protocol port = ProtocolUDP)
    as Hproto.
  { destruct (decide (ServicePort.Protocol port = ProtocolTCP)); [by left|right].
    apply dec_stable. intros ?. by apply Hp. }
  split.
  - intros (al & Hal & (mo & Hmo & (li & Hli & [= <-])%bind_Ok)%bind_Ok)%bind_Ok.
    exists al, mo, li. split; [|reflexivity]. split_and!; assumption.
  - intros (al & mo & li & (_ & Hal & Hmo & Hli) & ->). by rewrite Hal, Hmo, Hli.
Qed.

(** Pools are allocated at consecutive addresses and nothing is filed under an
    address that is not allocated yet. *)
Definition unallocated s (k : option nat) : Prop :=
  ∀ i, k = Some i → (length (pools s) ≤ i)%nat.

Record well_allocated s : Prop := {
  pool_addresses i p : pools s !! i = Some p → ptr p = i;
  members_fresh k : unallocated s k → slice_at (members s) k = [];
  monitors_fresh k : unallocated s k → slice_at (monitors s) k = [];
  listeners_fresh k : unallocated s k → slice_at (listeners s) k = [] }.

Lemma well_allocated_empty l ips : well_allocated (MkLbState l [] ∅ ∅ ∅ ips).
Proof. by split. Qed.

Lemma unallocated_next s : unallocated s (Some (length (pools s))).
Proof. by intros i [= <-]. Qed.

Lemma append_fresh {A} (m : gmap (option nat) (list A)) s s' k xs :
  (∀ k, unallocated s k → slice_at m k = []) →
  length (pools s') = S (length (pools s)) → unallocated s' k →
  slice_at (append_at m (Some (length (pools s))) xs) k = [].
Proof.
  intros Hm Hlen Hk. rewrite slice_at_append, decide_False.
  - apply Hm. intros i ->. specialize (Hk i eq_refl). lia.
  - intros <-. specialize (Hk _ eq_refl). lia.
Qed.

Lemma add_port_well_allocated info servers s port allowed monitor listener :
  well_allocated s → well_allocated (add_port info servers s port allowed monitor listener).
Proof.
  intros [Hp Hme Hmo Hli]. split.
  { intros i p. simpl. rewrite lookup_app_Some, list_lookup_singleton_Some.
    intros [?|[? [Hi <-]]]; [auto|]. simpl. lia. }
  all: intros k Hk; (eapply append_fresh; [done| |exact Hk]); simpl; rewrite length_app; simpl; lia.
Qed.

#[local] Hint Resolve well_allocated_empty add_port_well_allocated : ccm.

(** What the state holds for the pool at index [i], allocated for [port]. *)
Record port_state info (servers : list Server.t) s (i : nat) port : Prop := {
  port_pool : pools s !! i = Some (MkPoolPtr i (desiredPool info port));
  port_parts : ∃ allowed monitor listener,
    port_inputs info port allowed monitor listener ∧
    slice_at (members s) (Some i) = desiredMembers allowed (ServicePort.NodePort port)
      (monitorPortFor info (ServicePort.NodePort port)) servers ∧
    slice_at (monitors s) (Some i) = [monitor] ∧
    slice_at (listeners s) (Some i) = [listener] }.

Lemma add_port_new info servers s port allowed monitor listener :
  well_allocated s → port_inputs info port allowed monitor listener →
  port_state info servers (add_port info servers s port allowed monitor listener)
    (length (pools s)) port.
Proof.
  intros [_ Hme Hmo Hli] Hin. split; simpl.
  - rewrite lookup_app_r, Nat.sub_diag by lia. done.
  - exists allowed, monitor, listener. rewrite !slice_at_append, !decide_True by done.
    by rewrite Hme, Hmo, Hli by apply unallocated_next.
Qed.

Lemma add_port_old info servers s port allowed monitor listener i port' :
  (i < length (pools s))%nat → port_state info servers s i port' →
  port_state info servers (add_port info servers s port allowed monitor listener) i port'.
Proof.
  intros Hi [Hp (al & mo & li & ? & Hme & Hmo & Hli)]. split; simpl.
  - by apply lookup_app_l_Some.
  - exists al, mo, li. rewrite !slice_at_append, !decide_False by (intros [=]; lia). done.
Qed.

Lemma foldR_ports info servers ports s s' :
  well_allocated s → foldR (desiredPort info servers) s ports = Ok s' →
  well_allocated s' ∧ lb s' = lb s ∧ floatingIPs s' = floatingIPs s ∧
  length (pools s') = (length (pools s) + length ports)%nat ∧
  (∀ i port, (i < length (pools s))%nat → port_state info servers s i port →
     port_state info servers s' i port) ∧
  (∀ i port, ports !! i = Some port →
     port_state info servers s' (length (pools s) + i) port).
Proof.
  revert s. induction ports as [|port ports IH]; intros s Hwf Hf; simpl in Hf.
  { injection Hf as <-. split_and!; naive_solver lia. }
  apply bind_Ok in Hf as (s1 & (al & mo & li & Hin & ->)%desiredPort_Ok & Hf).
  apply IH in Hf as (Hwf' & Hlb & Hip & Hlen & Hold & Hnew); [|auto with ccm].
  simpl in *. rewrite length_app in *. simpl in *.
  split_and!; [done..|lia| |].
  - intros i port' Hi Hs. apply Hold; [lia|]. by apply add_port_old.
  - intros [|i] port' Hport; simpl in Hport.
    + injection Hport as <-. rewrite Nat.add_0_r. apply Hold; [lia|]. by apply add_port_new.
    + replace (length (pools s) + S i)%nat with (length (pools s) + 1 + i)%nat by lia. auto.
Qed.

Lemma foldR_ports_is_Ok info servers ports s :
  is_Ok (foldR (desiredPort info servers) s ports) ↔
  ∀ port, port ∈ ports → ∃ allowed monitor listener,
    port_inputs info port allowed monitor listener.
Proof.
  revert s. induction ports as [|port ports IH]; intros s; simpl.
  { split; [|by eexists]. by intros _ port ?%not_elem_of_nil. }
  unfold is_Ok in *. setoid_rewrite bind_Ok. setoid_rewrite elem_of_cons. split.
  - intros (s' & s1 & (al & mo & li & Hin & ->)%desiredPort_Ok & Hf) port' [->|Hp].
    + eauto.
    + eapply IH; eauto.
  - intros Hall. destruct (Hall port) as (al & mo & li & Hin); [by left|].
    destruct (proj2 (IH (add_port info servers s port al mo li))) as [s' Hs']; [eauto|].
    exists s'. eexists. split; [|done]. apply desiredPort_Ok. eauto 6.
Qed.

(** ** The zone *)

Lemma serversZone_Ok zone servers z :
  serversZone zone servers = Ok z ↔
  (zone = "" ∧ ∃ k m, map Server.Zone servers = replicate k "" ++ replicate m z ∧
     (m = 0%nat → z = "")) ∨
  (zone ≠ "" ∧ z = zone ∧ ∃ m, map Server.Zone servers = replicate m zone).
Proof.
  revert zone. induction servers as [|s servers IH]; intros zone; simpl.
  - split.
    + intros [= <-]. destruct (decide (zone = "")); [left|right].
      * split; [done|]. by exists 0%nat, 0%nat.
      * split_and!; [done..|]. by exists 0%nat.
    + intros [(-> & k & m & Heq & Hm)|(_ & -> & _)]; [|done].
      symmetry in Heq. apply app_nil in Heq as [_ Heq].
      destruct m; [by rewrite Hm|done].
  - case_decide as Hz.
    + split; [done|]. destruct Hz as [Hz1 Hz2].
      intros [(? & _)|(_ & _ & [|m] & Heq)]; [done..|]. by injection Heq as ?.
    + rewrite IH. destruct (decide (zone = "")) as [->|Hne].
      * split.
        -- intros [(Hs & k & m & -> & Hm)|(Hs & -> & m & ->)]; left; (split; [done|]).
           ++ exists (S k), m. by rewrite Hs.
           ++ by exists 0%nat, (S m).
        -- intros [(_ & [|k] & m & Heq & Hm)|(? & _)]; [| |done].
           ++ destruct m as [|m]; [done|]. simpl in Heq. injection Heq as Hs Heq.
              destruct (decide (z = "")) as [->|].
              ** left. split; [done|]. by exists 0%nat, m.
              ** right. rewrite Hs. split_and!; [done..|]. by exists m.
           ++ simpl in Heq. injection Heq as Hs Heq. left. split; [done|]. by exists k, m.
      * assert (Server.Zone s = zone) as -> by (apply dec_stable; naive_solver).
        split.
        -- intros [(? & _)|(_ & -> & m & ->)]; [done|]. right. split_and!; [done..|].
           by exists (S m).
        -- intros [(? & _)|(_ & -> & [|m] & [= Heq])]; [done..|]. right. split_and!; [done..|].
           by exists m.
Qed.

(** The zone is the one of the annotation; without an annotation it is the
    zone of the servers, of which the first ones may not know theirs yet, but
    not the later ones. *)
Definition zone_wanted info (servers : list Server.t) (z : string) : Prop :=
  z ≠ "" ∧ (annotation info LoadBalancerZone = z ∨
    annotation info LoadBalancerZone = "" ∧
    ∃ k m, map Server.Zone servers = replicate k "" ++ replicate (S m) z).

Lemma desiredZone_Ok info servers z :
  desiredZone info servers = Ok z ↔ zone_wanted info servers z.
Proof.
  unfold desiredZone, zone_wanted. case_decide as Ha; rewrite ?Ha.
  - rewrite bind_Ok. setoid_rewrite serversZone_Ok. split.
    + intros (z' & [(_ & k & m & Hz & Hm)|(? & _)] & Hr); [|done].
      case_decide; [done|]. injection Hr as <-. split; [done|]. right. split; [done|].
      destruct m as [|m]; [by destruct Hm|]. eauto.
    + intros (Hne & [<-|(_ & k & m & Hz)]); [done|]. exists z. split.
      * left. split; [done|]. by exists k, (S m).
      * by rewrite decide_False.
  - split; [|by intros (_ & [->|[? _]])]. intros [= <-]. eauto.
Qed.
End ports.

#[export] Hint Resolve well_allocated_empty add_port_well_allocated : ccm.

(** ** Names *)

Lemma ToLower_valid_protocol `{GoExt} port :
  valid_port port →
  ToLower (ServicePort.Protocol port) = "tcp" ∧ ServicePort.Protocol port = "TCP" ∨
  ToLower (ServicePort.Protocol port) = "udp" ∧ ServicePort.Protocol port = "UDP".
Proof. intros [[Hp|Hp] _]; rewrite Hp; [left|right]; by split. Qed.

Lemma poolName_valid_inj `{GoExt} port1 port2 :
  valid_port port1 → valid_port port2 →
  poolName (ServicePort.Protocol port1) (ServicePort.Name port1) =
  poolName (ServicePort.Protocol port2) (ServicePort.Name port2) →
  ServicePort.Protocol port1 = ServicePort.Protocol port2 ∧
  ServicePort.Name port1 = ServicePort.Name port2.
Proof.
  intros H1%ToLower_valid_protocol H2%ToLower_valid_protocol.
  unfold poolName.
  destruct H1 as [[-> ->]|[-> ->]], H2 as [[-> ->]|[-> ->]]; repeat case_decide;
    rewrite ?append_cons, ?append_nil; intros Heq; simplify_eq; split; congruence.
Qed.

Lemma Contains_without c s : Contains s (String c "") = negb (without c s).
Proof.
  unfold Contains. induction s as [|a s IH]; [done|].
  rewrite without_cons. simpl. rewrite (Ascii.eqb_sym c a).
  destruct (Ascii.eqb a c); simpl; [done|].
  destruct (Cut s (String c "")) as [[??]|]; simpl in *; done.
Qed.

Lemma poolMemberName_inj a1 p1 a2 p2 :
  poolMemberName a1 p1 = poolMemberName a2 p2 → a1 = a2 ∧ p1 = p2.
Proof.
  unfold poolMemberName. rewrite !Contains_without. intros Heq.
  assert (∀ p, without ":" (Itoa p) = true) as Hi by (intros; by apply Itoa_without).
  apply last_sep_inj in Heq as [Ha Hp%Itoa_inj]; [|apply Hi..]. split; [|done].
  destruct (without ":" a1) eqn:H1, (without ":" a2) eqn:H2; simpl in Ha; [done|..].
  - subst a1. rewrite append_cons, append_nil, without_cons, without_app, H2 in H1.
    by rewrite andb_false_r in H1.
  - subst a2. rewrite append_cons, append_nil, without_cons, without_app, H1 in H2.
    by rewrite andb_false_r in H2.
  - rewrite !append_cons, !append_nil in Ha. injection Ha as Ha.
    eapply (last_sep_inj "]" _ _ "" ""); done.
Qed.

(** The member names of one pool tell addresses apart (an address with a colon
    is bracketed), and pool names tell the ports apart that the program
    accepts. *)
Theorem names_injective `{GoExt} :
  (∀ a1 p1 a2 p2, poolMemberName a1 p1 = poolMemberName a2 p2 ↔ a1 = a2 ∧ p1 = p2) ∧
  (∀ port1 port2, valid_port port1 → valid_port port2 →
     poolName (ServicePort.Protocol port1) (ServicePort.Name port1) =
     poolName (ServicePort.Protocol port2) (ServicePort.Name port2) ↔
     ServicePort.Protocol port1 = ServicePort.Protocol port2 ∧
     ServicePort.Name port1 = ServicePort.Name port2).
Proof.
  split.
  - intros. split; [apply poolMemberName_inj|by intros [-> ->]].
  - intros port1 port2 H1 H2. split; [by apply poolName_valid_inj|by intros [-> ->]].
Qed.

(** ** Members *)

Section members.
Context `{GoExt} `{SDK}.

(** A private address of one of the servers, in a subnet. *)
Definition private_address (servers : list Server.t) (a : ServerAddress.t) : Prop :=
  ∃ server iface, server ∈ servers ∧ iface ∈ Server.Interfaces server ∧
    ServerInterface.Type_ iface ≠ "public" ∧ a ∈ ServerInterface.Addresses iface ∧
    SubnetStub.UUID (ServerAddress.Subnet a) ≠ "".

Lemma allowed_address_true allowed a :
  allowed_address allowed a = true ↔
  SubnetStub.UUID (ServerAddress.Subnet a) ≠ "" ∧
  (allowed = [] ∨ SubnetStub.UUID (ServerAddress.Subnet a) ∈ allowed).
Proof.
  unfold allowed_address.
  rewrite andb_true_iff, orb_true_iff, negb_true_iff, bool_decide_eq_false.
  by rewrite !bool_decide_eq_true.
Qed.

Lemma elem_of_interfaceMembers allowed np mp iface m :
  m ∈ interfaceMembers allowed np mp iface ↔
  ServerInterface.Type_ iface ≠ "public" ∧
  ∃ a, a ∈ ServerInterface.Addresses iface ∧ allowed_address allowed a = true ∧
    m = poolMember np mp a.
Proof.
  unfold interfaceMembers. case_decide as Hp; [set_solver|].
  rewrite elem_of_flat_map. split.
  - intros (a & Ha & Hm). destruct (allowed_address allowed a) eqn:?; [|set_solver].
    apply list_elem_of_singleton in Hm. eauto.
  - intros (_ & a & Ha & Hal & ->). exists a. rewrite Hal. set_solver.
Qed.

Lemma elem_of_desiredMembers allowed np mp servers m :
  m ∈ desiredMembers allowed np mp servers ↔
  ∃ a, private_address servers a ∧
    (allowed = [] ∨ SubnetStub.UUID (ServerAddress.Subnet a) ∈ allowed) ∧
    m = poolMember np mp a.
Proof.
  unfold desiredMembers, private_address. rewrite elem_of_flat_map.
  setoid_rewrite elem_of_flat_map. setoid_rewrite elem_of_interfaceMembers.
  setoid_rewrite allowed_address_true. split.
  - intros (s & Hs & i & Hi & Ht & a & Ha & [Hne Hal] & ->).
    exists a. split; [|done]. exists s, i. done.
  - intros (a & (s & i & Hs & Hi & Ht & Ha & Hne) & Hal & ->).
    exists s. split; [done|]. exists i. split; [done|]. split; [done|]. by exists a.
Qed.

(** ** The health monitor *)

Definition local_policy (info : serviceInfo) : Prop :=
  Service.ExternalTrafficPolicy (svc info) = "Local".

(** The text or list [x], or the default [d] where it is empty. *)
Definition or_text (x d : string) : string := if decide (x = "") then d else x.
Definition or_list (x d : list string) : list string := if decide (x = []) then d else x.

(** The HTTP options: none without an annotation, but the health check of the
    nodes under the local traffic policy; otherwise those of the annotation,
    with defaults for what it leaves empty. *)
Definition http_wanted (info : serviceInfo) (o : option MonitorHTTP.t) : Prop :=
  let http := annotation info LoadBalancerHealthMonitorHTTP in
  http = "{}" ∧ ¬ local_policy info ∧ o = None ∨
  http = "{}" ∧ local_policy info ∧ o = Some
    {| MonitorHTTP.Method := "GET"; MonitorHTTP.URLPath := "/livez";
       MonitorHTTP.ExpectedCodes := ["200"]; MonitorHTTP.Version := "1.0";
       MonitorHTTP.Host := None |} ∨
  http ≠ "{}" ∧ ∃ h, Unmarshal_pointer MonitorHTTP.zero decode_MonitorHTTP http = Ok (Some h) ∧
    o = Some {| MonitorHTTP.Method := or_text (MonitorHTTP.Method h) "GET";
                MonitorHTTP.URLPath := or_text (MonitorHTTP.URLPath h) "/";
                MonitorHTTP.ExpectedCodes := or_list (MonitorHTTP.ExpectedCodes h) ["200"];
                MonitorHTTP.Version := or_text (MonitorHTTP.Version h) "1.1";
                MonitorHTTP.Host := MonitorHTTP.Host h |}.

Record monitor_wanted (info : serviceInfo) (m : HealthMonitor.t) : Prop := {
  monitor_type : HealthMonitor.Type_ m =
    if decide (local_policy info) then "http" else annotation info LoadBalancerHealthMonitorType;
  monitor_http : http_wanted info (HealthMonitor.HTTP m);
  monitor_delay : annotationInt info LoadBalancerHealthMonitorDelayS = Ok (HealthMonitor.DelayS m);
  monitor_timeout :
    annotationInt info LoadBalancerHealthMonitorTimeoutS = Ok (HealthMonitor.TimeoutS m);
  monitor_up :
    annotationInt info LoadBalancerHealthMonitorUpThreshold = Ok (HealthMonitor.UpThreshold m);
  monitor_down :
    annotationInt info LoadBalancerHealthMonitorDownThreshold = Ok (HealthMonitor.DownThreshold m);
  monitor_ids : HealthMonitor.HREF m = "" ∧ HealthMonitor.UUID m = "" ∧ HealthMonitor.Pool m = "" }.

(** The HTTP annotation is empty options or decodes to some. *)
Definition reads_http (info : serviceInfo) : Prop :=
  let http := annotation info LoadBalancerHealthMonitorHTTP in
  http = "{}" ∨ ∃ h, Unmarshal_pointer MonitorHTTP.zero decode_MonitorHTTP http = Ok (Some h).

Lemma healthMonitorForPort_wanted info m :
  healthMonitorForPort info = Ok m → monitor_wanted info m.
Proof.
  intros (delay & Hd & (timeout & Ht & (up & Hu & (down & Hw & Hm)%bind_Ok)%bind_Ok)%bind_Ok)
    %bind_Ok.
  apply bind_Ok in Hm as (options & Ho & Hm). injection Hm as <-.
  split; try assumption; [| |by split_and!].
  { cbn [HealthMonitor.Type_]. destruct (decide (local_policy info)) as [Hl|Hl];
      [rewrite bool_decide_true by exact Hl|rewrite bool_decide_false by exact Hl];
      reflexivity. }
  clear Hd Ht Hu Hw. unfold http_wanted. cbn [HealthMonitor.HTTP]. revert Ho.
  generalize (annotation info LoadBalancerHealthMonitorHTTP). intros http Ho.
  case_decide as Hh.
  - injection Ho as <-. unfold local_policy.
    destruct (decide (Service.ExternalTrafficPolicy (svc info) = "Local")) as [Hl|Hl].
    + right; left. by rewrite !bool_decide_true.
    + left. by rewrite bool_decide_false.
  - right; right. split; [done|]. rewrite (bool_decide_false (_ = "{}")), andb_false_r by done.
    apply bind_Ok in Ho as ([h|] & Hu%wrap_err_Ok & (h' & Hf & <-)%fmap_Ok); [|done].
    exists h. split; [done|]. by injection Hf as <-.
Qed.

Definition reads_int (info : serviceInfo) (key : string) : Prop :=
  (Atoi (annotation info key)).2 = None.

Lemma annotationInt_is_Ok info key : is_Ok (annotationInt info key) ↔ reads_int info key.
Proof.
  unfold annotationInt, reads_int. destruct (Atoi (annotation info key)) as [v [e|]]; simpl.
  - by split; [intros []|].
  - split; [done|by eexists].
Qed.

Definition reads_list (info : serviceInfo) (key : string) : Prop :=
  Trim is_space (annotation info key) = "" ∨ is_Ok (Unmarshal_strings (annotation info key)).

Lemma annotationList_is_Ok info key : is_Ok (annotationList info key) ↔ reads_list info key.
Proof.
  unfold annotationList, reads_list. case_decide as Ht.
  - split; [by left|by eexists].
  - split.
    + intros [l Hl%wrap_err_Ok]. right. by exists l.
    + intros [?|[l Hl]]; [done|]. exists l. by apply wrap_err_Ok.
Qed.

Lemma healthMonitorForPort_is_Ok info :
  is_Ok (healthMonitorForPort info) ↔
  Forall (reads_int info) [LoadBalancerHealthMonitorDelayS; LoadBalancerHealthMonitorTimeoutS;
    LoadBalancerHealthMonitorUpThreshold; LoadBalancerHealthMonitorDownThreshold] ∧
  reads_http info.
Proof.
  rewrite !Forall_cons, Forall_nil, <- !annotationInt_is_Ok. split.
  - intros [m Hm]. pose proof (healthMonitorForPort_wanted info m Hm) as [_ Hh ? ? ? ? _].
    split; [split_and!; by eexists|].
    destruct Hh as [(? & _)|[(? & _)|(_ & h & ? & _)]]; [by left|by left|right; by exists h].
  - intros [([d Hd] & [t Ht] & [u Hu] & [w Hw] & _) Hh]. unfold healthMonitorForPort.
    rewrite Hd, Ok_bind, Ht, Ok_bind, Hu, Ok_bind, Hw, Ok_bind.
    case_decide as Hj; [by eexists|]. destruct Hh as [?|[h Hh]]; [done|].
    rewrite Hh. by eexists.
Qed.

(** ** The parts of a port *)

(** The pool of a port, named after it. *)
Record pool_wanted (info : serviceInfo) (port : ServicePort.t) (p : Pool.t) : Prop := {
  pool_name_wanted : ∃ protocol,
    (ServicePort.Protocol port = "TCP" ∧ protocol = "tcp" ∨
     ServicePort.Protocol port = "UDP" ∧ protocol = "udp") ∧
    Pool.Name p = (if decide (ServicePort.Name port = "") then protocol
                   else protocol +:+ "/" +:+ ServicePort.Name port);
  pool_algorithm_wanted : Pool.Algorithm p = annotation info LoadBalancerPoolAlgorithm;
  pool_tcp_wanted : ServicePort.Protocol port = "TCP" →
    Pool.Protocol p = annotation info LoadBalancerPoolProtocol;
  pool_udp_wanted : ServicePort.Protocol port = "UDP" → Pool.Protocol p = "udp";
  pool_ids_wanted : Pool.HREF p = "" ∧ Pool.UUID p = "" ∧ Pool.LoadBalancer p = "" }.

(** The addresses of the interfaces that are not public, server by server, and
    those of them in a subnet that is allowed ([[]] allows every subnet). *)
Definition private_addresses (servers : list Server.t) : list ServerAddress.t :=
  flat_map ServerInterface.Addresses
    (filter (λ i, ServerInterface.Type_ i ≠ "public") (flat_map Server.Interfaces servers)).

Definition member_addresses (allowed : list string) (servers : list Server.t)
    : list ServerAddress.t :=
  filter (λ a, SubnetStub.UUID (ServerAddress.Subnet a) ≠ "" ∧
               (allowed = [] ∨ SubnetStub.UUID (ServerAddress.Subnet a) ∈ allowed))
    (private_addresses servers).

(** The member for an address: an address with a colon is bracketed in its
    name, and it is monitored on the health check port of the nodes if the
    local traffic policy asks for that and the service has one. *)
Record member_wanted (info : serviceInfo) (port : ServicePort.t) (a : ServerAddress.t)
    (m : PoolMember.t) : Prop := {
  member_plain_name : without ":" (ServerAddress.Address a) = true →
    PoolMember.Name m = ServerAddress.Address a +:+ ":" +:+ Itoa (ServicePort.NodePort port);
  member_bracketed_name : without ":" (ServerAddress.Address a) = false →
    PoolMember.Name m =
      ("[" +:+ ServerAddress.Address a +:+ "]") +:+ ":" +:+ Itoa (ServicePort.NodePort port);
  member_address : PoolMember.Address m = ServerAddress.Address a;
  member_subnet : PoolMember.Subnet m = ServerAddress.Subnet a;
  member_enabled : PoolMember.Enabled m = true;
  member_port : PoolMember.ProtocolPort m = ServicePort.NodePort port;
  member_health_check :
    local_policy info → (0 < Service.HealthCheckNodePort (svc info))%Z →
    PoolMember.MonitorPort m = Service.HealthCheckNodePort (svc info);
  member_node_check :
    ¬ local_policy info ∨ ¬ (0 < Service.HealthCheckNodePort (svc info))%Z →
    PoolMember.MonitorPort m = ServicePort.NodePort port;
  member_href : PoolMember.HREF m = "" }.

Record listener_wanted (info : serviceInfo) (port : ServicePort.t) (l : Listener.t) : Prop := {
  listener_tcp : ServicePort.Protocol port = "TCP" →
    Listener.Protocol l = annotation info LoadBalancerListenerProtocol;
  listener_udp : ServicePort.Protocol port = "UDP" → Listener.Protocol l = "udp";
  listener_name :
    Listener.Name l = ToLower (Listener.Protocol l +:+ "/" +:+ Itoa (ServicePort.Port port));
  listener_port : Listener.ProtocolPort l = ServicePort.Port port;
  listener_cidrs :
    annotationList info LoadBalancerListenerAllowedCIDRs = Ok (Listener.AllowedCIDRs l);
  listener_client_data : annotationInt info LoadBalancerListenerTimeoutClientDataMS =
    Ok (Listener.TimeoutClientDataMS l);
  listener_member_connect : annotationInt info LoadBalancerListenerTimeoutMemberConnectMS =
    Ok (Listener.TimeoutMemberConnectMS l);
  listener_member_data : annotationInt info LoadBalancerListenerTimeoutMemberDataMS =
    Ok (Listener.TimeoutMemberDataMS l);
  listener_ids : Listener.HREF l = "" ∧ Listener.UUID l = "" ∧ Listener.LoadBalancer l = "" ∧
    Listener.Pool l = None }.

Lemma desiredPool_wanted info port : valid_port port → pool_wanted info port (desiredPool info port).
Proof.
  intros Hv. split; simpl; [|done| | |by split_and!].
  - exists (ToLower (ServicePort.Protocol port)). split; [|done].
    destruct (ToLower_valid_protocol port Hv) as [[-> ->]|[-> ->]]; [by left|by right].
  - intros ->. by rewrite decide_True.
  - intros ->. by rewrite decide_False.
Qed.

Lemma desiredMembers_map allowed np mp servers :
  desiredMembers allowed np mp servers = poolMember np mp <$> member_addresses allowed servers.
Proof.
  unfold desiredMembers, member_addresses, private_addresses.
  induction servers as [|s servers IH]; [done|]. simpl. rewrite IH.
  rewrite filter_app, flat_map_app, filter_app, fmap_app. f_equal. clear IH.
  induction (Server.Interfaces s) as [|i ifs IH]; [done|]. simpl. rewrite IH, filter_cons.
  unfold interfaceMembers. case_decide as Hi; [by rewrite decide_False by tauto|].
  rewrite decide_True by done. simpl. rewrite filter_app, fmap_app. f_equal. clear IH.
  induction (ServerInterface.Addresses i) as [|a az IH]; [done|]. simpl. rewrite IH, filter_cons.
  pose proof (allowed_address_true allowed a) as Ha.
  case_decide as Hc; rewrite <- Ha in Hc.
  - by rewrite Hc.
  - by apply not_true_is_false in Hc as ->.
Qed.

Lemma poolMember_wanted info port a :
  member_wanted info port a (poolMember (ServicePort.NodePort port)
    (monitorPortFor info (ServicePort.NodePort port)) a).
Proof.
  split; simpl; try done; unfold poolMemberName, monitorPortFor, local_policy;
    rewrite ?Contains_without.
  - by intros ->.
  - by intros ->.
  - intros ??. by rewrite !decide_True.
  - intros Hno. repeat case_decide; [tauto|done..].
Qed.

Lemma listenerForPort_wanted info port l :
  valid_port port → listenerForPort info port = Ok l → listener_wanted info port l.
Proof.
  intros Hv (cd & Hcd & (co & Hco & (md & Hmd & (ci & Hci & [= <-])%bind_Ok)%bind_Ok)%bind_Ok)%bind_Ok.
  split; try assumption; [| |reflexivity..|by split_and!]; simpl.
  - intros Ht. by rewrite decide_True.
  - intros Hu. by rewrite decide_False by (rewrite Hu; done).
Qed.

Lemma listenerForPort_is_Ok info port :
  is_Ok (listenerForPort info port) ↔
  Forall (reads_int info) [LoadBalancerListenerTimeoutClientDataMS;
    LoadBalancerListenerTimeoutMemberConnectMS; LoadBalancerListenerTimeoutMemberDataMS] ∧
  reads_list info LoadBalancerListenerAllowedCIDRs.
Proof.
  rewrite !Forall_cons, Forall_nil, <- !annotationInt_is_Ok, <- annotationList_is_Ok. split.
  - intros (l & (cd & Hcd & (co & Hco & (md & Hmd & (ci & Hci & _)%bind_Ok)%bind_Ok)%bind_Ok)%bind_Ok).
    split_and!; by eexists.
  - intros [([cd Hcd] & [co Hco] & [md Hmd] & _) [ci Hci]]. unfold listenerForPort.
    rewrite Hcd, Ok_bind, Hco, Ok_bind, Hmd, Ok_bind, Hci, Ok_bind. by eexists.
Qed.

(** ** The whole state *)

(** The load balancer asked for. *)
Definition lb_wanted (info : serviceInfo) (servers : list Server.t) (l : LoadBalancer.t)
    : Prop :=
  ∃ vip, annotationMarshal info LoadBalancerVIPAddresses = Ok vip ∧
    zone_wanted info servers (LoadBalancer.Zone l) ∧
    LoadBalancer.Name l = annotation info LoadBalancerName ∧
    LoadBalancer.Flavor l = annotation info LoadBalancerFlavor ∧
    LoadBalancer.VIPAddresses l =
      map (λ v, VIPAddress.Mk (VIPAddressRequest.Address v)
                  (SubnetStub.Mk (VIPAddressRequest.Subnet v) "")) vip ∧
    LoadBalancer.HREF l = "" ∧ LoadBalancer.UUID l = "" ∧ LoadBalancer.Status l = "".

Lemma desiredLbState_Ok info nodes servers s :
  desiredLbState info nodes servers = Ok s ↔
  length nodes = length servers ∧
  ∃ l ips, lb_wanted info servers l ∧
    annotationList info LoadBalancerFloatingIPs = Ok ips ∧
    foldR (desiredPort info servers) (MkLbState (Some l) [] ∅ ∅ ∅ ips)
      (Service.Ports (svc info)) = Ok s.
Proof.
  unfold desiredLbState, lb_wanted. case_decide as Hlen.
  { split; [done|]. by intros [? _]. }
  split.
  - intros (zone & Hz & (vip & Hv & (ips & Hi%wrap_err_Ok & Hf)%bind_Ok)%bind_Ok)%bind_Ok.
    split; [done|]. eexists _, ips. split_and!; [|done|exact Hf].
    exists vip. apply desiredZone_Ok in Hz. split_and!; first [assumption|reflexivity].
  - intros (_ & [href uuid name status addrs flavor zone] & ips & (vip & Hv & Hw) & Hi & Hf).
    cbn [LoadBalancer.Zone LoadBalancer.Name LoadBalancer.Flavor LoadBalancer.VIPAddresses
         LoadBalancer.HREF LoadBalancer.UUID LoadBalancer.Status] in Hw.
    destruct Hw as (Hz%desiredZone_Ok & -> & -> & -> & -> & -> & ->).
    rewrite Hz, Ok_bind, Hv, Ok_bind, Hi. exact Hf.
Qed.

Lemma port_state_inputs info servers s i port :
  port_state info servers s i port → valid_port port.
Proof. by intros [_ (? & ? & ? & [? _] & _)]. Qed.

Lemma desiredLbState_wants info nodes servers s :
  desiredLbState info nodes servers = Ok s →
  (∃ l, lb s = Some l ∧ lb_wanted info servers l) ∧
  annotationList info LoadBalancerFloatingIPs = Ok (floatingIPs s) ∧
  length (pools s) = length (Service.Ports (svc info)) ∧
  (∀ i port, Service.Ports (svc info) !! i = Some port → port_state info servers s i port) ∧
  (NoDup ((λ p, (ServicePort.Protocol p, ServicePort.Name p)) <$> Service.Ports (svc info)) →
   NoDup ((λ p, Pool.Name (pool p)) <$> pools s)).
Proof.
  intros (_ & l & ips & Hl & Hi & Hf)%desiredLbState_Ok.
  apply foldR_ports in Hf as (_ & Hlb & Hips & Hlen & _ & Hports);
    [|auto with ccm]. simpl in *.
  split_and!; [by exists l|by rewrite Hips|done|exact Hports|].
  rewrite !NoDup_alt. intros Hnd i j x. rewrite !list_lookup_fmap.
  destruct (Service.Ports (svc info) !! i) as [pi|] eqn:Hpi.
  2: { apply lookup_ge_None in Hpi. rewrite lookup_ge_None_2 by lia. done. }
  destruct (Service.Ports (svc info) !! j) as [pj|] eqn:Hpj.
  2: { apply lookup_ge_None in Hpj. rewrite (lookup_ge_None_2 _ j) by lia. by destruct (_ !! i). }
  pose proof (Hports _ _ Hpi) as Hsi. pose proof (Hports _ _ Hpj) as Hsj.
  rewrite (port_pool _ _ _ _ _ Hsi), (port_pool _ _ _ _ _ Hsj). simpl. intros [= <-] [= Heq].
  apply (Hnd i j (ServicePort.Protocol pi, ServicePort.Name pi)); rewrite list_lookup_fmap.
  - by rewrite Hpi.
  - rewrite Hpj. simpl. apply poolName_valid_inj in Heq as [-> ->]; [done|..];
      by eapply port_state_inputs.
Qed.

(** What a state asks for at the index of a port. *)
Record port_wanted info servers s (i : nat) port : Prop := {
  wanted_pool : ∃ p, pools s !! i = Some (MkPoolPtr i p) ∧ pool_wanted info port p;
  wanted_members : ∃ allowed, annotationList info LoadBalancerListenerAllowedSubnets = Ok allowed ∧
    Forall2 (member_wanted info port) (member_addresses allowed servers)
      (slice_at (members s) (Some i));
  wanted_monitor : ∃ m, slice_at (monitors s) (Some i) = [m] ∧ monitor_wanted info m;
  wanted_listener : ∃ l, slice_at (listeners s) (Some i) = [l] ∧ listener_wanted info port l }.

Lemma port_state_wanted info servers s i port :
  port_state info servers s i port → port_wanted info servers s i port.
Proof.
  intros [Hp (allowed & m & l & (Hv & Hal & Hm & Hl) & Hms & Hmo & Hli)]. split.
  - eexists. split; [exact Hp|]. by apply desiredPool_wanted.
  - exists allowed. split; [done|]. rewrite Hms, desiredMembers_map, Forall2_fmap_r.
    apply Forall_Forall2_diag, Forall_forall. intros a _. apply poolMember_wanted.
  - exists m. split; [done|]. by apply healthMonitorForPort_wanted.
  - exists l. split; [done|]. by apply listenerForPort_wanted.
Qed.

Lemma desiredLbState_allocated info nodes servers s :
  desiredLbState info nodes servers = Ok s → well_allocated s.
Proof.
  intros (_ & l & ips & _ & _ & Hf)%desiredLbState_Ok. eapply foldR_ports; [|exact Hf].
  apply well_allocated_empty.
Qed.

(** C13. A computed state asks for the load balancer of the annotations, in the
    zone of the annotation or of the servers, for the Floating IPs of the
    annotation, and, per port of the service and in their order, for one pool
    with the port's name and protocol and the algorithm of the annotation, a
    member for each private address of the servers in an allowed subnet, in
    their order, one monitor and one listener, every field as the annotations
    and the port say; and for nothing else.  If the protocol and name of the
    ports are distinct, so are the pool names. *)
Theorem desiredLbState_correct info nodes servers s :
  desiredLbState info nodes servers = Ok s →
  (∃ l, lb s = Some l ∧ lb_wanted info servers l) ∧
  annotationList info LoadBalancerFloatingIPs = Ok (floatingIPs s) ∧
  length (pools s) = length (Service.Ports (svc info)) ∧
  (∀ i port, Service.Ports (svc info) !! i = Some port → port_wanted info servers s i port) ∧
  (∀ k, unallocated s k →
     slice_at (members s) k = [] ∧ slice_at (monitors s) k = [] ∧ slice_at (listeners s) k = []) ∧
  (NoDup ((λ p, (ServicePort.Protocol p, ServicePort.Name p)) <$> Service.Ports (svc info)) →
   NoDup ((λ p, Pool.Name (pool p)) <$> pools s)).
Proof.
  intros Hs. destruct (desiredLbState_wants _ _ _ _ Hs) as (Hlb & Hips & Hlen & Hports & Hnd).
  destruct (desiredLbState_allocated _ _ _ _ Hs) as [_ Hme Hmo Hli].
  split_and!; [done..| | |done].
  - intros i port Hp. by apply port_state_wanted, Hports.
  - intros k Hk. split_and!; auto.
Qed.

Lemma annotationMarshal_is_Ok info key :
  is_Ok (annotationMarshal info key) ↔
  is_Ok (Unmarshal_structs VIPAddressRequest.zero decode_VIPAddressRequest (annotation info key)).
Proof. unfold annotationMarshal. split; intros [v Hv]; exists v; by apply wrap_err_Ok in Hv || apply wrap_err_Ok. Qed.

Lemma desiredLbState_is_Ok_ports info nodes servers :
  is_Ok (desiredLbState info nodes servers) ↔
  length nodes = length servers ∧
  (∃ zone, zone_wanted info servers zone) ∧
  is_Ok (Unmarshal_structs VIPAddressRequest.zero decode_VIPAddressRequest
    (annotation info LoadBalancerVIPAddresses)) ∧
  reads_list info LoadBalancerFloatingIPs ∧
  ∀ port, port ∈ Service.Ports (svc info) →
    ∃ allowed monitor listener, port_inputs info port allowed monitor listener.
Proof.
  rewrite <- annotationMarshal_is_Ok, <- annotationList_is_Ok. split.
  - intros (s & (Hlen & l & ips & (vip & Hv & Hz & _) & Hi & Hf)%desiredLbState_Ok).
    split_and!; [done|by eexists..|]. eapply foldR_ports_is_Ok. by eexists.
  - intros (Hlen & [zone Hz] & [vip Hv] & [ips Hi] & Hports).
    set (l := {| LoadBalancer.HREF := ""; LoadBalancer.UUID := "";
                 LoadBalancer.Name := annotation info LoadBalancerName;
                 LoadBalancer.Status := "";
                 LoadBalancer.VIPAddresses := map (λ v, VIPAddress.Mk (VIPAddressRequest.Address v)
                   (SubnetStub.Mk (VIPAddressRequest.Subnet v) "")) vip;
                 LoadBalancer.Flavor := annotation info LoadBalancerFlavor;
                 LoadBalancer.Zone := zone |}).
    destruct (proj2 (foldR_ports_is_Ok info servers _ (MkLbState (Some l) [] ∅ ∅ ∅ ips)) Hports)
      as [s Hs].
    exists s. apply desiredLbState_Ok. split; [done|]. exists l, ips.
    split_and!; [|assumption..]. exists vip. split_and!; first [assumption|reflexivity].
Qed.

Lemma port_inputs_is_Ok info port :
  (∃ allowed monitor listener, port_inputs info port allowed monitor listener) ↔
  valid_port port ∧
  reads_list info LoadBalancerListenerAllowedSubnets ∧
  reads_list info LoadBalancerListenerAllowedCIDRs ∧
  reads_http info ∧
  Forall (reads_int info)
    ([LoadBalancerHealthMonitorDelayS; LoadBalancerHealthMonitorTimeoutS;
      LoadBalancerHealthMonitorUpThreshold; LoadBalancerHealthMonitorDownThreshold] ++
     [LoadBalancerListenerTimeoutClientDataMS; LoadBalancerListenerTimeoutMemberConnectMS;
      LoadBalancerListenerTimeoutMemberDataMS]).
Proof.
  rewrite Forall_app. unfold port_inputs. rewrite <- (annotationList_is_Ok _ LoadBalancerListenerAllowedSubnets).
  pose proof (healthMonitorForPort_is_Ok info) as Hm. pose proof (listenerForPort_is_Ok info port) as Hl.
  split.
  - intros (al & mo & li & Hv & Hal & Hmo & Hli).
    destruct (proj1 Hm) as [? ?]; [by exists mo|]. destruct (proj1 Hl) as [? ?]; [by exists li|].
    split_and!; try assumption. by exists al.
  - intros (Hv & [al Hal] & Hc & Hh & Hi1 & Hi2).
    destruct (proj2 Hm) as [mo Hmo]; [by split|]. destruct (proj2 Hl) as [li Hli]; [by split|].
    exists al, mo, li. split_and!; assumption.
Qed.

(** C15. When a state can be computed: there is a server per node; the zone is
    annotated, or the servers' zones agree once they are known; the
    annotations of the VIP addresses, the Floating IPs and, with a port, of
    the allowed subnets, the monitor and the listener can be read; and every
    port has a protocol that load balancers know and a node port.  That no
    server address is in an allowed subnet is not an error. *)
Theorem desiredLbState_is_Ok info nodes servers :
  is_Ok (desiredLbState info nodes servers) ↔
  length nodes = length servers ∧
  (∃ zone, zone_wanted info servers zone) ∧
  is_Ok (Unmarshal_structs VIPAddressRequest.zero decode_VIPAddressRequest
    (annotation info LoadBalancerVIPAddresses)) ∧
  reads_list info LoadBalancerFloatingIPs ∧
  Forall valid_port (Service.Ports (svc info)) ∧
  (Service.Ports (svc info) ≠ [] →
   reads_list info LoadBalancerListenerAllowedSubnets ∧
   reads_list info LoadBalancerListenerAllowedCIDRs ∧
   reads_http info ∧
   Forall (reads_int info)
     [LoadBalancerHealthMonitorDelayS; LoadBalancerHealthMonitorTimeoutS;
      LoadBalancerHealthMonitorUpThreshold; LoadBalancerHealthMonitorDownThreshold;
      LoadBalancerListenerTimeoutClientDataMS; LoadBalancerListenerTimeoutMemberConnectMS;
      LoadBalancerListenerTimeoutMemberDataMS]).
Proof.
  rewrite desiredLbState_is_Ok_ports. setoid_rewrite port_inputs_is_Ok.
  rewrite (Forall_forall valid_port). destruct (Service.Ports (svc info)) as [|port ports].
  { split; intros (? & ? & ? & ? & _); split_and!; try done; by intros ? ?%not_elem_of_nil. }
  split.
  - intros (? & ? & ? & ? & Hall). split_and!; [done..| |].
    + intros p Hp. by apply Hall.
    + intros _. by destruct (Hall port (list_elem_of_here _ _)) as [_ ?].
  - intros (? & ? & ? & ? & Hv & Hr). split_and!; [done..|]. intros p Hp. split; [by apply Hv|].
    by apply Hr.
Qed.
End members.

(** A pool member is desired exactly for each private server address in a
    subnet, restricted to the allowed subnets if there are any; members are
    told apart by their addresses. *)
Theorem desiredMembers_correct `{GoExt} allowed nodePort monitorPort servers :
  (∀ m, m ∈ desiredMembers allowed nodePort monitorPort servers ↔
     ∃ a, private_address servers a ∧
       (allowed = [] ∨ SubnetStub.UUID (ServerAddress.Subnet a) ∈ allowed) ∧
       m = poolMember nodePort monitorPort a) ∧
  (∀ m1 m2, m1 ∈ desiredMembers allowed nodePort monitorPort servers →
     m2 ∈ desiredMembers allowed nodePort monitorPort servers →
     PoolMember.Name m1 = PoolMember.Name m2 →
     PoolMember.Address m1 = PoolMember.Address m2) ∧
  (desiredMembers allowed nodePort monitorPort servers = [] ↔
     ∀ a, private_address servers a →
       allowed ≠ [] ∧ SubnetStub.UUID (ServerAddress.Subnet a) ∉ allowed).
Proof.
  split; [|split].
  - apply elem_of_desiredMembers.
  - intros m1 m2 (a1 & _ & _ & ->)%elem_of_desiredMembers
      (a2 & _ & _ & ->)%elem_of_desiredMembers. simpl.
    by intros [? _]%poolMemberName_inj.
  - split.
    + intros Hnil a Ha. destruct (decide (allowed = [] ∨
        SubnetStub.UUID (ServerAddress.Subnet a) ∈ allowed)) as [Hal|Hal]; [|tauto].
      exfalso. apply (not_elem_of_nil (poolMember nodePort monitorPort a)).
      rewrite <- Hnil. apply elem_of_desiredMembers. eauto.
    + intros Hall. destruct (desiredMembers allowed nodePort monitorPort servers)
        as [|m ms] eqn:Hms; [done|]. exfalso.
      assert (m ∈ m :: ms) as Hm by left. rewrite <- Hms in Hm.
      apply elem_of_desiredMembers in Hm as (a & Ha & Hal & _).
      destruct (Hall a Ha). tauto.
Qed.

(** ** An HTTP annotation that crashes *)

Section monitor.
Context `{GoExt} `{SDK}.

(** C32. The annotation [null] is valid JSON that leaves the decoded pointer nil,
    and filling in the defaults dereferences it. *)
Theorem null_http_annotation_panics info delay timeout up down :
  annotationInt info LoadBalancerHealthMonitorDelayS = Ok delay →
  annotationInt info LoadBalancerHealthMonitorTimeoutS = Ok timeout →
  annotationInt info LoadBalancerHealthMonitorUpThreshold = Ok up →
  annotationInt info LoadBalancerHealthMonitorDownThreshold = Ok down →
  annotation info LoadBalancerHealthMonitorHTTP = "null" →
  ∃ msg, healthMonitorForPort info = Panic msg.
Proof.
  intros Hd Ht Hu Hw Hh. unfold healthMonitorForPort.
  rewrite Hd, Ok_bind, Ht, Ok_bind, Hu, Ok_bind, Hw, Ok_bind, Hh. by eexists.
Qed.
End monitor.

(** ** Concrete inputs *)

Section witnesses.
#[local] Existing Instance example_GoExt.
#[local] Existing Instance example_SDK.

Lemma desiredLbState_correct_witness :
  port_wanted (example_service []) example_servers (example_desired []) 1
    (ServicePort.Mk "dns" "UDP" 53 30053) ∧
  length (slice_at (members (example_desired [])) (Some 1%nat)) = 2%nat.
Proof.
  split; [|vm_compute; reflexivity].
  refine (proj1 (proj2 (proj2 (proj2 (desiredLbState_correct (example_service [])
    example_nodes example_servers (example_desired []) _)))) 1%nat _ _).
  - vm_compute. reflexivity.
  - reflexivity.
Defined.

Definition null_http_service : serviceInfo :=
  example_service [(LoadBalancerHealthMonitorHTTP, "null")].

Lemma null_http_annotation_panics_witness :
  (∃ msg, healthMonitorForPort null_http_service = Panic msg) ∧
  desiredLbState null_http_service example_nodes example_servers =
    Panic "invalid memory address or nil pointer dereference".
Proof.
  split; [|vm_compute; reflexivity].
  apply (null_http_annotation_panics null_http_service 2 1 2 3); vm_compute; reflexivity.
Defined.
End witnesses.
