(* ===== verification/Locks.v ===== *)
(** * Locks

    [lockForService] of src/pkg/cloudscale_ccm/loadbalancer.go: one mutex per
    service, kept in a [sync.Map] under the UID of the service.  The handlers
    that change something are threads that call it, run while they hold the
    mutex and release it when they return; their steps interleave freely.

    A mutex is known by the address of its allocation. *)

From stdpp Require Import base tactics list gmap strings.
From Stdlib Require Import ZArith.
From S2P Require Import Prelude.

(** A thread that handles the service [uid]: not started, between
    [LoadOrStore] and the return of [Lock], running, or returned. *)
Inductive thread : Type :=
| Fresh (uid : string)
| Locking (uid : string) (mu : nat)
| Running (uid : string) (mu : nat)
| Returned (uid : string).

#[global] Instance thread_eq_dec : EqDecision thread.
Proof. solve_decision. Defined.

(** [holders] tells for every allocated mutex which thread has locked it. *)
Record locks : Type := MkLocks {
  muMap : gmap string nat;
  holders : list (option nat);
  threads : list thread }.

Definition initial (uids : list string) : locks := MkLocks ∅ [] (Fresh <$> uids).

Definition lockKey (uid : string) : string := uid.

(** [l.muMap.LoadOrStore(lockKey(uid), new(sync.Mutex))]: the new mutex is
    allocated in any case, and stored if the key is free. *)
Definition LoadOrStore (s : locks) (uid : string) : locks * nat :=
  let mu := length (holders s) in
  let holders' := holders s ++ [None] in
  match muMap s !! lockKey uid with
  | Some old => (MkLocks (muMap s) holders' (threads s), old)
  | None => (MkLocks (<[lockKey uid := mu]> (muMap s)) holders' (threads s), mu)
  end.

Definition set_thread (s : locks) (t : nat) (th : thread) : locks :=
  MkLocks (muMap s) (holders s) (<[t := th]> (threads s)).

Definition set_holder (s : locks) (mu : nat) (h : option nat) : locks :=
  MkLocks (muMap s) (<[mu := h]> (holders s)) (threads s).

(** One step of the thread [t], if it can take one: [mu.Lock()] blocks while
    the mutex is locked. *)
Definition advance (s : locks) (t : nat) : option locks :=
  match threads s !! t with
  | Some (Fresh uid) =>
      let '(s', mu) := LoadOrStore s uid in Some (set_thread s' t (Locking uid mu))
  | Some (Locking uid mu) =>
      match holders s !! mu with
      | Some None => Some (set_thread (set_holder s mu (Some t)) t (Running uid mu))
      | _ => None
      end
  | Some (Running uid mu) => Some (set_thread (set_holder s mu None) t (Returned uid))
  | Some (Returned _) | None => None
  end.

Inductive lock_step : locks → locks → Prop :=
| lock_step_of s t s' : advance s t = Some s' → lock_step s s'.

Definition reachable (uids : list string) (s : locks) : Prop :=
  rtc lock_step (initial uids) s.

(** ** The invariant *)

(** Mutexes in the map are allocated and belong to one key; a thread that
    locks or runs uses the mutex of its service; the holder of a mutex is a
    thread that runs with it, and every running thread is the holder. *)
Record locks_ok (s : locks) : Prop := {
  stored_allocated uid mu : muMap s !! uid = Some mu → (mu < length (holders s))%nat;
  stored_injective uid1 uid2 mu :
    muMap s !! uid1 = Some mu → muMap s !! uid2 = Some mu → uid1 = uid2;
  locking_stored t uid mu : threads s !! t = Some (Locking uid mu) → muMap s !! uid = Some mu;
  running_stored t uid mu : threads s !! t = Some (Running uid mu) → muMap s !! uid = Some mu;
  running_holds t uid mu :
    threads s !! t = Some (Running uid mu) → holders s !! mu = Some (Some t);
  holder_runs mu t : holders s !! mu = Some (Some t) → ∃ uid, threads s !! t = Some (Running uid mu) }.

Lemma initial_ok uids : locks_ok (initial uids).
Proof.
  assert (∀ t th, threads (initial uids) !! t = Some th → ∃ uid, th = Fresh uid) as Hf.
  { intros t th. cbn. rewrite list_lookup_fmap_Some. intros (uid & -> & _). eauto. }
  split; cbn.
  - done.
  - done.
  - intros t uid mu Ht. by apply Hf in Ht as [? ?].
  - intros t uid mu Ht. by apply Hf in Ht as [? ?].
  - intros t uid mu Ht. by apply Hf in Ht as [? ?].
  - done.
Qed.

Section steps.
Context (s : locks) (t : nat).

Lemma lookup_thread_set th t' :
  is_Some (threads s !! t) →
  <[t := th]> (threads s) !! t' = if decide (t = t') then Some th else threads s !! t'.
Proof.
  intros Hlt%lookup_lt_is_Some. case_decide as Ht; [subst|].
  - by apply list_lookup_insert_eq.
  - by apply list_lookup_insert_ne.
Qed.

Lemma fresh_step_ok uid s' mu :
  locks_ok s → threads s !! t = Some (Fresh uid) → LoadOrStore s uid = (s', mu) →
  locks_ok (set_thread s' t (Locking uid mu)).
Proof.
  intros [Hal Hinj Hlo Hru Hho Hrh] Ht Hls.
  assert (∃ m, s' = MkLocks m (holders s ++ [None]) (threads s) ∧ m !! uid = Some mu ∧
    (∀ u k, muMap s !! u = Some k → m !! u = Some k) ∧
    (∀ u k, m !! u = Some k → muMap s !! u = Some k ∨ u = uid ∧ k = mu ∧ mu = length (holders s)))
    as (m & -> & Hmu & Hold & Hnew).
  { unfold LoadOrStore, lockKey in Hls. destruct (muMap s !! uid) as [old|] eqn:Hm.
    - injection Hls as <- <-. exists (muMap s). split_and!; auto.
    - injection Hls as <- <-. eexists. split_and!; [done|by rewrite lookup_insert_eq|..].
      + intros u k Hk. rewrite lookup_insert_ne; [done|congruence].
      + intros u k. rewrite lookup_insert_Some. naive_solver. }
  assert (∀ k h, holders s !! k = Some h → (holders s ++ [None]) !! k = Some h) as Hh.
  { intros k h Hk. by apply lookup_app_l_Some. }
  split; cbn [muMap holders threads set_thread]; rewrite ?length_app; cbn [length].
  - intros u k [Hk%Hal|(_ & -> & ->)]%Hnew; lia.
  - intros u1 u2 k Hk1 Hk2. apply Hnew in Hk1 as [Hk1|(-> & Hk1 & Hmk)];
      apply Hnew in Hk2 as [Hk2|(-> & Hk2 & Hmk2)]; [by eapply Hinj|..|done].
    + apply Hal in Hk1. lia.
    + apply Hal in Hk2. lia.
  - intros t' u k. rewrite lookup_thread_set by eauto.
    case_decide; [by intros [= <- <-]|eauto].
  - intros t' u k. rewrite lookup_thread_set by eauto. case_decide; [done|eauto].
  - intros t' u k. rewrite lookup_thread_set by eauto. case_decide; [done|eauto].
  - intros k t' [Hk|[_ Hk]]%lookup_app_Some.
    + destruct (Hrh k t' Hk) as [u Hu]. exists u. rewrite lookup_thread_set by eauto.
      case_decide; [congruence|done].
    + apply list_lookup_singleton_Some in Hk as [_ ?]. done.
Qed.

Lemma lookup_holder_set mu h k :
  is_Some (holders s !! mu) →
  <[mu := h]> (holders s) !! k = if decide (mu = k) then Some h else holders s !! k.
Proof.
  intros Hlt%lookup_lt_is_Some. case_decide as Hk; [subst|].
  - by apply list_lookup_insert_eq.
  - by apply list_lookup_insert_ne.
Qed.

Lemma lock_step_ok uid mu :
  locks_ok s → threads s !! t = Some (Locking uid mu) → holders s !! mu = Some None →
  locks_ok (set_thread (set_holder s mu (Some t)) t (Running uid mu)).
Proof.
  intros [Hal Hinj Hlo Hru Hho Hrh] Ht Hmu.
  split; cbn [muMap holders threads set_thread set_holder]; rewrite ?length_insert; [done|done|..].
  - intros t' u k. rewrite lookup_thread_set by eauto. case_decide; [done|eauto].
  - intros t' u k. rewrite lookup_thread_set by eauto.
    case_decide; [intros [= <- <-]; eauto|eauto].
  - intros t' u k. rewrite lookup_thread_set, lookup_holder_set by eauto.
    case_decide as Htt; [intros [= <- <-]; subst t'; by rewrite decide_True|].
    intros Hk. pose proof (Hho _ _ _ Hk). case_decide; [congruence|done].
  - intros k t'. rewrite lookup_holder_set by eauto. case_decide as Hk.
    + intros [= <-]. exists uid. rewrite lookup_thread_set by eauto. subst k.
      by rewrite decide_True.
    + intros (u & Hu)%Hrh. exists u. rewrite lookup_thread_set by eauto.
      case_decide; [congruence|done].
Qed.

Lemma unlock_step_ok uid mu :
  locks_ok s → threads s !! t = Some (Running uid mu) →
  locks_ok (set_thread (set_holder s mu None) t (Returned uid)).
Proof.
  intros [Hal Hinj Hlo Hru Hho Hrh] Ht. pose proof (Hho _ _ _ Ht) as Hmu.
  split; cbn [muMap holders threads set_thread set_holder]; rewrite ?length_insert; [done|done|..].
  - intros t' u k. rewrite lookup_thread_set by eauto. case_decide; [done|eauto].
  - intros t' u k. rewrite lookup_thread_set by eauto. case_decide; [done|eauto].
  - intros t' u k. rewrite lookup_thread_set, lookup_holder_set by eauto.
    case_decide as Htt; [done|]. intros Hk. pose proof (Hho _ _ _ Hk).
    case_decide; [congruence|done].
  - intros k t'. rewrite lookup_holder_set by eauto. case_decide as Hk; [done|].
    intros Hh. destruct (Hrh _ _ Hh) as [u Hu]. exists u. rewrite lookup_thread_set by eauto.
    case_decide; [congruence|done].
Qed.
End steps.

Lemma step_ok s s' : locks_ok s → lock_step s s' → locks_ok s'.
Proof.
  intros Hok Hs. revert Hok. destruct Hs as [s0 t s1 Ha]. intros Hok. unfold advance in Ha.
  destruct (threads s0 !! t) as [[uid|uid mu|uid mu|uid]|] eqn:Ht; [| | |done|done].
  - destruct (LoadOrStore s0 uid) as [s2 mu] eqn:Hls. injection Ha as <-.
    by eapply fresh_step_ok.
  - destruct (holders s0 !! mu) as [[]|] eqn:Hh; [done| |done]. injection Ha as <-.
    by eapply lock_step_ok.
  - injection Ha as <-. by eapply unlock_step_ok.
Qed.

Lemma reachable_ok uids s : reachable uids s → locks_ok s.
Proof.
  intros Hr. unfold reachable in Hr. remember (initial uids) as s0 eqn:Hs0.
  assert (locks_ok s0) as Hok by (subst; apply initial_ok). clear Hs0.
  induction Hr as [|s0 s1 s2 Hs _ IH]; [done|]. by apply IH, (step_ok s0).
Qed.

(** A step moves one thread on. *)
Definition thread_uid (th : thread) : string :=
  match th with Fresh uid | Locking uid _ | Running uid _ | Returned uid => uid end.

Definition thread_phase (th : thread) : nat :=
  match th with Fresh _ => 0 | Locking _ _ => 1 | Running _ _ => 2 | Returned _ => 3 end.

Lemma advance_threads s t s' : advance s t = Some s' →
  ∃ th th', threads s !! t = Some th ∧ threads s' = <[t := th']> (threads s) ∧
    thread_uid th' = thread_uid th ∧ thread_phase th' = S (thread_phase th).
Proof.
  unfold advance. destruct (threads s !! t) as [[uid|uid mu|uid mu|uid]|] eqn:Ht; [| | |done|done].
  - unfold LoadOrStore. destruct (muMap s !! lockKey uid); intros [= <-]; simpl; eauto 10.
  - destruct (holders s !! mu) as [[]|]; [done| |done]. intros [= <-]. simpl. eauto 10.
  - intros [= <-]. simpl. eauto 10.
Qed.

Lemma exclusive s t1 t2 uid mu1 mu2 :
  locks_ok s →
  threads s !! t1 = Some (Running uid mu1) → threads s !! t2 = Some (Running uid mu2) →
  t1 = t2.
Proof.
  intros Hok H1 H2. pose proof (running_stored _ Hok _ _ _ H1) as Hm1.
  pose proof (running_stored _ Hok _ _ _ H2) as Hm2. rewrite Hm1 in Hm2. injection Hm2 as <-.
  pose proof (running_holds _ Hok _ _ _ H1) as Hh1.
  pose proof (running_holds _ Hok _ _ _ H2) as Hh2. congruence.
Qed.

(** Nobody is stuck: a thread that waits waits for one that runs. *)
Lemma waits_for_running s t th :
  locks_ok s → threads s !! t = Some th →
  match th with
  | Fresh _ | Running _ _ => is_Some (advance s t)
  | Locking uid mu =>
      is_Some (advance s t) ∨ ∃ t', threads s !! t' = Some (Running uid mu) ∧ is_Some (advance s t')
  | Returned _ => True
  end.
Proof.
  intros Hok Ht. destruct th as [uid|uid mu|uid mu|uid]; [| | |done].
  1: { unfold advance. rewrite Ht. destruct (LoadOrStore s uid). by eexists. }
  2: { unfold advance. rewrite Ht. by eexists. }
  pose proof (locking_stored _ Hok _ _ _ Ht) as Hm.
  pose proof (stored_allocated _ Hok _ _ Hm) as Hlt.
  destruct (holders s !! mu) as [[t'|]|] eqn:Hh;
    [|left; unfold advance; rewrite Ht, Hh; by eexists|].
  - right. destruct (holder_runs _ Hok _ _ Hh) as [uid' Ht'].
    pose proof (running_stored _ Hok _ _ _ Ht') as Hm'.
    rewrite (stored_injective _ Hok _ _ _ Hm' Hm) in Ht'. exists t'. split; [done|].
    unfold advance. rewrite Ht'. by eexists.
  - apply lookup_ge_None in Hh. lia.
Qed.

(** ** Properties *)

(** Whatever the interleaving, two threads never run for the same service at
    the same time. *)
Theorem lockForService_exclusive uids s t1 t2 uid mu1 mu2 :
  reachable uids s →
  threads s !! t1 = Some (Running uid mu1) → threads s !! t2 = Some (Running uid mu2) →
  t1 = t2.
Proof. intros Hok%reachable_ok. by apply exclusive. Qed.

(** A thread only ever waits for a thread that runs for the same service, so
    different services do not block each other and, as a running thread can
    always return, the threads never deadlock. *)
Theorem lockForService_progress uids s t th :
  reachable uids s → threads s !! t = Some th →
  match th with
  | Fresh _ | Running _ _ => is_Some (advance s t)
  | Locking uid mu =>
      is_Some (advance s t) ∨ ∃ t', threads s !! t' = Some (Running uid mu) ∧ is_Some (advance s t')
  | Returned _ => True
  end.
Proof. intros Hok%reachable_ok. by apply waits_for_running. Qed.

(** ** Concrete inputs *)

Fixpoint run_threads (s : locks) (ts : list nat) : locks :=
  match ts with
  | [] => s
  | t :: ts' => match advance s t with Some s' => run_threads s' ts' | None => s end
  end.

Lemma run_threads_reachable s ts : rtc lock_step s (run_threads s ts).
Proof.
  revert s. induction ts as [|t ts IH]; intros s; [apply rtc_refl|]. cbn [run_threads].
  destruct (advance s t) as [s'|] eqn:Ha; [|apply rtc_refl].
  eapply rtc_l; [by econstructor|apply IH].
Qed.

(** Two threads for the service a and one for b; the first and the last run. *)
Definition example_locks : locks := run_threads (initial ["a"; "a"; "b"]) [0; 1; 0; 2; 2]%nat.

Lemma lockForService_exclusive_witness :
  threads example_locks =
    [Running "a" 0; Locking "a" 0; Running "b" 2]%nat ∧ (0 = 0)%nat.
Proof.
  split; [vm_compute; reflexivity|].
  apply (lockForService_exclusive ["a"; "a"; "b"] example_locks 0 0 "a" 0 0);
    [apply run_threads_reachable|vm_compute; reflexivity..].
Defined.

Lemma lockForService_progress_witness :
  is_Some (advance example_locks 1) ∨ ∃ t', threads example_locks !! t' = Some (Running "a" 0) ∧
    is_Some (advance example_locks t').
Proof.
  refine (lockForService_progress ["a"; "a"; "b"] example_locks 1 (Locking "a" 0) _ _).
  - apply run_threads_reachable.
  - vm_compute. reflexivity.
Defined.
