(* ===== verification/LbMapper.v ===== *)
(** * LbMapper

    src/pkg/cloudscale_ccm/lb_mapper.go: the load balancers that belong to a
    service, found by the UUID in its annotations and by name. *)

From stdpp Require Import base tactics list strings.
From Stdlib Require Import ZArith.
From S2P Require Import Prelude.
From S2P Require Import GoStrings.
From S2P Require Import Limiter.
From S2P Require Import Cloudscale.
From S2P Require Import ServiceInfo.

Definition StatusNotFound : Z := 404.

(** [errors.As(err, &response) && response.StatusCode == http.StatusNotFound] *)
Definition is_not_found (err : error) : bool :=
  match errors_As err with Some code => bool_decide (code = StatusNotFound) | None => false end.

Section LbMapper.
Context {W : Type} `{Client W}.

Definition getByUUID (uuid : string) : M W (Limiter LoadBalancer.t) :=
  try (LoadBalancers_Get uuid)
    (λ server, mret (New None [server]))
    (λ err, if is_not_found err then mret (New None []) else mret (New (Some err) [])).

Definition err_empty_name : error := ErrorString "no load balancer with empty name found".

Definition findByName (name : string) : M W (Limiter LoadBalancer.t) :=
  if decide (name = "") then mret (New (Some err_empty_name) [])
  else
    try LoadBalancers_List
      (λ lbs, mret (New None (filter (λ lb, LoadBalancer.Name lb = name) lbs)))
      (λ err, mret (New (Some err) [])).

Definition same_uuid (a b : LoadBalancer.t) : bool :=
  bool_decide (LoadBalancer.UUID a = LoadBalancer.UUID b).

Definition findByServiceInfo (info : serviceInfo) : M W (Limiter LoadBalancer.t) :=
  let uuid := annotation info LoadBalancerUUID in
  if decide (uuid ≠ "") then
    by_uuid ← getByUUID uuid;
    by_name ← findByName (annotation info LoadBalancerName);
    mret (Unique same_uuid (Limiter.Join [by_uuid; by_name]))
  else findByName (annotation info LoadBalancerName).
End LbMapper.
