(* ===== verification/ActualState.v ===== *)
(** * ActualState

    [actualLbState] of src/pkg/cloudscale_ccm/reconcile.go: the state of the
    load balancer of a service as the API reports it.  The pool the code
    allocates for the i-th pool of the load balancer gets address [i]. *)

From stdpp Require Import base tactics list gmap strings.
From Stdlib Require Import ZArith.
From S2P Require Import Prelude.
From S2P Require Import GoStrings.
From S2P Require Import Limiter.
From S2P Require Import Cloudscale.
From S2P Require Import ServiceInfo.
From S2P Require Import LbState.
From S2P Require Import LbMapper.

Definition with_floatingIPs (s : lbState) (ips : list string) : lbState :=
  {| lb := lb s; pools := pools s; members := members s; monitors := monitors s;
     listeners := listeners s; floatingIPs := ips |}.

Section actual.
Context {W : Type} `{Client W}.

(** The loops over the monitors and the listeners of one pool. *)
Definition monitors_of (monitors : list HealthMonitor.t) (p : Pool.t) : list HealthMonitor.t :=
  filter (λ m, HealthMonitor.Pool m = Pool.UUID p) monitors.
Definition listeners_of (listeners : list Listener.t) (p : Pool.t) : list Listener.t :=
  filter (λ l, Listener.Pool l = Some (Pool.UUID p)) listeners.

(** One iteration of the loop over the pools. *)
Definition actualPool (lbUUID : string) (all_monitors : list HealthMonitor.t)
    (all_listeners : list Listener.t) (s : lbState) (p : Pool.t) : M W lbState :=
  if decide (Pool.LoadBalancer p ≠ lbUUID) then mret s
  else
    let k := Some (length (pools s)) in
    ms ← wrapM (WrapError ("lbstate: failed to load members for " +:+ Pool.UUID p +:+ ": "))
           (PoolMembers_List (Pool.UUID p));
    mret {| lb := lb s;
            pools := pools s ++ [MkPoolPtr (length (pools s)) p];
            members := <[k := ms]> (members s);
            monitors := foldl (λ m x, append_at m k [x]) (monitors s)
                          (monitors_of all_monitors p);
            listeners := foldl (λ m x, append_at m k [x]) (listeners s)
                           (listeners_of all_listeners p);
            floatingIPs := floatingIPs s |}.

(** The listeners without a pool. *)
Definition floating_listeners (lbUUID : string) (all_listeners : list Listener.t)
    : list Listener.t :=
  filter (λ l, Listener.Pool l = None ∧ Listener.LoadBalancer l = lbUUID) all_listeners.

Definition assigned_ips (lbUUID : string) (ips : list FloatingIP.t) : list string :=
  FloatingIP.Network <$> filter (λ ip, FloatingIP.LoadBalancer ip = Some lbUUID) ips.

Definition actualLbState (info : serviceInfo) : M W lbState :=
  found ← findByServiceInfo info;
  lb ← wrapM (WrapError ("unable to get load balancer for " +:+ Service.Name (svc info) +:+ ": "))
         (lift (AtMostOne found));
  match lb with
  | None => mret zeroLbState
  | Some lb =>
      monitors ← wrapM (WrapError "lb state: failed to load monitors: ") HealthMonitors_List;
      listeners ← wrapM (WrapError "lb state: failed to load listeners: ") Listeners_List;
      pools ← wrapM (WrapError "lb state: failed to load pools: ") Pools_List;
      s ← foldM (actualPool (LoadBalancer.UUID lb) monitors listeners) (newLbState lb) pools;
      let s :=
        {| LbState.lb := LbState.lb s; LbState.pools := LbState.pools s;
           members := members s; LbState.monitors := LbState.monitors s;
           LbState.listeners :=
             foldl (λ m x, append_at m None [x]) (LbState.listeners s)
               (floating_listeners (LoadBalancer.UUID lb) listeners);
           floatingIPs := floatingIPs s |} in
      ips ← wrapM (WrapError "lbstate: failed to load floating ips: ") FloatingIPs_List;
      mret (with_floatingIPs s (floatingIPs s ++ assigned_ips (LoadBalancer.UUID lb) ips))
  end.
End actual.
