(* ===== verification/ActualStateSpec.v ===== *)
(** * ActualStateSpec

    What [findByServiceInfo] and [actualLbState] return, against an API that
    serves a fixed set of resources, and what becomes of lookup errors. *)

From stdpp Require Import base tactics list gmap strings.
From Stdlib Require Import ZArith.
From S2P Require Import Prelude.
From S2P Require Import GoStrings.
From S2P Require Import Json.
From S2P Require Import Limiter.
From S2P Require Import Cloudscale.
From S2P Require Import ServiceInfo.
From S2P Require Import Actions.
From S2P Require Import LbState.
From S2P Require Import NextActions.
From S2P Require Import LbMapper.
From S2P Require Import ActualState.
From S2P Require Import Examples.

(** ** An API that answers *)

(** The resources of an account. *)
Record api : Type := MkApi {
  api_lbs : list LoadBalancer.t;
  api_pools : list Pool.t;
  api_members : string → list PoolMember.t;
  api_monitors : list HealthMonitor.t;
  api_listeners : list Listener.t;
  api_ips : list FloatingIP.t }.

Definition get_lb (x : api) (uuid : string) : option LoadBalancer.t :=
  head (filter (λ l, LoadBalancer.UUID l = uuid) (api_lbs x)).

(** In the state [w] the API answers every read with the resources of [x], a
    missing load balancer with the status 404, and UUIDs are unique. *)
Record serves {W} `{Client W} (w : W) (x : api) : Prop := {
  serves_get uuid : ∃ msg, LoadBalancers_Get uuid w =
    (match get_lb x uuid with Some l => Ok l | None => Err (ErrorResponse StatusNotFound msg) end, w);
  serves_lbs : LoadBalancers_List w = (Ok (api_lbs x), w);
  serves_pools : Pools_List w = (Ok (api_pools x), w);
  serves_members uuid : PoolMembers_List uuid w = (Ok (api_members x uuid), w);
  serves_monitors : HealthMonitors_List w = (Ok (api_monitors x), w);
  serves_listeners : Listeners_List w = (Ok (api_listeners x), w);
  serves_ips : FloatingIPs_List w = (Ok (api_ips x), w);
  unique_uuids : NoDup (LoadBalancer.UUID <$> api_lbs x) }.

(** The load balancers of a service: the one its UUID annotation names, and
    those that carry its name. *)
Definition belongs (info : serviceInfo) (l : LoadBalancer.t) : Prop :=
  annotation info LoadBalancerUUID ≠ "" ∧
    LoadBalancer.UUID l = annotation info LoadBalancerUUID ∨
  LoadBalancer.Name l = annotation info LoadBalancerName.

Lemma elem_of_option {A} (o : option A) a : a ∈ option_list o ↔ o = Some a.
Proof. destruct o; simpl; set_solver. Qed.

Lemma ForallOrdPairs_impl {A} (R S : A → A → Prop) l :
  (∀ a b, R a b → S a b) → ForallOrdPairs R l → ForallOrdPairs S l.
Proof. intros HRS. induction 1; constructor; [|done]. eapply Forall_impl; eauto. Qed.

Section find.
Context {W : Type} `{Client W}.
Implicit Types (info : serviceInfo) (x : api) (w : W).

Lemma uuid_inj x l1 l2 :
  NoDup (LoadBalancer.UUID <$> api_lbs x) → l1 ∈ api_lbs x → l2 ∈ api_lbs x →
  LoadBalancer.UUID l1 = LoadBalancer.UUID l2 → l1 = l2.
Proof. apply NoDup_key_inj. Qed.

Lemma get_lb_Some x uuid l :
  NoDup (LoadBalancer.UUID <$> api_lbs x) →
  get_lb x uuid = Some l ↔ l ∈ api_lbs x ∧ LoadBalancer.UUID l = uuid.
Proof.
  intros Hnd. unfold get_lb.
  assert (∀ y, y ∈ filter (λ l, LoadBalancer.UUID l = uuid) (api_lbs x) ↔
    y ∈ api_lbs x ∧ LoadBalancer.UUID y = uuid) as Hf.
  { intros y. rewrite list_elem_of_filter. tauto. }
  split.
  - intros Hh. apply Hf. destruct (filter _ _); simplify_eq/=. by left.
  - intros Hl. pose proof (proj2 (Hf l) Hl) as Hin.
    destruct (filter _ _) as [|y ys]; [by apply not_elem_of_nil in Hin|].
    simpl. f_equal. destruct (proj1 (Hf y)) as [Hy Hyu]; [by left|].
    destruct Hl as [Hl Hlu]. eapply uuid_inj; eauto. congruence.
Qed.

Lemma uuid_NoDup (l : list LoadBalancer.t) :
  ForallOrdPairs (λ a b, LoadBalancer.UUID a ≠ LoadBalancer.UUID b) l → NoDup (LoadBalancer.UUID <$> l).
Proof.
  induction 1 as [|a l Ha _ IH]; [constructor|]. rewrite fmap_cons. constructor; [|done].
  intros (b & Hb & Hin)%list_elem_of_fmap. rewrite Forall_forall in Ha. by apply (Ha b).
Qed.
End find.

(** ** What a service is told *)

(** While the world is in one of the states [I], reads succeed, keep it there,
    and tell what [x] holds, as far as it concerns its load balancers: those
    with the given names and UUIDs are found, as [alike] shows them, with their
    pools and all below, and nothing else is among them. *)
Record answers {W} `{Client W} (I : W → Prop) (alike : LoadBalancer.t → LoadBalancer.t → Prop)
    (names uuids : string → Prop) (x : api) : Prop := {
  answers_get uuid w : I w → uuids uuid → ∃ r w', LoadBalancers_Get uuid w = (r, w') ∧ I w' ∧
    match get_lb x uuid with
    | Some l0 => ∃ l, r = Ok l ∧ alike l0 l
    | None => ∃ msg, r = Err (ErrorResponse StatusNotFound msg)
    end;
  answers_lbs w : I w → ∃ ls w', LoadBalancers_List w = (Ok ls, w') ∧ I w' ∧
    ∀ name, names name → Forall2 alike (filter (λ l, LoadBalancer.Name l = name) (api_lbs x))
      (filter (λ l, LoadBalancer.Name l = name) ls);
  answers_pools w : I w → ∃ ps w', Pools_List w = (Ok ps, w') ∧ I w' ∧
    ∀ l, l ∈ api_lbs x → filter (λ p, Pool.LoadBalancer p = LoadBalancer.UUID l) ps =
      filter (λ p, Pool.LoadBalancer p = LoadBalancer.UUID l) (api_pools x);
  answers_members w p : I w → p ∈ api_pools x → ∃ w',
    PoolMembers_List (Pool.UUID p) w = (Ok (api_members x (Pool.UUID p)), w') ∧ I w';
  answers_monitors w : I w → ∃ ms w', HealthMonitors_List w = (Ok ms, w') ∧ I w' ∧
    ∀ p, p ∈ api_pools x → monitors_of ms p = monitors_of (api_monitors x) p;
  answers_listeners w : I w → ∃ ls w', Listeners_List w = (Ok ls, w') ∧ I w' ∧
    (∀ p, p ∈ api_pools x → listeners_of ls p = listeners_of (api_listeners x) p) ∧
    ∀ l, l ∈ api_lbs x → floating_listeners (LoadBalancer.UUID l) ls =
      floating_listeners (LoadBalancer.UUID l) (api_listeners x);
  answers_ips w : I w → ∃ fs w', FloatingIPs_List w = (Ok fs, w') ∧ I w' ∧
    ∀ l, l ∈ api_lbs x → assigned_ips (LoadBalancer.UUID l) fs =
      assigned_ips (LoadBalancer.UUID l) (api_ips x);
  alike_uuid l0 l : alike l0 l → LoadBalancer.UUID l = LoadBalancer.UUID l0;
  alike_name l0 l : alike l0 l → LoadBalancer.Name l = LoadBalancer.Name l0;
  answers_unique : NoDup (LoadBalancer.UUID <$> api_lbs x) }.

(** The names and UUIDs a service looks for. *)
Definition looked_up (names uuids : string → Prop) (info : serviceInfo) : Prop :=
  annotation info LoadBalancerName ≠ "" ∧ names (annotation info LoadBalancerName) ∧
  (annotation info LoadBalancerUUID ≠ "" → uuids (annotation info LoadBalancerUUID)).

(** An API that serves its resources answers in the one state. *)
Lemma serves_answers {W} `{Client W} (w : W) x :
  serves w x → answers (eq w) eq (λ _, True) (λ _, True) x.
Proof.
  intros Hw. split.
  - intros uuid ? <- _. destruct (serves_get _ _ Hw uuid) as [msg Hg].
    eexists _, w. split; [exact Hg|]. split; [done|]. destruct (get_lb x uuid); eauto.
  - intros ? <-. eexists _, w. split; [apply (serves_lbs _ _ Hw)|]. split; [done|]. intros name _.
    by apply Forall_Forall2_diag, Forall_true.
  - intros ? <-. eexists _, w. by split; [apply (serves_pools _ _ Hw)|].
  - intros ? p <- _. exists w. by split; [apply (serves_members _ _ Hw)|].
  - intros ? <-. eexists _, w. by split; [apply (serves_monitors _ _ Hw)|].
  - intros ? <-. eexists _, w. by split; [apply (serves_listeners _ _ Hw)|].
  - intros ? <-. eexists _, w. by split; [apply (serves_ips _ _ Hw)|].
  - by intros ? ? ->.
  - by intros ? ? ->.
  - by apply unique_uuids with w.
Qed.

Section answered.
Context {W : Type} `{Client W} (I : W → Prop) (alike : LoadBalancer.t → LoadBalancer.t → Prop).
Context (names uuids : string → Prop) (x : api) (Hx : answers I alike names uuids x).
Implicit Types (info : serviceInfo) (w : W) (l : LoadBalancer.t).

Lemma alike_inj l0 l1 l2 :
  l0 ∈ api_lbs x → l1 ∈ api_lbs x → alike l0 l2 → LoadBalancer.UUID l1 = LoadBalancer.UUID l2 → l1 = l0.
Proof.
  intros H0 H1 Ha Hu. eapply (uuid_inj x); [apply (answers_unique _ _ _ _ _ Hx)|done..|].
  by rewrite Hu, (alike_uuid _ _ _ _ _ Hx l0 l2 Ha).
Qed.

Lemma alike_belongs info l0 l : alike l0 l → belongs info l0 ↔ belongs info l.
Proof.
  intros Ha. unfold belongs.
  by rewrite (alike_uuid _ _ _ _ _ Hx l0 l Ha), (alike_name _ _ _ _ _ Hx l0 l Ha).
Qed.

(** The load balancers [found] are those of [x] that satisfy [P], once each. *)
Record found_all (P : LoadBalancer.t → Prop) (found : list LoadBalancer.t) : Prop := {
  found_once : NoDup (LoadBalancer.UUID <$> found);
  found_real l : l ∈ found → ∃ l0, l0 ∈ api_lbs x ∧ P l0 ∧ alike l0 l;
  found_each l0 : l0 ∈ api_lbs x → P l0 → ∃ l, l ∈ found ∧ alike l0 l }.

Lemma alike_uuids ls ls' : Forall2 alike ls ls' → LoadBalancer.UUID <$> ls' = LoadBalancer.UUID <$> ls.
Proof.
  induction 1 as [|l0 l ls ls' Ha _ IH]; [done|]. rewrite !fmap_cons, IH.
  by rewrite (alike_uuid _ _ _ _ _ Hx l0 l Ha).
Qed.

Lemma findByName_answers name w :
  I w → names name → name ≠ "" → ∃ found w', findByName name w = (Ok (New None found), w') ∧ I w' ∧
    found_all (λ l, LoadBalancer.Name l = name) found.
Proof.
  intros Hw Hn Hne. unfold findByName. rewrite decide_False by done. unfold try.
  destruct (answers_lbs _ _ _ _ _ Hx w Hw) as (ls & w' & -> & Hw' & Hall). specialize (Hall name Hn).
  eexists _, w'. split; [done|]. split; [done|]. split.
  - rewrite (alike_uuids _ _ Hall). eapply sublist_NoDup; [apply (answers_unique _ _ _ _ _ Hx)|].
    apply fmap_sublist, sublist_filter.
  - intros l [i Hi]%list_elem_of_lookup.
    destruct (Forall2_lookup_r _ _ _ _ _ Hall Hi) as (l0 & Hl0 & Ha). exists l0.
    apply list_elem_of_lookup_2, list_elem_of_filter in Hl0 as [? ?]. done.
  - intros l0 Hl0 Hn0. assert (l0 ∈ filter (λ l, LoadBalancer.Name l = name) (api_lbs x)) as Hf
      by (by apply list_elem_of_filter).
    apply list_elem_of_lookup in Hf as [i Hi].
    destruct (Forall2_lookup_l _ _ _ _ _ Hall Hi) as (l & Hl & Ha). exists l.
    split; [by eapply list_elem_of_lookup_2|done].
Qed.

Lemma getByUUID_answers uuid w :
  I w → uuids uuid → ∃ found w', getByUUID uuid w = (Ok (New None found), w') ∧ I w' ∧
    found_all (λ l, LoadBalancer.UUID l = uuid) found.
Proof.
  intros Hw Hu. unfold getByUUID, try. pose proof (answers_unique _ _ _ _ _ Hx) as Hnd.
  destruct (answers_get _ _ _ _ _ Hx uuid w Hw Hu) as (r & w' & -> & Hw' & Hr).
  destruct (get_lb x uuid) as [l0|] eqn:Hg.
  - destruct Hr as (l & -> & Ha). exists [l], w'. split; [done|]. split; [done|].
    apply get_lb_Some in Hg as [Hl0 Hu0]; [|done]. split; [by repeat constructor; set_solver|..].
    + intros k ->%list_elem_of_singleton. by exists l0.
    + intros k Hk Hku. exists l. split; [by left|].
      by rewrite (uuid_inj x k l0 Hnd Hk Hl0) by congruence.
  - destruct Hr as (msg & ->). exists [], w'. split; [done|]. split; [done|].
    split; [constructor|by intros l ?%not_elem_of_nil|]. intros l0 Hl0 Hu0.
    assert (get_lb x uuid = Some l0) by (by apply get_lb_Some). congruence.
Qed.

(** Every load balancer of the service is found, once, and no other. *)
Lemma findByServiceInfo_answers info w :
  I w → looked_up names uuids info →
  ∃ found w', findByServiceInfo info w = (Ok (New None found), w') ∧ I w' ∧
    found_all (belongs info) found.
Proof.
  intros Hw (Hne & Hn & Hu). pose proof (alike_inj) as Hinj.
  unfold findByServiceInfo. case_decide as Hue.
  2: { destruct (findByName_answers _ w Hw Hn Hne) as (found & w' & Hf & Hw' & [H1 H2 H3]).
    exists found, w'. split; [done|]. split; [done|]. unfold belongs. split; [done|naive_solver..]. }
  destruct (getByUUID_answers _ w Hw (Hu Hue)) as (by_uuid & w1 & Hg & Hw1 & [_ Hu2 Hu3]).
  destruct (findByName_answers _ w1 Hw1 Hn Hne) as (by_name & w2 & Hf & Hw2 & [_ Hn2 Hn3]).
  unfold mbind, M_bind. rewrite Hg, Hf. unfold mret, M_ret, Unique. rewrite Join_eq. simpl.
  rewrite app_nil_r. set (all := by_uuid ++ by_name).
  assert (∀ l, l ∈ all → ∃ l0, l0 ∈ api_lbs x ∧ belongs info l0 ∧ alike l0 l) as Hall.
  { unfold all, belongs. intros l [(l0 & ? & ? & ?)%Hu2|(l0 & ? & ? & ?)%Hn2]%elem_of_app;
      exists l0; tauto. }
  exists (fold_left (unique_step same_uuid) all []), w2. split; [done|]. split; [done|].
  assert (∀ l, l ∈ fold_left (unique_step same_uuid) all [] → l ∈ all) as Hsub.
  { intros l [?%not_elem_of_nil|]%elem_of_fold_unique; done. }
  split; [apply uuid_NoDup|by intros l ?%Hsub%Hall|].
  - eapply ForallOrdPairs_impl; [|apply (fold_unique_distinct same_uuid); constructor].
    intros a b Hab Hn'. unfold same_uuid in Hab. by rewrite bool_decide_true in Hab.
  - intros l0 Hl0 Hb. assert (∃ l, l ∈ all ∧ alike l0 l) as (l & Hl & Ha).
    { unfold all. destruct Hb as [[_ Hb]|Hb].
      - destruct (Hu3 l0 Hl0 Hb) as (l & ? & ?). exists l. rewrite elem_of_app. by auto.
      - destruct (Hn3 l0 Hl0 Hb) as (l & ? & ?). exists l. rewrite elem_of_app. by auto. }
    destruct (fold_unique_covers same_uuid [] all l) as (y & Hy & Huy); [|done|].
    { intros ?. by apply bool_decide_true. }
    apply bool_decide_eq_true in Huy. destruct (Hall y (Hsub y Hy)) as (y0 & Hy0 & _ & Hay).
    exists y. split; [done|]. rewrite (alike_inj y0 l0 y); [done..|].
    by rewrite <- Huy, (alike_uuid _ _ _ _ _ Hx l0 l Ha).
Qed.
End answered.

(** Every load balancer of the service is found, once, and no other. *)
Lemma findByServiceInfo_serves {W} `{Client W} info x (w : W) :
  serves w x → annotation info LoadBalancerName ≠ "" →
  ∃ found, findByServiceInfo info w = (Ok (New None found), w) ∧
    NoDup found ∧ ∀ l, l ∈ found ↔ l ∈ api_lbs x ∧ belongs info l.
Proof.
  intros Hw Hn. pose proof (serves_answers w x Hw) as Hx.
  destruct (findByServiceInfo_answers _ _ _ _ _ Hx info w) as (found & w' & Hf & <- & [H1 H2 H3]); [done..|].
  exists found. split; [done|]. split; [by eapply NoDup_fmap_1|]. naive_solver.
Qed.

(** ** The state of a load balancer *)

Lemma slice_at_foldl {A} (l : list A) m k k' :
  slice_at (foldl (λ m x, append_at m k [x]) m l) k' =
  if decide (k = k') then slice_at m k ++ l else slice_at m k'.
Proof.
  revert m. induction l as [|a l IH]; intros m; simpl.
  - case_decide; [subst; by rewrite app_nil_r|done].
  - rewrite IH, !slice_at_append. case_decide; [|done].
    by rewrite decide_True, <- app_assoc by done.
Qed.

Lemma slice_at_insert {A} (m : gmap (option nat) (list A)) k l k' :
  slice_at (<[k := l]> m) k' = if decide (k = k') then l else slice_at m k'.
Proof. unfold slice_at. rewrite lookup_insert. by case_decide. Qed.

(** What is filed under the pool at address [i]. *)
Record pool_reported (x : api) (s : lbState) (i : nat) (p : Pool.t) : Prop := {
  reported_members : slice_at (members s) (Some i) = api_members x (Pool.UUID p);
  reported_monitors : slice_at (monitors s) (Some i) = monitors_of (api_monitors x) p;
  reported_listeners : slice_at (listeners s) (Some i) = listeners_of (api_listeners x) p }.

(** The invariant of the loop over the pools. *)
Record pools_reported (x : api) (s : lbState) : Prop := {
  addresses i p : pools s !! i = Some p → ptr p = i;
  parts i p : pools s !! i = Some p → pool_reported x s i (pool p);
  fresh_monitors k : (length (pools s) ≤ k)%nat → slice_at (monitors s) (Some k) = [];
  fresh_listeners k : (length (pools s) ≤ k)%nat → slice_at (listeners s) (Some k) = [];
  no_floating_yet : slice_at (listeners s) None = [] }.

Lemma pools_reported_empty x l : pools_reported x (newLbState l).
Proof. by split. Qed.

(** The parts the API reports for the load balancer [l], and only those. *)
Record reports_lb (x : api) (l : LoadBalancer.t) (s : lbState) : Prop := {
  the_lb : lb s = Some l;
  the_pools : pool <$> pools s =
    filter (λ p, Pool.LoadBalancer p = LoadBalancer.UUID l) (api_pools x);
  the_addresses i p : pools s !! i = Some p → ptr p = i;
  the_parts i p : pools s !! i = Some p → pool_reported x s i (pool p);
  the_floating_listeners : slice_at (listeners s) None =
    floating_listeners (LoadBalancer.UUID l) (api_listeners x);
  the_ips : floatingIPs s = assigned_ips (LoadBalancer.UUID l) (api_ips x) }.

Section actual.
Context {W : Type} `{Client W} (I : W → Prop) (alike : LoadBalancer.t → LoadBalancer.t → Prop).
Context (names uuids : string → Prop) (x : api) (Hx : answers I alike names uuids x).
Implicit Types (info : serviceInfo) (w : W) (s : lbState) (l : LoadBalancer.t).

Section pool.
Context (u : string) (ms : list HealthMonitor.t) (ls : list Listener.t).
Hypothesis listed_monitors : ∀ p, p ∈ api_pools x → monitors_of ms p = monitors_of (api_monitors x) p.
Hypothesis listed_listeners : ∀ p, p ∈ api_pools x → listeners_of ls p = listeners_of (api_listeners x) p.

Lemma actualPool_answers w s p :
  I w → pools_reported x s → (Pool.LoadBalancer p = u → p ∈ api_pools x) →
  ∃ s' w', actualPool u ms ls s p w = (Ok s', w') ∧ I w' ∧
    pools_reported x s' ∧ lb s' = lb s ∧ floatingIPs s' = floatingIPs s ∧
    pool <$> pools s' = (pool <$> pools s) ++ filter (λ p, Pool.LoadBalancer p = u) [p].
Proof.
  intros Hw Hs Hin. unfold actualPool. rewrite filter_cons, filter_nil.
  destruct (decide (Pool.LoadBalancer p = u)) as [Hu|Hu].
  2: { rewrite decide_True by done. exists s, w. by rewrite app_nil_r. }
  rewrite decide_False by (intros []; done). specialize (Hin Hu).
  rewrite (listed_monitors p Hin), (listed_listeners p Hin).
  destruct (answers_members _ _ _ _ _ Hx w p Hw Hin) as (w' & Hm & Hw').
  unfold mbind, M_bind, wrapM. rewrite Hm. simpl.
  eexists _, w'. split; [reflexivity|]. split; [done|]. destruct Hs as [Had Hpa Hmo Hli Hno].
  split; [|split_and!; [done..|exact (fmap_app pool (pools s) [_])]].
  assert (∀ i, (i < length (pools s))%nat → Some (length (pools s)) ≠ Some i) as Hold.
  { intros i Hi [=]. lia. }
  split; simpl; [| | | |by rewrite slice_at_foldl, decide_False].
  - intros i q. rewrite lookup_app_Some, list_lookup_singleton_Some.
    intros [?|[? [Hi <-]]]; [auto|]. simpl. lia.
  - intros i q. rewrite lookup_app_Some, list_lookup_singleton_Some.
    intros [Hq|[Hge [Hi <-]]].
    + pose proof (lookup_lt_Some _ _ _ Hq) as Hlt%Hold. destruct (Hpa i q Hq) as [H1 H2 H3].
      split; simpl; rewrite ?slice_at_insert, ?slice_at_foldl, decide_False by done; done.
    + assert (i = length (pools s)) as -> by lia.
      split; simpl; rewrite ?slice_at_insert, ?slice_at_foldl, decide_True by done; [done|..].
      * by rewrite Hmo by lia.
      * by rewrite Hli by lia.
  - intros k. rewrite length_app. simpl. intros Hk.
    rewrite slice_at_foldl, decide_False by (intros [=]; lia). apply Hmo. lia.
  - intros k. rewrite length_app. simpl. intros Hk.
    rewrite slice_at_foldl, decide_False by (intros [=]; lia). apply Hli. lia.
Qed.

Lemma foldM_actualPool_answers w s ps :
  I w → pools_reported x s → (∀ p, p ∈ ps → Pool.LoadBalancer p = u → p ∈ api_pools x) →
  ∃ s' w', foldM (actualPool u ms ls) s ps w = (Ok s', w') ∧ I w' ∧
    pools_reported x s' ∧ lb s' = lb s ∧ floatingIPs s' = floatingIPs s ∧
    pool <$> pools s' = (pool <$> pools s) ++ filter (λ p, Pool.LoadBalancer p = u) ps.
Proof.
  revert w s. induction ps as [|p ps IH]; intros w s Hw Hs Hin.
  { exists s, w. by rewrite filter_nil, app_nil_r. }
  destruct (actualPool_answers w s p Hw Hs) as (s1 & w1 & Heq & Hw1 & Hs1 & Hlb & Hip & Hpools).
  { apply Hin. by left. }
  destruct (IH w1 s1 Hw1 Hs1) as (s2 & w2 & Heq2 & Hw2 & Hs2 & Hlb2 & Hip2 & Hpools2).
  { intros q Hq. apply Hin. by right. }
  exists s2, w2. simpl. unfold mbind, M_bind. rewrite Heq, Heq2.
  split; [done|]. split; [done|]. split; [done|]. rewrite Hlb2, Hip2, Hpools2, Hpools, Hlb, Hip.
  split_and!; [done..|]. rewrite <- app_assoc, <- filter_app. done.
Qed.
End pool.

(** Once the load balancer is found, its parts are read. *)
Lemma actualLbState_found info l0 l w w1 :
  findByServiceInfo info w = (Ok (New None [l]), w1) → I w1 → l0 ∈ api_lbs x → alike l0 l →
  ∃ s w', actualLbState info w = (Ok s, w') ∧ I w' ∧ reports_lb x l s.
Proof.
  intros Hf Hw Hl0 Ha. pose proof (alike_uuid _ _ _ _ _ Hx _ _ Ha) as Hu.
  unfold actualLbState, mbind, M_bind. rewrite Hf. simpl. unfold wrapM.
  destruct (answers_monitors _ _ _ _ _ Hx w1 Hw) as (ms & w2 & -> & Hw2 & Hms). simpl.
  destruct (answers_listeners _ _ _ _ _ Hx w2 Hw2) as (ls & w3 & -> & Hw3 & Hls & Hfl). simpl.
  destruct (answers_pools _ _ _ _ _ Hx w3 Hw3) as (ps & w4 & -> & Hw4 & Hps). simpl.
  specialize (Hps l0 Hl0). rewrite <- Hu in Hps. specialize (Hfl l0 Hl0). rewrite <- Hu in Hfl.
  destruct (foldM_actualPool_answers (LoadBalancer.UUID l) ms ls Hms Hls w4 (newLbState l) ps Hw4)
    as (s & w5 & -> & Hw5 & Hs & Hlb & Hip & Hpools); [apply pools_reported_empty| |].
  { intros p Hp Hpu. assert (p ∈ filter (λ p, Pool.LoadBalancer p = LoadBalancer.UUID l) ps) as Hin
      by (by apply list_elem_of_filter). rewrite Hps in Hin. by apply list_elem_of_filter in Hin as [_ ?]. }
  destruct (answers_ips _ _ _ _ _ Hx w5 Hw5) as (fs & w6 & -> & Hw6 & Hfs). simpl.
  specialize (Hfs l0 Hl0). rewrite <- Hu in Hfs.
  eexists _, w6. split; [reflexivity|]. split; [done|].
  destruct Hs as [Had Hpa _ _ Hno]. split; simpl; [done|by rewrite Hpools, Hps|done| | |].
  - intros i p Hp. destruct (Hpa i p Hp) as [H1 H2 H3]. split; simpl; [done..|].
    by rewrite slice_at_foldl, decide_False.
  - by rewrite slice_at_foldl, decide_True, Hno, Hfl by done.
  - by rewrite Hip, Hfs.
Qed.

Lemma actualLbState_answers info w :
  I w → looked_up names uuids info →
  ∃ r w', actualLbState info w = (r, w') ∧ I w' ∧
    match r with
    | Ok s =>
        s = zeroLbState ∧ (∀ l, l ∈ api_lbs x → ¬ belongs info l) ∨
        ∃ l0 l, (∀ l', l' ∈ api_lbs x ∧ belongs info l' ↔ l' = l0) ∧ alike l0 l ∧ reports_lb x l s
    | Err _ =>
        ∃ l1 l2, l1 ≠ l2 ∧ l1 ∈ api_lbs x ∧ belongs info l1 ∧ l2 ∈ api_lbs x ∧ belongs info l2
    | Panic _ => False
    end.
Proof.
  intros Hw Hlk.
  destruct (findByServiceInfo_answers I alike names uuids x Hx info w Hw Hlk)
    as (found & w1 & Hf & Hw1 & [Hnd Hreal Heach]).
  destruct found as [|l [|l2 found]].
  - unfold actualLbState, mbind, M_bind. rewrite Hf.
    eexists _, w1. split; [done|]. split; [done|]. left. split; [done|]. intros l Hl Hb.
    destruct (Heach l Hl Hb) as (? & ?%not_elem_of_nil & _). done.
  - destruct (Hreal l) as (l0 & Hl0 & Hb & Ha); [by left|].
    destruct (actualLbState_found info l0 l w w1 Hf Hw1 Hl0 Ha) as (s & w2 & Hs & Hw2 & Hr).
    exists (Ok s), w2. split; [exact Hs|]. split; [done|]. right. exists l0, l. split; [|done].
    intros l'. split; [|by intros ->]. intros [Hl' Hb'].
    destruct (Heach l' Hl' Hb') as (k & ->%list_elem_of_singleton & Hk).
    eapply (alike_inj I alike names uuids x Hx); [done|done|exact Ha|].
    by rewrite (alike_uuid _ _ _ _ _ Hx _ _ Hk).
  - unfold actualLbState, mbind, M_bind. rewrite Hf.
    eexists _, w1. split; [done|]. split; [done|].
    destruct (Hreal l) as (l1 & Hl1 & Hb1 & Ha1); [by left|].
    destruct (Hreal l2) as (l2' & Hl2 & Hb2 & Ha2); [by right; left|].
    exists l1, l2'. split_and!; [|done..]. intros <-.
    rewrite !fmap_cons, NoDup_cons in Hnd. destruct Hnd as [Hnd _]. apply Hnd, elem_of_cons. left.
    by rewrite (alike_uuid _ _ _ _ _ Hx _ _ Ha1), (alike_uuid _ _ _ _ _ Hx _ _ Ha2).
Qed.
End actual.

Section served.
Context {W : Type} `{Client W}.
Implicit Types (info : serviceInfo) (x : api) (w : W) (s : lbState).

Lemma actualLbState_serves info x w :
  serves w x → annotation info LoadBalancerName ≠ "" →
  ∃ r, actualLbState info w = (r, w) ∧
    match r with
    | Ok s =>
        s = zeroLbState ∧ (∀ l, l ∈ api_lbs x → ¬ belongs info l) ∨
        ∃ l, (∀ l', l' ∈ api_lbs x ∧ belongs info l' ↔ l' = l) ∧ reports_lb x l s
    | Err _ =>
        ∃ l1 l2, l1 ≠ l2 ∧ l1 ∈ api_lbs x ∧ belongs info l1 ∧ l2 ∈ api_lbs x ∧ belongs info l2
    | Panic _ => False
    end.
Proof.
  intros Hw Hname.
  destruct (actualLbState_answers _ _ _ _ _ (serves_answers w x Hw) info w) as (r & w' & Hr & <- & Hcase);
    [done..|].
  exists r. split; [done|]. destruct r as [s|e|msg]; [|done|done].
  destruct Hcase as [?|(l0 & l & ? & -> & ?)]; [by left|right; by exists l].
Qed.

(** C16. Against an API that answers, looking up the state of a service changes
    nothing and gives the empty state if no load balancer belongs to it, an
    error if several do, and otherwise exactly the pools of the load balancer,
    each with its own members, monitors and listeners, the listeners without a
    pool, and the Floating IPs assigned to it. *)
Theorem actualLbState_correct info x w :
  serves w x → annotation info LoadBalancerName ≠ "" →
  ∃ r, actualLbState info w = (r, w) ∧
    match r with
    | Ok s =>
        s = zeroLbState ∧ (∀ l, l ∈ api_lbs x → ¬ belongs info l) ∨
        ∃ l, (∀ l', l' ∈ api_lbs x ∧ belongs info l' ↔ l' = l) ∧ reports_lb x l s
    | Err _ =>
        ∃ l1 l2, l1 ≠ l2 ∧ l1 ∈ api_lbs x ∧ belongs info l1 ∧ l2 ∈ api_lbs x ∧ belongs info l2
    | Panic _ => False
    end.
Proof. apply actualLbState_serves. Qed.
End served.
