(* ===== verification/ApiLaws.v ===== *)
(** * ApiLaws

    What the API does with a write, as a contract between the API and the
    reconciler: the effect of each call on the resources of the account, and
    the class [ApiLaws] of the clients that accept every write about existing
    resources and have exactly these effects.  The reconciler only relies on
    what is stated here: which resources exist afterwards, with which names
    and settings, and not on how the API lists or numbers them.

    A load balancer may be changing for some time after a write.  [busy]
    bounds how many pauses between two rounds this can still take, and
    [patience] bounds it for every state.

    The account may be shared.  Then the laws are about the part of it that
    concerns one service, and hold although others change the rest between any
    two calls. *)

From stdpp Require Import base tactics list gmap strings.
From Stdlib Require Import ZArith.
From S2P Require Import Prelude.
From S2P Require Import GoStrings.
From S2P Require Import Cloudscale.
From S2P Require Import Actions.
From S2P Require Import LbState.
From S2P Require Import NextActions.
From S2P Require Import ActualState.
From S2P Require Import ActualStateSpec.

(** ** Resources *)

(** What hangs below a pool. *)
Inductive part : Type :=
| PMember (m : PoolMember.t)
| PListener (l : Listener.t)
| PMonitor (m : HealthMonitor.t).

Definition part_href (y : part) : string :=
  match y with
  | PMember m => PoolMember.HREF m
  | PListener l => Listener.HREF l
  | PMonitor m => HealthMonitor.HREF m
  end.

(** The key the plan tells parts apart by, and the kind it is used for. *)
Definition part_key `{GoExt} `{SDK} (y : part) : nat * string :=
  match y with
  | PMember m => (0%nat, poolMemberKey m)
  | PListener l => (1%nat, listenerKey l)
  | PMonitor m => (2%nat, monitorKey m)
  end.

Definition parts (x : api) (p : Pool.t) : list part :=
  (PMember <$> api_members x (Pool.UUID p)) ++
  (PListener <$> listeners_of (api_listeners x) p) ++
  (PMonitor <$> monitors_of (api_monitors x) p).

Lemma parts_uuid x p q : Pool.UUID p = Pool.UUID q → parts x p = parts x q.
Proof. intros Hu. unfold parts, listeners_of, monitors_of. by rewrite Hu. Qed.

(** The resources with an address. *)
Inductive resource : Type :=
| RLb (l : LoadBalancer.t)
| RPool (p : Pool.t)
| RPart (p : Pool.t) (y : part).

Definition href (r : resource) : string :=
  match r with
  | RLb l => LoadBalancer.HREF l
  | RPool p => Pool.HREF p
  | RPart _ y => part_href y
  end.

Inductive holds (x : api) : resource → Prop :=
| holds_lb l : l ∈ api_lbs x → holds x (RLb l)
| holds_pool p : p ∈ api_pools x → holds x (RPool p)
| holds_part p y : p ∈ api_pools x → y ∈ parts x p → holds x (RPart p y).

(** Addresses and UUIDs identify resources, and each is listed once. *)
Record api_ok (x : api) : Prop := {
  lb_uuids : NoDup (LoadBalancer.UUID <$> api_lbs x);
  pool_uuids : NoDup (Pool.UUID <$> api_pools x);
  parts_listed_once p : p ∈ api_pools x → NoDup (parts x p);
  hrefs_unique r1 r2 : holds x r1 → holds x r2 → href r1 = href r2 → r1 = r2;
  listener_uuids p q l k : holds x (RPart p (PListener l)) → holds x (RPart q (PListener k)) →
    Listener.UUID l = Listener.UUID k → p = q ∧ l = k;
  monitor_uuids p q m n : holds x (RPart p (PMonitor m)) → holds x (RPart q (PMonitor n)) →
    HealthMonitor.UUID m = HealthMonitor.UUID n → p = q ∧ m = n }.

(** ** Effects *)

(** The same load balancer, its name and status aside. *)
Record same_lb_as (l l' : LoadBalancer.t) : Prop := {
  same_href : LoadBalancer.HREF l' = LoadBalancer.HREF l;
  same_lb_uuid : LoadBalancer.UUID l' = LoadBalancer.UUID l;
  same_vips : LoadBalancer.VIPAddresses l' = LoadBalancer.VIPAddresses l;
  same_flavor : LoadBalancer.Flavor l' = LoadBalancer.Flavor l;
  same_zone : LoadBalancer.Zone l' = LoadBalancer.Zone l }.

Definition same_lb (l l' : LoadBalancer.t) : Prop :=
  same_lb_as l l' ∧ LoadBalancer.Name l' = LoadBalancer.Name l.

(** A write leaves the other load balancers as they are, their status aside. *)
Definition same_lbs (x x' : api) : Prop := Forall2 same_lb (api_lbs x) (api_lbs x').

(** Time passes. *)
Record idle (x x' : api) : Prop := {
  idle_lbs : same_lbs x x';
  idle_pools : api_pools x' = api_pools x;
  idle_parts p : p ∈ api_pools x → parts x' p = parts x p;
  idle_ips : api_ips x' = api_ips x }.

(** Below the load balancers, a deletion takes one resource and, if it is a
    pool, possibly its parts. *)
Record deleted_below (url : string) (x x' : api) : Prop := {
  deleted_pools : api_pools x' = filter (λ p, Pool.HREF p ≠ url) (api_pools x);
  deleted_parts p : p ∈ api_pools x' → parts x' p = filter (λ y, part_href y ≠ url) (parts x p);
  deleted_ips : api_ips x' = api_ips x }.

(** The deletion of a load balancer may cascade. *)
Record deleted (url : string) (x x' : api) : Prop := {
  deleted_lbs : Forall2 same_lb (filter (λ l, LoadBalancer.HREF l ≠ url) (api_lbs x)) (api_lbs x');
  deleted_rest : (∀ l, l ∈ api_lbs x → LoadBalancer.HREF l ≠ url) → deleted_below url x x' }.

(** The desired address may be left to the API. *)
Definition vip_granted (r : VIPAddressRequest.t) (a : VIPAddress.t) : Prop :=
  (VIPAddressRequest.Address r = "" ∨ VIPAddressRequest.Address r = VIPAddress.Address a) ∧
  VIPAddressRequest.Subnet r = SubnetStub.UUID (VIPAddress.Subnet a).

Record created_lb (req : LoadBalancerRequest.t) (l : LoadBalancer.t) (x x' : api) : Prop := {
  lb_name : LoadBalancer.Name l = LoadBalancerRequest.Name req;
  lb_flavor : LoadBalancer.Flavor l = LoadBalancerRequest.Flavor req;
  lb_zone : LoadBalancer.Zone l = LoadBalancerRequest.Zone req;
  lb_vips vips : LoadBalancerRequest.VIPAddresses req = Some vips → vips ≠ [] →
    Forall2 vip_granted vips (LoadBalancer.VIPAddresses l);
  lb_listed : ∃ ls, api_lbs x' ≡ₚ l :: ls ∧ Forall2 same_lb (api_lbs x) ls;
  lb_empty p : p ∈ api_pools x' → Pool.LoadBalancer p ≠ LoadBalancer.UUID l;
  lb_unassigned f : f ∈ api_ips x' → FloatingIP.LoadBalancer f ≠ Some (LoadBalancer.UUID l);
  lb_pools : api_pools x' = api_pools x;
  lb_parts p : p ∈ api_pools x → parts x' p = parts x p;
  lb_ips : api_ips x' = api_ips x }.

Record renamed_lb (uuid name : string) (x x' : api) : Prop := {
  renamed_lbs : Forall2 (λ l l', same_lb_as l l' ∧ LoadBalancer.Name l' =
      if decide (LoadBalancer.UUID l = uuid) then name else LoadBalancer.Name l)
    (api_lbs x) (api_lbs x');
  renamed_pools : api_pools x' = api_pools x;
  renamed_parts p : p ∈ api_pools x → parts x' p = parts x p;
  renamed_ips : api_ips x' = api_ips x }.

Record created_pool (req : PoolRequest.t) (p : Pool.t) (x x' : api) : Prop := {
  pool_name : Pool.Name p = PoolRequest.Name req;
  pool_algorithm : Pool.Algorithm p = PoolRequest.Algorithm req;
  pool_protocol : Pool.Protocol p = PoolRequest.Protocol req;
  pool_lb : Pool.LoadBalancer p = PoolRequest.LoadBalancer req;
  pool_lbs : same_lbs x x';
  pool_listed : api_pools x' ≡ₚ p :: api_pools x;
  pool_empty : parts x' p = [];
  pool_parts q : q ∈ api_pools x → parts x' q = parts x q;
  pool_ips : api_ips x' = api_ips x }.

Record created_part (uuid : string) (y : part) (x x' : api) : Prop := {
  part_lbs : same_lbs x x';
  part_pools : api_pools x' = api_pools x;
  part_parts q : q ∈ api_pools x →
    parts x' q ≡ₚ (if decide (Pool.UUID q = uuid) then [y] else []) ++ parts x q;
  part_ips : api_ips x' = api_ips x }.

(** [subnets] is what the API knows of a subnet, by its UUID. *)
Record member_granted (subnets : string → SubnetStub.t) (req : PoolMemberRequest.t)
    (m : PoolMember.t) : Prop := {
  member_name : PoolMember.Name m = PoolMemberRequest.Name req;
  member_enabled : PoolMember.Enabled m = true;
  member_address : PoolMember.Address m = PoolMemberRequest.Address req;
  member_subnet : PoolMember.Subnet m = subnets (PoolMemberRequest.Subnet req);
  member_port : PoolMember.ProtocolPort m = PoolMemberRequest.ProtocolPort req;
  member_monitor : PoolMember.MonitorPort m = PoolMemberRequest.MonitorPort req }.

Record listener_granted (req : ListenerRequest.t) (l : Listener.t) : Prop := {
  listener_name : Listener.Name l = ListenerRequest.Name req;
  listener_protocol : Listener.Protocol l = ListenerRequest.Protocol req;
  listener_port : Listener.ProtocolPort l = ListenerRequest.ProtocolPort req }.

(** Monitors of other types than these have no HTTP options. *)
Definition http_types : list string := ["http"; "https"].

Record monitor_granted (req : HealthMonitorRequest.t) (m : HealthMonitor.t) : Prop := {
  monitor_type : HealthMonitor.Type_ m = HealthMonitorRequest.Type_ req;
  monitor_http h : HealthMonitorRequest.HTTP req = Some h →
    if decide (HealthMonitor.Type_ m ∈ http_types)
    then ∃ g, HealthMonitor.HTTP m = Some g ∧ MonitorHTTP.Version g =
           if decide (MonitorHTTPRequest.Version h = "") then "1.1"
           else MonitorHTTPRequest.Version h
    else HealthMonitor.HTTP m = None }.

(** An update changes the settings its request carries: a zero number, an
    empty text, list or host is left out of it. *)
Definition carried_number (requested old : Z) : Z := if decide (requested = 0)%Z then old else requested.
Definition carried_text (requested old : string) : string :=
  if decide (requested = "") then old else requested.

Definition patch_listener (req : ListenerRequest.t) (l : Listener.t) : Listener.t :=
  {| Listener.HREF := Listener.HREF l; Listener.UUID := Listener.UUID l;
     Listener.Name := Listener.Name l; Listener.Protocol := Listener.Protocol l;
     Listener.ProtocolPort := Listener.ProtocolPort l;
     Listener.AllowedCIDRs := default (Listener.AllowedCIDRs l) (ListenerRequest.AllowedCIDRs req);
     Listener.TimeoutClientDataMS :=
       carried_number (ListenerRequest.TimeoutClientDataMS req) (Listener.TimeoutClientDataMS l);
     Listener.TimeoutMemberConnectMS :=
       carried_number (ListenerRequest.TimeoutMemberConnectMS req) (Listener.TimeoutMemberConnectMS l);
     Listener.TimeoutMemberDataMS :=
       carried_number (ListenerRequest.TimeoutMemberDataMS req) (Listener.TimeoutMemberDataMS l);
     Listener.Pool := Listener.Pool l; Listener.LoadBalancer := Listener.LoadBalancer l |}.

Definition patch_http (req : MonitorHTTPRequest.t) (h : MonitorHTTP.t) : MonitorHTTP.t :=
  {| MonitorHTTP.ExpectedCodes :=
       if decide (MonitorHTTPRequest.ExpectedCodes req = []) then MonitorHTTP.ExpectedCodes h
       else MonitorHTTPRequest.ExpectedCodes req;
     MonitorHTTP.Method := carried_text (MonitorHTTPRequest.Method req) (MonitorHTTP.Method h);
     MonitorHTTP.URLPath := carried_text (MonitorHTTPRequest.URLPath req) (MonitorHTTP.URLPath h);
     MonitorHTTP.Version := carried_text (MonitorHTTPRequest.Version req) (MonitorHTTP.Version h);
     MonitorHTTP.Host :=
       match MonitorHTTPRequest.Host req with Some p => Some p | None => MonitorHTTP.Host h end |}.

Definition patch_monitor (req : HealthMonitorRequest.t) (m : HealthMonitor.t) : HealthMonitor.t :=
  {| HealthMonitor.HREF := HealthMonitor.HREF m; HealthMonitor.UUID := HealthMonitor.UUID m;
     HealthMonitor.Type_ := HealthMonitor.Type_ m;
     HealthMonitor.HTTP :=
       match HealthMonitorRequest.HTTP req with
       | Some r => patch_http r <$> HealthMonitor.HTTP m
       | None => HealthMonitor.HTTP m
       end;
     HealthMonitor.DelayS := carried_number (HealthMonitorRequest.DelayS req) (HealthMonitor.DelayS m);
     HealthMonitor.TimeoutS :=
       carried_number (HealthMonitorRequest.TimeoutS req) (HealthMonitor.TimeoutS m);
     HealthMonitor.UpThreshold :=
       carried_number (HealthMonitorRequest.UpThreshold req) (HealthMonitor.UpThreshold m);
     HealthMonitor.DownThreshold :=
       carried_number (HealthMonitorRequest.DownThreshold req) (HealthMonitor.DownThreshold m);
     HealthMonitor.Pool := HealthMonitor.Pool m |}.

(** The pointers in a decoded answer are new, the hosts they hold the same. *)
Definition http_like (g h : MonitorHTTP.t) : Prop :=
  MonitorHTTP.ExpectedCodes g = MonitorHTTP.ExpectedCodes h ∧
  MonitorHTTP.Method g = MonitorHTTP.Method h ∧ MonitorHTTP.URLPath g = MonitorHTTP.URLPath h ∧
  MonitorHTTP.Version g = MonitorHTTP.Version h ∧
  deref <$> MonitorHTTP.Host g = deref <$> MonitorHTTP.Host h.

Record monitor_like (g m : HealthMonitor.t) : Prop := {
  like_href : HealthMonitor.HREF g = HealthMonitor.HREF m;
  like_uuid : HealthMonitor.UUID g = HealthMonitor.UUID m;
  like_type : HealthMonitor.Type_ g = HealthMonitor.Type_ m;
  like_http : option_Forall2 http_like (HealthMonitor.HTTP g) (HealthMonitor.HTTP m);
  like_delay : HealthMonitor.DelayS g = HealthMonitor.DelayS m;
  like_timeout : HealthMonitor.TimeoutS g = HealthMonitor.TimeoutS m;
  like_up : HealthMonitor.UpThreshold g = HealthMonitor.UpThreshold m;
  like_down : HealthMonitor.DownThreshold g = HealthMonitor.DownThreshold m;
  like_pool : HealthMonitor.Pool g = HealthMonitor.Pool m }.

(** What an update makes of a part. *)
Definition listener_updated (uuid : string) (req : ListenerRequest.t) (y y' : part) : Prop :=
  match y with
  | PListener l =>
      y' = PListener (if decide (Listener.UUID l = uuid) then patch_listener req l else l)
  | PMember _ | PMonitor _ => y' = y
  end.

Definition monitor_updated (uuid : string) (req : HealthMonitorRequest.t) (y y' : part) : Prop :=
  match y with
  | PMonitor m =>
      ∃ m', y' = PMonitor m' ∧
        monitor_like m' (if decide (HealthMonitor.UUID m = uuid) then patch_monitor req m else m)
  | PMember _ | PListener _ => y' = y
  end.

Record updated (change : part → part → Prop) (x x' : api) : Prop := {
  updated_lbs : same_lbs x x';
  updated_pools : api_pools x' = api_pools x;
  updated_parts q : q ∈ api_pools x → Forall2 change (parts x q) (parts x' q);
  updated_ips : api_ips x' = api_ips x }.

(** A Floating IP is addressed by the address of its network. *)
Record assigned (ip uuid : string) (x x' : api) : Prop := {
  assigned_lbs : same_lbs x x';
  assigned_pools : api_pools x' = api_pools x;
  assigned_parts p : p ∈ api_pools x → parts x' p = parts x p;
  assigned_to : api_ips x' =
    (λ f, FloatingIP.Mk (FloatingIP.Network f)
       (if decide (ip_of_cidr (FloatingIP.Network f) = ip) then Some uuid
        else FloatingIP.LoadBalancer f)) <$> api_ips x }.

(** ** The contract *)

Section steady.
Context {W : Type} (good : W → api → Prop) (busy : W → string → nat).

(** No load balancer of [x] is changing for longer. *)
Definition calmer (w : W) (x : api) (w' : W) : Prop :=
  ∀ l, l ∈ api_lbs x → (busy w' (LoadBalancer.UUID l) ≤ busy w (LoadBalancer.UUID l))%nat.

(** The account still holds [x]. *)
Definition steady (w : W) (x : api) (w' : W) : Prop := good w' x ∧ calmer w x w'.

(** How the load balancer [l0] of the account may be shown. *)
Definition sighted (w : W) (l0 l : LoadBalancer.t) : Prop :=
  same_lb l0 l ∧ (LoadBalancer.Status l = "changing" → (0 < busy w (LoadBalancer.UUID l))%nat).

Lemma steady_refl w x : good w x → steady w x w.
Proof. intros Hg. split; [done|]. intros l _. lia. Qed.

Lemma steady_trans w x w1 w2 : steady w x w1 → steady w1 x w2 → steady w x w2.
Proof.
  intros [_ H1] [H2 H3]. split; [done|]. intros l Hl. specialize (H1 l Hl). specialize (H3 l Hl). lia.
Qed.

Lemma sighted_before w x w1 l0 l :
  l0 ∈ api_lbs x → steady w x w1 → sighted w1 l0 l → sighted w l0 l.
Proof.
  intros Hl [_ Hb] [Hs Hc]. split; [done|]. intros Hst%Hc. specialize (Hb l0 Hl).
  rewrite (same_lb_uuid _ _ (proj1 Hs)) in *. lia.
Qed.
End steady.

(** An account that serves its resources and is not shared answers. *)
Lemma serves_steady {W} `{Client W} (good : W → api → Prop) (busy : W → string → nat) w x :
  (∀ w', good w' x → serves w' x) →
  (∀ w' l, good w' x → l ∈ api_lbs x → LoadBalancer.Status l = "changing" →
     (0 < busy w' (LoadBalancer.UUID l))%nat) →
  good w x → answers (steady good busy w x) (sighted busy w) (λ _, True) (λ _, True) x.
Proof.
  intros Hs Hc Hg.
  assert (∀ ls : list LoadBalancer.t, ls ⊆ api_lbs x → Forall2 (sighted busy w) ls ls) as Hall.
  { intros ls Hls. apply Forall_Forall2_diag, Forall_forall. intros l Hl.
    split; [by split; [split|]|]. by apply Hc, Hls. }
  assert (∀ w', steady good busy w x w' → serves w' x) as Hserve by (intros w' [? _]; by apply Hs).
  split.
  - intros uuid w' Hw' _. destruct (serves_get _ _ (Hserve w' Hw') uuid) as [msg Hr].
    eexists _, w'. split; [exact Hr|]. split; [done|]. destruct (get_lb x uuid) as [l|] eqn:Hl; [|eauto].
    exists l. split; [done|]. unfold get_lb in Hl.
    assert (l ∈ filter (λ l, LoadBalancer.UUID l = uuid) (api_lbs x)) as [_ Hin]%list_elem_of_filter.
    { destruct (filter _ _); simplify_eq/=. by left. }
    pose proof (Hall [l] ltac:(set_solver)) as Hl1. by inversion Hl1.
  - intros w' Hw'. eexists _, w'. split; [apply (serves_lbs _ _ (Hserve w' Hw'))|]. split; [done|].
    intros name _. apply Hall. intros l. rewrite list_elem_of_filter. tauto.
  - intros w' Hw'. eexists _, w'. by split; [apply (serves_pools _ _ (Hserve w' Hw'))|].
  - intros w' p Hw' _. exists w'. by split; [apply (serves_members _ _ (Hserve w' Hw'))|].
  - intros w' Hw'. eexists _, w'. by split; [apply (serves_monitors _ _ (Hserve w' Hw'))|].
  - intros w' Hw'. eexists _, w'. by split; [apply (serves_listeners _ _ (Hserve w' Hw'))|].
  - intros w' Hw'. eexists _, w'. by split; [apply (serves_ips _ _ (Hserve w' Hw'))|].
  - intros l0 l [[Hl _] _]. by apply same_lb_uuid.
  - intros l0 l [[_ Hl] _]. done.
  - apply (unique_uuids _ _ (Hs w Hg)).
Qed.

(** In the state [w] the account holds [x], or [x] is what it holds of the load
    balancers with the names [known_names] and UUIDs [known_uuids], and of the
    Floating IPs [known_ips]: what a service needs to know, while others may
    change the rest.  [subnets] is what the API knows of a subnet, and
    [answers_at] where the hosts in its answers are allocated.  A request
    [deletes] a URL.  [busy] tells for every load balancer how long it may be
    changing. *)
Class ApiLaws (W : Type) `{Client W} := {
  good : W → api → Prop;
  known_names : string → Prop;
  known_uuids : string → Prop;
  known_ips : string → Prop;
  answers_at : positive → Prop;
  subnets : string → SubnetStub.t;
  deletes : Request → string → Prop;
  busy : W → string → nat;
  patience : nat;
  good_answers w x : good w x →
    answers (steady good busy w x) (sighted busy w) known_names known_uuids x;
  good_ok w x : good w x → api_ok x;
  good_busy w x uuid : good w x → (busy w uuid ≤ patience)%nat;
  good_hosts w x p m h q : good w x → holds x (RPart p (PMonitor m)) →
    HealthMonitor.HTTP m = Some h → MonitorHTTP.Host h = Some q → answers_at (addr q);
  good_ctx w x : good w x → ∃ w', ctx_Err w = (None, w') ∧ steady good busy w x w';
  good_rand w x k : good w x → (0 < k)%Z → ∃ n w',
    rand_Intn k w = (n, w') ∧ steady good busy w x w' ∧ (0 ≤ n < k)%Z;
  pause w x d : good w x → ∃ w' x', select_after d w = (false, w') ∧ good w' x' ∧ idle x x' ∧
    calmer busy w x w' ∧
    ((5 * Second ≤ d)%Z → ∀ l, l ∈ api_lbs x →
      (busy w' (LoadBalancer.UUID l) ≤ pred (busy w (LoadBalancer.UUID l)))%nat);
  law_request w x url : good w x → ∃ request w',
    NewRequest "DELETE" url w = (Ok request, w') ∧ steady good busy w x w' ∧ deletes request url;
  law_delete w x r request : good w x → holds x r → deletes request (href r) → ∃ w' x',
    Do request w = (Ok tt, w') ∧ good w' x' ∧ deleted (href r) x x';
  law_create_lb w x req : good w x → known_names (LoadBalancerRequest.Name req) → ∃ l w' x',
    LoadBalancers_Create req w = (Ok l, w') ∧ good w' x' ∧ created_lb req l x x';
  law_rename_lb w x l name : good w x → l ∈ api_lbs x → known_names name → ∃ w' x',
    LoadBalancers_Update (LoadBalancer.UUID l) (LoadBalancerRequest.Mk name "" None "") w =
      (Ok tt, w') ∧ good w' x' ∧ renamed_lb (LoadBalancer.UUID l) name x x';
  law_create_pool w x l req : good w x → l ∈ api_lbs x →
    PoolRequest.LoadBalancer req = LoadBalancer.UUID l → ∃ p w' x',
    Pools_Create req w = (Ok p, w') ∧ good w' x' ∧ created_pool req p x x';
  law_create_member w x p req : good w x → p ∈ api_pools x → ∃ m w' x',
    PoolMembers_Create (Pool.UUID p) req w = (Ok m, w') ∧ good w' x' ∧
    created_part (Pool.UUID p) (PMember m) x x' ∧ member_granted subnets req m;
  law_create_listener w x p req : good w x → p ∈ api_pools x →
    ListenerRequest.Pool req = Pool.UUID p → ∃ l w' x',
    Listeners_Create req w = (Ok l, w') ∧ good w' x' ∧
    created_part (Pool.UUID p) (PListener l) x x' ∧ listener_granted req l;
  law_create_monitor w x p req : good w x → p ∈ api_pools x →
    HealthMonitorRequest.Pool req = Pool.UUID p → ∃ m w' x',
    HealthMonitors_Create req w = (Ok m, w') ∧ good w' x' ∧
    created_part (Pool.UUID p) (PMonitor m) x x' ∧ monitor_granted req m;
  law_update_listener w x p l req : good w x → p ∈ api_pools x → PListener l ∈ parts x p →
    ∃ w' x', Listeners_Update (Listener.UUID l) req w = (Ok tt, w') ∧ good w' x' ∧
    updated (listener_updated (Listener.UUID l) req) x x';
  law_update_monitor w x p m req : good w x → p ∈ api_pools x → PMonitor m ∈ parts x p →
    ∃ w' x', HealthMonitors_Update (HealthMonitor.UUID m) req w = (Ok tt, w') ∧ good w' x' ∧
    updated (monitor_updated (HealthMonitor.UUID m) req) x x';
  law_assign w x l f : good w x → l ∈ api_lbs x → f ∈ api_ips x →
    known_ips (ip_of_cidr (FloatingIP.Network f)) → ∃ w' x',
    FloatingIPs_Update (ip_of_cidr (FloatingIP.Network f)) (LoadBalancer.UUID l) w = (Ok tt, w') ∧
    good w' x' ∧ assigned (ip_of_cidr (FloatingIP.Network f)) (LoadBalancer.UUID l) x x' }.
