(* ===== verification/FakeApi.v ===== *)
(** * FakeApi

    An account simulated in memory: an instance of [Client] on which the
    theorems with hypotheses about the API are applied and the program is run
    end to end.  It is not a model of the service behind the API; the theorems
    hold for every client that meets their hypotheses. *)

From stdpp Require Import base tactics list gmap strings pretty.
From Stdlib Require Import ZArith.
From S2P Require Import Prelude.
From S2P Require Import GoStrings.
From S2P Require Import Json.
From S2P Require Import Cloudscale.
From S2P Require Import ServiceInfo.
From S2P Require Import LbMapper.
From S2P Require Import ActualStateSpec.
From S2P Require Import Actions.
From S2P Require Import ApiLaws.
From S2P Require Import Examples.

Record account : Type := MkAccount {
  lbs : list LoadBalancer.t;
  acc_pools : list Pool.t;
  acc_members : list (string * PoolMember.t);
  acc_monitors : list HealthMonitor.t;
  acc_listeners : list Listener.t;
  ips : list FloatingIP.t;
  acc_servers : list Server.t;
  counter : nat;
  (** For how many pauses between rounds a load balancer is still changing. *)
  settling : gmap string nat;
  (** If set, the error of every read of a load balancer by UUID. *)
  outage : option error }.

Definition empty_account : account := MkAccount [] [] [] [] [] [] [] 0 ∅ None.

Definition pauses_left (w : account) (uuid : string) : nat := default 0%nat (settling w !! uuid).

Definition shown_lb (w : account) (l : LoadBalancer.t) : LoadBalancer.t :=
  {| LoadBalancer.HREF := LoadBalancer.HREF l; LoadBalancer.UUID := LoadBalancer.UUID l;
     LoadBalancer.Name := LoadBalancer.Name l;
     LoadBalancer.Status := if decide (pauses_left w (LoadBalancer.UUID l) = 0%nat) then "running" else "changing";
     LoadBalancer.VIPAddresses := LoadBalancer.VIPAddresses l;
     LoadBalancer.Flavor := LoadBalancer.Flavor l; LoadBalancer.Zone := LoadBalancer.Zone l |}.

Definition api_of (w : account) : api :=
  MkApi (shown_lb w <$> lbs w) (acc_pools w)
    (λ uuid, snd <$> filter (λ m, m.1 = uuid) (acc_members w))
    (acc_monitors w) (acc_listeners w) (ips w).

Definition with_parts (w : account) ls ps ms mos lis fips : account :=
  MkAccount ls ps ms mos lis fips (acc_servers w) (S (counter w)) (settling w) (outage w).

Definition fresh (prefix : string) (w : account) : string :=
  prefix +:+ "-" +:+ pretty (counter w).

(** A call that always succeeds. *)
Definition gives {A} (f : account → A) : M account A := λ w, (Ok (f w), w).

(** Subnets have the network of the example. *)
Definition fake_subnet (uuid : string) : SubnetStub.t := SubnetStub.Mk uuid "10.0.0.0/24".

(** The addresses of a new load balancer: as requested, or the first free. *)
Definition fake_vips (req : option (list VIPAddressRequest.t)) : list VIPAddress.t :=
  match req with
  | None | Some [] => [VIPAddress.Mk "5.102.144.101" example_subnet]
  | Some vips =>
      (λ r, VIPAddress.Mk
         (if decide (VIPAddressRequest.Address r = "") then "5.102.144.101"
          else VIPAddressRequest.Address r)
         (fake_subnet (VIPAddressRequest.Subnet r))) <$> vips
  end.

(** A new load balancer takes two pauses to be ready. *)
Definition changing (w : account) (uuid : string) : account :=
  MkAccount (lbs w) (acc_pools w) (acc_members w) (acc_monitors w) (acc_listeners w) (ips w)
    (acc_servers w) (counter w) (<[uuid := 2%nat]> (settling w)) (outage w).

Definition fake_pause (d : Z) (w : account) : bool * account :=
  (false, MkAccount (lbs w) (acc_pools w) (acc_members w) (acc_monitors w) (acc_listeners w)
            (ips w) (acc_servers w) (counter w)
            (if decide (5 * Second ≤ d)%Z then pred <$> settling w else settling w) (outage w)).

Definition fake_create_lb (req : LoadBalancerRequest.t) : M account LoadBalancer.t := λ w,
  let uuid := fresh "lb" w in
  let l := {| LoadBalancer.HREF := "/" +:+ uuid; LoadBalancer.UUID := uuid;
              LoadBalancer.Name := LoadBalancerRequest.Name req;
              LoadBalancer.Status := "running";
              LoadBalancer.VIPAddresses := fake_vips (LoadBalancerRequest.VIPAddresses req);
              LoadBalancer.Flavor := LoadBalancerRequest.Flavor req;
              LoadBalancer.Zone := LoadBalancerRequest.Zone req |} in
  let w' := changing (with_parts w (lbs w ++ [l]) (acc_pools w) (acc_members w) (acc_monitors w)
           (acc_listeners w) (ips w)) uuid in
  (Ok (shown_lb w' l), w').

Definition fake_create_pool (req : PoolRequest.t) : M account Pool.t := λ w,
  let uuid := fresh "pool" w in
  let p := {| Pool.HREF := "/" +:+ uuid; Pool.UUID := uuid; Pool.Name := PoolRequest.Name req;
              Pool.Algorithm := PoolRequest.Algorithm req;
              Pool.Protocol := PoolRequest.Protocol req;
              Pool.LoadBalancer := PoolRequest.LoadBalancer req |} in
  (Ok p, with_parts w (lbs w) (acc_pools w ++ [p]) (acc_members w) (acc_monitors w)
           (acc_listeners w) (ips w)).

Definition fake_create_member (uuid : string) (req : PoolMemberRequest.t)
    : M account PoolMember.t := λ w,
  let m := {| PoolMember.HREF := "/" +:+ fresh "member" w;
              PoolMember.Name := PoolMemberRequest.Name req; PoolMember.Enabled := true;
              PoolMember.Address := PoolMemberRequest.Address req;
              PoolMember.Subnet := fake_subnet (PoolMemberRequest.Subnet req);
              PoolMember.ProtocolPort := PoolMemberRequest.ProtocolPort req;
              PoolMember.MonitorPort := PoolMemberRequest.MonitorPort req |} in
  (Ok m, with_parts w (lbs w) (acc_pools w) (acc_members w ++ [(uuid, m)]) (acc_monitors w)
           (acc_listeners w) (ips w)).

Definition fake_create_listener (req : ListenerRequest.t) : M account Listener.t := λ w,
  let uuid := fresh "listener" w in
  let l := {| Listener.HREF := "/" +:+ uuid; Listener.UUID := uuid;
              Listener.Name := ListenerRequest.Name req;
              Listener.Protocol := ListenerRequest.Protocol req;
              Listener.ProtocolPort := ListenerRequest.ProtocolPort req;
              Listener.AllowedCIDRs := default [] (ListenerRequest.AllowedCIDRs req);
              Listener.TimeoutClientDataMS := ListenerRequest.TimeoutClientDataMS req;
              Listener.TimeoutMemberConnectMS := ListenerRequest.TimeoutMemberConnectMS req;
              Listener.TimeoutMemberDataMS := ListenerRequest.TimeoutMemberDataMS req;
              Listener.Pool := Some (ListenerRequest.Pool req);
              Listener.LoadBalancer := "" |} in
  (Ok l, with_parts w (lbs w) (acc_pools w) (acc_members w) (acc_monitors w)
           (acc_listeners w ++ [l]) (ips w)).

(** Answers are decoded to hosts at address 2. *)
Definition fake_http (type_ : string) (req : option MonitorHTTPRequest.t) : option MonitorHTTP.t :=
  if decide (type_ ∈ http_types) then
    let h := default MonitorHTTPRequest.zero req in
    Some {| MonitorHTTP.ExpectedCodes := MonitorHTTPRequest.ExpectedCodes h;
            MonitorHTTP.Method := MonitorHTTPRequest.Method h;
            MonitorHTTP.URLPath := MonitorHTTPRequest.URLPath h;
            MonitorHTTP.Version := if decide (MonitorHTTPRequest.Version h = "") then "1.1"
                                   else MonitorHTTPRequest.Version h;
            MonitorHTTP.Host := (λ p, MkPtr 2 (deref p)) <$> MonitorHTTPRequest.Host h |}
  else None.

Definition at_2 (m : HealthMonitor.t) : HealthMonitor.t :=
  {| HealthMonitor.HREF := HealthMonitor.HREF m; HealthMonitor.UUID := HealthMonitor.UUID m;
     HealthMonitor.Type_ := HealthMonitor.Type_ m;
     HealthMonitor.HTTP := (λ h,
       {| MonitorHTTP.ExpectedCodes := MonitorHTTP.ExpectedCodes h;
          MonitorHTTP.Method := MonitorHTTP.Method h; MonitorHTTP.URLPath := MonitorHTTP.URLPath h;
          MonitorHTTP.Version := MonitorHTTP.Version h;
          MonitorHTTP.Host := (λ p, MkPtr 2 (deref p)) <$> MonitorHTTP.Host h |}) <$>
       HealthMonitor.HTTP m;
     HealthMonitor.DelayS := HealthMonitor.DelayS m; HealthMonitor.TimeoutS := HealthMonitor.TimeoutS m;
     HealthMonitor.UpThreshold := HealthMonitor.UpThreshold m;
     HealthMonitor.DownThreshold := HealthMonitor.DownThreshold m;
     HealthMonitor.Pool := HealthMonitor.Pool m |}.

Definition fake_create_monitor (req : HealthMonitorRequest.t) : M account HealthMonitor.t := λ w,
  let uuid := fresh "monitor" w in
  let m := {| HealthMonitor.HREF := "/" +:+ uuid; HealthMonitor.UUID := uuid;
              HealthMonitor.Type_ := HealthMonitorRequest.Type_ req;
              HealthMonitor.HTTP := fake_http (HealthMonitorRequest.Type_ req)
                (HealthMonitorRequest.HTTP req);
              HealthMonitor.DelayS := HealthMonitorRequest.DelayS req;
              HealthMonitor.TimeoutS := HealthMonitorRequest.TimeoutS req;
              HealthMonitor.UpThreshold := HealthMonitorRequest.UpThreshold req;
              HealthMonitor.DownThreshold := HealthMonitorRequest.DownThreshold req;
              HealthMonitor.Pool := HealthMonitorRequest.Pool req |} in
  (Ok m, with_parts w (lbs w) (acc_pools w) (acc_members w) (acc_monitors w ++ [m])
           (acc_listeners w) (ips w)).

Definition fake_rename (uuid : string) (req : LoadBalancerRequest.t) : M account unit := λ w,
  let rename l :=
    if decide (LoadBalancer.UUID l = uuid) then
      {| LoadBalancer.HREF := LoadBalancer.HREF l; LoadBalancer.UUID := LoadBalancer.UUID l;
         LoadBalancer.Name := LoadBalancerRequest.Name req;
         LoadBalancer.Status := LoadBalancer.Status l;
         LoadBalancer.VIPAddresses := LoadBalancer.VIPAddresses l;
         LoadBalancer.Flavor := LoadBalancer.Flavor l; LoadBalancer.Zone := LoadBalancer.Zone l |}
    else l in
  (Ok tt, with_parts w (map rename (lbs w)) (acc_pools w) (acc_members w) (acc_monitors w)
            (acc_listeners w) (ips w)).

Definition fake_update_listener (uuid : string) (req : ListenerRequest.t) : M account unit := λ w,
  let update l := if decide (Listener.UUID l = uuid) then patch_listener req l else l in
  (Ok tt, with_parts w (lbs w) (acc_pools w) (acc_members w) (acc_monitors w)
            (update <$> acc_listeners w) (ips w)).

Definition fake_update_monitor (uuid : string) (req : HealthMonitorRequest.t)
    : M account unit := λ w,
  let update m := if decide (HealthMonitor.UUID m = uuid) then at_2 (patch_monitor req m) else m in
  (Ok tt, with_parts w (lbs w) (acc_pools w) (acc_members w) (update <$> acc_monitors w)
            (acc_listeners w) (ips w)).

Definition fake_assign (ip uuid : string) : M account unit := λ w,
  let assign f :=
    FloatingIP.Mk (FloatingIP.Network f)
      (if decide (ip_of_cidr (FloatingIP.Network f) = ip) then Some uuid
       else FloatingIP.LoadBalancer f) in
  (Ok tt, with_parts w (lbs w) (acc_pools w) (acc_members w) (acc_monitors w)
            (acc_listeners w) (assign <$> ips w)).

Definition fake_delete (url : string) : M account unit := λ w,
  (Ok tt, with_parts w
     (filter (λ l, LoadBalancer.HREF l ≠ url) (lbs w))
     (filter (λ p, Pool.HREF p ≠ url) (acc_pools w))
     (filter (λ m, PoolMember.HREF m.2 ≠ url) (acc_members w))
     (filter (λ m, HealthMonitor.HREF m ≠ url) (acc_monitors w))
     (filter (λ l, Listener.HREF l ≠ url) (acc_listeners w)) (ips w)).

Definition fake_get (uuid : string) : M account LoadBalancer.t := λ w,
  (match outage w with
   | Some e => Err e
   | None =>
       match get_lb (api_of w) uuid with
       | Some l => Ok l
       | None => Err (ErrorResponse StatusNotFound "not found")
       end
   end, w).

Definition fake_server (uuid : string) : M account Server.t := λ w,
  (match head (filter (λ s, Server.UUID s = uuid) (acc_servers w)) with
   | Some s => Ok s
   | None => Err (ErrorResponse StatusNotFound "not found")
   end, w).

#[export] Instance fake_client : Client account := {|
  Request := string;
  NewRequest _ url := mret url;
  Do := fake_delete;
  LoadBalancers_Get := fake_get;
  LoadBalancers_List := gives (λ w, api_lbs (api_of w));
  LoadBalancers_Create := fake_create_lb;
  LoadBalancers_Update := fake_rename;
  Pools_List := gives acc_pools;
  Pools_Create := fake_create_pool;
  PoolMembers_List uuid := gives (λ w, api_members (api_of w) uuid);
  PoolMembers_Create := fake_create_member;
  Listeners_List := gives acc_listeners;
  Listeners_Create := fake_create_listener;
  Listeners_Update := fake_update_listener;
  HealthMonitors_List := gives acc_monitors;
  HealthMonitors_Create := fake_create_monitor;
  HealthMonitors_Update := fake_update_monitor;
  FloatingIPs_List := gives ips;
  FloatingIPs_Update := fake_assign;
  Servers_Get := fake_server;
  Servers_List := gives acc_servers;
  ctx_Err w := (None, w);
  select_after := fake_pause;
  rand_Intn _ w := (0%Z, w) |}.

Lemma shown_uuids w (ls : list LoadBalancer.t) : LoadBalancer.UUID <$> (shown_lb w <$> ls) = LoadBalancer.UUID <$> ls.
Proof. by rewrite <- list_fmap_compose. Qed.

Lemma fake_serves (w : account) :
  outage w = None → NoDup (LoadBalancer.UUID <$> lbs w) → serves w (api_of w).
Proof.
  intros Ho Hnd. split; [|done..|simpl; by rewrite shown_uuids]. intros uuid. exists "not found".
  simpl. unfold fake_get. by rewrite Ho.
Qed.
