(* ===== verification/Reconcile.v ===== *)
(** * Reconcile

    [runActions] and [reconcileLbState] of src/pkg/cloudscale_ccm/reconcile.go:
    a plan is run action by action, and planning and running repeat until a
    plan no longer asks for a new look at the state.

    The loop of [reconcileLbState] has no bound.  The definition takes the
    number of rounds it may start; out of rounds it gives [None], which is not
    an outcome of the code.  The relation [rounds] is the loop without bound. *)

From stdpp Require Import base tactics list strings.
From Stdlib Require Import ZArith.
From S2P Require Import Prelude.
From S2P Require Import GoStrings.
From S2P Require Import Cloudscale.
From S2P Require Import Actions.
From S2P Require Import LbState.
From S2P Require Import NextActions.

(** ** Calls that may not return *)

Definition D (W A : Type) : Type := W → option (result A * W).

Section diverge.
Context {W : Type}.

Definition call {A} (m : M W A) : D W A := λ w, Some (m w).
Definition out_of_fuel {A} : D W A := λ _, None.

#[global] Instance D_ret : MRet (D W) := λ A a, call (mret a).
#[global] Instance D_bind : MBind (D W) := λ A B f m w,
  match m w with
  | None => None
  | Some (Ok a, w') => f a w'
  | Some (Err e, w') => Some (Err e, w')
  | Some (Panic msg, w') => Some (Panic msg, w')
  end.
End diverge.

Section Reconcile.
Context {W : Type} `{Client W} `{GoExt} `{SDK}.

Definition err_no_error : error := ErrorString "action errored but provided no error".

(** [ctx.Err()] is evaluated a second time for the message. *)
Fixpoint runActions (next : list Action) : M W bool := λ w,
  match next with
  | [] => (Ok false, w)
  | action :: next' =>
      match ctx_Err w with
      | (Some _, w1) =>
          let '(err, w2) := ctx_Err w1 in
          (Err (match err with
                | Some e => WrapError "aborted action run, cancelled: " e
                | None => ErrorString "aborted action run, cancelled: %!w(<nil>)"
                end), w2)
      | (None, w1) =>
          match Run action w1 with
          | (Ok (_, Some err), w2) =>
              (Err (WrapError ("error during " +:+ Label action +:+ ": ") err), w2)
          | (Ok (Refresh, None), w2) => (Ok true, w2)
          | (Ok (Proceed, None), w2) => runActions next' w2
          | (Ok (Errored, None), w2) => (Err err_no_error, w2)
          | (Err e, w2) => (Err e, w2)
          | (Panic msg, w2) => (Panic msg, w2)
          end
      end
  end.

Definition err_reconcile_aborted : error := ErrorString "action has been aborted".

(** [time.Duration(5000+rand.Intn(2500)) * time.Millisecond] *)
Definition wait_time (n : Z) : Z := wrap64 (wrap64 (5000 + n) * Millisecond).

(** The [select] between two rounds: the error if the context is done. *)
Definition wait_round : M W unit := λ w,
  let '(n, w1) := rand_Intn 2500 w in
  let '(done, w2) := select_after (wait_time n) w1 in
  (if (done : bool) then Err err_reconcile_aborted else Ok tt, w2).

(** One round up to the decision whether to go on. *)
Definition reconcileRound (order : MapOrder) (desiredState actualState : M W lbState)
    : M W bool :=
  desired ← desiredState;
  actual ← actualState;
  next ← lift (@nextLbActions _ _ order (Some desired) (Some actual));
  runActions next.

(** [orders i] is how the Go runtime iterates over maps in round [i]. *)
Fixpoint reconcileLbState (fuel : nat) (orders : nat → MapOrder)
    (desiredState actualState : M W lbState) : D W unit :=
  match fuel with
  | O => out_of_fuel
  | S fuel' =>
      updateState ← call (reconcileRound (orders 0%nat) desiredState actualState);
      if (updateState : bool) then
        _ ← call wait_round;
        reconcileLbState fuel' (λ i, orders (S i)) desiredState actualState
      else mret tt
  end.

(** The loop without a bound: the outcomes it can end with. *)
Inductive rounds (desiredState actualState : M W lbState)
    : (nat → MapOrder) → W → result unit → W → Prop :=
| round_last orders w w' :
    reconcileRound (orders 0%nat) desiredState actualState w = (Ok false, w') →
    rounds desiredState actualState orders w (Ok tt) w'
| round_again orders w w1 w2 r w' :
    reconcileRound (orders 0%nat) desiredState actualState w = (Ok true, w1) →
    wait_round w1 = (Ok tt, w2) →
    rounds desiredState actualState (λ i, orders (S i)) w2 r w' →
    rounds desiredState actualState orders w r w'
| round_error orders w e w' :
    reconcileRound (orders 0%nat) desiredState actualState w = (Err e, w') →
    rounds desiredState actualState orders w (Err e) w'
| round_panic orders w msg w' :
    reconcileRound (orders 0%nat) desiredState actualState w = (Panic msg, w') →
    rounds desiredState actualState orders w (Panic msg) w'
| round_cancelled orders w w1 w' :
    reconcileRound (orders 0%nat) desiredState actualState w = (Ok true, w1) →
    wait_round w1 = (Err err_reconcile_aborted, w') →
    rounds desiredState actualState orders w (Err err_reconcile_aborted) w'.
End Reconcile.
