(* ===== verification/ReconcileSpec.v ===== *)
(** * ReconcileSpec

    How a plan is run, that the bounded loop is the unbounded one, what is
    known when [reconcileLbState] succeeds, that it leaves a settled load
    balancer alone, and what lookup errors lead to. *)

From stdpp Require Import base tactics list gmap strings.
From Stdlib Require Import ZArith.
From S2P Require Import Prelude.
From S2P Require Import GoStrings.
From S2P Require Import Json.
From S2P Require Import Compare.
From S2P Require Import Limiter.
From S2P Require Import Cloudscale.
From S2P Require Import ServiceInfo.
From S2P Require Import Actions.
From S2P Require Import LbState.
From S2P Require Import NextActions.
From S2P Require Import Examples.
From S2P Require Import NextActionsSpec.
From S2P Require Import NextActionsPlan.
From S2P Require Import KeysSpec.
From S2P Require Import LbMapper.
From S2P Require Import ActualState.
From S2P Require Import ActualStateSpec.
From S2P Require Import FakeApi.
From S2P Require Import Reconcile.

(** ** Running a plan *)

Section run.
Context {W : Type} `{Client W}.
Implicit Types (w : W) (a : Action) (next : list Action).

(** Every action of the list ran in turn and asked to go on. *)
Inductive proceeds : list Action → W → W → Prop :=
| proceeds_nil w : proceeds [] w w
| proceeds_cons a next w w1 w2 w' :
    ctx_Err w = (None, w1) → Run a w1 = (Ok (Proceed, None), w2) →
    proceeds next w2 w' → proceeds (a :: next) w w'.

(** How the run ends in front of the rest of the plan. *)
Inductive ends : list Action → W → result bool → W → Prop :=
| ends_done w : ends [] w (Ok false) w
| ends_refresh a next w w1 w2 :
    ctx_Err w = (None, w1) → Run a w1 = (Ok (Refresh, None), w2) →
    ends (a :: next) w (Ok true) w2
| ends_error a next w w1 control err w2 :
    ctx_Err w = (None, w1) → Run a w1 = (Ok (control, Some err), w2) →
    ends (a :: next) w (Err (WrapError ("error during " +:+ Label a +:+ ": ") err)) w2
| ends_no_error a next w w1 w2 :
    ctx_Err w = (None, w1) → Run a w1 = (Ok (Errored, None), w2) →
    ends (a :: next) w (Err err_no_error) w2
| ends_cancelled a next w e w1 e' w2 :
    ctx_Err w = (Some e, w1) → ctx_Err w1 = (e', w2) →
    ends (a :: next) w (Err (match e' with
      | Some e' => WrapError "aborted action run, cancelled: " e'
      | None => ErrorString "aborted action run, cancelled: %!w(<nil>)" end)) w2
| ends_broken a next w w1 r w2 :
    ctx_Err w = (None, w1) → Run a w1 = (r, w2) →
    match r with Ok _ => False | Err _ | Panic _ => True end →
    ends (a :: next) w ((λ _, false) <$> r) w2.

Lemma runActions_cons a next w :
  (∃ w1 w2, ctx_Err w = (None, w1) ∧ Run a w1 = (Ok (Proceed, None), w2) ∧
     runActions (a :: next) w = runActions next w2) ∨
  ∃ r w', runActions (a :: next) w = (r, w') ∧ ends (a :: next) w r w'.
Proof.
  cbn [runActions]. destruct (ctx_Err w) as [[e|] w1] eqn:Hc.
  { right. destruct (ctx_Err w1) as [e' w2] eqn:Hc2. eexists _, _. split; [reflexivity|].
    by eapply ends_cancelled. }
  destruct (Run a w1) as [[[c [err|]]|e|msg] w2] eqn:Hr.
  - right. destruct c; (eexists _, _; split; [reflexivity|]; by eapply ends_error).
  - destruct c.
    + right. eexists _, _. split; [reflexivity|]. by eapply ends_no_error.
    + left. by exists w1, w2.
    + right. eexists _, _. split; [reflexivity|]. by eapply ends_refresh.
  - right. eexists _, _. split; [reflexivity|]. by eapply (ends_broken _ _ _ _ (Err e)).
  - right. eexists _, _. split; [reflexivity|]. by eapply (ends_broken _ _ _ _ (Panic msg)).
Qed.

Lemma ends_det next w r w' r2 w2 :
  ends next w r w' → runActions next w = (r2, w2) → (r2, w2) = (r, w').
Proof.
  destruct 1; simpl; repeat match goal with H : ctx_Err _ = _ |- _ => rewrite H; clear H end;
    repeat match goal with H : Run _ _ = _ |- _ => rewrite H; clear H end.
  all: try congruence.
  - destruct control; congruence.
  - destruct r as [|e|msg]; [done|..]; simpl; congruence.
Qed.

Lemma proceeds_runActions pre next w w1 :
  proceeds pre w w1 → runActions (pre ++ next) w = runActions next w1.
Proof.
  induction 1 as [w|a pre w w1 w2 w' Hc Hr _ IH]; simpl; [done|]. by rewrite Hc, Hr.
Qed.

Lemma runActions_split next w r w' :
  runActions next w = (r, w') →
  ∃ pre post w1, next = pre ++ post ∧ proceeds pre w w1 ∧ ends post w1 r w'.
Proof.
  revert w. induction next as [|a next IH]; intros w Hr.
  { injection Hr as <- <-. exists [], [], w. repeat constructor. }
  destruct (runActions_cons a next w) as [(w1 & w2 & Hc & Ha & Heq)|(r2 & w2 & Heq & He)].
  - rewrite Heq in Hr. apply IH in Hr as (pre & post & w3 & -> & Hp & He).
    exists (a :: pre), post, w3. split; [done|]. split; [by econstructor|done].
  - rewrite Heq in Hr. injection Hr as -> ->. exists [], (a :: next), w.
    repeat constructor. done.
Qed.

(** A plan is run in order: some prefix of its actions succeeds, and the run
    ends with the first action that fails, asks for a refresh or finds the
    context cancelled, or with the end of the plan.  Nothing after that action
    is run. *)
Theorem runActions_correct next w r w' :
  runActions next w = (r, w') ↔
  ∃ pre post w1, next = pre ++ post ∧ proceeds pre w w1 ∧ ends post w1 r w'.
Proof.
  split; [apply runActions_split|].
  intros (pre & post & w1 & -> & Hp & He). rewrite (proceeds_runActions _ _ _ _ Hp).
  destruct (runActions post w1) as [r2 w2] eqn:Hr. by eapply ends_det.
Qed.
End run.

(** ** The loop *)

Section loop.
Context {W : Type} `{Client W} `{GoExt} `{SDK}.
Implicit Types (w : W) (desiredState actualState : M W lbState) (orders : nat → MapOrder).

Lemma wait_round_cases w : ∃ w',
  wait_round w = (Ok tt, w') ∨ wait_round w = (Err err_reconcile_aborted, w').
Proof.
  unfold wait_round. destruct (rand_Intn 2500 w) as [n w1].
  destruct (select_after (wait_time n) w1) as [[] w2]; eauto.
Qed.

Lemma reconcile_unfold fuel orders desiredState actualState w :
  reconcileLbState (S fuel) orders desiredState actualState w =
  match reconcileRound (orders 0%nat) desiredState actualState w with
  | (Ok true, w1) =>
      match wait_round w1 with
      | (Ok _, w2) => reconcileLbState fuel (λ i, orders (S i)) desiredState actualState w2
      | (Err e, w2) => Some (Err e, w2)
      | (Panic msg, w2) => Some (Panic msg, w2)
      end
  | (Ok false, w1) => Some (Ok tt, w1)
  | (Err e, w1) => Some (Err e, w1)
  | (Panic msg, w1) => Some (Panic msg, w1)
  end.
Proof.
  simpl. unfold mbind, D_bind, call.
  by destruct (reconcileRound _ _ _ _) as [[[]|e|msg] w1].
Qed.

(** With enough rounds the bounded loop has exactly the outcomes of the loop
    of the code, and more rounds change nothing. *)
Theorem reconcileLbState_rounds orders desiredState actualState w r w' :
  rounds desiredState actualState orders w r w' ↔
  ∃ fuel, ∀ n, (fuel ≤ n)%nat →
    reconcileLbState n orders desiredState actualState w = Some (r, w').
Proof.
  split.
  - induction 1 as [orders w w' Hr|orders w w1 w2 r w' Hr Hw _ [fuel IH]
      |orders w e w' Hr|orders w msg w' Hr|orders w w1 w' Hr Hw].
    2: { exists (S fuel). intros [|n] Hn; [lia|]. rewrite reconcile_unfold, Hr, Hw.
         apply IH. lia. }
    all: exists 1%nat; intros [|n] Hn; [lia|]; rewrite reconcile_unfold, Hr, ?Hw; done.
  - intros [fuel Hf]. specialize (Hf fuel (le_n _)). revert orders w Hf.
    induction fuel as [|fuel IH]; intros orders w Hf; [done|].
    rewrite reconcile_unfold in Hf.
    destruct (reconcileRound _ _ _ w) as [[[]|e|msg] w1] eqn:Hr;
      [|injection Hf as <- <-; by econstructor..].
    destruct (wait_round_cases w1) as [w2 [Hw|Hw]]; rewrite Hw in Hf.
    + by eapply round_again; [..|apply IH].
    + injection Hf as <- <-. by eapply round_cancelled.
Qed.

(** The loop returns when every round that asks for another one makes
    progress, in the sense of some measure of what is still to be done. *)
Theorem reconcileLbState_returns (todo : W → nat) orders desiredState actualState :
  (∀ i w w1 w2, reconcileRound (orders i) desiredState actualState w = (Ok true, w1) →
     wait_round w1 = (Ok tt, w2) → (todo w2 < todo w)%nat) →
  ∀ w, ∃ r w', reconcileLbState (S (todo w)) orders desiredState actualState w = Some (r, w').
Proof.
  intros Hdec w.
  assert (∀ n orders w, (∀ i w w1 w2,
      reconcileRound (orders i) desiredState actualState w = (Ok true, w1) →
      wait_round w1 = (Ok tt, w2) → (todo w2 < todo w)%nat) → (todo w < n)%nat →
    ∃ r w', reconcileLbState n orders desiredState actualState w = Some (r, w')) as Hgo.
  2: { apply Hgo; [done|lia]. }
  clear. induction n as [|n IH]; intros orders w Hdec Hn; [lia|]. rewrite reconcile_unfold.
  destruct (reconcileRound _ _ _ w) as [[[]|e|msg] w1] eqn:Hr; [|by eauto..].
  destruct (wait_round_cases w1) as [w2 [Hw|Hw]]; rewrite Hw; [|by eauto].
  apply IH; [intros i; apply (Hdec (S i))|]. pose proof (Hdec 0%nat _ _ _ Hr Hw). lia.
Qed.

(** ** What success means *)

Lemma reconcileRound_Ok order desiredState actualState w b w' :
  reconcileRound order desiredState actualState w = (Ok b, w') ↔
  ∃ desired w1 actual w2 next, desiredState w = (Ok desired, w1) ∧
    actualState w1 = (Ok actual, w2) ∧
    @nextLbActions _ _ order (Some desired) (Some actual) = Ok next ∧
    runActions next w2 = (Ok b, w').
Proof.
  unfold reconcileRound. rewrite M_bind_Ok. setoid_rewrite M_bind_Ok.
  setoid_rewrite M_bind_Ok. unfold lift. split.
  - intros (d & w1 & Hd & a & w2 & Ha & next & w3 & [= Hn ->] & Hr). by exists d, w1, a, w3, next.
  - intros (d & w1 & a & w2 & next & Hd & Ha & Hn & Hr).
    exists d, w1. split; [done|]. exists a, w2. split; [done|]. exists next, w2.
    by rewrite Hn.
Qed.

(** A plan that was run to its end without asking for a refresh. *)
Lemma runActions_false next w w' :
  runActions next w = (Ok false, w') → proceeds next w w'.
Proof.
  intros (pre & post & w1 & -> & Hp & He)%runActions_split.
  inversion He as [| | | | |? ? ? ? r ? ? ? ?]; subst; [by rewrite app_nil_r|].
  by destruct r.
Qed.

Lemma proceeds_not_refetch next w w' :
  proceeds next w w' → Refetch ∉ next.
Proof.
  induction 1 as [|a next w w1 w2 w' Hc Hr _ IH]; [apply not_elem_of_nil|].
  rewrite not_elem_of_cons. split; [|done]. by intros <-.
Qed.

(** What the last look at the two states must have shown. *)
Definition structure_agrees (desired actual : lbState) : Prop :=
  match lb desired, lb actual with
  | None, None => True
  | Some _, None => False
  | None, Some alb => LoadBalancer.Status alb ≠ "changing"
  | Some dlb, Some alb =>
      LoadBalancer.Status alb ≠ "changing" ∧ immutable_ok dlb alb ∧
      same_keys poolKey (pools desired) (pools actual) ∧
      ∀ d, d ∈ pools desired → ∃ a, poolsByName actual !! Pool.Name (pool d) = Some a ∧
        pool_parts_match desired actual d a
  end.

Lemma proceeds_AwaitLb alb next w w' :
  proceeds (AwaitLb alb :: next) w w' → LoadBalancer.Status alb ≠ "changing".
Proof.
  inversion 1 as [|? ? ? ? ? ? ? Hr]; subst. simpl in Hr. unfold run_AwaitLb in Hr.
  by case_decide.
Qed.

Lemma plan_without_refetch `{MapOrder} desired actual dlb alb next :
  lb desired = Some dlb → lb actual = Some alb →
  nextLbActions (Some desired) (Some actual) = Ok next → Refetch ∉ next →
  same_keys poolKey (pools desired) (pools actual) ∧
  ∀ d, d ∈ pools desired → ∃ a, poolsByName actual !! Pool.Name (pool d) = Some a ∧
    pool_parts_match desired actual d a.
Proof.
  intros Hd Ha Hn Hre. destruct (nextLbActions_cases _ _ _ _ _ Hd Ha Hn)
    as (del & cre & Hdiff & [[Hne ->]|[Heq (changes & Hs & Hacts)]]).
  { destruct Hre. rewrite !elem_of_app, list_elem_of_singleton. auto. }
  destruct Hacts as [[_ ->]|[-> _]].
  { destruct Hre. rewrite !elem_of_app, list_elem_of_singleton. auto. }
  split; [by apply (Diff_nil_iff [4%nat]); rewrite Hdiff|].
  intros d Hin. by apply (proj1 (syncPools_nil _ _ _ _) Hs).
Qed.

Lemma plan_starts `{MapOrder} desired actual dlb alb next :
  lb desired = Some dlb → lb actual = Some alb →
  nextLbActions (Some desired) (Some actual) = Ok next →
  immutable_ok dlb alb ∧ ∃ rest, next = AwaitLb alb :: rest.
Proof.
  intros Hd Ha Hn. split.
  - apply check_immutable_spec. unfold nextLbActions in Hn. rewrite Hd, Ha in Hn.
    by destruct (check_immutable dlb alb).
  - destruct (nextLbActions_cases _ _ _ _ _ Hd Ha Hn)
      as (del & cre & _ & [[_ ->]|[_ (changes & _ & [[_ ->]|[_ ->]])]]); by eexists.
Qed.

Lemma reconcile_success orders desiredState actualState w w' fuel :
  reconcileLbState fuel orders desiredState actualState w = Some (Ok tt, w') →
  ∃ i desired actual w0 w1 w2 next,
    desiredState w0 = (Ok desired, w1) ∧ actualState w1 = (Ok actual, w2) ∧
    @nextLbActions _ _ (orders i) (Some desired) (Some actual) = Ok next ∧
    proceeds next w2 w' ∧ structure_agrees desired actual.
Proof.
  revert orders w. induction fuel as [|fuel IH]; intros orders w Hf; [done|].
  rewrite reconcile_unfold in Hf.
  destruct (reconcileRound _ _ _ w) as [[[]|e|msg] w1] eqn:Hr; [|clear IH|done..].
  { destruct (wait_round_cases w1) as [w2 [Hw|Hw]]; rewrite Hw in Hf; [|done].
    destruct (IH _ _ Hf) as (i & Hi). by exists (S i). }
  injection Hf as <-.
  apply reconcileRound_Ok in Hr as (d & w2 & a & w3 & next & Hd & Ha & Hn & Hp%runActions_false).
  exists 0%nat, d, a, w, w2, w3, next. do 4 (split; [done|]).
  pose proof (proceeds_not_refetch _ _ _ Hp) as Hre. pose proof Hn as Hn'.
  unfold nextLbActions in Hn'. unfold structure_agrees.
  destruct (lb d) as [dlb|] eqn:Hdl, (lb a) as [alb|] eqn:Hal; [| | |done].
  - destruct (plan_without_refetch d a dlb alb next Hdl Hal Hn Hre) as [Hk Hparts].
    destruct (plan_starts _ _ _ _ _ Hdl Hal Hn) as [Him [rest ->]].
    split_and!; [by eapply proceeds_AwaitLb|done..].
  - injection Hn' as <-. destruct Hre. by right; left.
  - injection Hn' as <-. by eapply proceeds_AwaitLb.
Qed.

(** When [reconcileLbState] succeeds, its last look at the two states showed
    a load balancer that is ready, unchanged in what cannot be changed, and
    has exactly the desired pools, members, listeners and monitors; the
    remaining plan, which only adjusts settings, ran to its end. *)
Theorem reconcileLbState_success orders desiredState actualState w w' fuel :
  reconcileLbState fuel orders desiredState actualState w = Some (Ok tt, w') →
  ∃ i desired actual w0 w1 w2 next,
    desiredState w0 = (Ok desired, w1) ∧ actualState w1 = (Ok actual, w2) ∧
    @nextLbActions _ _ (orders i) (Some desired) (Some actual) = Ok next ∧
    proceeds next w2 w' ∧ structure_agrees desired actual.
Proof. apply reconcile_success. Qed.
End loop.

(** ** A settled load balancer is left alone *)

(** C20. When the states agree and the load balancer is ready, reconciling reads
    the two states and does nothing else: the world is the one the reads left
    (for reads that change nothing, the one before). *)
Theorem reconcileLbState_settled {W} `{Client W} `{GoExt} `{SDK} fuel orders
    (desiredState actualState : M W lbState) w w1 w2 desired actual dlb alb :
  desiredState w = (Ok desired, w1) → actualState w1 = (Ok actual, w2) →
  lb desired = Some dlb → lb actual = Some alb → in_sync desired actual dlb alb →
  LoadBalancer.Status alb ≠ "changing" → ctx_Err w2 = (None, w2) →
  reconcileLbState (S fuel) orders desiredState actualState w = Some (Ok tt, w2).
Proof.
  intros Hd Ha Hdl Hal Hsync Hstatus Hctx.
  rewrite reconcile_unfold. unfold reconcileRound, mbind, M_bind. rewrite Hd, Ha. unfold lift.
  rewrite (proj2 (settled_plan_iff desired actual alb)) by eauto.
  cbn [runActions AwaitLb]. rewrite Hctx. simpl. unfold run_AwaitLb.
  by rewrite decide_False.
Qed.

(** ** Lookup errors *)

(** C31. With a UUID annotation, an error other than 404 of the lookup by UUID is
    dropped when the two lookups are joined, and so is an error of the lookup
    by name: unless a load balancer of that name is found, the state is
    empty, as if the load balancer did not exist, and the plan creates one. *)
Theorem lookup_errors_create_lb {W} `{Client W} `{GoExt} `{SDK} `{MapOrder}
    (info : serviceInfo) (w : W) (e : error) (listed : result (list LoadBalancer.t))
    (desired : lbState) (dlb : LoadBalancer.t) :
  annotation info LoadBalancerUUID ≠ "" →
  LoadBalancers_Get (annotation info LoadBalancerUUID) w = (Err e, w) →
  LoadBalancers_List w = (listed, w) →
  match listed with
  | Ok ls => ∀ l, l ∈ ls → LoadBalancer.Name l ≠ annotation info LoadBalancerName
  | Err _ => True
  | Panic _ => False
  end →
  lb desired = Some dlb →
  actualLbState info w = (Ok zeroLbState, w) ∧
  nextLbActions (Some desired) (Some zeroLbState) = Ok [CreateLb dlb; Refetch].
Proof.
  intros Hu Hg Hl Hlisted Hd. split.
  2: { unfold nextLbActions. by rewrite Hd. }
  assert (∃ by_uuid, getByUUID (annotation info LoadBalancerUUID) w =
    (Ok (New by_uuid []), w)) as [by_uuid Hbu].
  { unfold getByUUID, try. rewrite Hg. destruct (is_not_found e); by eexists. }
  assert (∃ by_name, findByName (annotation info LoadBalancerName) w =
    (Ok (New by_name []), w)) as [by_name Hbn].
  { unfold findByName. case_decide; [by eexists|]. unfold try. rewrite Hl.
    destruct listed as [ls|e'|]; [|by eexists|done]. exists None.
    assert (filter (λ l, LoadBalancer.Name l = annotation info LoadBalancerName) ls = []) as ->;
      [|done].
    apply elem_of_nil_inv. intros l [Hn Hin]%list_elem_of_filter. by destruct (Hlisted l Hin). }
  unfold actualLbState, findByServiceInfo. rewrite decide_True by done.
  unfold mbind, M_bind, mret, M_ret. by rewrite Hbu, Hbn.
Qed.

(** ** The wait between two rounds *)

(** The computed wait is between 5 and 7.5 seconds and does not overflow. *)
Theorem wait_time_bounds (n : Z) :
  (0 ≤ n < 2500)%Z →
  wait_time n = ((5000 + n) * Millisecond)%Z ∧ (5 * Second ≤ wait_time n < 7500 * Millisecond)%Z.
Proof.
  intros Hn. unfold wait_time. rewrite (wrap64_id (5000 + n)) by (unfold minInt64, maxInt64; lia).
  rewrite wrap64_id by (unfold minInt64, maxInt64, Millisecond; lia).
  unfold Second, Millisecond. lia.
Qed.

(** ** Concrete inputs *)

Lemma settled_plan_in_sync `{GoExt} `{SDK} (order : MapOrder) desired actual dlb alb :
  lb desired = Some dlb →
  @nextLbActions _ _ order (Some desired) (Some actual) = Ok [AwaitLb alb] →
  in_sync desired actual dlb alb.
Proof.
  intros Hd Hn. apply settled_plan_iff in Hn as (_ & dlb' & Hd' & Hs).
  rewrite Hd in Hd'. by injection Hd' as <-.
Qed.

Section witnesses.
#[local] Existing Instance example_GoExt.
#[local] Existing Instance example_SDK.

Definition fake_desired (annotations : list (string * string)) : M account lbState :=
  lift (desiredLbState (example_service annotations) example_nodes example_servers).

(** Reconciling the example service against the simulated account. *)
Definition fake_run (fuel : nat) (w : account) : option (result unit * account) :=
  reconcileLbState fuel (λ _, default_order) (fake_desired [])
    (actualLbState (example_service [])) w.

Definition account_of (r : option (result unit * account)) : account :=
  match r with Some (_, w) => w | None => empty_account end.

(** From an account without anything the service is set up in four rounds, and one
    to wait. *)
Definition fake_settled : account := account_of (fake_run 5 empty_account).

Lemma actualLbState_correct_witness :
  ∃ r, actualLbState (example_service []) fake_settled = (r, fake_settled) ∧
    match r with
    | Ok s =>
        s = zeroLbState ∧ (∀ l, l ∈ api_lbs (api_of fake_settled) → ¬ belongs (example_service []) l) ∨
        ∃ l, (∀ l', l' ∈ api_lbs (api_of fake_settled) ∧ belongs (example_service []) l' ↔ l' = l) ∧
          reports_lb (api_of fake_settled) l s
    | Err _ => ∃ l1 l2, l1 ≠ l2 ∧ l1 ∈ api_lbs (api_of fake_settled) ∧ belongs (example_service []) l1 ∧
        l2 ∈ api_lbs (api_of fake_settled) ∧ belongs (example_service []) l2
    | Panic _ => False
    end.
Proof.
  apply (actualLbState_correct (example_service []) (api_of fake_settled) fake_settled).
  - apply fake_serves; [vm_compute; reflexivity|].
    by_decide.
  - vm_compute. discriminate.
Defined.

Lemma reconcileLbState_success_witness :
  length (acc_members fake_settled) = 4%nat ∧
  ∃ (i : nat) desired actual w0 w1 w2 next,
    fake_desired [] w0 = (Ok desired, w1) ∧
    actualLbState (example_service []) w1 = (Ok actual, w2) ∧
    @nextLbActions _ _ default_order (Some desired) (Some actual) = Ok next ∧
    proceeds next w2 fake_settled ∧ structure_agrees desired actual.
Proof.
  split; [vm_compute; reflexivity|].
  apply (reconcileLbState_success (λ _, default_order) (fake_desired [])
    (actualLbState (example_service [])) empty_account fake_settled 5).
  vm_compute. reflexivity.
Defined.

Definition fake_state (w : account) : lbState :=
  state_or_zero (actualLbState (example_service []) w).1.

Lemma reconcileLbState_settled_witness :
  fake_run 1 fake_settled = Some (Ok tt, fake_settled).
Proof.
  apply (reconcileLbState_settled 0 (λ _, default_order) (fake_desired [])
    (actualLbState (example_service [])) fake_settled fake_settled fake_settled
    (example_desired []) (fake_state fake_settled)
    (lb_of (example_desired [])) (lb_of (fake_state fake_settled))).
  1-4: vm_compute; reflexivity.
  - apply (settled_plan_in_sync default_order); vm_compute; reflexivity.
  - vm_compute. discriminate.
  - reflexivity.
Defined.

(** The account, when the lookup of load balancers by UUID fails. *)
Definition fake_outage : account :=
  MkAccount (lbs fake_settled) (acc_pools fake_settled) [] [] [] [] [] 0 ∅
    (Some (ErrorResponse 500 "internal error")).

(** The service names its load balancer by UUID and has another name. *)
Definition renamed_service : serviceInfo :=
  example_service [(LoadBalancerUUID, "lb-0"); (LoadBalancerName, "renamed")].

Lemma lookup_errors_create_lb_witness :
  actualLbState renamed_service fake_outage = (Ok zeroLbState, fake_outage) ∧
  @nextLbActions _ _ default_order (Some (example_desired [])) (Some zeroLbState) =
    Ok [CreateLb (lb_of (example_desired [])); Refetch].
Proof.
  apply (@lookup_errors_create_lb account _ _ _ default_order renamed_service fake_outage
    (ErrorResponse 500 "internal error") (Ok (lbs fake_settled)) (example_desired [])
    (lb_of (example_desired []))).
  - vm_compute. discriminate.
  - vm_compute. reflexivity.
  - vm_compute. reflexivity.
  - intros l Hl. change (lbs fake_settled) with [lb_of (fake_state fake_settled)] in Hl.
    apply list_elem_of_singleton in Hl as ->. vm_compute. discriminate.
  - vm_compute. reflexivity.
Defined.

Lemma wait_time_bounds_witness :
  (0 ≤ 2499 < 2500)%Z ∧ (5 * Second ≤ wait_time 2499 < 7500 * Millisecond)%Z.
Proof. split; [lia|apply (wait_time_bounds 2499); lia]. Defined.

(** A load balancer that is changing for as many looks as the counter says. *)
Definition countdown : M account lbState := λ w,
  match counter w with
  | O => (Ok zeroLbState, w)
  | S n =>
      (Ok (newLbState {| LoadBalancer.HREF := ""; LoadBalancer.UUID := "";
                         LoadBalancer.Name := ""; LoadBalancer.Status := "changing";
                         LoadBalancer.VIPAddresses := []; LoadBalancer.Flavor := "";
                         LoadBalancer.Zone := "" |}),
       MkAccount (lbs w) (acc_pools w) (acc_members w) (acc_monitors w) (acc_listeners w)
         (ips w) (acc_servers w) n (settling w) (outage w))
  end.

Lemma reconcileLbState_returns_witness :
  counter fake_settled = 11%nat ∧
  ∃ r w', reconcileLbState 12 (λ _, default_order) (mret zeroLbState) countdown fake_settled =
    Some (r, w').
Proof.
  split; [vm_compute; reflexivity|].
  refine (reconcileLbState_returns counter (λ _, default_order) (mret zeroLbState) countdown _
    fake_settled).
  intros _ w w1 w2 Hr Hw. injection Hw as <-.
  apply reconcileRound_Ok in Hr as (d & w3 & a & w4 & next & Hd & Ha & Hn & Hr).
  injection Hd as <- <-. unfold countdown in Ha. destruct (counter w) as [|n] eqn:Hc.
  - injection Ha as <- <-. injection Hn as <-. discriminate Hr.
  - injection Ha as <- <-. injection Hn as <-. vm_compute in Hr. injection Hr as <-.
    simpl. lia.
Defined.

Lemma Run_control_witness :
  let changing := LoadBalancer.Mk "" "" "" "changing" [] "" "" in
  Run (AwaitLb changing) empty_account = (Ok (Refresh, None), empty_account) ∧
  (Refresh = Errored ↔ is_Some (@None error)) ∧
  (Refresh = Refresh ↔ AwaitLb changing = Refetch ∨
     ∃ l, AwaitLb changing = AwaitLb l ∧ LoadBalancer.Status l = "changing").
Proof.
  intros changing. split; [vm_compute; reflexivity|].
  apply (Run_control (AwaitLb changing) empty_account Refresh None empty_account).
  vm_compute. reflexivity.
Defined.
End witnesses.
