(* ===== verification/Descent.v ===== *)
(** * Descent

    Counting how far two lists of keys are apart, and sums over lists: the
    arithmetic behind the bound on the rounds of the reconciler. *)

From stdpp Require Import base tactics list gmap strings.
From Stdlib Require Import ZArith.
From S2P Require Import Prelude.

Section mismatch.
Context {K : Type} `{EqDecision K}.
Implicit Types (ks ls : list K) (k : K).

(** The keys missing from [ls] and those it has in excess. *)
Definition mismatch ks ls : nat :=
  length (filter (λ k, k ∉ ls) ks) + length (filter (λ k, k ∉ ks) ls).

Lemma filter_length_le {A} (P : A → Prop) `{∀ a, Decision (P a)} (l : list A) :
  (length (filter P l) ≤ length l)%nat.
Proof. induction l as [|a l IH]; [done|]. rewrite filter_cons. case_decide; simpl; lia. Qed.

Lemma length_pos_of {A} (l : list A) a : a ∈ l → (0 < length l)%nat.
Proof. destruct 1; simpl; lia. Qed.

Lemma filter_nil_iff {A} (P : A → Prop) `{∀ a, Decision (P a)} (l : list A) :
  filter P l = [] ↔ ∀ a, a ∈ l → ¬ P a.
Proof.
  split.
  - intros Hf a Ha HP. assert (a ∈ filter P l) as Hin by (by apply list_elem_of_filter).
    rewrite Hf in Hin. by apply not_elem_of_nil in Hin.
  - intros Hl. destruct (filter P l) as [|a f] eqn:Hf; [done|].
    assert (a ∈ filter P l) as [HP Ha]%list_elem_of_filter by (rewrite Hf; by left).
    by destruct (Hl a Ha).
Qed.

Lemma filter_comm {A} (P Q : A → Prop) `{∀ a, Decision (P a), ∀ a, Decision (Q a)} (l : list A) :
  filter P (filter Q l) = filter Q (filter P l).
Proof. rewrite !list_filter_filter. apply list_filter_iff. tauto. Qed.

(** A filter that keeps less. *)
Lemma filter_length_impl {A} (P Q : A → Prop) `{∀ a, Decision (P a), ∀ a, Decision (Q a)} l :
  (∀ a, a ∈ l → P a → Q a) → (length (filter P l) ≤ length (filter Q l))%nat.
Proof.
  induction l as [|a l IH]; intros HPQ; [done|]. rewrite !filter_cons.
  specialize (IH ltac:(intros; apply HPQ; [by right|done])).
  pose proof (HPQ a ltac:(by left)). repeat case_decide; simpl; try lia. tauto.
Qed.

Lemma filter_length_strict {A} (P Q : A → Prop) `{∀ a, Decision (P a), ∀ a, Decision (Q a)} l a :
  (∀ a, a ∈ l → P a → Q a) → a ∈ l → Q a → ¬ P a →
  (length (filter P l) < length (filter Q l))%nat.
Proof.
  intros HPQ Ha HQ HP. apply list_elem_of_split in Ha as (l1 & l2 & ->).
  rewrite !filter_app, !filter_cons, !length_app.
  rewrite decide_False, decide_True by done. simpl.
  pose proof (filter_length_impl P Q l1 ltac:(set_solver)).
  pose proof (filter_length_impl P Q l2 ltac:(set_solver)). lia.
Qed.

Lemma filter_shorter {A} (P : A → Prop) `{∀ a, Decision (P a)} (l : list A) a :
  a ∈ l → ¬ P a → (length (filter P l) < length l)%nat.
Proof.
  intros Ha HP. pose proof (filter_length_strict P (λ _, True) l a) as Hlt.
  rewrite (filter_id (λ _, True)) in Hlt by done. by apply Hlt.
Qed.

Lemma mismatch_0 ks ls : mismatch ks ls = 0%nat ↔ ∀ k, k ∈ ks ↔ k ∈ ls.
Proof.
  unfold mismatch. rewrite Nat.eq_add_0, !length_zero_iff_nil, !filter_nil_iff. split.
  - intros [H1 H2] k. split; intros Hk; apply dec_stable; eauto.
  - intros Hk. split; intros k ?; rewrite Hk || rewrite <- Hk; tauto.
Qed.

Lemma mismatch_le ks ls : (mismatch ks ls ≤ length ks + length ls)%nat.
Proof.
  unfold mismatch. pose proof (filter_length_le (λ k, k ∉ ls) ks).
  pose proof (filter_length_le (λ k, k ∉ ks) ls). lia.
Qed.

Lemma mismatch_same ks ls ls' : ls ≡ₚ ls' → mismatch ks ls = mismatch ks ls'.
Proof.
  intros Hp. unfold mismatch. f_equal; [|by rewrite Hp].
  apply Nat.le_antisymm; apply filter_length_impl; intros k _; by rewrite Hp.
Qed.

(** Removing items that are all in excess. *)
Lemma mismatch_filter {A} (key : A → K) (P : A → Prop) `{∀ a, Decision (P a)} ks (l : list A) :
  (∀ a, a ∈ l → ¬ P a → key a ∉ ks) →
  (mismatch ks (key <$> filter P l) + length (filter (λ a, ¬ P a) l) ≤ mismatch ks (key <$> l))%nat.
Proof.
  intros Hex. unfold mismatch.
  assert (length (filter (λ k, k ∉ key <$> filter P l) ks) ≤
          length (filter (λ k, k ∉ key <$> l) ks))%nat.
  { apply filter_length_impl. intros k Hk Hn (a & -> & Ha)%list_elem_of_fmap.
    apply Hn, list_elem_of_fmap. exists a. split; [done|]. apply list_elem_of_filter.
    split; [|done]. apply dec_stable. intros HP. by destruct (Hex a). }
  assert (∀ l', l' ⊆ l → length (filter (λ k, k ∉ ks) (key <$> filter P l')) +
    length (filter (λ a, ¬ P a) l') = length (filter (λ k, k ∉ ks) (key <$> l')))%nat as Hlen.
  2: { specialize (Hlen l (reflexivity _)). lia. }
  induction l' as [|a l' IH]; intros Hsub; [done|]. rewrite fmap_cons, !filter_cons.
  specialize (IH ltac:(set_solver)). specialize (Hex a ltac:(set_solver)).
  destruct (decide (P a)) as [HP|HP].
  - rewrite decide_False by tauto. rewrite fmap_cons, filter_cons.
    case_decide; simpl; lia.
  - rewrite !decide_True by auto. simpl. lia.
Qed.

(** Adding an item that was missing. *)
Lemma mismatch_cons ks ls k :
  k ∈ ks → k ∉ ls → (mismatch ks (k :: ls) < mismatch ks ls)%nat.
Proof.
  intros Hk Hl. unfold mismatch. rewrite (filter_cons _ k), decide_False by tauto.
  apply Nat.add_lt_mono_r, (filter_length_strict _ _ _ k); [|done..|]; set_solver.
Qed.
End mismatch.

(** ** Sums *)

Section sums.
Context {A : Type}.
Implicit Types (f g : A → nat) (l : list A).

Definition total f l : nat := sum_list (f <$> l).

Lemma total_nil f : total f [] = 0%nat.
Proof. done. Qed.

Lemma total_cons f a l : total f (a :: l) = (f a + total f l)%nat.
Proof. done. Qed.

Lemma total_app f l k : total f (l ++ k) = (total f l + total f k)%nat.
Proof. induction l as [|a l IH]; [done|]. rewrite <- app_comm_cons, !total_cons, IH. lia. Qed.

#[export] Instance total_perm f : Proper ((≡ₚ) ==> (=)) (total f).
Proof. intros l k Hp. unfold total. by rewrite Hp. Qed.

Lemma total_le f g l : (∀ a, a ∈ l → f a ≤ g a)%nat → (total f l ≤ total g l)%nat.
Proof.
  induction l as [|a l IH]; intros Hl; [done|]. rewrite !total_cons.
  pose proof (Hl a ltac:(by left)). specialize (IH ltac:(intros; apply Hl; by right)). lia.
Qed.

Lemma total_lt f g l a :
  (∀ b, b ∈ l → f b ≤ g b)%nat → a ∈ l → (f a < g a)%nat → (total f l < total g l)%nat.
Proof.
  intros Hle Ha Hlt. apply list_elem_of_split in Ha as (l1 & l2 & ->).
  rewrite !total_app, !total_cons.
  pose proof (total_le f g l1 ltac:(set_solver)).
  pose proof (total_le f g l2 ltac:(set_solver)). lia.
Qed.

Lemma total_add f g l : total (λ a, f a + g a)%nat l = (total f l + total g l)%nat.
Proof. induction l as [|a l IH]; [done|]. rewrite !total_cons, IH. lia. Qed.

Lemma total_filter f (P : A → Prop) `{∀ a, Decision (P a)} l :
  (total f (filter P l) ≤ total f l)%nat.
Proof.
  induction l as [|a l IH]; [done|]. rewrite filter_cons. case_decide; rewrite !total_cons; lia.
Qed.

Lemma total_submseteq f l k : l ⊆+ k → (total f l ≤ total f k)%nat.
Proof.
  intros [k' ->]%submseteq_Permutation. rewrite total_app. lia.
Qed.

Lemma total_0 f l : total f l = 0%nat ↔ ∀ a, a ∈ l → f a = 0%nat.
Proof.
  induction l as [|a l IH]; [split; [by intros _ ? ?%not_elem_of_nil|done]|].
  rewrite total_cons, Nat.eq_add_0, IH. set_solver.
Qed.
End sums.

(** Distinct items are part of every list that has them. *)
Lemma total_distinct {A} `{EqDecision A} (f : A → nat) l k :
  NoDup l → l ⊆ k → (total f l ≤ total f k)%nat.
Proof. intros Hnd Hsub. by apply total_submseteq, NoDup_submseteq. Qed.
