(* ===== verification/Tasks.v ===== *)
(** * Tasks

    The steps of a structural plan as tasks on the resources of an account:
    when a task can be done, what it does, and that running its action on a
    client with [ApiLaws] does just that.  A list of tasks none of which
    disturbs a later one runs to its end ([run_tasks]). *)

From stdpp Require Import base tactics list gmap strings.
From Stdlib Require Import ZArith.
From S2P Require Import Prelude.
From S2P Require Import GoStrings.
From S2P Require Import Cloudscale.
From S2P Require Import Actions.
From S2P Require Import LbState.
From S2P Require Import NextActions.
From S2P Require Import ActualState.
From S2P Require Import ActualStateSpec.
From S2P Require Import Reconcile.
From S2P Require Import ReconcileSpec.
From S2P Require Import ApiLaws.
From S2P Require Import Descent.

(** ** Load balancers *)

Lemma same_lbs_uuids ls ls' :
  Forall2 same_lb ls ls' → LoadBalancer.UUID <$> ls' = LoadBalancer.UUID <$> ls.
Proof.
  induction 1 as [|l l' ls ls' [Hl _] _ IH]; [done|]. csimpl. by rewrite IH, (same_lb_uuid _ _ Hl).
Qed.

#[export] Instance same_lb_reflexive : Reflexive same_lb.
Proof. by intros l. Qed.

#[export] Instance same_lb_transitive : Transitive same_lb.
Proof. intros a b c [[] Hab] [[] Hbc]. split; [split|]; congruence. Qed.

Lemma same_lbs_refl x : same_lbs x x.
Proof. unfold same_lbs. reflexivity. Qed.

Lemma same_lbs_trans x y z : same_lbs x y → same_lbs y z → same_lbs x z.
Proof. unfold same_lbs. apply transitivity. Qed.

(** ** The pools of a load balancer *)

Definition pools_of (x : api) (u : string) : list Pool.t :=
  filter (λ p, Pool.LoadBalancer p = u) (api_pools x).

Definition pool_key (p : Pool.t) : string := poolKey (MkPoolPtr 0 p).

Lemma elem_of_pools_of x u p :
  p ∈ pools_of x u ↔ Pool.LoadBalancer p = u ∧ p ∈ api_pools x.
Proof. unfold pools_of. by rewrite list_elem_of_filter. Qed.

Lemma pool_uuid_inj x p q :
  api_ok x → p ∈ api_pools x → q ∈ api_pools x → Pool.UUID p = Pool.UUID q → p = q.
Proof. intros [_ Hnd _ _ _ _]. by apply NoDup_key_inj. Qed.

(** ** Tasks *)

Inductive task : Type :=
| TSleep (d : Z)
| TDelPart (p : Pool.t) (y : part)
| TDelPool (p : Pool.t)
| TNewPool (d : Pool.t)
| TNewPart (p : Pool.t) (y : part).

Definition new_part_action (uuid : string) (y : part) : Action :=
  match y with
  | PMember m => CreatePoolMember uuid m
  | PListener l => CreateListener uuid l
  | PMonitor m => CreateHealthMonitor uuid m
  end.

(** The action for a task on the load balancer [u]. *)
Definition task_action (u : string) (t : task) : Action :=
  match t with
  | TSleep d => Sleep d
  | TDelPart _ y => DeleteResource (part_href y)
  | TDelPool p => DeleteResource (Pool.HREF p)
  | TNewPool d => CreatePool u d
  | TNewPart p y => new_part_action (Pool.UUID p) y
  end.

Section tasks.
Context `{GoExt} `{SDK}.
Implicit Types (x : api) (u : string) (p q : Pool.t) (y : part) (t s : task).

Definition enabled u x t : Prop :=
  match t with
  | TSleep _ => True
  | TDelPart p y => p ∈ pools_of x u ∧ y ∈ parts x p
  | TDelPool p => p ∈ pools_of x u
  | TNewPool d => pool_key d ∉ pool_key <$> pools_of x u
  | TNewPart p y => p ∈ pools_of x u ∧ part_key y ∉ part_key <$> parts x p
  end.

(** The first task would make the second impossible. *)
Definition clash t s : Prop :=
  match t, s with
  | TDelPart p y, TDelPart q z => p = q ∧ y = z
  | TDelPool p, TDelPool q | TDelPool p, TDelPart q _ | TDelPool p, TNewPart q _ => p = q
  | TNewPool d, TNewPool e => pool_key d = pool_key e
  | TNewPart p y, TNewPart q z => p = q ∧ part_key y = part_key z
  | _, _ => False
  end.

(** What a task does to the pools and their parts. *)
Definition task_effect u t x x' : Prop :=
  same_lbs x x' ∧ api_ips x' = api_ips x ∧
  match t with
  | TSleep _ => api_pools x' = api_pools x ∧ ∀ q, q ∈ api_pools x → parts x' q = parts x q
  | TDelPart p y =>
      api_pools x' = api_pools x ∧
      parts x' p = filter (λ z, part_href z ≠ part_href y) (parts x p) ∧
      ∀ q, q ∈ api_pools x → q ≠ p → parts x' q = parts x q
  | TDelPool p =>
      api_pools x' = filter (λ q, Pool.HREF q ≠ Pool.HREF p) (api_pools x) ∧
      ∀ q, q ∈ api_pools x' → parts x' q = parts x q
  | TNewPool d =>
      ∃ p, Pool.Name p = Pool.Name d ∧ Pool.Algorithm p = Pool.Algorithm d ∧
        Pool.Protocol p = Pool.Protocol d ∧ Pool.LoadBalancer p = u ∧
        api_pools x' ≡ₚ p :: api_pools x ∧ parts x' p = [] ∧
        ∀ q, q ∈ api_pools x → parts x' q = parts x q
  | TNewPart p y =>
      api_pools x' = api_pools x ∧
      (∃ y', part_key y' = part_key y ∧ parts x' p ≡ₚ y' :: parts x p) ∧
      ∀ q, q ∈ api_pools x → q ≠ p → parts x' q ≡ₚ parts x q
  end.

(** ** A task leaves the others possible *)

Lemma pool_key_eq p q :
  Pool.Name p = Pool.Name q → Pool.Algorithm p = Pool.Algorithm q →
  Pool.Protocol p = Pool.Protocol q → pool_key p = pool_key q.
Proof. unfold pool_key, poolKey. simpl. congruence. Qed.

Lemma pool_href_inj x p q :
  api_ok x → p ∈ api_pools x → q ∈ api_pools x → Pool.HREF p = Pool.HREF q → p = q.
Proof.
  intros [_ _ _ Hu _ _] Hp Hq Heq.
  assert (RPool p = RPool q) as [=] by (apply Hu; [by constructor..|done]). done.
Qed.

Lemma part_href_inj x p q y z :
  api_ok x → p ∈ api_pools x → q ∈ api_pools x → y ∈ parts x p → z ∈ parts x q →
  part_href y = part_href z → p = q ∧ y = z.
Proof.
  intros [_ _ _ Hu _ _] Hp Hq Hy Hz Heq.
  assert (RPart p y = RPart q z) as [= -> ->] by (apply Hu; [by constructor..|done]). done.
Qed.

Lemma enabled_part_pool u x p y : enabled u x (TDelPart p y) → p ∈ api_pools x.
Proof. intros [[_ ?]%elem_of_pools_of _]. done. Qed.

Lemma pools_of_kept u x x' : api_pools x' = api_pools x → pools_of x' u = pools_of x u.
Proof. unfold pools_of. by intros ->. Qed.

(** Which pools are left. *)
Lemma pool_stays u t x x' p :
  api_ok x → enabled u x t → task_effect u t x x' → p ∈ pools_of x u → t ≠ TDelPool p →
  p ∈ pools_of x' u.
Proof.
  intros Hok Ht (_ & _ & He) [Hl Hp]%elem_of_pools_of Hne. apply elem_of_pools_of. split; [done|].
  destruct t as [d|q y|q|d|q y]; simpl in He.
  1,2,5: by destruct He as [-> _].
  - destruct He as [-> _]. apply list_elem_of_filter. split; [|done]. intros Heq.
    destruct Hne. f_equal. apply elem_of_pools_of in Ht as [_ Hq].
    symmetry. by apply (pool_href_inj x).
  - destruct He as (q & _ & _ & _ & _ & -> & _). by right.
Qed.

Lemma part_stays u t x x' p y :
  api_ok x → enabled u x t → task_effect u t x x' → p ∈ pools_of x u → y ∈ parts x p →
  ¬ clash t (TDelPart p y) → y ∈ parts x' p.
Proof.
  intros Hok Ht Hte Hpu Hy Hne.
  pose proof (pool_stays u t x x' p Hok Ht Hte Hpu) as Hstay.
  destruct Hte as (_ & _ & He). apply elem_of_pools_of in Hpu as [Hl Hp].
  destruct t as [d|q z|q|d|q z]; simpl in He, Hne.
  - destruct He as [_ ->]; done.
  - destruct He as (_ & Hq & Ho). destruct (decide (p = q)) as [<-|Hpq].
    + rewrite Hq. apply list_elem_of_filter. split; [|done]. intros Heq.
      destruct Hne. split; [done|]. destruct Ht as [[_ ?]%elem_of_pools_of Hz].
      by eapply (part_href_inj x p p).
    + by rewrite Ho.
  - destruct He as [_ ->]; [done|]. eapply elem_of_pools_of, Hstay. congruence.
  - destruct He as (q & _ & _ & _ & _ & _ & _ & ->); done.
  - destruct He as (_ & (z' & _ & Hq) & Ho). destruct (decide (p = q)) as [<-|Hpq].
    + rewrite Hq. by right.
    + by rewrite Ho.
Qed.

Lemma part_keys_after u t x x' p k :
  api_ok x → enabled u x t → task_effect u t x x' → p ∈ pools_of x u → t ≠ TDelPool p →
  k ∈ part_key <$> parts x' p →
  k ∈ part_key <$> parts x p ∨ ∃ y, t = TNewPart p y ∧ k = part_key y.
Proof.
  intros Hok Ht Hte Hpu Hne Hk.
  pose proof (pool_stays u t x x' p Hok Ht Hte Hpu Hne) as [_ Hp']%elem_of_pools_of.
  destruct Hte as (_ & _ & He). apply elem_of_pools_of in Hpu as [Hl Hp].
  destruct t as [d|q z|q|d|q z]; simpl in He.
  - left. destruct He as [_ He]. by rewrite He in Hk.
  - left. destruct He as (_ & Hq & Ho). destruct (decide (p = q)) as [<-|Hpq].
    + rewrite Hq in Hk. apply list_elem_of_fmap in Hk as (y & -> & [_ Hy]%list_elem_of_filter).
      by apply list_elem_of_fmap_2.
    + by rewrite Ho in Hk.
  - left. destruct He as [_ He]. by rewrite He in Hk.
  - left. destruct He as (q & _ & _ & _ & _ & _ & _ & He). by rewrite He in Hk.
  - destruct He as (_ & (z' & Hz' & Hq) & Ho). destruct (decide (p = q)) as [<-|Hpq].
    + rewrite Hq in Hk. csimpl in Hk. apply elem_of_cons in Hk as [->|Hk]; [|by left].
      right. by exists z.
    + left. by rewrite Ho in Hk.
Qed.

Lemma pool_keys_after u t x x' k :
  task_effect u t x x' → k ∈ pool_key <$> pools_of x' u →
  k ∈ pool_key <$> pools_of x u ∨ ∃ d, t = TNewPool d ∧ k = pool_key d.
Proof.
  intros (_ & _ & He) (p & -> & [Hl Hp]%elem_of_pools_of)%list_elem_of_fmap.
  assert (p ∈ api_pools x → pool_key p ∈ pool_key <$> pools_of x u) as Hold.
  { intros Hin. by apply list_elem_of_fmap_2, elem_of_pools_of. }
  destruct t as [d|q z|q|d|q z]; simpl in He.
  1,2,5: left; apply Hold; by destruct He as [<- _].
  - left. apply Hold. destruct He as [He _]. rewrite He in Hp.
    by apply list_elem_of_filter in Hp as [_ ?].
  - destruct He as (q & Hn & Ha & Hpr & Hlb & Hps & _). rewrite Hps in Hp.
    apply elem_of_cons in Hp as [->|Hp]; [|by auto].
    right. exists d. split; [done|]. by apply pool_key_eq.
Qed.

Lemma enabled_after u t s x x' :
  api_ok x → enabled u x t → task_effect u t x x' → enabled u x s → ¬ clash t s →
  enabled u x' s.
Proof.
  intros Hok Ht Hte Hs Hne. destruct s as [d|p y|p|d|p y]; simpl in Hs |- *.
  - done.
  - destruct Hs as [Hp Hy]. split; [|by eapply part_stays].
    eapply pool_stays; try done. intros ->. by destruct Hne.
  - eapply pool_stays; try done. intros ->. by destruct Hne.
  - intros Hk. destruct (pool_keys_after _ _ _ _ _ Hte Hk) as [|(e & -> & Heq)]; [done|].
    by destruct Hne.
  - destruct Hs as [Hp Hy].
    assert (t ≠ TDelPool p) as Htp by (intros ->; by destruct Hne).
    split; [by eapply pool_stays|].
    intros Hk. destruct (part_keys_after u t x x' p _ Hok Ht Hte Hp Htp Hk)
      as [|(z & -> & Heq)]; [done|]. by destruct Hne.
Qed.
End tasks.

(** ** Running tasks *)

Section run.
Context {W : Type} `{!Client W} `{!ApiLaws W} `{GoExt} `{SDK}.
Implicit Types (w : W) (x : api) (u : string) (p q : Pool.t) (y : part) (t : task).

(** The API creates the desired part itself: members are enabled and lie in a
    subnet as the API knows it, and HTTP options need an HTTP monitor. *)
Definition part_ready y : Prop :=
  match y with
  | PMember m =>
      PoolMember.Enabled m = true ∧
      PoolMember.Subnet m = subnets (SubnetStub.UUID (PoolMember.Subnet m))
  | PListener _ => True
  | PMonitor m => HealthMonitor.Type_ m ∈ http_types ∨ httpVersion m = "1.1"
  end.

Definition task_ready t : Prop :=
  match t with TNewPart _ y => part_ready y | _ => True end.

Lemma proceed_Ok {A} (m : M W A) w a w' :
  m w = (Ok a, w') → proceed_on_success m w = (Ok (Proceed, None), w').
Proof.
  intros Hm. unfold proceed_on_success, err_of, try, mbind, M_bind. by rewrite Hm.
Qed.

(** An action that succeeds in a good state, and what holds afterwards. *)
Definition does (a : Action) w x (post : api → Prop) : Prop :=
  ∃ w' x', Run a w = (Ok (Proceed, None), w') ∧ good w' x' ∧ post x'.

Lemma does_impl a w x (P Q : api → Prop) : does a w x P → (∀ x', P x' → Q x') → does a w x Q.
Proof. intros (w' & x' & Hr & Hg & HP) HPQ. exists w', x'. auto. Qed.

Lemma run_delete w x r :
  good w x → holds x r → does (DeleteResource (href r)) w x (deleted (href r) x).
Proof.
  intros Hg Hr. destruct (law_request w x (href r) Hg) as (req & w1 & Hnew & [Hg1 _] & Hreq).
  destruct (law_delete w1 x r req Hg1 Hr Hreq) as (w' & x' & Hdo & Hg' & He).
  exists w', x'. split; [|done]. simpl. unfold run_DeleteResource, try. rewrite Hnew.
  by eapply proceed_Ok.
Qed.

(** An action that does something, as the next of a plan. *)
Lemma does_next a next w x E :
  good w x → (∀ w0, good w0 x → does a w0 x E) →
  ∃ w1 x1, good w1 x1 ∧ E x1 ∧ ∀ w', proceeds next w1 w' → proceeds (a :: next) w w'.
Proof.
  intros Hg Ha. destruct (good_ctx w x Hg) as (w0 & Hc & Hg0 & _).
  destruct (Ha w0 Hg0) as (w1 & x1 & Hr & Hg1 & He). exists w1, x1. split; [done|]. split; [done|].
  intros w' Hp. by econstructor.
Qed.

Lemma run_sleep w x d : good w x → does (Sleep d) w x (idle x).
Proof.
  intros Hg. destruct (pause w x d Hg) as (w' & x' & Hs & Hg' & Hi & _).
  exists w', x'. simpl. unfold run_Sleep. by rewrite Hs.
Qed.

Lemma run_new_part w x p y :
  good w x → p ∈ api_pools x → part_ready y →
  does (new_part_action (Pool.UUID p) y) w x (λ x',
    ∃ y', part_key y' = part_key y ∧ created_part (Pool.UUID p) y' x x').
Proof.
  intros Hg Hp Hy. destruct y as [m|l|m]; simpl in Hy.
  - edestruct (law_create_member w x p) as (m' & w' & x' & Hr & Hg' & He & Hm); [done..|].
    exists w', x'. split; [by eapply proceed_Ok|]. split; [done|].
    exists (PMember m'). split; [|done]. destruct Hm as [H1 H2 H3 H4 H5 H6]; simpl in *.
    unfold poolMemberKey. destruct Hy as [Hen Hsub].
    by rewrite H1, H2, H3, H4, H5, H6, Hen, <- Hsub.
  - edestruct (law_create_listener w x p) as (l' & w' & x' & Hr & Hg' & He & Hl); [done..| |].
    2: { exists w', x'. split; [by eapply proceed_Ok|]. split; [done|].
      exists (PListener l'). split; [|done]. destruct Hl as [H1 H2 H3]; simpl in *.
      unfold listenerKey. by rewrite H1, H2, H3. }
    done.
  - edestruct (law_create_monitor w x p) as (m' & w' & x' & Hr & Hg' & He & Hm); [done..| |].
    2: { exists w', x'. split; [by eapply proceed_Ok|]. split; [done|].
      exists (PMonitor m'). split; [|done]. destruct Hm as [H1 H2]; simpl in *.
      specialize (H2 _ eq_refl). unfold monitorKey. rewrite H1. do 4 f_equal.
      unfold httpVersion. rewrite H1 in H2. case_decide as Ht.
      - destruct H2 as (g & -> & Hv). rewrite Hv. simpl.
        by destruct (HealthMonitor.HTTP m); simpl; repeat case_decide.
      - destruct Hy as [?|Hy]; [done|]. rewrite H2. symmetry. exact Hy. }
    done.
Qed.

Lemma in_pools_of x u p : p ∈ pools_of x u → p ∈ api_pools x.
Proof. by intros [_ ?]%elem_of_pools_of. Qed.

(** Addresses are unique, so a deletion takes nothing else along. *)
Lemma deleted_part x x' p y :
  api_ok x → p ∈ api_pools x → y ∈ parts x p → deleted (part_href y) x x' →
  same_lbs x x' ∧ api_ips x' = api_ips x ∧ api_pools x' = api_pools x ∧
  parts x' p = filter (λ z, part_href z ≠ part_href y) (parts x p) ∧
  ∀ q, q ∈ api_pools x → q ≠ p → parts x' q = parts x q.
Proof.
  intros Hok Hp Hy [Hlbs Hrest].
  assert (∀ r, holds x r → href r = part_href y → r = RPart p y) as Huniq.
  { intros r Hr Heq. apply (hrefs_unique x Hok); [done|by constructor|done]. }
  assert (∀ l, l ∈ api_lbs x → LoadBalancer.HREF l ≠ part_href y) as Hnl.
  { intros l Hl Heq. by specialize (Huniq (RLb l) ltac:(by constructor) Heq). }
  destruct (Hrest Hnl) as [Hps Hpa Hips].
  assert (api_pools x' = api_pools x) as Heq.
  { rewrite Hps. apply filter_id. intros q Hq Heq.
    by specialize (Huniq (RPool q) ltac:(by constructor) Heq). }
  rewrite filter_id in Hlbs by done. rewrite Heq in Hpa.
  split_and!; [done..|by apply Hpa|].
  intros q Hq Hne. rewrite Hpa by done. apply filter_id. intros z Hz Hzy.
  destruct Hne. by specialize (Huniq (RPart q z) ltac:(by constructor) Hzy) as [= -> _].
Qed.

Lemma deleted_pool x x' p :
  api_ok x → p ∈ api_pools x → deleted (Pool.HREF p) x x' →
  same_lbs x x' ∧ api_ips x' = api_ips x ∧
  api_pools x' = filter (λ q, Pool.HREF q ≠ Pool.HREF p) (api_pools x) ∧
  ∀ q, q ∈ api_pools x' → parts x' q = parts x q.
Proof.
  intros Hok Hp [Hlbs Hrest].
  assert (∀ r, holds x r → href r = Pool.HREF p → r = RPool p) as Huniq.
  { intros r Hr Heq. apply (hrefs_unique x Hok); [done|by constructor|done]. }
  assert (∀ l, l ∈ api_lbs x → LoadBalancer.HREF l ≠ Pool.HREF p) as Hnl.
  { intros l Hl Heq. by specialize (Huniq (RLb l) ltac:(by constructor) Heq). }
  destruct (Hrest Hnl) as [Hps Hpa Hips].
  rewrite filter_id in Hlbs by done.
  split_and!; [done..|]. intros q Hq. rewrite Hpa by done.
  rewrite Hps in Hq. apply list_elem_of_filter in Hq as [_ Hq]. apply filter_id.
  intros z Hz Heq. by specialize (Huniq (RPart q z) ltac:(by constructor) Heq).
Qed.

Lemma run_task u t w x l :
  good w x → l ∈ api_lbs x → LoadBalancer.UUID l = u → enabled u x t → task_ready t →
  does (task_action u t) w x (task_effect u t x).
Proof.
  intros Hg Hl Hu Ht Hr. pose proof (good_ok w x Hg) as Hok.
  destruct t as [d|p y|p|d|p y]; simpl in Ht, Hr |- *.
  - eapply does_impl; [by apply run_sleep|]. intros x' [? ? ? ?]. by split_and!.
  - destruct Ht as [Hp%in_pools_of Hy].
    eapply does_impl; [by apply (run_delete w x (RPart p y)); [|constructor]|].
    intros x' He. by apply (deleted_part x x' p y).
  - apply in_pools_of in Ht.
    eapply does_impl; [by apply (run_delete w x (RPool p)); [|constructor]|].
    intros x' He. by apply (deleted_pool x x' p).
  - edestruct (law_create_pool w x l) as (p & w' & x' & Hrun & Hg' & He); [done..| |].
    2: { exists w', x'. split; [by eapply proceed_Ok|]. split; [done|].
      destruct He as [? ? ? ? ? ? ? ? ?]. split_and!; [done..|]. by exists p. }
    done.
  - destruct Ht as [Hp%in_pools_of Hk].
    eapply does_impl; [by apply run_new_part|].
    intros x' (y' & Hky & [Hlbs Hps Hpa Hips]). split_and!; [done..| |].
    + exists y'. split; [done|]. rewrite (Hpa p Hp), decide_True by done. done.
    + intros q Hq Hne. rewrite (Hpa q Hq), decide_False; [done|].
      intros Heq. destruct Hne. by apply (pool_uuid_inj x).
Qed.

(** The states a list of tasks goes through. *)
Inductive effects u : list task → api → api → Prop :=
| effects_nil x : effects u [] x x
| effects_cons t ts x x1 x' :
    api_ok x → enabled u x t → task_effect u t x x1 → effects u ts x1 x' →
    effects u (t :: ts) x x'.

Lemma effects_lbs u ts x x' : effects u ts x x' → same_lbs x x' ∧ api_ips x' = api_ips x.
Proof.
  induction 1 as [x|t ts x x1 x' _ _ (Hl & Hi & _) _ [IHl IHi]].
  - split; [apply same_lbs_refl|done].
  - split; [by eapply same_lbs_trans|congruence].
Qed.

Definition clash_free (ts : list task) : Prop := ForallOrdPairs (λ t s, ¬ clash t s) ts.

Lemma run_tasks u ts w x l :
  good w x → l ∈ api_lbs x → LoadBalancer.UUID l = u →
  Forall (enabled u x) ts → clash_free ts → Forall task_ready ts →
  ∃ w' x', proceeds (task_action u <$> ts) w w' ∧ good w' x' ∧ effects u ts x x'.
Proof.
  intros Hg Hl Hu Hen Hcl Hre. revert w x l Hg Hl Hu Hen.
  induction Hcl as [|t ts Ht Hcl IH]; intros w x l Hg Hl Hu Hen.
  { exists w, x. split; [constructor|]. split; [done|constructor]. }
  apply Forall_cons in Hen as [Hent Hen]. apply Forall_cons in Hre as [Hret Hre].
  pose proof (good_ok w x Hg) as Hok.
  destruct (does_next (task_action u t) (task_action u <$> ts) w x (task_effect u t x) Hg)
    as (w1 & x1 & Hg1 & He & Hnext); [intros w0 Hg0; by apply (run_task u t w0 x l)|].
  assert (∃ l1, l1 ∈ api_lbs x1 ∧ LoadBalancer.UUID l1 = u) as (l1 & Hl1 & Hu1).
  { assert (u ∈ LoadBalancer.UUID <$> api_lbs x1) as (l1 & -> & ?)%list_elem_of_fmap.
    - rewrite (same_lbs_uuids _ _ (proj1 He)). apply list_elem_of_fmap. by exists l.
    - by exists l1. }
  destruct (IH Hre w1 x1 l1) as (w' & x' & Hp & Hg' & Hes); [done..| |].
  { rewrite Forall_forall in Hen, Ht |- *. intros s Hs. by eapply enabled_after; eauto. }
  exists w', x'. split; [by apply Hnext|]. split; [done|by econstructor].
Qed.
End run.
