(* ===== verification/Progress.v ===== *)
(** * Progress

    How far an account is from the structure desired for a load balancer, as
    a number: [pool_work] while the pools differ, [part_work] once they agree.
    Every task a plan contains brings it down. *)

From stdpp Require Import base tactics list gmap strings.
From Stdlib Require Import ZArith.
From S2P Require Import Prelude.
From S2P Require Import GoStrings.
From S2P Require Import Cloudscale.
From S2P Require Import LbState.
From S2P Require Import NextActions.
From S2P Require Import NextActionsPlan.
From S2P Require Import ActualState.
From S2P Require Import ActualStateSpec.
From S2P Require Import ApiLaws.
From S2P Require Import Descent.
From S2P Require Import Tasks.

Section progress.
Context `{GoExt} `{SDK}.
Implicit Types (desired : lbState) (d : PoolPtr) (x : api) (u : string) (p q : Pool.t) (t : task).

(** The parts desired for a pool. *)
Definition desired_parts desired d : list part :=
  (PMember <$> slice_at (members desired) (Some (ptr d))) ++
  (PListener <$> slice_at (listeners desired) (Some (ptr d))) ++
  (PMonitor <$> slice_at (monitors desired) (Some (ptr d))).

(** The pool that stands for a desired one: the last of its name. *)
Definition target x u (name : string) : option Pool.t :=
  last (filter (λ p, Pool.Name p = name) (pools_of x u)).

Definition pool_distance desired x u : nat :=
  mismatch (poolKey <$> pools desired) (pool_key <$> pools_of x u).

Definition part_count x u : nat := total (λ p, length (parts x p)) (pools_of x u).

Definition pool_work desired x u : nat := (pool_distance desired x u + part_count x u)%nat.

Definition part_distance desired x u d : nat :=
  match target x u (Pool.Name (pool d)) with
  | Some p => mismatch (part_key <$> desired_parts desired d) (part_key <$> parts x p)
  | None => 0
  end.

Definition part_work desired x u : nat := total (part_distance desired x u) (pools desired).

Definition desired_size desired : nat :=
  total (λ d, length (desired_parts desired d)) (pools desired).

(** The work left for the load balancer [u]. *)
Definition work desired x u : nat :=
  if decide (pool_distance desired x u = 0%nat) then part_work desired x u
  else (pool_work desired x u + desired_size desired)%nat.

(** ** Targets *)

Lemma target_Some x u name p :
  target x u name = Some p → p ∈ pools_of x u ∧ Pool.Name p = name.
Proof. intros Hp%last_Some_elem_of. by apply list_elem_of_filter in Hp as [? ?]. Qed.

Lemma target_kept x x' u name : api_pools x' = api_pools x → target x' u name = target x u name.
Proof. intros Hp. unfold target. by rewrite (pools_of_kept u x x' Hp). Qed.

(** When the pools agree, the parts are at most those there are and those
    there should be. *)
Lemma part_work_le desired x u :
  NoDup ((λ d, Pool.Name (pool d)) <$> pools desired) →
  (part_work desired x u ≤ desired_size desired + part_count x u)%nat.
Proof.
  intros Hnd. unfold part_work, desired_size, part_count.
  set (found d := option_list (target x u (Pool.Name (pool d)))).
  transitivity (total (λ d, length (desired_parts desired d)) (pools desired) +
    total (λ p, length (parts x p)) (pools desired ≫= found))%nat.
  - clear Hnd. induction (pools desired) as [|d ds IH]; [done|].
    rewrite bind_cons, total_app, !total_cons.
    enough (part_distance desired x u d ≤
      length (desired_parts desired d) + total (λ p, length (parts x p)) (found d))%nat by lia.
    unfold part_distance, found. destruct (target x u _) as [p|]; [|simpl; lia].
    pose proof (mismatch_le (part_key <$> desired_parts desired d) (part_key <$> parts x p)) as Hle.
    rewrite !length_fmap in Hle. simpl. rewrite total_cons, total_nil. lia.
  - apply Nat.add_le_mono_l.
    assert (∀ d p, p ∈ found d → p ∈ pools_of x u ∧ Pool.Name p = Pool.Name (pool d)) as Hin.
    { intros d p Hp%elem_of_option. by apply target_Some. }
    apply total_submseteq, NoDup_submseteq.
    + apply NoDup_bind.
      * intros d e p Hd He [_ Hpd]%Hin [_ Hpe]%Hin. apply (NoDup_key_inj _ _ d e Hnd Hd He). congruence.
      * intros d _. unfold found. destruct (target _ _ _); repeat constructor. apply not_elem_of_nil.
      * by eapply NoDup_fmap_1.
    + intros p (d & Hp%Hin & _)%list_elem_of_bind. tauto.
Qed.

(** ** Tasks bring the work down *)

Definition cost t : nat := match t with TSleep _ => 0 | _ => 1 end.

(** The tasks of a plan that changes the pools. *)
Definition pool_task desired t : Prop :=
  match t with
  | TSleep _ | TDelPart _ _ => True
  | TDelPool p => pool_key p ∉ poolKey <$> pools desired
  | TNewPool d => pool_key d ∈ poolKey <$> pools desired
  | TNewPart _ _ => False
  end.

Lemma part_count_le u x x' :
  api_pools x' = api_pools x →
  (∀ q, q ∈ api_pools x → length (parts x' q) ≤ length (parts x q))%nat →
  (part_count x' u ≤ part_count x u)%nat.
Proof.
  intros Hps Hpa. unfold part_count. rewrite (pools_of_kept u x x' Hps).
  apply total_le. intros q Hq%in_pools_of. auto.
Qed.

Lemma pool_step desired u t x x' :
  api_ok x → enabled u x t → task_effect u t x x' → pool_task desired t →
  (pool_work desired x' u + cost t ≤ pool_work desired x u)%nat.
Proof.
  intros Hok Ht (_ & _ & He) Hp. unfold pool_work, pool_distance.
  destruct t as [d|p y|p|d|p y]; simpl in Ht, He, Hp |- *; [| | | |done].
  - destruct He as [Hps Hpa]. rewrite (pools_of_kept u x x' Hps).
    pose proof (part_count_le u x x' Hps ltac:(intros q Hq; by rewrite Hpa)). lia.
  - destruct He as (Hps & Hy & Ho). rewrite (pools_of_kept u x x' Hps).
    enough (part_count x' u < part_count x u)%nat by lia. destruct Ht as [Hpu Hin].
    assert (length (parts x' p) < length (parts x p))%nat as Hlt.
    { rewrite Hy. by apply (filter_shorter _ _ y); [|tauto]. }
    unfold part_count. rewrite (pools_of_kept u x x' Hps). eapply total_lt; [|done..].
    intros q Hq%in_pools_of. destruct (decide (q = p)) as [->|]; [lia|]. by rewrite Ho.
  - destruct He as [Hps Hpa].
    assert (pools_of x' u = filter (λ q, Pool.HREF q ≠ Pool.HREF p) (pools_of x u)) as Heq.
    { unfold pools_of. by rewrite Hps, filter_comm. }
    pose proof (mismatch_filter pool_key (λ q, Pool.HREF q ≠ Pool.HREF p)
      (poolKey <$> pools desired) (pools_of x u)) as Hm. rewrite <- Heq in Hm.
    assert (part_count x' u ≤ part_count x u)%nat as Hc.
    { unfold part_count. rewrite Heq. transitivity (total (λ q, length (parts x q))
        (filter (λ q, Pool.HREF q ≠ Pool.HREF p) (pools_of x u))); [|apply total_filter].
      apply total_le. rewrite <- Heq. intros q Hq%in_pools_of. by rewrite Hpa. }
    specialize (Hm ltac:(intros q Hq%in_pools_of Heq'; apply dec_stable in Heq';
      apply (pool_href_inj x) in Heq' as ->; [done..|by apply in_pools_of in Ht])).
    assert (0 < length (filter (λ q, ¬ Pool.HREF q ≠ Pool.HREF p) (pools_of x u)))%nat as Hpos.
    { apply (length_pos_of _ p), list_elem_of_filter. tauto. }
    lia.
  - destruct He as (p & Hn & Ha & Hpr & Hlb & Hps & Hem & Hpa).
    assert (pools_of x' u ≡ₚ p :: pools_of x u) as Heq.
    { unfold pools_of. by rewrite Hps, filter_cons, decide_True. }
    assert (part_count x' u = part_count x u) as ->.
    { unfold part_count. rewrite Heq, total_cons, Hem. simpl. apply Nat.le_antisymm;
        apply total_le; intros q Hq%in_pools_of; by rewrite Hpa. }
    assert (pool_key p = pool_key d) as Hk by (by apply pool_key_eq).
    rewrite (mismatch_same _ _ (pool_key p :: (pool_key <$> pools_of x u))) by (by rewrite Heq).
    pose proof (mismatch_cons (poolKey <$> pools desired) (pool_key <$> pools_of x u) (pool_key p))
      as Hlt. rewrite Hk in Hlt |- *. specialize (Hlt Hp Ht). lia.
Qed.

(** The tasks of a plan that changes the parts of the pools. *)
Definition part_task desired (targets : string → option Pool.t) t : Prop :=
  match t with
  | TSleep _ => True
  | TDelPart p y => ∃ d, d ∈ pools desired ∧ targets (Pool.Name (pool d)) = Some p ∧
      part_key y ∉ part_key <$> desired_parts desired d
  | TNewPart p y => ∃ d, d ∈ pools desired ∧ targets (Pool.Name (pool d)) = Some p ∧
      part_key y ∈ part_key <$> desired_parts desired d
  | TDelPool _ | TNewPool _ => False
  end.

Definition names_distinct desired : Prop := NoDup ((λ d, Pool.Name (pool d)) <$> pools desired).

(** One pool comes closer to what is desired and the others stay. *)
Lemma part_work_lt desired u x x' d p :
  names_distinct desired → api_pools x' = api_pools x →
  d ∈ pools desired → target x u (Pool.Name (pool d)) = Some p →
  (mismatch (part_key <$> desired_parts desired d) (part_key <$> parts x' p) <
   mismatch (part_key <$> desired_parts desired d) (part_key <$> parts x p))%nat →
  (∀ q, q ∈ api_pools x → q ≠ p → parts x' q ≡ₚ parts x q) →
  (part_work desired x' u < part_work desired x u)%nat.
Proof.
  intros Hnd Hps Hd Hp Hlt Ho. apply (total_lt _ _ _ d); [|done|].
  - intros e He. unfold part_distance. rewrite (target_kept x x' u _ Hps).
    destruct (target x u (Pool.Name (pool e))) as [q|] eqn:Hq; [|done].
    destruct (decide (q = p)) as [->|Hne].
    + assert (e = d) as ->; [|lia]. apply (NoDup_key_inj _ _ e d Hnd He Hd).
      apply target_Some in Hp as [_ <-]. by apply target_Some in Hq as [_ <-].
    + apply target_Some in Hq as [Hq%in_pools_of _].
      apply Nat.eq_le_incl, mismatch_same. by rewrite (Ho q Hq Hne).
  - unfold part_distance. by rewrite (target_kept x x' u _ Hps), Hp.
Qed.

Lemma part_step desired u t x x' :
  names_distinct desired → api_ok x → enabled u x t → task_effect u t x x' →
  part_task desired (target x u) t →
  api_pools x' = api_pools x ∧
  (part_work desired x' u + cost t ≤ part_work desired x u)%nat.
Proof.
  intros Hnd Hok Ht (_ & _ & He) Hp.
  destruct t as [d|p y|p|d|p y]; simpl in Ht, He, Hp |- *; [| |done|done|].
  - destruct He as [Hps Hpa]. split; [done|]. rewrite Nat.add_0_r. apply total_le.
    intros e He. unfold part_distance. rewrite (target_kept x x' u _ Hps).
    destruct (target _ _ _) as [q|] eqn:Hq; [|done].
    apply target_Some in Hq as [Hq%in_pools_of _]. by rewrite Hpa.
  - destruct He as (Hps & Hy & Ho), Hp as (d & Hd & Hp & Hk), Ht as [Hpu%in_pools_of Hin].
    split; [done|]. enough (part_work desired x' u < part_work desired x u)%nat by lia.
    apply (part_work_lt desired u x x' d p Hnd Hps Hd Hp); [|intros q Hq Hne; by rewrite Ho].
    rewrite Hy. pose proof (mismatch_filter part_key (λ z, part_href z ≠ part_href y)
      (part_key <$> desired_parts desired d) (parts x p)) as Hm.
    specialize (Hm ltac:(intros z Hz Heq; apply dec_stable in Heq;
      by eapply part_href_inj in Heq as [_ ->])).
    pose proof (length_pos_of (filter (λ z, ¬ part_href z ≠ part_href y) (parts x p)) y) as Hpos.
    specialize (Hpos ltac:(apply list_elem_of_filter; tauto)). lia.
  - destruct He as (Hps & (y' & Hk' & Hy) & Ho), Hp as (d & Hd & Hp & Hk).
    destruct Ht as [Hpu%in_pools_of Hin].
    split; [done|]. enough (part_work desired x' u < part_work desired x u)%nat by lia.
    apply (part_work_lt desired u x x' d p Hnd Hps Hd Hp); [|done].
    rewrite (mismatch_same _ _ (part_key y' :: (part_key <$> parts x p))) by (by rewrite Hy).
    rewrite Hk'. by apply mismatch_cons.
Qed.

(** ** Plans bring the work down *)

Definition costs (ts : list task) : nat := total cost ts.

Lemma pool_tasks_work desired u ts x x' :
  effects u ts x x' → Forall (pool_task desired) ts →
  (pool_work desired x' u + costs ts ≤ pool_work desired x u)%nat.
Proof.
  induction 1 as [x|t ts x x1 x' Hok Ht He _ IH]; [intros _; unfold costs; rewrite total_nil; lia|].
  intros [Hp Hps]%Forall_cons. unfold costs in *. rewrite total_cons.
  pose proof (pool_step _ _ _ _ _ Hok Ht He Hp). specialize (IH Hps). lia.
Qed.

Lemma part_tasks_work desired u ts x x' :
  names_distinct desired → effects u ts x x' → Forall (part_task desired (target x u)) ts →
  api_pools x' = api_pools x ∧
  (part_work desired x' u + costs ts ≤ part_work desired x u)%nat.
Proof.
  intros Hnd. induction 1 as [x|t ts x x1 x' Hok Ht He _ IH].
  { intros _. unfold costs. rewrite total_nil. split; [done|lia]. }
  intros [Hp Hps]%Forall_cons. unfold costs in *. rewrite total_cons.
  destruct (part_step _ _ _ _ _ Hnd Hok Ht He Hp) as [Heq Hle].
  destruct IH as [Heq' Hle'].
  { eapply Forall_impl; [done|]. intros s Hs. destruct s; simpl in Hs |- *; [done| |done|done|];
      destruct Hs as (d & Hd & Hq & Hk); exists d; by rewrite (target_kept x x1 u _ Heq). }
  split; [congruence|lia].
Qed.

Lemma pool_tasks_less desired u ts x x' :
  names_distinct desired → effects u ts x x' → Forall (pool_task desired) ts →
  (0 < costs ts)%nat → pool_distance desired x u ≠ 0%nat →
  (work desired x' u < work desired x u)%nat.
Proof.
  intros Hnd He Hts Hpos Hne. pose proof (pool_tasks_work _ _ _ _ _ He Hts) as Hle.
  unfold work. rewrite (decide_False _ _ Hne).
  pose proof (part_work_le desired x' u Hnd) as Hle'. unfold pool_work in *. case_decide; lia.
Qed.

Lemma part_tasks_less desired u ts x x' :
  names_distinct desired → effects u ts x x' → Forall (part_task desired (target x u)) ts →
  (0 < costs ts)%nat → pool_distance desired x u = 0%nat →
  (work desired x' u < work desired x u)%nat.
Proof.
  intros Hnd He Hts Hpos Heq. destruct (part_tasks_work _ _ _ _ _ Hnd He Hts) as [Hps Hle].
  unfold work. unfold pool_distance in *. rewrite (pools_of_kept u x x' Hps), Heq.
  rewrite !decide_True by done. lia.
Qed.
End progress.
