(* ===== verification/PlanTasks.v ===== *)
(** * PlanTasks

    The structural plans as lists of tasks: every such list can be run, since
    no task disturbs a later one, and each of its tasks brings the work of
    [Progress] down. *)

From stdpp Require Import base tactics list gmap strings.
From Stdlib Require Import ZArith.
From S2P Require Import Prelude.
From S2P Require Import GoStrings.
From S2P Require Import Compare.
From S2P Require Import Cloudscale.
From S2P Require Import Actions.
From S2P Require Import LbState.
From S2P Require Import NextActions.
From S2P Require Import NextActionsSpec.
From S2P Require Import NextActionsPlan.
From S2P Require Import ActualState.
From S2P Require Import ActualStateSpec.
From S2P Require Import Reconcile.
From S2P Require Import ApiLaws.
From S2P Require Import Descent.
From S2P Require Import Tasks.
From S2P Require Import Progress.

(** ** Pairs in the order of a list *)

Section pairs.
Context {A B : Type}.
Implicit Types (R : A → A → Prop).

Lemma ordered_app R (l k : list A) :
  ForallOrdPairs R l → ForallOrdPairs R k → (∀ x y, x ∈ l → y ∈ k → R x y) →
  ForallOrdPairs R (l ++ k).
Proof.
  intros Hl Hk. induction Hl as [|x l Hx _ IH]; intros Hxy; [done|]. simpl. constructor.
  - rewrite Forall_forall in Hx |- *. intros y. rewrite elem_of_app. intros [Hy|Hy]; [auto|].
    apply Hxy; [by left|done].
  - apply IH. intros a y ? ?. apply Hxy; [by right|done].
Qed.

Lemma ordered_flat_map (S : B → B → Prop) R (f : B → list A) (l : list B) :
  ForallOrdPairs S l → (∀ b, b ∈ l → ForallOrdPairs R (f b)) →
  (∀ a b x y, a ∈ l → b ∈ l → S a b → x ∈ f a → y ∈ f b → R x y) →
  ForallOrdPairs R (flat_map f l).
Proof.
  induction 1 as [|b l Hb _ IH]; intros Hf Hxy; simpl; [constructor|].
  apply ordered_app.
  - apply Hf. by left.
  - apply IH; [intros; apply Hf; by right|].
    intros a c x y ? ?. apply (Hxy a c); by right.
  - intros x y Hx (c & Hc & Hy)%elem_of_flat_map. rewrite Forall_forall in Hb.
    apply (Hxy b c); [by left|by right|auto|done|done].
Qed.

Lemma ordered_fmap R (f : B → A) (l : list B) :
  ForallOrdPairs (λ a b, R (f a) (f b)) l → ForallOrdPairs R (f <$> l).
Proof.
  induction 1 as [|b l Hb _ IH]; csimpl; [constructor|]. constructor; [|done].
  by apply Forall_fmap.
Qed.

Lemma distinct_keys {K} (key : A → K) (l : list A) :
  NoDup (key <$> l) → ForallOrdPairs (λ a b, key a ≠ key b) l.
Proof.
  induction l as [|a l IH]; csimpl; [constructor|]. rewrite NoDup_cons. intros [Ha Hnd].
  constructor; [|auto]. rewrite Forall_forall. intros b Hb Heq. apply Ha. rewrite Heq.
  by apply list_elem_of_fmap_2.
Qed.

Lemma ordered_impl R (S : A → A → Prop) (l : list A) :
  (∀ a b, a ∈ l → b ∈ l → R a b → S a b) → ForallOrdPairs R l → ForallOrdPairs S l.
Proof.
  intros Hrs Hl. induction Hl as [|a l Ha _ IH]; constructor.
  - rewrite Forall_forall in Ha |- *. intros b Hb. apply Hrs; [by left|by right|auto].
  - apply IH. intros b c ? ?. apply Hrs; by right.
Qed.
End pairs.

(** ** One kind of parts of one pool *)

Definition deletion_pause : task := TSleep (500 * Millisecond).

Definition delete_part (p : Pool.t) (y : part) : list task := [TDelPart p y; deletion_pause].

Lemma elem_of_delete_part p y t : t ∈ delete_part p y → t = TDelPart p y ∨ t = deletion_pause.
Proof.
  unfold delete_part. rewrite !elem_of_cons. intros [|[|?%not_elem_of_nil]]; auto. done.
Qed.

(** The tasks of [replaceActions] for the parts [inj x] of the pool [p]. *)
Definition replace_tasks {T} (p : Pool.t) (inj : T → part) (diff : list T * list T) : list task :=
  flat_map (λ x, delete_part p (inj x)) diff.1 ++
  (if decide (0 < length diff.1 ∧ 0 < length diff.2)%nat then [TSleep (5 * Second)] else []) ++
  ((λ x, TNewPart p (inj x)) <$> diff.2).

Lemma fmap_flat_map {A B C} (f : B → C) (g : A → list B) (l : list A) :
  f <$> flat_map g l = flat_map (λ a, f <$> g a) l.
Proof. induction l as [|a l IH]; [done|]. simpl. by rewrite fmap_app, IH. Qed.

Lemma replace_tasks_actions {T} u p (inj : T → part) href create diff :
  (∀ x, part_href (inj x) = href x) → (∀ x, new_part_action (Pool.UUID p) (inj x) = create x) →
  task_action u <$> replace_tasks p inj diff = replaceActions href create diff.
Proof.
  intros Hh Hc. destruct diff as [del cre]. unfold replace_tasks, replaceActions. simpl.
  rewrite !fmap_app, fmap_flat_map. f_equal; [|f_equal].
  - induction del as [|x del IH]; [done|]. cbn [flat_map]. rewrite IH, <- Hh. done.
  - by case_decide.
  - rewrite <- list_fmap_compose. apply list_fmap_ext. intros i x _. apply Hc.
Qed.

Lemma elem_of_replace_tasks {T} p (inj : T → part) diff t :
  t ∈ replace_tasks p inj diff →
  (∃ d, t = TSleep d) ∨ (∃ x, x ∈ diff.1 ∧ t = TDelPart p (inj x)) ∨
  (∃ x, x ∈ diff.2 ∧ t = TNewPart p (inj x)).
Proof.
  unfold replace_tasks. rewrite !elem_of_app, elem_of_flat_map, list_elem_of_fmap.
  intros [(x & Hx & Ht%elem_of_delete_part)|[Ht|(x & -> & Hx)]]; [|case_decide|];
    unfold deletion_pause in *; set_unfold; naive_solver.
Qed.

Section kind.
Context `{GoExt} `{SDK} {T : Type} (inj : T → part) (n : nat) (key : T → string).
Hypothesis inj_key : ∀ x, part_key (inj x) = (n, key x).

(** The tasks about the parts of kind [n] of the pool [p]. *)
Definition about (p : Pool.t) (k : nat) (t : task) : Prop :=
  match t with
  | TSleep _ => True
  | TDelPart q y | TNewPart q y => q = p ∧ (part_key y).1 = k
  | TDelPool _ | TNewPool _ => False
  end.

Lemma replace_tasks_about p diff : Forall (about p n) (replace_tasks p inj diff).
Proof.
  apply Forall_forall.
  intros t Ht. apply elem_of_replace_tasks in Ht as [[d ->]|[(x & _ & ->)|(x & _ & ->)]];
    simpl; by rewrite ?inj_key.
Qed.

Lemma replace_tasks_clash_free p diff :
  NoDup (key <$> diff.1) → NoDup (key <$> diff.2) → clash_free (replace_tasks p inj diff).
Proof.
  intros Hd Hc. unfold clash_free, replace_tasks. apply ordered_app; [|apply ordered_app|].
  - eapply ordered_flat_map; [by apply (distinct_keys key)| |].
    + intros x _. unfold delete_part. repeat constructor; simpl; tauto.
    + intros x z t s _ _ Hne Ht Hs.
      assert (inj x ≠ inj z) as Hinj.
      { intros Heq. pose proof (inj_key x) as Hx. rewrite Heq, inj_key in Hx. congruence. }
      apply elem_of_delete_part in Ht as [-> | ->], Hs as [-> | ->]; simpl; tauto.
  - case_decide; repeat constructor.
  - apply ordered_fmap. eapply ordered_impl; [|by apply (distinct_keys key)].
    intros x z _ _ Hne. simpl. rewrite !inj_key. intros [_ Heq]. congruence.
  - intros t s Ht Hs. case_decide; set_unfold; [|done]. destruct Ht as [-> | []]. destruct s; simpl; tauto.
  - intros t s (x & _ & Ht)%elem_of_flat_map Hs. apply elem_of_delete_part in Ht.
    apply elem_of_app in Hs as [Hs|(z & -> & _)%list_elem_of_fmap];
      [case_decide|]; set_unfold; naive_solver.
Qed.
End kind.

Lemma about_no_clash `{GoExt} `{SDK} p n q m t s :
  about p n t → about q m s → (p, n) ≠ (q, m) → ¬ clash t s.
Proof.
  destruct t as [| | | |], s as [| | | |]; simpl; try tauto.
  all: intros [-> <-] [-> <-] Hne [-> Heq]; apply Hne; congruence.
Qed.

(** ** The kinds among the parts *)

(** The items [inj z] of the list, for the [z] of [zs], are those of kind [n]. *)
Record kind_in `{GoExt} `{SDK} {T} (inj : T → part) (n : nat) (zs : list T) (ys : list part) : Prop := {
  kind_elem z : z ∈ zs ↔ inj z ∈ ys;
  kind_tag y : y ∈ ys → (part_key y).1 = n → ∃ z, y = inj z }.

Section kinds.
Context `{GoExt} `{SDK}.
Implicit Types (ms : list PoolMember.t) (ls : list Listener.t) (os : list HealthMonitor.t).

Lemma kind_members ms ls os :
  kind_in PMember 0 ms ((PMember <$> ms) ++ (PListener <$> ls) ++ (PMonitor <$> os)).
Proof.
  split.
  - intros z. rewrite !elem_of_app, !list_elem_of_fmap. naive_solver.
  - intros [m|l|m]; simpl; naive_solver.
Qed.

Lemma kind_listeners ms ls os :
  kind_in PListener 1 ls ((PMember <$> ms) ++ (PListener <$> ls) ++ (PMonitor <$> os)).
Proof.
  split.
  - intros z. rewrite !elem_of_app, !list_elem_of_fmap. naive_solver.
  - intros [m|l|m]; simpl; naive_solver.
Qed.

Lemma kind_monitors ms ls os :
  kind_in PMonitor 2 os ((PMember <$> ms) ++ (PListener <$> ls) ++ (PMonitor <$> os)).
Proof.
  split.
  - intros z. rewrite !elem_of_app, !list_elem_of_fmap. naive_solver.
  - intros [m|l|m]; simpl; naive_solver.
Qed.

Lemma kind_key {T} (inj : T → part) n key zs ys z :
  (∀ z, part_key (inj z) = (n, key z)) → kind_in inj n zs ys →
  key z ∈ key <$> zs ↔ part_key (inj z) ∈ part_key <$> ys.
Proof.
  intros Hk [He Ht]. rewrite !list_elem_of_fmap. split.
  - intros (z' & Hz & Hin). exists (inj z'). rewrite !Hk, Hz. split; [done|by apply He].
  - intros (y & Hy & Hin). destruct (Ht y Hin) as [z' ->]; [by rewrite <- Hy, Hk|].
    exists z'. rewrite !Hk in Hy. split; [congruence|by apply He].
Qed.
End kinds.

(** ** The stages of a plan *)

Section stages.
Context {W : Type} `{!Client W} `{!ApiLaws W} `{GoExt} `{SDK} `{MapOrder}.
Implicit Types (desired actual : lbState) (x : api) (d a : PoolPtr) (t : task).

(** Every part desired can be created as it is. *)
Definition desired_ready desired : Prop :=
  ∀ d y, d ∈ pools desired → y ∈ desired_parts desired d → part_ready y.

(** A task that can be done, is part of the work and leads where it should. *)
Definition worth desired x u t : Prop :=
  enabled u x t ∧ part_task desired (target x u) t ∧ task_ready t.

Lemma replace_tasks_worth {T} (inj : T → part) n key desired x u d p s des act :
  (∀ z, part_key (inj z) = (n, key z)) → desired_ready desired →
  d ∈ pools desired → target x u (Pool.Name (pool d)) = Some p →
  kind_in inj n des (desired_parts desired d) → kind_in inj n act (parts x p) →
  Forall (worth desired x u) (replace_tasks p inj (Diff s des act key)).
Proof.
  intros Hkey Hready Hd Hp Hdes Hact. apply Forall_forall. intros t Ht.
  destruct (target_Some _ _ _ _ Hp) as [Hpu Hname].
  pose proof (Diff_spec s des act key) as [Hc Hdel _ _].
  apply elem_of_replace_tasks in Ht as [[z ->]|[(z & Hz & ->)|(z & Hz & ->)]].
  - repeat split.
  - apply Hdel in Hz as [Hz Hk]. apply last_with_Some in Hz as [_ Hz].
    split; [split; [done|by apply (kind_elem _ _ _ _ Hact)]|]. split; [|done].
    exists d. split; [done|]. split; [done|]. by rewrite <- (kind_key inj n key des).
  - apply Hc in Hz as [Hz Hk]. apply last_with_Some in Hz as [_ Hz].
    split; [split; [done|by rewrite <- (kind_key inj n key act)]|]. split.
    + exists d. split; [done|]. split; [done|]. rewrite <- (kind_key inj n key des) by done.
      by apply list_elem_of_fmap_2.
    + apply (Hready d); [done|]. by apply (kind_elem _ _ _ _ Hdes).
Qed.

(** The pool for which a desired pool is synchronised, as the API lists it. *)
Lemma poolsByName_target x l actual name :
  reports_lb x l actual →
  pool <$> poolsByName actual !! name = target x (LoadBalancer.UUID l) name.
Proof.
  intros Hr. rewrite poolsByName_index, index_by_lookup. unfold last_with, target, pools_of.
  rewrite <- (the_pools _ _ _ Hr). generalize (pools actual). intros ps.
  induction ps as [|q ps IH] using rev_ind; [done|].
  rewrite fmap_app, !filter_app. csimpl. rewrite !filter_cons, !filter_nil. simpl.
  destruct (decide _); [by rewrite !last_snoc|by rewrite !app_nil_r].
Qed.

Lemma reported_slices x l actual name a :
  reports_lb x l actual → poolsByName actual !! name = Some a →
  parts x (pool a) =
    (PMember <$> slice_at (members actual) (Some (ptr a))) ++
    (PListener <$> slice_at (listeners actual) (Some (ptr a))) ++
    (PMonitor <$> slice_at (monitors actual) (Some (ptr a))).
Proof.
  intros Hr Ha. rewrite poolsByName_index, index_by_lookup in Ha.
  apply last_with_Some in Ha as [_ (i & Hi)%list_elem_of_lookup].
  pose proof (the_addresses _ _ _ Hr i a Hi) as <-.
  destruct (the_parts _ _ _ Hr (ptr a) a Hi) as [Hm Hl Ho]. by rewrite Hm, Hl, Ho.
Qed.

(** The tasks of [syncPool]. *)
Definition sync_tasks desired actual (i : nat) d a : list task :=
  replace_tasks (pool a) PMember
    (Diff [i; 0%nat] (slice_at (members desired) (Some (ptr d)))
       (slice_at (members actual) (Some (ptr a))) poolMemberKey) ++
  replace_tasks (pool a) PListener
    (Diff [i; 1%nat] (slice_at (listeners desired) (Some (ptr d)))
       (slice_at (listeners actual) (Some (ptr a))) listenerKey) ++
  replace_tasks (pool a) PMonitor
    (Diff [i; 2%nat] (slice_at (monitors desired) (Some (ptr d)))
       (slice_at (monitors actual) (Some (ptr a))) monitorKey).

Lemma sync_tasks_actions u desired actual i d a :
  task_action u <$> sync_tasks desired actual i d a = syncPool desired actual i d a.
Proof.
  unfold sync_tasks, syncPool. rewrite !fmap_app.
  f_equal; [by apply replace_tasks_actions|]. f_equal; by apply replace_tasks_actions.
Qed.

Lemma Diff_NoDup_keys {T} s (des act : list T) key :
  NoDup (key <$> (Diff s des act key).1) ∧ NoDup (key <$> (Diff s des act key).2).
Proof. by pose proof (Diff_spec s des act key) as [_ _ ? ?]. Qed.

Lemma sync_tasks_clash_free desired actual i d a :
  clash_free (sync_tasks desired actual i d a) ∧
  Forall (λ t, ∃ n, about (pool a) n t) (sync_tasks desired actual i d a).
Proof.
  unfold sync_tasks.
  pose proof (replace_tasks_about PMember 0 poolMemberKey ltac:(done) (pool a)) as H0'.
  pose proof (replace_tasks_about PListener 1 listenerKey ltac:(done) (pool a)) as H1'.
  pose proof (replace_tasks_about PMonitor 2 monitorKey ltac:(done) (pool a)) as H2'.
  setoid_rewrite Forall_forall in H0'. setoid_rewrite Forall_forall in H1'.
  setoid_rewrite Forall_forall in H2'. split.
  - apply ordered_app; [|apply ordered_app|].
    1: apply (replace_tasks_clash_free PMember 0 poolMemberKey); [done|apply Diff_NoDup_keys..].
    1: apply (replace_tasks_clash_free PListener 1 listenerKey); [done|apply Diff_NoDup_keys..].
    1: apply (replace_tasks_clash_free PMonitor 2 monitorKey); [done|apply Diff_NoDup_keys..].
    + intros t s Ht%H1' Hs%H2'. by eapply about_no_clash.
    + intros t s Ht%H0' [Hs%H1'|Hs%H2']%elem_of_app; by eapply about_no_clash.
  - rewrite !Forall_app, !Forall_forall. split_and!; eauto.
Qed.

Lemma sync_tasks_worth desired actual x l i d a :
  reports_lb x l actual → desired_ready desired → d ∈ pools desired →
  poolsByName actual !! Pool.Name (pool d) = Some a →
  Forall (worth desired x (LoadBalancer.UUID l)) (sync_tasks desired actual i d a).
Proof.
  intros Hr Hready Hd Ha.
  assert (target x (LoadBalancer.UUID l) (Pool.Name (pool d)) = Some (pool a)) as Ht
    by (by rewrite <- (poolsByName_target x l actual), Ha).
  pose proof (reported_slices _ _ _ _ _ Hr Ha) as Hparts.
  unfold sync_tasks. rewrite !Forall_app. split_and!.
  - eapply (replace_tasks_worth PMember 0); try done; [apply kind_members|].
    rewrite Hparts. apply kind_members.
  - eapply (replace_tasks_worth PListener 1); try done; [apply kind_listeners|].
    rewrite Hparts. apply kind_listeners.
  - eapply (replace_tasks_worth PMonitor 2); try done; [apply kind_monitors|].
    rewrite Hparts. apply kind_monitors.
Qed.

(** ** A plan that changes parts *)

Lemma syncPools_tasks desired actual x l i ds acts :
  reports_lb x l actual → desired_ready desired →
  NoDup ((λ d, Pool.Name (pool d)) <$> ds) → ds ⊆ pools desired →
  syncPools desired actual i ds = Ok acts →
  ∃ ts, acts = task_action (LoadBalancer.UUID l) <$> ts ∧ clash_free ts ∧
    Forall (worth desired x (LoadBalancer.UUID l)) ts ∧
    Forall (λ t, ∃ p n, Pool.Name p ∈ (λ d, Pool.Name (pool d)) <$> ds ∧ about p n t) ts.
Proof.
  intros Hr Hready. revert i acts. induction ds as [|d ds IH]; intros i acts Hnd Hsub Hs.
  { injection Hs as <-. exists []. repeat constructor. }
  simpl in Hs. destruct (poolsByName actual !! Pool.Name (pool d)) as [a|] eqn:Ha; [|done].
  apply bind_Ok in Hs as (rest & Hs & [= <-]).
  revert Hnd. csimpl. intros [Hd Hnd]%NoDup_cons.
  destruct (IH (S i) rest) as (ts & -> & Hcl & Hw & Hab); [done|set_solver|done|].
  destruct (sync_tasks_clash_free desired actual i d a) as [Hcl' Hab'].
  assert (Pool.Name (pool a) = Pool.Name (pool d)) as Hname.
  { rewrite poolsByName_index, index_by_lookup in Ha. by apply last_with_Some in Ha as [? _]. }
  exists (sync_tasks desired actual i d a ++ ts). split_and!.
  - by rewrite fmap_app, sync_tasks_actions.
  - apply ordered_app; [done|done|]. rewrite Forall_forall in Hab, Hab'.
    intros t t' [n Ht]%Hab' (q & m & Hq & Ht')%Hab. eapply about_no_clash; [done..|].
    intros [= <- <-]. apply Hd. by rewrite <- Hname.
  - apply Forall_app. split; [|done]. eapply sync_tasks_worth; [done..|set_solver|done].
  - apply Forall_app. split; [eapply Forall_impl; [exact Hab'|]|eapply Forall_impl; [exact Hab|]].
    + intros t [n Ht]. exists (pool a), n. split; [rewrite Hname; by left|done].
    + intros t (q & n & Hq & Ht). exists q, n. split; [by right|done].
Qed.

(** ** A plan that changes pools *)

(** The tasks for a pool that is not desired. *)
Definition drop_pool actual (p : PoolPtr) : list task :=
  flat_map (λ m, delete_part (pool p) (PMember m)) (slice_at (members actual) (Some (ptr p))) ++
  [TDelPool (pool p); deletion_pause].

Definition pool_tasks actual (del cre : list PoolPtr) : list task :=
  flat_map (drop_pool actual) del ++ ((λ d, TNewPool (pool d)) <$> cre).

Lemma drop_pool_actions u actual (p : PoolPtr) :
  task_action u <$> drop_pool actual p =
  flat_map (λ m, deleteResource (PoolMember.HREF m)) (slice_at (members actual) (Some (ptr p))) ++
  deleteResource (Pool.HREF (pool p)).
Proof. unfold drop_pool. by rewrite fmap_app, fmap_flat_map. Qed.

Lemma pool_tasks_actions actual (alb : LoadBalancer.t) del cre :
  task_action (LoadBalancer.UUID alb) <$> pool_tasks actual del cre =
  poolActions actual alb del cre.
Proof.
  unfold pool_tasks, poolActions. rewrite fmap_app, fmap_flat_map. f_equal.
  - induction del as [|p del IH]; [done|]. cbn [flat_map]. by rewrite IH, drop_pool_actions.
  - by rewrite <- list_fmap_compose.
Qed.

(** Every task of [drop_pool] is about that pool. *)
Definition drops (p : Pool.t) t : Prop :=
  match t with
  | TSleep _ => True
  | TDelPart q _ | TDelPool q => q = p
  | TNewPool _ | TNewPart _ _ => False
  end.

Lemma drop_pool_drops actual (p : PoolPtr) t : t ∈ drop_pool actual p → drops (pool p) t.
Proof.
  unfold drop_pool. rewrite elem_of_app, elem_of_flat_map, !elem_of_cons.
  intros [(m & _ & [-> | ->]%elem_of_delete_part)|[-> |[-> |?%not_elem_of_nil]]]; done.
Qed.

Lemma drop_pool_clash_free actual (p : PoolPtr) :
  NoDup (slice_at (members actual) (Some (ptr p))) → clash_free (drop_pool actual p).
Proof.
  intros Hnd. unfold clash_free, drop_pool. apply ordered_app.
  - rewrite <- (list_fmap_id (slice_at _ _)) in Hnd.
    eapply ordered_flat_map; [by apply (distinct_keys id)| |].
    + intros m _. repeat constructor. simpl. tauto.
    + intros m n t s _ _ Hne Ht Hs. simpl in Hne.
      apply elem_of_delete_part in Ht as [-> | ->], Hs as [-> | ->]; simpl; try tauto.
      intros [_ [= Heq]]. done.
  - repeat constructor. simpl. tauto.
  - intros t s (m & _ & Ht)%elem_of_flat_map Hs.
    apply elem_of_delete_part in Ht as [-> | ->]; set_unfold; destruct Hs as [-> |[-> |[]]];
      simpl; tauto.
Qed.

Lemma pool_ptr_reported x l actual (p : PoolPtr) :
  reports_lb x l actual → p ∈ pools actual →
  pool p ∈ pools_of x (LoadBalancer.UUID l) ∧
  slice_at (members actual) (Some (ptr p)) = api_members x (Pool.UUID (pool p)).
Proof.
  intros Hr Hp. split.
  - unfold pools_of. rewrite <- (the_pools _ _ _ Hr). by apply list_elem_of_fmap_2.
  - apply list_elem_of_lookup in Hp as [i Hi]. pose proof (the_addresses _ _ _ Hr i p Hi) as <-.
    by destruct (the_parts _ _ _ Hr (ptr p) p Hi) as [Hm _ _].
Qed.

Lemma member_parts x p m : m ∈ api_members x (Pool.UUID p) → PMember m ∈ parts x p.
Proof. intros Hm. unfold parts. rewrite elem_of_app. left. by apply list_elem_of_fmap_2. Qed.

Lemma members_NoDup x p : NoDup (parts x p) → NoDup (api_members x (Pool.UUID p)).
Proof. unfold parts. intros [Hnd _]%NoDup_app. by eapply NoDup_fmap_1. Qed.

Lemma pool_keys_reported x l actual :
  reports_lb x l actual →
  poolKey <$> pools actual = pool_key <$> pools_of x (LoadBalancer.UUID l).
Proof.
  intros Hr. unfold pools_of. rewrite <- (the_pools _ _ _ Hr), <- list_fmap_compose. done.
Qed.

Lemma pool_tasks_clash_free desired actual x l s :
  api_ok x → reports_lb x l actual →
  let '(del, cre) := Diff s (pools desired) (pools actual) poolKey in
  clash_free (pool_tasks actual del cre).
Proof.
  intros Hok Hr. pose proof (Diff_spec s (pools desired) (pools actual) poolKey) as [_ Hd Nc Nd].
  destruct (Diff _ _ _ _) as [del cre]; simpl in *.
  assert (∀ p, p ∈ del → p ∈ pools actual) as Hin.
  { intros p [Hp _]%Hd. by apply last_with_Some in Hp as [_ ?]. }
  unfold pool_tasks. apply ordered_app.
  - eapply ordered_flat_map; [by apply (distinct_keys poolKey)| |].
    + intros p Hp. apply drop_pool_clash_free.
      destruct (pool_ptr_reported _ _ _ _ Hr (Hin p Hp)) as [Hpu%in_pools_of ->].
      by apply members_NoDup, (parts_listed_once x Hok).
    + intros p q t t' _ _ Hne Ht%drop_pool_drops Ht'%drop_pool_drops.
      assert (pool p ≠ pool q) by (intros Heq; apply Hne; unfold poolKey; by rewrite Heq).
      destruct t, t'; simpl in *; intros Hc; intuition congruence.
  - apply ordered_fmap. eapply ordered_impl; [|by apply (distinct_keys poolKey)]. done.
  - intros t t' (p & _ & Ht%drop_pool_drops)%elem_of_flat_map (d & -> & _)%list_elem_of_fmap.
    destruct t; simpl in *; tauto.
Qed.

Lemma pool_tasks_worth desired actual x l s :
  reports_lb x l actual →
  let '(del, cre) := Diff s (pools desired) (pools actual) poolKey in
  Forall (λ t, enabled (LoadBalancer.UUID l) x t ∧ pool_task desired t ∧ task_ready t)
    (pool_tasks actual del cre).
Proof.
  intros Hr. pose proof (Diff_spec s (pools desired) (pools actual) poolKey) as [Hc Hd _ _].
  destruct (Diff _ _ _ _) as [del cre]; simpl in *.
  unfold pool_tasks. apply Forall_forall. intros t [(p & Hp & Ht)%elem_of_flat_map
    |(d & -> & Hin)%list_elem_of_fmap]%elem_of_app.
  - apply Hd in Hp as [Hp Hk]. apply last_with_Some in Hp as [_ Hp].
    destruct (pool_ptr_reported _ _ _ _ Hr Hp) as [Hpu Hms].
    unfold drop_pool in Ht. rewrite elem_of_app, elem_of_flat_map, !elem_of_cons in Ht.
    destruct Ht as [(m & Hm & [-> | ->]%elem_of_delete_part)|[-> |[-> |?%not_elem_of_nil]]];
      [|done| |done|done].
    + split; [|done]. split; [done|]. apply member_parts. by rewrite <- Hms.
    + done.
  - apply Hc in Hin as [Hin Hk]. apply last_with_Some in Hin as [_ Hin].
    split; [|split; [exact (list_elem_of_fmap_2 poolKey _ _ Hin)|done]].
    simpl. by rewrite <- (pool_keys_reported x l actual Hr).
Qed.

Lemma costs_app ts us : costs (ts ++ us) = (costs ts + costs us)%nat.
Proof. apply total_app. Qed.

Lemma pool_tasks_cost actual del cre :
  (del, cre) ≠ ([], []) → (0 < costs (pool_tasks actual del cre))%nat.
Proof.
  intros Hne. unfold pool_tasks. rewrite costs_app. destruct del as [|p del].
  - destruct cre as [|d cre]; [done|]. unfold costs. csimpl. rewrite total_cons. simpl. lia.
  - unfold drop_pool at 1. cbn [flat_map]. unfold drop_pool. rewrite !costs_app. unfold costs at 2.
    rewrite total_cons. simpl. lia.
Qed.

(** Actions that are not pauses cost something. *)
Lemma structural_cost u (ts : list task) :
  (∃ b, b ∈ task_action u <$> ts ∧ is_structural b = true) → (0 < costs ts)%nat.
Proof.
  intros (b & (t & -> & Ht)%list_elem_of_fmap & Hs).
  apply list_elem_of_split in Ht as (l1 & l2 & ->). rewrite costs_app.
  unfold costs at 2. rewrite total_cons. destruct t; simpl in *; [done|lia..].
Qed.
End stages.
