(* ===== verification/Settings.v ===== *)
(** * Settings

    The last plan of a reconciliation only updates settings and assigns
    Floating IPs.  It runs to its end and leaves the settings in place, as far
    as a request can carry them: an update has no room for a zero number, an
    empty text, an empty list of codes or the absence of a host. *)

From stdpp Require Import base tactics list gmap strings.
From Stdlib Require Import ZArith.
From S2P Require Import Prelude.
From S2P Require Import GoStrings.
From S2P Require Import Compare.
From S2P Require Import Cloudscale.
From S2P Require Import Actions.
From S2P Require Import LbState.
From S2P Require Import NextActions.
From S2P Require Import NextActionsSpec.
From S2P Require Import NextActionsPlan.
From S2P Require Import ActualState.
From S2P Require Import ActualStateSpec.
From S2P Require Import Reconcile.
From S2P Require Import ReconcileSpec.
From S2P Require Import ApiLaws.
From S2P Require Import Tasks.
From S2P Require Import Progress.
From S2P Require Import PlanTasks.

(** ** What is still due

    A setting is in place, cannot be carried by a request, or one of the
    actions still to run sets it. *)

Section due.
Implicit Types (rem : list Action) (dl l : Listener.t) (dm m : HealthMonitor.t).

Definition number_due rem (a : Action) (desired actual : Z) : Prop :=
  desired = 0%Z ∨ actual = desired ∨ a ∈ rem.
Definition text_due rem (a : Action) (desired actual : string) : Prop :=
  desired = "" ∨ actual = desired ∨ a ∈ rem.

Record listener_due rem (uuid : string) dl l : Prop := {
  cidrs_due : Listener.AllowedCIDRs l = Listener.AllowedCIDRs dl ∨
    UpdateListenerAllowedCIDRs uuid (Listener.AllowedCIDRs dl) ∈ rem;
  client_data_due : number_due rem
    (UpdateListenerTimeout uuid (Listener.TimeoutClientDataMS dl) "client-data-ms")
    (Listener.TimeoutClientDataMS dl) (Listener.TimeoutClientDataMS l);
  connect_due : number_due rem
    (UpdateListenerTimeout uuid (Listener.TimeoutMemberConnectMS dl) "member-connect-ms")
    (Listener.TimeoutMemberConnectMS dl) (Listener.TimeoutMemberConnectMS l);
  member_data_due : number_due rem
    (UpdateListenerTimeout uuid (Listener.TimeoutMemberDataMS dl) "member-data-ms")
    (Listener.TimeoutMemberDataMS dl) (Listener.TimeoutMemberDataMS l) }.

Record http_due rem (uuid : string) (dh h : MonitorHTTP.t) : Prop := {
  host_due : MonitorHTTP.Host dh = None ∨
    deref <$> MonitorHTTP.Host h = deref <$> MonitorHTTP.Host dh ∨
    UpdateMonitorHTTPHost uuid (MonitorHTTP.Host dh) ∈ rem;
  path_due : text_due rem (UpdateMonitorHTTPPath uuid (MonitorHTTP.URLPath dh))
    (MonitorHTTP.URLPath dh) (MonitorHTTP.URLPath h);
  method_due : text_due rem (UpdateMonitorHTTPMethod uuid (MonitorHTTP.Method dh))
    (MonitorHTTP.Method dh) (MonitorHTTP.Method h);
  codes_due : MonitorHTTP.ExpectedCodes dh = [] ∨
    MonitorHTTP.ExpectedCodes h = MonitorHTTP.ExpectedCodes dh ∨
    UpdateMonitorHTTPExpectedCodes uuid (MonitorHTTP.ExpectedCodes dh) ∈ rem }.

Record monitor_due rem (uuid : string) dm m : Prop := {
  http_options_due dh h :
    HealthMonitor.HTTP dm = Some dh → HealthMonitor.HTTP m = Some h → http_due rem uuid dh h;
  delay_due : number_due rem (UpdateMonitorNumber uuid (HealthMonitor.DelayS dm) "delay-s")
    (HealthMonitor.DelayS dm) (HealthMonitor.DelayS m);
  timeout_due : number_due rem (UpdateMonitorNumber uuid (HealthMonitor.TimeoutS dm) "timeout-s")
    (HealthMonitor.TimeoutS dm) (HealthMonitor.TimeoutS m);
  up_due : number_due rem (UpdateMonitorNumber uuid (HealthMonitor.UpThreshold dm) "up-threshold")
    (HealthMonitor.UpThreshold dm) (HealthMonitor.UpThreshold m);
  down_due : number_due rem
    (UpdateMonitorNumber uuid (HealthMonitor.DownThreshold dm) "down-threshold")
    (HealthMonitor.DownThreshold dm) (HealthMonitor.DownThreshold m) }.

(** Nothing is due any more: what a request can carry is in place. *)
Definition listener_in_place dl l : Prop := ∀ uuid, listener_due [] uuid dl l.
Definition monitor_in_place dm m : Prop := ∀ uuid, monitor_due [] uuid dm m.

Lemma nothing_due (P Q : Prop) (a b : Action) : P ∨ Q ∨ a ∈ [] → P ∨ Q ∨ b ∈ [].
Proof. intros [?|[?|?%not_elem_of_nil]]; [by left|by right; left|done]. Qed.

Lemma listener_placed uuid dl l : listener_due [] uuid dl l → listener_in_place dl l.
Proof.
  intros [Hc H1 H2 H3] v. split; [|by eapply nothing_due..].
  left. by destruct Hc as [?|?%not_elem_of_nil].
Qed.

Lemma monitor_placed uuid dm m : monitor_due [] uuid dm m → monitor_in_place dm m.
Proof.
  intros [Hh H1 H2 H3 H4] v. split; [|by eapply nothing_due..].
  intros dh h Hdh Hm. destruct (Hh dh h Hdh Hm). split; by eapply nothing_due.
Qed.

(** A request that carries nothing but desired settings. *)
Record carries_listener (req : ListenerRequest.t) dl : Prop := {
  carries_cidrs : ListenerRequest.AllowedCIDRs req = None ∨
    ListenerRequest.AllowedCIDRs req = Some (Listener.AllowedCIDRs dl);
  carries_client : ListenerRequest.TimeoutClientDataMS req = 0%Z ∨
    ListenerRequest.TimeoutClientDataMS req = Listener.TimeoutClientDataMS dl;
  carries_connect : ListenerRequest.TimeoutMemberConnectMS req = 0%Z ∨
    ListenerRequest.TimeoutMemberConnectMS req = Listener.TimeoutMemberConnectMS dl;
  carries_data : ListenerRequest.TimeoutMemberDataMS req = 0%Z ∨
    ListenerRequest.TimeoutMemberDataMS req = Listener.TimeoutMemberDataMS dl }.

Lemma carried_desired n req old :
  (req = 0 ∨ req = n)%Z → old = n → carried_number req old = n.
Proof. unfold carried_number. intros [-> | ->] ->; case_decide; congruence. Qed.

Lemma number_done rem a b desired actual req :
  (req = 0 ∨ req = desired)%Z → (b = a → req = desired) →
  number_due (b :: rem) a desired actual →
  number_due rem a desired (carried_number req actual).
Proof.
  intros Hreq Hb [H0|[Heq|[<-|Hin]%elem_of_cons]].
  - by left.
  - right; left. by apply carried_desired.
  - rewrite Hb by done. unfold carried_number.
    case_decide; [by left|right; by left].
  - by right; right.
Qed.

Lemma text_done rem a b desired actual req :
  (req = "" ∨ req = desired) → (b = a → req = desired) →
  text_due (b :: rem) a desired actual →
  text_due rem a desired (carried_text req actual).
Proof.
  intros Hreq Hb [H0|[Heq|[<-|Hin]%elem_of_cons]].
  - by left.
  - right; left. unfold carried_text. destruct Hreq as [-> | ->]; case_decide; congruence.
  - rewrite Hb by done. unfold carried_text.
    case_decide; [by left|right; by left].
  - by right; right.
Qed.
End due.

(** ** What one update does *)

Section updates.
Context {W : Type} `{!Client W}.
Implicit Types (rem : list Action) (a : Action) (dl l : Listener.t) (dm m : HealthMonitor.t).

(** The request of an action that updates a listener, if it is one. *)
Lemma listener_action a dl al rem :
  listener_update dl al a →
  ∃ req, (∀ w, Run (W:=W) a w = proceed_on_success (Listeners_Update (Listener.UUID al) req) w) ∧
    ∀ l, listener_due (a :: rem) (Listener.UUID al) dl l →
      listener_due rem (Listener.UUID al) dl (patch_listener req l).
Proof.
  intros []; (eexists; split; [intros w; reflexivity|]).
  all: intros l [Hc Hcl Hco Hd]; split; simpl.
  all: try (eapply number_done; [simpl; tauto| |done]; done).
  all: try (eapply number_done; [simpl; tauto| |done]; intros Hne; first [discriminate Hne|done]).
  1: by left.
  all: destruct Hc as [?|[Hc|?]%elem_of_cons]; [by left|discriminate Hc|by right].
Qed.

Lemma http_action a dh ah uuid rem :
  http_update uuid dh ah a →
  ∃ req, (∀ w, Run (W:=W) a w = update_monitor_http uuid req w) ∧
    MonitorHTTPRequest.Version req = "" ∧
    ∀ h, http_due (a :: rem) uuid dh h → http_due rem uuid dh (patch_http req h).
Proof.
  intros []; (eexists; split; [intros w; reflexivity|]; split; [done|]).
  all: intros h [Hh Hp Hm Hc]; split; simpl.
  all: try (eapply text_done; [simpl; tauto| |done]; intros Hne; first [discriminate Hne|done]).
  all: try (destruct Hh as [?|[?|[Hh|?]%elem_of_cons]];
    [by left|by right; left|discriminate Hh|by right; right]).
  all: try (destruct Hc as [?|[?|[Hc|?]%elem_of_cons]];
    [by left|by right; left|discriminate Hc|by right; right]).
  - destruct (MonitorHTTP.Host dh) as [p|]; [by right; left|by left].
  - case_decide; [by left|by right; left].
Qed.

Lemma monitor_action a dm am rem :
  monitor_update dm am a →
  ∃ req, (∀ w, Run (W:=W) a w = proceed_on_success (HealthMonitors_Update (HealthMonitor.UUID am) req) w) ∧
    (∀ m, httpVersion (patch_monitor req m) = httpVersion m) ∧
    ∀ m, monitor_due (a :: rem) (HealthMonitor.UUID am) dm m →
      monitor_due rem (HealthMonitor.UUID am) dm (patch_monitor req m).
Proof.
  intros Hup. destruct Hup as [dh ah a Hdh Hah Ha|Hne|Hne|Hne|Hne].
  { assert (∀ n uuid key, a ≠ UpdateMonitorNumber uuid n key) as Hne by (by destruct Ha).
    destruct (http_action _ _ _ _ rem Ha) as (req & Hrun & Hv & Hdue).
    eexists. split; [exact Hrun|]. split.
    { intros m. unfold httpVersion. simpl. destruct (HealthMonitor.HTTP m); [|done].
      simpl. by rewrite Hv. }
    intros m [Hh Hd Ht Hu Hdn]. split; simpl.
    2-5: eapply number_done; [simpl; tauto| |done]; intros Heq; by destruct (Hne _ _ _ Heq).
    intros dh' h' Hdh' Hh'. apply fmap_Some in Hh' as (h & Hm & ->). rewrite Hdh in Hdh'. injection Hdh' as <-.
    apply Hdue. by apply Hh. }
  all: eexists; split; [intros w; reflexivity|]; split; [done|].
  all: intros m [Hh Hd Ht Hu Hdn]; split; simpl.
  all: try (eapply number_done; [simpl; tauto| |done]; intros Heq; first [discriminate Heq|done]).
  all: intros dh h Hdh Hm; destruct (Hh dh h Hdh Hm) as [H1 H2 H3 H4]; split.
  all: unfold text_due in *; set_unfold; naive_solver.
Qed.
End updates.

(** ** Which settings belong together *)

(** The listener or monitor an action updates. *)
Definition subject (a : Action) : option (bool * string) :=
  match a with
  | UpdateListenerAllowedCIDRsAction uuid _ | UpdateListenerTimeoutAction _ uuid _ => Some (true, uuid)
  | UpdateMonitorHTTPMethodAction uuid _ | UpdateMonitorHTTPPathAction uuid _
  | UpdateMonitorHTTPHostAction uuid _ | UpdateMonitorHTTPExpectedCodesAction uuid _
  | UpdateMonitorNumberAction uuid _ _ => Some (false, uuid)
  | _ => None
  end.

Lemma elem_of_other (a b : Action) rem : b ∈ a :: rem → subject a ≠ subject b → b ∈ rem.
Proof. by intros [-> |?]%elem_of_cons. Qed.

Lemma due_other (a b : Action) rem (P : Prop) :
  P ∨ b ∈ a :: rem → subject a ≠ subject b → P ∨ b ∈ rem.
Proof. intros [?|Hb] Hs; [by left|right]. by eapply elem_of_other. Qed.

Lemma due_other2 (a b : Action) rem (P Q : Prop) :
  P ∨ Q ∨ b ∈ a :: rem → subject a ≠ subject b → P ∨ Q ∨ b ∈ rem.
Proof. intros [?|Hb] Hs; [by left|right]. by eapply due_other. Qed.

Lemma listener_due_other a rem uuid dl l :
  listener_due (a :: rem) uuid dl l → subject a ≠ Some (true, uuid) → listener_due rem uuid dl l.
Proof.
  intros [Hc H1 H2 H3] Hs.
  split; [by eapply due_other|by eapply due_other2..].
Qed.

Lemma monitor_due_other a rem uuid dm m :
  monitor_due (a :: rem) uuid dm m → subject a ≠ Some (false, uuid) → monitor_due rem uuid dm m.
Proof.
  intros [Hh H1 H2 H3 H4] Hs.
  split; [|by eapply due_other2..].
  intros dh h Hdh Hm. destruct (Hh dh h Hdh Hm) as [H5 H6 H7 H8].
  split; by eapply due_other2.
Qed.

(** A new reading of the same monitor. *)
Lemma monitor_due_like rem uuid dm m g :
  monitor_due rem uuid dm m → monitor_like g m → monitor_due rem uuid dm g.
Proof.
  intros [Hh H1 H2 H3 H4] [_ _ _ Hl F1 F2 F3 F4 _]. split; rewrite ?F1, ?F2, ?F3, ?F4; [|done..].
  intros dh h Hdh Hg. rewrite Hg in Hl. inversion Hl as [? h' Hlike Heq1 Heq2|]; subst.
  destruct Hlike as (E1 & E2 & E3 & _ & E5), (Hh dh h' Hdh (eq_sym Heq2)) as [H5 H6 H7 H8].
  split; by rewrite ?E1, ?E2, ?E3, ?E5.
Qed.

Section pairs.
Context `{GoExt} `{SDK}.
Implicit Types (desired actual : lbState) (x : api).

Lemma monitor_like_key g m : monitor_like g m → monitorKey g = monitorKey m.
Proof.
  intros [_ _ Ht Hl _ _ _ _ _]. unfold monitorKey, httpVersion. rewrite Ht.
  inversion Hl as [h h' (_ & _ & _ & Hv & _)|]; subst; [by rewrite Hv|done].
Qed.

Lemma patch_listener_key req l : listenerKey (patch_listener req l) = listenerKey l.
Proof. done. Qed.

Lemma patch_monitor_key req m :
  httpVersion (patch_monitor req m) = httpVersion m →
  monitorKey (patch_monitor req m) = monitorKey m.
Proof. intros Hv. unfold monitorKey. by rewrite Hv. Qed.

(** A desired listener and the one that stands for it on the pool [p]. *)
Inductive listener_pair desired actual (p : Pool.t) dl al : Prop :=
| listener_pair_intro d a :
    d ∈ pools desired → poolsByName actual !! Pool.Name (pool d) = Some a → p = pool a →
    dl ∈ slice_at (listeners desired) (Some (ptr d)) →
    last_with listenerKey (slice_at (listeners actual) (Some (ptr a))) (listenerKey dl) = Some al →
    listener_pair desired actual p dl al.

Inductive monitor_pair desired actual (p : Pool.t) dm am : Prop :=
| monitor_pair_intro d a :
    d ∈ pools desired → poolsByName actual !! Pool.Name (pool d) = Some a → p = pool a →
    dm ∈ slice_at (monitors desired) (Some (ptr d)) →
    last_with monitorKey (slice_at (monitors actual) (Some (ptr a))) (monitorKey dm) = Some am →
    monitor_pair desired actual p dm am.

(** No two listeners, and no two monitors, of a desired pool have the same key. *)
Definition keys_distinct desired : Prop :=
  ∀ d, d ∈ pools desired →
    NoDup (listenerKey <$> slice_at (listeners desired) (Some (ptr d))) ∧
    NoDup (monitorKey <$> slice_at (monitors desired) (Some (ptr d))).

Lemma listener_pair_actual desired actual x l p dl al :
  reports_lb x l actual → listener_pair desired actual p dl al →
  p ∈ api_pools x ∧ PListener al ∈ parts x p ∧ listenerKey al = listenerKey dl.
Proof.
  intros Hr [d a Hd Ha -> Hdl [Hk Hal]%last_with_Some].
  pose proof (poolsByName_target x l actual (Pool.Name (pool d)) Hr) as Ht.
  rewrite Ha in Ht. symmetry in Ht. apply target_Some in Ht as [Hp%in_pools_of _].
  split; [done|]. split; [|done]. rewrite (reported_slices _ _ _ _ _ Hr Ha).
  rewrite !elem_of_app. right; left. by apply list_elem_of_fmap_2.
Qed.

Lemma monitor_pair_actual desired actual x l p dm am :
  reports_lb x l actual → monitor_pair desired actual p dm am →
  p ∈ api_pools x ∧ PMonitor am ∈ parts x p ∧ monitorKey am = monitorKey dm.
Proof.
  intros Hr [d a Hd Ha -> Hdm [Hk Ham]%last_with_Some].
  pose proof (poolsByName_target x l actual (Pool.Name (pool d)) Hr) as Ht.
  rewrite Ha in Ht. symmetry in Ht. apply target_Some in Ht as [Hp%in_pools_of _].
  split; [done|]. split; [|done]. rewrite (reported_slices _ _ _ _ _ Hr Ha).
  rewrite !elem_of_app. right; right. by apply list_elem_of_fmap_2.
Qed.

(** The pool of a pair belongs to one desired pool only. *)
Lemma pair_pool desired actual d e a b :
  names_distinct desired → d ∈ pools desired → e ∈ pools desired →
  poolsByName actual !! Pool.Name (pool d) = Some a →
  poolsByName actual !! Pool.Name (pool e) = Some b → pool a = pool b → d = e.
Proof.
  intros Hnd Hd He Ha Hb Hab. rewrite poolsByName_index, index_by_lookup in Ha, Hb.
  apply last_with_Some in Ha as [Ha _]. apply last_with_Some in Hb as [Hb _].
  apply (NoDup_key_inj _ _ d e Hnd Hd He). congruence.
Qed.

(** An actual listener stands for one desired listener. *)
Lemma listener_pair_inj desired actual x l p q dl al dk ak :
  api_ok x → reports_lb x l actual → names_distinct desired → keys_distinct desired →
  listener_pair desired actual p dl al → listener_pair desired actual q dk ak →
  Listener.UUID al = Listener.UUID ak → dl = dk.
Proof.
  intros Hok Hr Hnd Hkd Hp Hq Hu.
  destruct (listener_pair_actual _ _ _ _ _ _ _ Hr Hp) as (Hpx & Hal & Hkl).
  destruct (listener_pair_actual _ _ _ _ _ _ _ Hr Hq) as (Hqx & Hak & Hkk).
  destruct (listener_uuids x Hok p q al ak) as [<- <-]; [by constructor..|done|].
  destruct Hp as [d a Hd Ha -> Hdl _], Hq as [e b He Hb Hab Hdk _].
  assert (d = e) as <- by (by eapply (pair_pool desired actual d e)).
  apply (NoDup_key_inj _ _ dl dk (proj1 (Hkd d Hd)) Hdl Hdk). congruence.
Qed.

Lemma monitor_pair_inj desired actual x l p q dm am dn an :
  api_ok x → reports_lb x l actual → names_distinct desired → keys_distinct desired →
  monitor_pair desired actual p dm am → monitor_pair desired actual q dn an →
  HealthMonitor.UUID am = HealthMonitor.UUID an → dm = dn.
Proof.
  intros Hok Hr Hnd Hkd Hp Hq Hu.
  destruct (monitor_pair_actual _ _ _ _ _ _ _ Hr Hp) as (Hpx & Ham & Hkm).
  destruct (monitor_pair_actual _ _ _ _ _ _ _ Hr Hq) as (Hqx & Han & Hkn).
  destruct (monitor_uuids x Hok p q am an) as [<- <-]; [by constructor..|done|].
  destruct Hp as [d a Hd Ha -> Hdm _], Hq as [e b He Hb Hab Hdn _].
  assert (d = e) as <- by (by eapply (pair_pool desired actual d e)).
  apply (NoDup_key_inj _ _ dm dn (proj2 (Hkd d Hd)) Hdm Hdn). congruence.
Qed.
End pairs.

(** ** Running the updates *)

Section settle.
Context {W : Type} `{!Client W} `{!ApiLaws W} `{GoExt} `{SDK}.
Variables (desired actual : lbState) (x : api) (alb : LoadBalancer.t).
Hypothesis ok : api_ok x.
Hypothesis reported : reports_lb x alb actual.
Hypothesis names : names_distinct desired.
Hypothesis keys : keys_distinct desired.
Hypothesis ips_ours : ∀ ip, ip ∈ floatingIPs desired → known_ips (ip_of_cidr ip).

(** The invariant of the run: [rem] is still to be run. *)
Record settling (rem : list Action) (x' : api) : Prop := {
  settling_pools : api_pools x' = api_pools x;
  settling_keys p : p ∈ api_pools x → part_key <$> parts x' p = part_key <$> parts x p;
  settling_listeners p dl al : listener_pair desired actual p dl al → ∃ l,
    PListener l ∈ parts x' p ∧ Listener.UUID l = Listener.UUID al ∧
    listenerKey l = listenerKey dl ∧ listener_due rem (Listener.UUID al) dl l;
  settling_monitors p dm am : monitor_pair desired actual p dm am → ∃ m,
    PMonitor m ∈ parts x' p ∧ HealthMonitor.UUID m = HealthMonitor.UUID am ∧
    monitorKey m = monitorKey dm ∧ monitor_due rem (HealthMonitor.UUID am) dm m;
  settling_ips ip : ip ∈ floatingIPs desired → ip ∈ FloatingIP.Network <$> api_ips x' ∧
    (ip ∈ assigned_ips (LoadBalancer.UUID alb) (api_ips x') ∨
     AssignFloatingIP ip (LoadBalancer.UUID alb) ∈ rem) }.

Lemma keys_after (change : part → part → Prop) ys ys' :
  (∀ y y', change y y' → part_key y' = part_key y) → Forall2 change ys ys' →
  part_key <$> ys' = part_key <$> ys.
Proof. intros Hk. induction 1 as [|y y' ys ys' Hy _ IH]; [done|]. csimpl. by rewrite IH, (Hk _ _ Hy). Qed.

Lemma elem_after (change : part → part → Prop) ys ys' y :
  Forall2 change ys ys' → y ∈ ys → ∃ y', y' ∈ ys' ∧ change y y'.
Proof.
  intros Hf [i Hi]%list_elem_of_lookup. destruct (Forall2_lookup_l _ _ _ _ _ Hf Hi) as (y' & Hy' & Hc).
  exists y'. split; [by eapply list_elem_of_lookup_2|done].
Qed.

Lemma listener_updated_key uuid req y y' : listener_updated uuid req y y' → part_key y' = part_key y.
Proof. destruct y; simpl; intros ->; [done| |done]. by case_decide. Qed.

Lemma monitor_updated_key uuid req y y' :
  (∀ m, httpVersion (patch_monitor req m) = httpVersion m) →
  monitor_updated uuid req y y' → part_key y' = part_key y.
Proof.
  intros Hv. destruct y as [m|l|m]; simpl; [by intros ->..|].
  intros (m' & -> & Hl%monitor_like_key). simpl. rewrite Hl.
  case_decide; [by rewrite patch_monitor_key|done].
Qed.

Lemma subject_listener a dl al : listener_update dl al a → subject a = Some (true, Listener.UUID al).
Proof. by intros []. Qed.

Lemma subject_monitor a dm am : monitor_update dm am a → subject a = Some (false, HealthMonitor.UUID am).
Proof. by intros [? ? ? _ _ []| | | |]. Qed.

Lemma due_ip (a : Action) rem ip P :
  P ∨ AssignFloatingIP ip (LoadBalancer.UUID alb) ∈ a :: rem → subject a ≠ None →
  P ∨ AssignFloatingIP ip (LoadBalancer.UUID alb) ∈ rem.
Proof. intros Hd Hs. by eapply due_other. Qed.

(** An action that updates a listener. *)
Lemma settle_listener a rem w x' p dl al :
  good w x' → settling (a :: rem) x' → listener_pair desired actual p dl al →
  listener_update dl al a →
  does a w x' (λ x'', settling rem x'' ∧ same_lbs x' x'').
Proof.
  intros Hg [Hps Hk Hl Hm Hi] Hpair Ha.
  destruct (listener_action a dl al rem Ha) as (req & Hrun & Hdue).
  destruct (Hl p dl al Hpair) as (l0 & Hl0 & Hu0 & _ & _).
  assert (p ∈ api_pools x') as Hp by (rewrite Hps; by eapply listener_pair_actual).
  destruct (law_update_listener w x' p l0 req Hg Hp Hl0) as (w' & x'' & Hr & Hg' & [Hlbs Hps' Hpa Hips]).
  rewrite Hu0 in *. exists w', x''. split; [by rewrite Hrun; eapply proceed_Ok|].
  split; [done|]. split; [|done]. split; [congruence| | | |].
  - intros q Hq. rewrite <- Hk by done. eapply keys_after; [apply listener_updated_key|].
    apply Hpa. by rewrite Hps.
  - intros q dk ak Hq. destruct (Hl q dk ak Hq) as (k & Hin & Hku & Hkk & Hkd).
    assert (q ∈ api_pools x') as Hqp by (rewrite Hps; by eapply listener_pair_actual).
    destruct (elem_after _ _ _ _ (Hpa q Hqp) Hin) as (y & Hy & Hc). simpl in Hc. subst y.
    exists (if decide (Listener.UUID k = Listener.UUID al) then patch_listener req k else k).
    split; [done|]. case_decide as Heq.
    + split; [done|]. split; [done|]. rewrite Hku in Heq. rewrite Heq.
      assert (dk = dl) as -> by (by eapply listener_pair_inj). apply Hdue. by rewrite <- Heq.
    + split; [done|]. split; [done|]. eapply listener_due_other; [done|].
      rewrite (subject_listener _ _ _ Ha). congruence.
  - intros q dm am Hq. destruct (Hm q dm am Hq) as (m & Hin & Hmu & Hmk & Hmd).
    assert (q ∈ api_pools x') as Hqp by (rewrite Hps; by eapply monitor_pair_actual).
    destruct (elem_after _ _ _ _ (Hpa q Hqp) Hin) as (y & Hy & Hc). simpl in Hc. subst y.
    exists m. split_and!; [done..|]. eapply monitor_due_other; [done|].
    by rewrite (subject_listener _ _ _ Ha).
  - intros ip Hip. rewrite Hips. destruct (Hi ip Hip) as [Hn Hd]. split; [done|].
    eapply due_ip; [done|]. by rewrite (subject_listener _ _ _ Ha).
Qed.

(** An action that updates a health monitor. *)
Lemma settle_monitor a rem w x' p dm am :
  good w x' → settling (a :: rem) x' → monitor_pair desired actual p dm am →
  monitor_update dm am a →
  does a w x' (λ x'', settling rem x'' ∧ same_lbs x' x'').
Proof.
  intros Hg [Hps Hk Hl Hm Hi] Hpair Ha.
  destruct (monitor_action a dm am rem Ha) as (req & Hrun & Hv & Hdue).
  destruct (Hm p dm am Hpair) as (m0 & Hm0 & Hu0 & _ & _).
  assert (p ∈ api_pools x') as Hp by (rewrite Hps; by eapply monitor_pair_actual).
  destruct (law_update_monitor w x' p m0 req Hg Hp Hm0) as (w' & x'' & Hr & Hg' & [Hlbs Hps' Hpa Hips]).
  rewrite Hu0 in *. exists w', x''. split; [by rewrite Hrun; eapply proceed_Ok|].
  split; [done|]. split; [|done]. split; [congruence| | | |].
  - intros q Hq. rewrite <- Hk by done. eapply keys_after; [intros y y'; by apply monitor_updated_key|].
    apply Hpa. by rewrite Hps.
  - intros q dk ak Hq. destruct (Hl q dk ak Hq) as (k & Hin & Hku & Hkk & Hkd).
    assert (q ∈ api_pools x') as Hqp by (rewrite Hps; by eapply listener_pair_actual).
    destruct (elem_after _ _ _ _ (Hpa q Hqp) Hin) as (y & Hy & Hc). simpl in Hc. subst y.
    exists k. split_and!; [done..|]. eapply listener_due_other; [done|].
    by rewrite (subject_monitor _ _ _ Ha).
  - intros q dn an Hq. destruct (Hm q dn an Hq) as (m & Hin & Hmu & Hmk & Hmd).
    assert (q ∈ api_pools x') as Hqp by (rewrite Hps; by eapply monitor_pair_actual).
    destruct (elem_after _ _ _ _ (Hpa q Hqp) Hin) as (y & Hy & Hc). simpl in Hc.
    destruct Hc as (g & -> & Hlike). exists g. split; [done|].
    pose proof (monitor_like_key _ _ Hlike) as Hgk. pose proof (like_uuid _ _ Hlike) as Hgu.
    case_decide as Heq.
    + split; [by rewrite Hgu|]. split; [rewrite Hgk; by rewrite patch_monitor_key|].
      eapply monitor_due_like; [|done]. rewrite Hmu in Heq. rewrite Heq.
      assert (dn = dm) as -> by (by eapply monitor_pair_inj). apply Hdue. by rewrite <- Heq.
    + split; [congruence|]. split; [congruence|]. eapply monitor_due_like; [|done].
      eapply monitor_due_other; [done|]. rewrite (subject_monitor _ _ _ Ha). congruence.
  - intros ip Hip. rewrite Hips. destruct (Hi ip Hip) as [Hn Hd]. split; [done|].
    eapply due_ip; [done|]. by rewrite (subject_monitor _ _ _ Ha).
Qed.

(** The assignment of a Floating IP. *)
Lemma settle_assign ip rem w x' l :
  good w x' → settling (AssignFloatingIP ip (LoadBalancer.UUID alb) :: rem) x' →
  l ∈ api_lbs x' → LoadBalancer.UUID l = LoadBalancer.UUID alb → ip ∈ floatingIPs desired →
  does (AssignFloatingIP ip (LoadBalancer.UUID alb)) w x' (λ x'', settling rem x'' ∧ same_lbs x' x'').
Proof.
  intros Hg [Hps Hk Hl Hm Hi] Hlin Hu Hip.
  destruct (Hi ip Hip) as [(f & -> & Hf)%list_elem_of_fmap _].
  destruct (law_assign w x' l f Hg Hlin Hf (ips_ours _ Hip)) as (w' & x'' & Hr & Hg' & [Hlbs Hps' Hpa Hips]).
  rewrite Hu in *. exists w', x''. split; [by eapply proceed_Ok|]. split; [done|]. split; [|done].
  assert (∀ g, g ∈ api_ips x' → ∃ g', g' ∈ api_ips x'' ∧
    FloatingIP.Network g' = FloatingIP.Network g ∧
    (FloatingIP.LoadBalancer g = Some (LoadBalancer.UUID alb) ∨
     FloatingIP.Network g = FloatingIP.Network f →
     FloatingIP.LoadBalancer g' = Some (LoadBalancer.UUID alb))) as Hgs.
  { intros g Hgin. rewrite Hips. eexists. split; [by apply list_elem_of_fmap_2|]. simpl.
    split; [done|]. intros Hgo. case_decide as Hc; [done|].
    destruct Hgo as [?|Heq]; [done|]. by rewrite Heq in Hc. }
  split; [congruence| | | |].
  - intros q Hq. rewrite Hpa by (by rewrite Hps). auto.
  - intros q dk ak Hq. destruct (Hl q dk ak Hq) as (k & Hin & Hku & Hkk & Hkd). exists k.
    rewrite Hpa by (rewrite Hps; by eapply listener_pair_actual).
    split_and!; [done..|]. by eapply listener_due_other.
  - intros q dm am Hq. destruct (Hm q dm am Hq) as (m & Hin & Hmu & Hmk & Hmd). exists m.
    rewrite Hpa by (rewrite Hps; by eapply monitor_pair_actual).
    split_and!; [done..|]. by eapply monitor_due_other.
  - intros i Hin. destruct (Hi i Hin) as [(g & -> & Hgin)%list_elem_of_fmap Hd].
    destruct (Hgs g Hgin) as (g' & Hg'' & Hn & Hlb). rewrite <- Hn. split.
    { by apply list_elem_of_fmap_2. }
    assert (FloatingIP.LoadBalancer g' = Some (LoadBalancer.UUID alb) →
      FloatingIP.Network g' ∈ assigned_ips (LoadBalancer.UUID alb) (api_ips x'')) as Has.
    { intros Hs. apply list_elem_of_fmap_2, list_elem_of_filter. done. }
    destruct Hd as [Hd|[[= Heq]|Hd]%elem_of_cons].
    + left. unfold assigned_ips in Hd. apply list_elem_of_fmap in Hd as (h & Hh & Hhf).
      apply list_elem_of_filter in Hhf as [Hhl Hhin]. destruct (Hgs h Hhin) as (h' & Hh' & Hhn & Hhlb).
      rewrite Hn, Hh, <- Hhn. apply list_elem_of_fmap_2, list_elem_of_filter. auto.
    + left. apply Has, Hlb. by right.
    + right. by rewrite Hn.
Qed.

Lemma settle_step a rem w x' l :
  good w x' → settling (a :: rem) x' → setting_work desired actual alb a →
  l ∈ api_lbs x' → LoadBalancer.UUID l = LoadBalancer.UUID alb →
  does a w x' (λ x'', settling rem x'' ∧ same_lbs x' x'').
Proof.
  intros Hg Hs Ha Hl Hu. destruct Ha as [d a0 dl al a Hd Ha0 Hdl Hal Ha|d a0 dm am a Hd Ha0 Hdm Ham Ha|ip Hi Hn].
  - eapply (settle_listener _ _ _ _ (pool a0) dl al); [done..| |done]. by econstructor.
  - eapply (settle_monitor _ _ _ _ (pool a0) dm am); [done..| |done]. by econstructor.
  - by eapply settle_assign.
Qed.

Lemma settle_run acts w x' :
  good w x' → settling acts x' → Forall (setting_work desired actual alb) acts →
  LoadBalancer.UUID alb ∈ LoadBalancer.UUID <$> api_lbs x' →
  ∃ w' x'', proceeds acts w w' ∧ good w' x'' ∧ settling [] x'' ∧ same_lbs x' x''.
Proof.
  intros Hg Hs Ha. revert w x' Hg Hs.
  induction Ha as [|a acts Ha _ IH]; intros w x' Hg Hs Hu.
  { exists w, x'. split; [constructor|]. split_and!; [done..|apply same_lbs_refl]. }
  apply list_elem_of_fmap in Hu as (l & Hu & Hl).
  destruct (does_next a acts w x' (λ x'', settling acts x'' ∧ same_lbs x' x'') Hg)
    as (w1 & x1 & Hg1 & [Hs1 Hlbs] & Hnext); [intros w0 Hg0; by apply (settle_step a acts w0 x' l)|].
  destruct (IH w1 x1) as (w' & x'' & Hp & Hg' & Hs' & Hlbs'); [done..| |].
  { rewrite (same_lbs_uuids _ _ Hlbs). apply list_elem_of_fmap. by exists l. }
  exists w', x''. split; [by apply Hnext|]. split_and!; [done..|by eapply same_lbs_trans].
Qed.

(** ** The start and the end of the run *)

(** The program allocates the hosts of a desired state itself. *)
Definition hosts_apart : Prop := ∀ d m h q,
  d ∈ pools desired → m ∈ slice_at (monitors desired) (Some (ptr d)) →
  HealthMonitor.HTTP m = Some h → MonitorHTTP.Host h = Some q → ¬ answers_at (addr q).

(** The account knows the desired Floating IPs. *)
Definition ips_known (y : api) : Prop :=
  ∀ ip, ip ∈ floatingIPs desired → ip ∈ FloatingIP.Network <$> api_ips y.

Lemma number_due_start acts a (n m : Z) : (n ≠ m → a ∈ acts) → number_due acts a n m.
Proof.
  intros Ha. destruct (decide (n = m)) as [->|Hne]; [by right; left|]. right; right. by apply Ha.
Qed.

Lemma text_due_start acts a (n m : string) : (n ≠ m → a ∈ acts) → text_due acts a n m.
Proof.
  intros Ha. destruct (decide (n = m)) as [->|Hne]; [by right; left|]. right; right. by apply Ha.
Qed.

Lemma listener_due_start acts dl al :
  (∀ a, listener_update dl al a → a ∈ acts) → listener_due acts (Listener.UUID al) dl al.
Proof.
  intros Hs. split; [|apply number_due_start; intros Hne; apply Hs; by constructor..].
  destruct (decide (Listener.AllowedCIDRs dl = Listener.AllowedCIDRs al)) as [|Hne]; [by left|].
  right. apply Hs. by constructor.
Qed.

Lemma monitor_due_start acts dm am :
  (∀ dh ah p q, HealthMonitor.HTTP dm = Some dh → HealthMonitor.HTTP am = Some ah →
     MonitorHTTP.Host dh = Some p → MonitorHTTP.Host ah = Some q → addr p ≠ addr q) →
  (∀ a, monitor_update dm am a → a ∈ acts) → monitor_due acts (HealthMonitor.UUID am) dm am.
Proof.
  intros Hap Hs. split; [|apply number_due_start; intros Hne; apply Hs; by constructor..].
  intros dh ah Hdh Hah. specialize (Hap dh ah).
  assert (∀ a, http_update (HealthMonitor.UUID am) dh ah a → a ∈ acts) as Hh
    by (intros a Ha; eapply Hs, update_http; done).
  split; [|apply text_due_start; intros Hne; apply Hh; by constructor..|].
  - destruct (MonitorHTTP.Host dh) as [p|] eqn:Hp; [right; right|by left].
    unfold UpdateMonitorHTTPHost. rewrite <- Hp. apply Hh, update_host. rewrite Hp.
    destruct (MonitorHTTP.Host ah) as [q|]; [|done]. intros [= Heq]. by apply (Hap p q).
  - right. destruct (decide (MonitorHTTP.ExpectedCodes dh = MonitorHTTP.ExpectedCodes ah))
      as [|Hne]; [by left|]. right. apply Hh. by constructor.
Qed.

Lemma settling_start acts w x1 :
  good w x → hosts_apart → ips_known x → api_pools x1 = api_pools x →
  (∀ p, p ∈ api_pools x → parts x1 p = parts x p) → api_ips x1 = api_ips x →
  (∀ a, setting_work desired actual alb a → a ∈ acts) → settling acts x1.
Proof.
  intros Hg Hho Hips Hps Hpa Hipe Hacts. split.
  - done.
  - intros p Hp. by rewrite Hpa.
  - intros p dl al Hp. destruct (listener_pair_actual _ _ _ _ _ _ _ reported Hp) as (Hpx & Hal & Hk).
    exists al. rewrite Hpa by done. split_and!; [done..|]. apply listener_due_start.
    intros a Ha. apply Hacts. destruct Hp as [d a0 Hd Ha0 -> Hdl Hlast]. by econstructor.
  - intros p dm am Hp. destruct (monitor_pair_actual _ _ _ _ _ _ _ reported Hp) as (Hpx & Ham & Hk).
    exists am. rewrite Hpa by done. split_and!; [done..|].
    destruct Hp as [d a0 Hd Ha0 -> Hdm Hlast]. apply monitor_due_start.
    + intros dh ah q1 q2 Hdh Hah Hq1 Hq2 Heq. apply (Hho d dm dh q1 Hd Hdm Hdh Hq1). rewrite Heq.
      eapply (good_hosts w x); [done|by apply holds_part; [done|exact Ham]|done..].
    + intros a Ha. apply Hacts. eapply update_monitor; done.
  - intros ip Hip. rewrite Hipe. split; [by apply Hips|].
    destruct (decide (ip ∈ floatingIPs actual)) as [Hin|Hin].
    + left. by rewrite <- (the_ips _ _ _ reported).
    + right. apply Hacts. by constructor.
Qed.
End settle.
