(* ===== verification/Converge.v ===== *)
(** * Converge

    Against an API with [ApiLaws], [reconcileLbState] returns without an error
    after a bounded number of rounds, and leaves the account as desired: the
    one load balancer of the service has the desired name, pools, members,
    listeners and monitors, their settings as far as updates can carry them,
    and the desired Floating IPs.  A state without a load balancer is reached
    as well. *)

From stdpp Require Import base tactics list gmap strings.
From Stdlib Require Import ZArith.
From S2P Require Import Prelude.
From S2P Require Import GoStrings.
From S2P Require Import Compare.
From S2P Require Import Cloudscale.
From S2P Require Import ServiceInfo.
From S2P Require Import Actions.
From S2P Require Import LbState.
From S2P Require Import NextActions.
From S2P Require Import NextActionsSpec.
From S2P Require Import NextActionsPlan.
From S2P Require Import ActualState.
From S2P Require Import ActualStateSpec.
From S2P Require Import Reconcile.
From S2P Require Import ReconcileSpec.
From S2P Require Import ApiLaws.
From S2P Require Import Descent.
From S2P Require Import Tasks.
From S2P Require Import Progress.
From S2P Require Import PlanTasks.
From S2P Require Import Settings.

#[export] Instance belongs_dec info l : Decision (belongs info l).
Proof. unfold belongs. apply _. Defined.

(** [l] is the one load balancer of the service. *)
Definition owner (info : serviceInfo) (x : api) (l : LoadBalancer.t) : Prop :=
  ∀ l', l' ∈ api_lbs x ∧ belongs info l' ↔ l' = l.

Definition no_owner (info : serviceInfo) (x : api) : Prop :=
  ∀ l, l ∈ api_lbs x → ¬ belongs info l.

Lemma owner_elem info x l : owner info x l → l ∈ api_lbs x ∧ belongs info l.
Proof. intros Ho. by apply Ho. Qed.

(** ** The owner in a later state *)

Lemma owner_later info (R : LoadBalancer.t → LoadBalancer.t → Prop) x x' l :
  NoDup (LoadBalancer.UUID <$> api_lbs x') →
  Forall2 R (api_lbs x) (api_lbs x') →
  (∀ a b, R a b → LoadBalancer.UUID b = LoadBalancer.UUID a ∧
     (a ∈ api_lbs x → belongs info a ↔ belongs info b)) →
  owner info x l → ∃ l', owner info x' l' ∧ R l l'.
Proof.
  intros Hnd Hf HR Ho. destruct (owner_elem _ _ _ Ho) as [Hl Hb].
  apply list_elem_of_lookup in Hl as [i Hi].
  destruct (Forall2_lookup_l _ _ _ _ _ Hf Hi) as (l' & Hi' & Hll').
  exists l'. split; [|done]. intros k. split.
  - intros [[j Hj]%list_elem_of_lookup Hk].
    destruct (Forall2_lookup_r _ _ _ _ _ Hf Hj) as (k0 & Hj0 & Hkk).
    assert (k0 = l) as ->.
    { apply Ho. split; [by eapply list_elem_of_lookup_2|].
      apply (HR k0 k Hkk); [by eapply list_elem_of_lookup_2|done]. }
    apply (NoDup_key_inj LoadBalancer.UUID (api_lbs x')); [done|by eapply list_elem_of_lookup_2..|].
    destruct (HR _ _ Hkk) as [-> _], (HR _ _ Hll') as [-> _]. done.
  - intros ->. split; [by eapply list_elem_of_lookup_2|].
    apply (HR l l' Hll'); [by eapply list_elem_of_lookup_2|done].
Qed.

Lemma same_lb_belongs info a b : same_lb a b → belongs info a ↔ belongs info b.
Proof. intros [Hs Hn]. unfold belongs. by rewrite Hn, (same_lb_uuid _ _ Hs). Qed.

Lemma owner_same_lbs info x x' l :
  NoDup (LoadBalancer.UUID <$> api_lbs x') → same_lbs x x' → owner info x l →
  ∃ l', owner info x' l' ∧ same_lb l l'.
Proof.
  intros Hnd Hs. apply (owner_later info same_lb); [done|done|].
  intros a b Hab. split; [by apply (same_lb_uuid _ _ (proj1 Hab))|].
  intros _. by apply same_lb_belongs.
Qed.

Lemma no_owner_same_lbs info x x' : same_lbs x x' → no_owner info x → no_owner info x'.
Proof.
  intros Hs Hno l [i Hi]%list_elem_of_lookup Hb.
  destruct (Forall2_lookup_r _ _ _ _ _ Hs Hi) as (k & Hk & Hkl).
  apply (Hno k); [by eapply list_elem_of_lookup_2|]. by apply (same_lb_belongs _ _ _ Hkl).
Qed.

Lemma immutable_same d l l' : same_lb_as l l' → immutable_ok d l → immutable_ok d l'.
Proof. intros [_ _ Hv Hf Hz] [H1 H2 H3]. split; by rewrite ?Hv, ?Hf, ?Hz. Qed.

(** ** The same pools and parts *)

Record same_structure (x x' : api) : Prop := {
  structure_pools : api_pools x' = api_pools x;
  structure_parts p : p ∈ api_pools x → parts x' p = parts x p;
  structure_ips : api_ips x' = api_ips x }.

Section structure.
Context `{GoExt} `{SDK}.
Implicit Types (desired : lbState) (x : api) (u : string).

Lemma same_structure_enabled u x x' t : same_structure x x' → enabled u x t → enabled u x' t.
Proof.
  intros [Hps Hpa _]. destruct t as [d|p y|p|d|p y]; simpl; rewrite ?(pools_of_kept u x x' Hps); [done| |done..|];
    intros [Hp Hy]; (split; [done|]); by rewrite Hpa by (by eapply in_pools_of).
Qed.

Lemma same_structure_work desired u x x' :
  same_structure x x' → work desired x' u = work desired x u ∧
  pool_distance desired x' u = pool_distance desired x u.
Proof.
  intros [Hps Hpa _].
  assert (pool_distance desired x' u = pool_distance desired x u) as Hd
    by (unfold pool_distance; by rewrite (pools_of_kept u x x' Hps)).
  split; [|done]. unfold work. rewrite Hd.
  assert (part_work desired x' u = part_work desired x u) as ->.
  { apply Nat.le_antisymm; apply total_le; intros d _; unfold part_distance;
      rewrite (target_kept x x' u _ Hps); destruct (target x u _) as [p|] eqn:Hp; [|done| |done];
      apply target_Some in Hp as [Hp%in_pools_of _]; by rewrite Hpa. }
  assert (pool_work desired x' u = pool_work desired x u) as ->; [|done].
  unfold pool_work. rewrite Hd. f_equal. unfold part_count. rewrite (pools_of_kept u x x' Hps).
  apply Nat.le_antisymm; apply total_le; intros p Hp%in_pools_of; by rewrite Hpa.
Qed.

(** Pools come from the account or from a task. *)
Lemma effects_pools u ts x x' p :
  effects u ts x x' → p ∈ pools_of x' u →
  p ∈ pools_of x u ∨ ∃ d, TNewPool d ∈ ts ∧
    Pool.Algorithm p = Pool.Algorithm d ∧ Pool.Protocol p = Pool.Protocol d.
Proof.
  induction 1 as [x|t ts x x1 x' Hok Ht (_ & _ & He) _ IH]; [by left|].
  intros [Hp|(d & Hd & Hal)]%IH; [|right; exists d; split; [by right|done]].
  destruct t as [d|q y|q|d|q y]; simpl in He.
  1,2,5: left; rewrite <- (pools_of_kept u x x1); [done|by destruct He].
  - left. destruct He as [Hps _]. apply elem_of_pools_of in Hp as [Hl Hp]. rewrite Hps in Hp.
    apply list_elem_of_filter in Hp as [_ Hp]. by apply elem_of_pools_of.
  - destruct He as (q & _ & Ha & Hpr & Hlb & Hps & _). apply elem_of_pools_of in Hp as [Hl Hp].
    rewrite Hps in Hp. apply elem_of_cons in Hp as [->|Hp].
    + right. exists d. split; [by left|done].
    + left. by apply elem_of_pools_of.
Qed.
End structure.

(** ** The goal *)

Section goal.
Context `{GoExt} `{SDK}.
Variables (info : serviceInfo) (desired : lbState) (dlb : LoadBalancer.t).

(** The pool that stands for [d] has the parts desired for it and no others,
    with the desired settings. *)
Record pool_in_place (x : api) (u : string) (d : PoolPtr) (p : Pool.t) : Prop := {
  placed_pool : target x u (Pool.Name (pool d)) = Some p;
  placed_parts k : k ∈ part_key <$> desired_parts desired d ↔ k ∈ part_key <$> parts x p;
  placed_listeners dl : dl ∈ slice_at (listeners desired) (Some (ptr d)) → ∃ l,
    PListener l ∈ parts x p ∧ listenerKey l = listenerKey dl ∧ listener_in_place dl l;
  placed_monitors dm : dm ∈ slice_at (monitors desired) (Some (ptr d)) → ∃ m,
    PMonitor m ∈ parts x p ∧ monitorKey m = monitorKey dm ∧ monitor_in_place dm m }.

(** What a service asks for is there: its one load balancer, the keys of its
    pools and of their parts, the settings as far as a request can carry them,
    and the desired Floating IPs; other Floating IPs may be assigned to it as
    well, since the program never takes one away. *)
Record in_place (x : api) (l : LoadBalancer.t) : Prop := {
  placed_owner : owner info x l;
  placed_name : LoadBalancer.Name l = LoadBalancer.Name dlb;
  placed_immutable : immutable_ok dlb l;
  placed_pools k :
    k ∈ poolKey <$> pools desired ↔ k ∈ pool_key <$> pools_of x (LoadBalancer.UUID l);
  placed_each d : d ∈ pools desired → ∃ p, pool_in_place x (LoadBalancer.UUID l) d p;
  placed_ips : floatingIPs desired ⊆ assigned_ips (LoadBalancer.UUID l) (api_ips x) }.
End goal.

(** ** Reading the state of a service *)

Section reads.
Context {W : Type} `{!Client W} `{!ApiLaws W} `{GoExt} `{SDK}.
Variables (info : serviceInfo).
Implicit Types (w : W) (x : api) (l : LoadBalancer.t).

Lemma filter_owner x l : owner info x l → ∃ ls, filter (belongs info) (api_lbs x) = l :: ls.
Proof.
  intros Ho. assert (l ∈ filter (belongs info) (api_lbs x)) as Hl.
  { apply list_elem_of_filter. destruct (owner_elem _ _ _ Ho). done. }
  destruct (filter _ _) as [|k ls] eqn:Hf; [by apply not_elem_of_nil in Hl|].
  exists ls. assert (k = l) as ->; [|done]. apply Ho.
  assert (k ∈ filter (belongs info) (api_lbs x)) as [? ?]%list_elem_of_filter
    by (rewrite Hf; by left). done.
Qed.

Lemma filter_no_owner x : no_owner info x → filter (belongs info) (api_lbs x) = [].
Proof. intros Hno. apply filter_nil_iff. exact Hno. Qed.

(** How long the load balancer of the service may still be changing. *)
Definition owner_busy (w : W) (x : api) : nat :=
  match filter (belongs info) (api_lbs x) with
  | [] => 0
  | l :: _ => busy w (LoadBalancer.UUID l)
  end.

Lemma owner_busy_owner w x l : owner info x l → owner_busy w x = busy w (LoadBalancer.UUID l).
Proof. intros [ls Hf]%filter_owner. unfold owner_busy. by rewrite Hf. Qed.

Lemma owner_busy_none w x : no_owner info x → owner_busy w x = 0%nat.
Proof. intros Hno. unfold owner_busy. by rewrite (filter_no_owner x Hno). Qed.

Lemma owner_busy_pred w w' x :
  (∀ l, l ∈ api_lbs x → (busy w' (LoadBalancer.UUID l) ≤ pred (busy w (LoadBalancer.UUID l)))%nat) →
  (owner_busy w' x ≤ pred (owner_busy w x))%nat.
Proof.
  intros Hb. unfold owner_busy. destruct (filter _ _) as [|l ls] eqn:Hf; [lia|]. apply Hb.
  assert (l ∈ filter (belongs info) (api_lbs x)) as [_ ?]%list_elem_of_filter by (rewrite Hf; by left). done.
Qed.

Lemma owner_busy_patience w x : good w x → (owner_busy w x ≤ patience)%nat.
Proof. intros Hg. unfold owner_busy. destruct (filter _ _); [lia|]. by eapply good_busy. Qed.

(** A round that waits keeps the account, and its end is nearer. *)
Definition waits w x w' x' : Prop := steady good busy w x w' ∧ x' = x ∧ (0 < owner_busy w x)%nat.

(** What a round reads. *)
Lemma reconcile_reads `{MapOrder} (desired : lbState) desiredState w x :
  looked_up known_names known_uuids info →
  good w x → (∃ w', desiredState w = (Ok desired, w') ∧ steady good busy w x w') →
  ∃ r w2, steady good busy w x w2 ∧
    (∀ actual next b w', r = Ok actual → nextLbActions (Some desired) (Some actual) = Ok next →
       runActions next w2 = (Ok b, w') →
       reconcileRound _ desiredState (actualLbState info) w = (Ok b, w')) ∧
    match r with
    | Ok s => s = zeroLbState ∧ no_owner info x ∨
        ∃ l0 l, owner info x l0 ∧ sighted busy w l0 l ∧ reports_lb x l s
    | Err _ => ∃ l1 l2, l1 ≠ l2 ∧ l1 ∈ api_lbs x ∧ belongs info l1 ∧ l2 ∈ api_lbs x ∧ belongs info l2
    | Panic _ => False
    end.
Proof.
  intros Hk Hg (w1 & Hd & Hs1). pose proof (proj1 Hs1) as Hg1.
  destruct (actualLbState_answers _ _ _ _ _ (good_answers w1 x Hg1) info w1)
    as (r & w2 & Ha & Hs2 & Hr); [by apply steady_refl|done|].
  exists r, w2. split; [by eapply steady_trans|]. split.
  - intros actual next b w' -> Hn Hrun. apply reconcileRound_Ok. by exists desired, w1, actual, w2, next.
  - destruct r as [s|e|msg]; [|done|done]. destruct Hr as [?|(l0 & l & Ho & Hsi & Hr)]; [by left|].
    right. exists l0, l. split; [exact Ho|]. split; [|done].
    eapply sighted_before; [|done|done]. by apply owner_elem in Ho as [? _].
Qed.
End reads.

(** ** What can be reached *)

Section converge.
Context {W : Type} `{!Client W} `{!ApiLaws W} `{GoExt} `{SDK}.
Variables (info : serviceInfo) (desired : lbState) (dlb : LoadBalancer.t).
Variables (algorithms protocols : list string).

(** A desired state the API can realise as it is. *)
Record realisable : Prop := {
  real_lb : lb desired = Some dlb;
  real_name : LoadBalancer.Name dlb = annotation info LoadBalancerName;
  real_known : looked_up known_names known_uuids info;
  real_ips ip : ip ∈ floatingIPs desired → known_ips (ip_of_cidr ip);
  real_pools : names_distinct desired;
  real_keys : keys_distinct desired;
  real_parts : desired_ready desired;
  real_hosts : hosts_apart desired;
  real_algorithms : suffix_free algorithms;
  real_protocols : suffix_free protocols;
  real_vocabulary : Forall (pool_vocabulary algorithms protocols) (pools desired) }.

Definition vocabulary (p : Pool.t) : Prop :=
  Pool.Algorithm p ∈ algorithms ∧ Pool.Protocol p ∈ protocols.

(** The account has no load balancer for the service, or one that only differs
    in what can be changed, and knows the desired Floating IPs. *)
Definition reachable (x : api) : Prop :=
  ips_known desired x ∧
  (no_owner info x ∨ ∃ l, owner info x l ∧ immutable_ok dlb l ∧
     ∀ p, p ∈ pools_of x (LoadBalancer.UUID l) → vocabulary p).

(** The work left in an account. *)
Definition remaining (x : api) : nat :=
  match filter (belongs info) (api_lbs x) with
  | [] => S (length (pools desired) + desired_size desired)
  | l :: _ => work desired x (LoadBalancer.UUID l)
  end.

Lemma remaining_owner x l : owner info x l → remaining x = work desired x (LoadBalancer.UUID l).
Proof. intros [ls Hf]%(filter_owner info). unfold remaining. by rewrite Hf. Qed.

Lemma remaining_none x :
  no_owner info x → remaining x = S (length (pools desired) + desired_size desired).
Proof. intros Hno. unfold remaining. by rewrite (filter_no_owner info x Hno). Qed.

(** A load balancer without pools is at most as much work as the desired
    state is large. *)
Lemma work_empty x u :
  pools_of x u = [] → (work desired x u ≤ length (pools desired) + desired_size desired)%nat.
Proof.
  intros Hps. unfold work. case_decide.
  - enough (part_work desired x u = 0%nat) by lia.
    apply total_0. intros d _. unfold part_distance, target. by rewrite Hps.
  - unfold pool_work, pool_distance, part_count. rewrite Hps. change (total _ []) with 0%nat.
    pose proof (mismatch_le (poolKey <$> pools desired) []) as Hle.
    rewrite length_fmap in Hle. simpl in *. lia.
Qed.

(** ** Running the pieces of a plan *)

Lemma proceeds_app (pre next : list Action) (w w1 w' : W) :
  proceeds pre w w1 → proceeds next w1 w' → proceeds (pre ++ next) w w'.
Proof. induction 1; [done|]. intros Hn. simpl. econstructor; eauto. Qed.

Lemma proceeds_done next (w w' : W) : proceeds next w w' → runActions next w = (Ok false, w').
Proof. intros Hp. rewrite <- (app_nil_r next), (proceeds_runActions _ _ _ _ Hp). done. Qed.

Lemma proceeds_refetch next (w w' : W) x' :
  proceeds next w w' → good w' x' → ∃ w1, runActions (next ++ [Refetch]) w = (Ok true, w1) ∧ good w1 x'.
Proof.
  intros Hp Hg. rewrite (proceeds_runActions _ _ _ _ Hp). simpl.
  destruct (good_ctx w' x' Hg) as (w1 & -> & Hg1 & _). by exists w1.
Qed.

Hypothesis real : realisable.

Lemma name_known : known_names (LoadBalancer.Name dlb).
Proof. rewrite (real_name real). apply (real_known real). Qed.

(** The load balancer of the service, as a read of the account showed it. *)
Definition shown_owner (x : api) (l : LoadBalancer.t) : Prop :=
  ∃ l0, owner info x l0 ∧ same_lb l0 l.

Lemma shown_uuid x l0 l : owner info x l0 → same_lb l0 l → LoadBalancer.UUID l = LoadBalancer.UUID l0.
Proof. intros _ [Hs _]. by apply same_lb_uuid. Qed.

Lemma remaining_shown x l : shown_owner x l → remaining x = work desired x (LoadBalancer.UUID l).
Proof. intros (l0 & Ho & Hs). rewrite (shown_uuid x l0 l Ho Hs). by apply remaining_owner. Qed.

(** A load balancer is created. *)
Lemma run_create w x :
  good w x → ips_known desired x → no_owner info x →
  ∃ w' x', runActions [CreateLb dlb; Refetch] w = (Ok true, w') ∧ good w' x' ∧
    reachable x' ∧ (remaining x' < remaining x)%nat.
Proof.
  intros Hg Hips Hno. destruct (good_ctx w x Hg) as (w0 & Hctx & Hg0 & _).
  edestruct (λ vips, law_create_lb w0 x (LoadBalancerRequest.Mk (LoadBalancer.Name dlb)
    (LoadBalancer.Flavor dlb) vips (LoadBalancer.Zone dlb)) Hg0 name_known)
    as (l & w' & x' & Hr & Hg' & Hc).
  destruct (proceeds_refetch [CreateLb dlb] w w' x') as (w1 & Hrun & Hg1); [|done|].
  { econstructor; [exact Hctx| |constructor]. by eapply proceed_Ok. }
  exists w1, x'. split; [done|]. split; [done|]. destruct Hc as [Hn Hf Hz Hv (ls & Hls & Hsame) Hem _ Hps Hpa Hi]. simpl in Hn, Hf, Hz.
  assert (owner info x' l) as Ho.
  { intros k. rewrite Hls, elem_of_cons. split.
    - intros [[?|[i Hi']%list_elem_of_lookup] Hb]; [done|].
      destruct (Forall2_lookup_r _ _ _ _ _ Hsame Hi') as (a & Ha & Hak).
      destruct (Hno a); [by eapply list_elem_of_lookup_2|]. by apply (same_lb_belongs _ _ _ Hak).
    - intros ->. split; [by left|]. right. rewrite Hn. apply (real_name real). }
  assert (pools_of x' (LoadBalancer.UUID l) = []) as Hnil.
  { apply filter_nil_iff. intros p Hp. by apply Hem. }
  split.
  - split; [by intros ip Hip; rewrite Hi; apply Hips|]. right. exists l. split; [done|]. split.
    + split; [|done..]. destruct (decide (LoadBalancer.VIPAddresses dlb = [])) as [|Hne]; [by left|].
      right. specialize (Hv _ eq_refl).
      assert (Forall2 vip_granted
        ((λ a, VIPAddressRequest.Mk (VIPAddress.Address a) (SubnetStub.UUID (VIPAddress.Subnet a)))
           <$> LoadBalancer.VIPAddresses dlb) (LoadBalancer.VIPAddresses l)) as Hvs.
      { apply Hv. by destruct (LoadBalancer.VIPAddresses dlb). }
      rewrite Forall2_fmap_l in Hvs. exact Hvs.
    + rewrite Hnil. by intros p ?%not_elem_of_nil.
  - rewrite (remaining_owner x' l Ho), (remaining_none x Hno).
    pose proof (work_empty x' _ Hnil). lia.
Qed.

(** The first actions of a plan: the load balancer is ready, and is renamed. *)
Lemma run_start w x l :
  good w x → shown_owner x l → LoadBalancer.Status l ≠ "changing" →
  ∃ w1 x1 l1, proceeds (AwaitLb l :: renameActions dlb l) w w1 ∧ good w1 x1 ∧
    same_structure x x1 ∧ owner info x1 l1 ∧ same_lb_as l l1 ∧
    LoadBalancer.Name l1 = LoadBalancer.Name dlb.
Proof.
  intros Hg (l0 & Ho & Hs0 & Hn0) Hst. destruct (owner_elem _ _ _ Ho) as [Hl Hb].
  destruct (good_ctx w x Hg) as (w0 & Hctx & Hg0 & _).
  assert (∀ next w1, proceeds next w0 w1 → proceeds (AwaitLb l :: next) w w1) as Hawait.
  { intros next w1 Hp. econstructor; [exact Hctx| |exact Hp]. simpl. unfold run_AwaitLb.
    by rewrite decide_False. }
  unfold renameActions. rewrite Hn0, (same_lb_uuid _ _ Hs0). case_decide as Hname.
  2: { exists w0, x, l0. split_and!; [apply Hawait; constructor|done..| |congruence].
    by destruct Hs0. }
  edestruct (does_next (RenameLb (LoadBalancer.UUID l0) (LoadBalancer.Name dlb)) [] w0 x
    (renamed_lb (LoadBalancer.UUID l0) (LoadBalancer.Name dlb) x) Hg0) as (w1 & x1 & Hg1 & Hren & Hnext).
  { intros w2 Hg2. destruct (law_rename_lb w2 x l0 (LoadBalancer.Name dlb) Hg2 Hl name_known)
      as (w3 & x3 & Hr & Hg3 & Hren). exists w3, x3. split; [by eapply proceed_Ok|done]. }
  pose proof Hren as [Hlbs Hps Hpa Hi].
  edestruct (owner_later info _ x x1 l0 (lb_uuids _ (good_ok _ _ Hg1)) Hlbs) as (l1 & Ho1 & Hs1 & Hn1).
  - intros a b [Hab Hn]. pose proof (same_lb_uuid _ _ Hab) as Hu. split; [done|]. intros Ha.
    unfold belongs. rewrite Hu. case_decide as Heq; [|by rewrite Hn].
    assert (a = l0) as ->.
    { apply (NoDup_key_inj LoadBalancer.UUID (api_lbs x)); [|done..].
      by apply lb_uuids, good_ok with w. }
    split; [|intros _; exact Hb]. intros _. right. rewrite Hn. apply (real_name real).
  - done.
  - exists w1, x1, l1. rewrite decide_True in Hn1 by done. split_and!; [|done..| |done].
    + apply Hawait, Hnext. constructor.
    + destruct Hs0, Hs1. split; congruence.
Qed.

(** What the tasks of a plan leave behind. *)
Lemma reachable_after w1 x1 ts x' l :
  good w1 x' → ips_known desired x1 → owner info x1 l → immutable_ok dlb l →
  (∀ p, p ∈ pools_of x1 (LoadBalancer.UUID l) → vocabulary p) →
  effects (LoadBalancer.UUID l) ts x1 x' →
  (∀ d, TNewPool d ∈ ts → vocabulary d) →
  reachable x' ∧ remaining x' = work desired x' (LoadBalancer.UUID l).
Proof.
  intros Hg Hips Ho Him Hvo He Hts. destruct (effects_lbs _ _ _ _ He) as [Hlbs Hi].
  destruct (owner_same_lbs info x1 x' l) as (l' & Ho' & [Hs' _]);
    [by apply lb_uuids, good_ok with w1|done|done|].
  pose proof (same_lb_uuid _ _ Hs') as Hu. split.
  - split; [by intros ip Hip; rewrite Hi; apply Hips|]. right. exists l'. split; [done|].
    split; [by eapply immutable_same|]. intros p Hp. rewrite Hu in Hp.
    destruct (effects_pools _ _ _ _ _ He Hp) as [?|(d & Hd & Ha & Hpr)]; [auto|].
    unfold vocabulary. rewrite Ha, Hpr. by apply Hts.
  - by rewrite (remaining_owner x' l' Ho'), Hu.
Qed.

(** ** One round *)

Lemma target_structure x x1 u name : same_structure x x1 → target x1 u name = target x u name.
Proof. intros Hs. by apply target_kept, structure_pools. Qed.

(** A plan made of tasks, run after the load balancer is ready and renamed. *)
Lemma run_structural w x l ts :
  good w x → ips_known desired x → shown_owner x l → immutable_ok dlb l →
  (∀ p, p ∈ pools_of x (LoadBalancer.UUID l) → vocabulary p) →
  LoadBalancer.Status l ≠ "changing" →
  Forall (enabled (LoadBalancer.UUID l) x) ts → clash_free ts → Forall task_ready ts →
  (∀ d, TNewPool d ∈ ts → vocabulary d) →
  (∀ x1 x', same_structure x x1 → effects (LoadBalancer.UUID l) ts x1 x' →
     (work desired x' (LoadBalancer.UUID l) < work desired x1 (LoadBalancer.UUID l))%nat) →
  ∃ w' x', runActions ((AwaitLb l :: renameActions dlb l) ++
      (task_action (LoadBalancer.UUID l) <$> ts) ++ [Refetch]) w = (Ok true, w') ∧
    good w' x' ∧ reachable x' ∧ (remaining x' < remaining x)%nat.
Proof.
  intros Hg Hips Ho Him Hvo Hst Hen Hcl Hre Hnew Hless.
  destruct (run_start w x l Hg Ho Hst) as (w1 & x1 & l1 & Hp & Hg1 & Hs & Ho1 & Hsl & _).
  pose proof (same_lb_uuid _ _ Hsl) as Hu.
  destruct (run_tasks (LoadBalancer.UUID l) ts w1 x1 l1) as (w' & x' & Hp' & Hg' & He);
    [done|by apply owner_elem in Ho1 as [? _]|done| |done..|].
  { eapply Forall_impl; [exact Hen|]. intros t. by apply same_structure_enabled. }
  edestruct (proceeds_refetch ((AwaitLb l :: renameActions dlb l) ++
      (task_action (LoadBalancer.UUID l) <$> ts)) w w' x') as (w2 & Hrun & Hg2);
    [by eapply proceeds_app|done|]. rewrite <- app_assoc in Hrun.
  exists w2, x'. split; [done|]. split; [done|]. destruct (reachable_after w' x1 ts x' l1) as [Hrx Hrm];
    [done| |done|by eapply immutable_same| |by rewrite Hu|done|].
  - intros ip Hip. rewrite (structure_ips _ _ Hs). by apply Hips.
  - rewrite Hu, (pools_of_kept _ x x1); [done|apply Hs].
  - split; [done|]. rewrite Hrm, Hu, (remaining_shown x l Ho).
    rewrite <- (proj1 (same_structure_work desired (LoadBalancer.UUID l) x x1 Hs)). by apply Hless.
Qed.

Context `{MapOrder}.

Lemma distance_0 x l actual s :
  reports_lb x l actual →
  Diff s (pools desired) (pools actual) poolKey = ([], []) ↔
  pool_distance desired x (LoadBalancer.UUID l) = 0%nat.
Proof.
  intros Hr. rewrite Diff_nil_iff. unfold pool_distance, same_keys.
  by rewrite mismatch_0, (pool_keys_reported x l actual Hr).
Qed.

Lemma run_pools w x l actual del cre :
  good w x → ips_known desired x → shown_owner x l → immutable_ok dlb l →
  (∀ p, p ∈ pools_of x (LoadBalancer.UUID l) → vocabulary p) →
  LoadBalancer.Status l ≠ "changing" → reports_lb x l actual →
  Diff [4%nat] (pools desired) (pools actual) poolKey = (del, cre) → (del, cre) ≠ ([], []) →
  ∃ w' x', runActions ((AwaitLb l :: renameActions dlb l) ++
      poolActions actual l del cre ++ [Refetch]) w = (Ok true, w') ∧
    good w' x' ∧ reachable x' ∧ (remaining x' < remaining x)%nat.
Proof.
  intros Hg Hips Ho Him Hvo Hst Hr Hdiff Hne.
  pose proof (pool_tasks_clash_free desired actual x l [4%nat] (good_ok w x Hg) Hr) as Hcl.
  pose proof (pool_tasks_worth desired actual x l [4%nat] Hr) as Hw.
  rewrite Hdiff in Hcl, Hw. rewrite <- pool_tasks_actions. rewrite Forall_forall in Hw.
  apply run_structural; try done.
  - apply Forall_forall. intros t Ht. by apply Hw.
  - apply Forall_forall. intros t Ht. by apply Hw.
  - intros d Ht. destruct (Hw _ Ht) as (_ & Hd & _). simpl in Hd.
    apply list_elem_of_fmap in Hd as (e & Hk & He).
    unfold pool_tasks in Ht. apply elem_of_app in Ht as [(p & _ & Hp%drop_pool_drops)%elem_of_flat_map
      |(c & [= ->] & Hc)%list_elem_of_fmap]; [done|].
    pose proof (Diff_spec [4%nat] (pools desired) (pools actual) poolKey) as [Hcs _ _ _].
    rewrite Hdiff in Hcs. apply Hcs in Hc as [Hc _]. apply last_with_Some in Hc as [_ Hc].
    pose proof (real_vocabulary real) as Hv. rewrite Forall_forall in Hv. by apply Hv.
  - intros x1 x' Hs He. apply (pool_tasks_less desired _ (pool_tasks actual del cre)).
    + apply (real_pools real).
    + done.
    + apply Forall_forall. intros t Ht. by apply Hw.
    + by apply pool_tasks_cost.
    + rewrite (proj2 (same_structure_work desired _ x x1 Hs)).
      rewrite <- (distance_0 x l actual [4%nat] Hr), Hdiff. done.
Qed.

Lemma run_parts w x l actual changes :
  good w x → ips_known desired x → shown_owner x l → immutable_ok dlb l →
  (∀ p, p ∈ pools_of x (LoadBalancer.UUID l) → vocabulary p) →
  LoadBalancer.Status l ≠ "changing" → reports_lb x l actual →
  Diff [4%nat] (pools desired) (pools actual) poolKey = ([], []) →
  syncPools desired actual 0 (pools desired) = Ok changes → changes ≠ [] →
  ∃ w' x', runActions ((AwaitLb l :: renameActions dlb l) ++ changes ++ [Refetch]) w = (Ok true, w') ∧
    good w' x' ∧ reachable x' ∧ (remaining x' < remaining x)%nat.
Proof.
  intros Hg Hips Ho Him Hvo Hst Hr Hdiff Hs Hne.
  destruct (syncPools_structural _ _ _ _ _ Hs Hne) as (b & Hb & Hbs).
  destruct (syncPools_tasks desired actual x l 0 (pools desired) changes)
    as (ts & -> & Hcl & Hw & _); [done|apply (real_parts real)|apply (real_pools real)|done|done|].
  rewrite Forall_forall in Hw. apply run_structural; try done.
  - apply Forall_forall. intros t Ht. by apply Hw.
  - apply Forall_forall. intros t Ht. by apply Hw.
  - intros d Ht. by destruct (Hw _ Ht) as (_ & Hd & _).
  - intros x1 x' Hst' He. apply (part_tasks_less desired _ ts).
    + apply (real_pools real).
    + done.
    + apply Forall_forall. intros t Ht. destruct (Hw t Ht) as (_ & Hpt & _).
      destruct t; simpl in *; try done; destruct Hpt as (d & Hd & Hp & Hk);
        exists d; by rewrite (target_structure x x1).
    + eapply structural_cost. eauto.
    + rewrite (proj2 (same_structure_work desired _ x x1 Hst')).
      by apply (distance_0 x l actual [4%nat] Hr).
Qed.

(** When the parts match kind by kind, the keys of all parts do. *)
Lemma parts_keys x l actual d a :
  reports_lb x l actual → poolsByName actual !! Pool.Name (pool d) = Some a →
  pool_parts_match desired actual d a →
  ∀ k, k ∈ part_key <$> desired_parts desired d ↔ k ∈ part_key <$> parts x (pool a).
Proof.
  intros Hr Ha [Hm Hl Ho] k. rewrite (reported_slices _ _ _ _ _ Hr Ha). unfold desired_parts.
  assert (∀ ms ls os, k ∈ part_key <$> (PMember <$> ms) ++ (PListener <$> ls) ++ (PMonitor <$> os) ↔
    (k.1 = 0%nat ∧ k.2 ∈ poolMemberKey <$> ms) ∨ (k.1 = 1%nat ∧ k.2 ∈ listenerKey <$> ls) ∨
    (k.1 = 2%nat ∧ k.2 ∈ monitorKey <$> os)) as Hk.
  { intros ms ls os. rewrite !fmap_app, !elem_of_app, <- !list_fmap_compose, !list_elem_of_fmap.
    destruct k as [n k]. simpl. split.
    - intros [(z & [= -> ->] & Hz)|[(z & [= -> ->] & Hz)|(z & [= -> ->] & Hz)]]; naive_solver.
    - intros [[-> (z & -> & Hz)]|[[-> (z & -> & Hz)]|[-> (z & -> & Hz)]]]; naive_solver. }
  rewrite !Hk, (Hm k.2), (Hl k.2), (Ho k.2). done.
Qed.

(** A pool whose settings are settled is in place. *)
Lemma settled_pool x x' l actual d a :
  reports_lb x l actual → settling desired actual x l [] x' →
  d ∈ pools desired → poolsByName actual !! Pool.Name (pool d) = Some a →
  pool_parts_match desired actual d a → pool_in_place desired x' (LoadBalancer.UUID l) d (pool a).
Proof.
  intros Hr [Hps Hk Hli Hmo _] Hd Ha Hpa.
  assert (target x (LoadBalancer.UUID l) (Pool.Name (pool d)) = Some (pool a)) as Ht
    by (by rewrite <- (poolsByName_target x l actual), Ha).
  destruct (target_Some _ _ _ _ Ht) as [Hpu%in_pools_of _]. pose proof Hpa as [Hm Hl Hmm].
  split.
  - by rewrite (target_kept x x' _ _ Hps).
  - intros k. rewrite Hk by done. by apply (parts_keys x l actual d a).
  - intros dl Hdl.
    assert (is_Some (last_with listenerKey (slice_at (listeners actual) (Some (ptr a))) (listenerKey dl)))
      as [al Hal] by (apply last_with_is_Some, Hl; by apply list_elem_of_fmap_2).
    destruct (Hli (pool a) dl al) as (k & Hin & _ & Hkk & Hdue); [by econstructor|].
    exists k. split_and!; [done..|]. by eapply listener_placed.
  - intros dm Hdm.
    assert (is_Some (last_with monitorKey (slice_at (monitors actual) (Some (ptr a))) (monitorKey dm)))
      as [am Ham] by (apply last_with_is_Some, Hmm; by apply list_elem_of_fmap_2).
    destruct (Hmo (pool a) dm am) as (k & Hin & _ & Hkk & Hdue); [by econstructor|].
    exists k. split_and!; [done..|]. by eapply monitor_placed.
Qed.

Lemma run_settings w x l actual :
  good w x → ips_known desired x → shown_owner x l → immutable_ok dlb l →
  LoadBalancer.Status l ≠ "changing" → reports_lb x l actual →
  Diff [4%nat] (pools desired) (pools actual) poolKey = ([], []) →
  syncPools desired actual 0 (pools desired) = Ok [] →
  ∃ w' x' l', runActions ((AwaitLb l :: renameActions dlb l) ++
      flat_map (updatePool desired actual) (pools desired) ++ assignActions desired actual l) w =
      (Ok false, w') ∧
    good w' x' ∧ in_place info desired dlb x' l'.
Proof.
  intros Hg Hips Ho Him Hst Hr Hdiff Hs. pose proof (good_ok w x Hg) as Hok.
  pose proof (real_pools real) as Hnames. pose proof (real_keys real) as Hkeys.
  destruct (run_start w x l Hg Ho Hst) as (w1 & x1 & l1 & Hp & Hg1 & Hstr & Ho1 & Hsl & Hname).
  pose proof (same_lb_uuid _ _ Hsl) as Hu.
  set (acts := flat_map (updatePool desired actual) (pools desired) ++ assignActions desired actual l).
  assert (∀ d, d ∈ pools desired → ∃ a, poolsByName actual !! Pool.Name (pool d) = Some a ∧
    pool_parts_match desired actual d a) as Hpm by (intros d Hd; by apply (proj1 (syncPools_nil _ _ _ _) Hs)).
  destruct (settle_run desired actual x l Hok Hr Hnames Hkeys (real_ips real) acts w1 x1)
    as (w' & x' & Hp' & Hg' & Hset & Hlbs).
  - done.
  - destruct Hstr. eapply settling_start; try done.
    + apply (real_hosts real).
    + intros a Ha. by apply setting_work_complete.
  - apply Forall_forall. intros a Ha. apply setting_work_sound; [|done].
    intros d Hd. destruct (Hpm d Hd) as (b & Hb & _). by eexists.
  - rewrite <- Hu. apply list_elem_of_fmap_2. by apply owner_elem in Ho1 as [? _].
  - destruct (owner_same_lbs info x1 x' l1) as (l' & Ho' & [Hsl' Hn']);
      [by apply lb_uuids, good_ok with w'|done|done|].
    assert (LoadBalancer.UUID l' = LoadBalancer.UUID l) as Hu'
      by (rewrite (same_lb_uuid _ _ Hsl'); done).
    exists w', x', l'. split; [apply proceeds_done; by eapply proceeds_app|]. split; [done|].
    pose proof Hset as [Hps _ _ _ Hip].
    split; [done|congruence|by eapply immutable_same, immutable_same|..].
    + intros k. rewrite Hu', (pools_of_kept _ x x' Hps), <- (pool_keys_reported x l actual Hr).
      by apply (Diff_nil_iff [4%nat]).
    + intros d Hd. destruct (Hpm d Hd) as (a & Ha & Hpa). exists (pool a). rewrite Hu'.
      by apply (settled_pool x x' l actual).
    + intros ip Hin. destruct (Hip ip Hin) as [_ [Has|Has]]; [by rewrite Hu'|].
      by apply not_elem_of_nil in Has.
Qed.

(** A round that does not wait makes progress, or it is the last one. *)
Lemma run_plan w x k actual next :
  good w x → ips_known desired x → shown_owner x k → immutable_ok dlb k →
  (∀ p, p ∈ pools_of x (LoadBalancer.UUID k) → vocabulary p) →
  LoadBalancer.Status k ≠ "changing" → reports_lb x k actual →
  nextLbActions (Some desired) (Some actual) = Ok next →
  ∃ b w' x', runActions next w = (Ok b, w') ∧ good w' x' ∧
    if b : bool then reachable x' ∧ (remaining x' < remaining x)%nat else ∃ l, in_place info desired dlb x' l.
Proof.
  intros Hg Hips Hk Hik Hvk Hst Hr Hn.
  destruct (nextLbActions_cases _ _ _ _ _ (real_lb real) (the_lb _ _ _ Hr) Hn) as (del & cre & Hdiff & Hplan).
  simpl in Hplan. destruct Hplan as [[Hne ->]|[Hnil (changes & Hs & [[Hne ->]|[-> ->]])]].
  - destruct (run_pools w x k actual del cre) as (w' & x' & Hrun & Hg' & Hre & Hlt); [done..|]. by exists true, w', x'.
  - rewrite Hnil in Hdiff.
    destruct (run_parts w x k actual changes) as (w' & x' & Hrun & Hg' & Hre & Hlt); [done..|]. by exists true, w', x'.
  - rewrite Hnil in Hdiff.
    destruct (run_settings w x k actual) as (w' & x' & k' & Hrun & Hg' & Hin); [done..|]. exists false, w', x'. eauto.
Qed.

Lemma reconcile_round desiredState w x :
  good w x → reachable x → (∃ w', desiredState w = (Ok desired, w') ∧ steady good busy w x w') →
  ∃ b w' x', reconcileRound _ desiredState (actualLbState info) w = (Ok b, w') ∧ good w' x' ∧
    if b : bool then reachable x' ∧ ((remaining x' < remaining x)%nat ∨ waits info w x w' x')
    else ∃ l, in_place info desired dlb x' l.
Proof.
  intros Hg [Hips Hcase] Hd.
  destruct (reconcile_reads info desired desiredState w x (real_known real) Hg Hd) as (r & w2 & Hs2 & Hround & Hr).
  pose proof (proj1 Hs2) as Hg2.
  destruct Hcase as [Hno|(l & Ho & Him & Hvo)].
  - destruct r as [s|e|msg]; [|destruct Hr as (l1 & _ & _ & Hl & Hb & _); by destruct (Hno l1)|done].
    destruct Hr as [[-> _]|(l & _ & Ho & _)]; [|destruct (owner_elem _ _ _ Ho); by destruct (Hno l)].
    destruct (run_create w2 x Hg2 Hips Hno) as (w' & x' & Hrun & Hg' & Hre & Hlt).
    exists true, w', x'. split; [|auto]. eapply Hround; [done| |done].
    unfold nextLbActions. by rewrite (real_lb real).
  - destruct r as [actual|e|msg]; [| |done].
    2: { destruct Hr as (l1 & l2 & Hne & H1l & H1b & H2l & H2b). destruct Hne.
      transitivity l; [by apply Ho|symmetry; by apply Ho]. }
    destruct (owner_elem _ _ _ Ho) as [Hl Hb].
    destruct Hr as [[_ Hno]|(l0 & k & Ho' & [Hsame Hbusy] & Hr)]; [by destruct (Hno l)|].
    assert (l0 = l) as -> by (apply Ho; by apply Ho').
    assert (shown_owner x k) as Hk by (by exists l).
    pose proof (shown_uuid x l k Ho Hsame) as Hu.
    assert (immutable_ok dlb k) as Hik by (by eapply immutable_same; [apply Hsame|]).
    assert (∀ p, p ∈ pools_of x (LoadBalancer.UUID k) → vocabulary p) as Hvk by (by rewrite Hu).
    pose proof (real_lb real) as Hdl. pose proof (the_lb _ _ _ Hr) as Hal.
    assert (is_Ok (nextLbActions (Some desired) (Some actual))) as [next Hn].
    { apply (plan_exists algorithms protocols desired actual dlb k); try apply real; [|done|done].
      apply Forall_forall. intros p Hp. apply (Hvk (pool p)). by eapply pool_ptr_reported. }
    destruct (decide (LoadBalancer.Status k = "changing")) as [Hst|Hst].
    + destruct (good_ctx w2 x Hg2) as (w3 & Hctx & Hs3).
      exists true, w3, x. split; [|split; [apply Hs3|]].
      * eapply Hround; [done|done|]. destruct (plan_starts _ _ _ _ _ Hdl Hal Hn) as [_ [rest ->]].
        simpl. rewrite Hctx. unfold run_AwaitLb. by rewrite decide_True.
      * split; [split; [done|right; by exists l]|]. right. split; [by eapply steady_trans|].
        split; [done|]. rewrite (owner_busy_owner info w x l Ho), <- Hu. by apply Hbusy.
    + destruct (run_plan w2 x k actual next) as (b & w' & x' & Hrun & Hg' & Hb'); [done..|].
      exists b, w', x'. split; [by eapply Hround|]. split; [done|].
      destruct b; [|done]. destruct Hb' as [Hre Hlt]. auto.
Qed.

(** ** Between two rounds *)

Lemma wait_round_good w x :
  good w x → ∃ w' x', wait_round w = (Ok tt, w') ∧ good w' x' ∧ idle x x' ∧
    ∀ l, l ∈ api_lbs x → (busy w' (LoadBalancer.UUID l) ≤ pred (busy w (LoadBalancer.UUID l)))%nat.
Proof.
  intros Hg. destruct (good_rand w x 2500 Hg) as (n & w0 & Hn & [Hg0 Hb0] & Hr); [lia|].
  destruct (pause w0 x (wait_time n) Hg0) as (w' & x' & Hs & Hg' & Hi & _ & Hb).
  exists w', x'. unfold wait_round. rewrite Hn, Hs. split_and!; [done..|]. intros l Hl.
  specialize (Hb ltac:(by apply wait_time_bounds) l Hl). specialize (Hb0 l Hl). lia.
Qed.

Lemma idle_structure x x' : idle x x' → same_structure x x'.
Proof. by intros [_ ? ? ?]. Qed.

Lemma idle_reachable w' x x' :
  good w' x' → idle x x' → reachable x →
  reachable x' ∧ remaining x' = remaining x ∧ ∀ w, owner_busy info w x' = owner_busy info w x.
Proof.
  intros Hg Hi [Hips Hcase]. pose proof (idle_structure _ _ Hi) as Hs.
  pose proof (idle_lbs _ _ Hi) as Hlbs.
  assert (ips_known desired x') as Hips'.
  { intros ip Hip. rewrite (structure_ips _ _ Hs). by apply Hips. }
  destruct Hcase as [Hno|(l & Ho & Him & Hvo)].
  - pose proof (no_owner_same_lbs info x x' Hlbs Hno) as Hno'.
    split; [by split; [|left]|]. split; [by rewrite !remaining_none|].
    intros w. by rewrite !(owner_busy_none info).
  - destruct (owner_same_lbs info x x' l) as (l' & Ho' & [Hsl _]);
      [by apply lb_uuids, good_ok with w'|done|done|].
    pose proof (same_lb_uuid _ _ Hsl) as Hu. split.
    + split; [done|]. right. exists l'. split; [done|]. split; [by eapply immutable_same|].
      rewrite Hu, (pools_of_kept _ x x'); [done|apply Hs].
    + split; [|intros w; by rewrite (owner_busy_owner info w x' l' Ho'), (owner_busy_owner info w x l Ho), Hu].
      rewrite (remaining_owner x' l' Ho'), (remaining_owner x l Ho), Hu.
      by apply same_structure_work.
Qed.
End converge.

(** ** The loop *)

Section loop.
Context {W : Type} `{!Client W} `{!ApiLaws W} `{GoExt} `{SDK}.
Implicit Types (info : serviceInfo) (desired : lbState) (orders : nat → MapOrder) (w : W) (x : api).

(** The rounds that may still be needed: each either brings the work down or
    finds the load balancer changing and waits. *)
Definition rounds_left info desired w x : nat :=
  (remaining info desired x * S patience + owner_busy info w x)%nat.

Lemma reconcile_loop info desired dlb algorithms protocols desiredState orders w x fuel :
  realisable info desired dlb algorithms protocols →
  reachable info desired dlb algorithms protocols x → good w x →
  (∀ w x, good w x → ∃ w', desiredState w = (Ok desired, w') ∧ steady good busy w x w') →
  (rounds_left info desired w x < fuel)%nat →
  ∃ w' x' l, reconcileLbState fuel orders desiredState (actualLbState info) w = Some (Ok tt, w') ∧
    good w' x' ∧ in_place info desired dlb x' l.
Proof.
  intros Hreal Hre Hg Hd. revert orders w x Hre Hg.
  induction fuel as [|fuel IH]; intros orders w x Hre Hg Hf; [lia|]. rewrite reconcile_unfold.
  destruct (@reconcile_round W _ _ _ _ info desired dlb algorithms protocols Hreal (orders 0%nat)
    desiredState w x Hg Hre (Hd w x Hg)) as (b & w1 & x1 & Hr & Hg1 & Hb). rewrite Hr.
  destruct b; [|destruct Hb as [l Hl]; by exists w1, x1, l]. destruct Hb as [Hre1 Hcase].
  destruct (wait_round_good w1 x1 Hg1) as (w2 & x2 & Hw & Hg2 & Hi & Hbusy). rewrite Hw.
  destruct (idle_reachable info desired dlb algorithms protocols w2 x1 x2 Hg2 Hi Hre1)
    as (Hre2 & Hrem & Hob).
  apply (IH (λ i, orders (S i)) w2 x2 Hre2 Hg2). unfold rounds_left in *. rewrite Hrem.
  pose proof (owner_busy_patience info w2 x2 Hg2). rewrite Hob in *.
  destruct Hcase as [Hlt|([_ Hle] & -> & Hpos)]; [nia|].
  enough (owner_busy info w2 x ≤ pred (owner_busy info w x))%nat by lia.
  apply owner_busy_pred. intros l Hl. specialize (Hbusy l Hl). specialize (Hle l Hl). lia.
Qed.

Lemma remaining_bound info desired x :
  names_distinct desired →
  (remaining info desired x ≤ S (length (pools desired) + desired_size desired +
     length (api_pools x) + total (λ p, length (parts x p)) (api_pools x)))%nat.
Proof.
  intros Hnd. unfold remaining. destruct (filter _ _) as [|l ls]; [lia|].
  set (u := LoadBalancer.UUID l).
  pose proof (filter_length_le (λ p, Pool.LoadBalancer p = u) (api_pools x)) as Hlen.
  pose proof (total_filter (λ p, length (parts x p)) (λ p, Pool.LoadBalancer p = u) (api_pools x)) as Htot.
  pose proof (part_work_le desired x u Hnd) as Hpw.
  pose proof (mismatch_le (poolKey <$> pools desired) (pool_key <$> pools_of x u)) as Hm.
  rewrite !length_fmap in Hm. unfold work, pool_work, pool_distance, part_count in *.
  change (filter _ (api_pools x)) with (pools_of x u) in Hlen, Htot. case_decide; lia.
Qed.

(** How many rounds are enough. *)
Definition rounds_bound desired x : nat :=
  (S (length (pools desired) + desired_size desired + length (api_pools x) +
      total (λ p, length (parts x p)) (api_pools x)) * S patience + patience)%nat.

Lemma reconcile_converges info desired dlb algorithms protocols desiredState orders w x fuel :
  realisable info desired dlb algorithms protocols →
  reachable info desired dlb algorithms protocols x → good w x →
  (∀ w x, good w x → ∃ w', desiredState w = (Ok desired, w') ∧ steady good busy w x w') →
  (rounds_bound desired x < fuel)%nat →
  ∃ w' x' l, reconcileLbState fuel orders desiredState (actualLbState info) w = Some (Ok tt, w') ∧
    good w' x' ∧ in_place info desired dlb x' l.
Proof.
  intros Hreal Hre Hg Hd Hf. apply (reconcile_loop info desired dlb algorithms protocols
    desiredState orders w x fuel Hreal Hre Hg Hd).
  pose proof (remaining_bound info desired x (real_pools _ _ _ _ _ Hreal)).
  pose proof (owner_busy_patience info w x Hg). unfold rounds_bound in Hf. unfold rounds_left. nia.
Qed.

(** ** Deletion *)


(** The plan without a desired load balancer, run. *)
Lemma delete_round `{MapOrder} info w x :
  looked_up known_names known_uuids info → good w x →
  (no_owner info x ∨ ∃ l, owner info x l) →
  ∃ b w' x', reconcileRound _ (mret zeroLbState) (actualLbState info) w = (Ok b, w') ∧ good w' x' ∧
    if b : bool then waits info w x w' x' else no_owner info x'.
Proof.
  intros Hknown Hg Hcase.
  destruct (reconcile_reads info zeroLbState (mret zeroLbState : M W lbState) w x Hknown Hg) as (r & w2 & Hs2 & Hround & Hr).
  { exists w. split; [done|by apply steady_refl]. }
  pose proof (proj1 Hs2) as Hg2.
  destruct Hcase as [Hno|(l & Ho)].
  - destruct r as [s|e|msg]; [|destruct Hr as (l1 & _ & _ & Hl & Hb & _); by destruct (Hno l1)|done].
    destruct Hr as [[-> _]|(l & _ & Ho & _)]; [|destruct (owner_elem _ _ _ Ho); by destruct (Hno l)].
    exists false, w2, x. split; [by eapply Hround|done].
  - destruct r as [actual|e|msg]; [| |done].
    2: { destruct Hr as (l1 & l2 & Hne & H1l & H1b & H2l & H2b). destruct Hne.
      transitivity l; [by apply Ho|symmetry; by apply Ho]. }
    destruct (owner_elem _ _ _ Ho) as [Hl Hb].
    destruct Hr as [[_ Hno]|(l0 & k & Ho' & [[Hsame Hn] Hbusy] & Hr)]; [by destruct (Hno l)|].
    assert (l0 = l) as -> by (apply Ho; by apply Ho').
    assert (nextLbActions (Some zeroLbState) (Some actual) =
      Ok [AwaitLb k; DeleteResource (LoadBalancer.HREF k)]) as Hplan.
    { unfold nextLbActions. by rewrite (the_lb _ _ _ Hr). }
    destruct (good_ctx w2 x Hg2) as (w3 & Hctx & Hs3).
    destruct (decide (LoadBalancer.Status k = "changing")) as [Hst|Hst].
    + exists true, w3, x. split; [|split; [apply Hs3|]].
      * eapply Hround; [done..|]. simpl. rewrite Hctx. unfold run_AwaitLb. by rewrite decide_True.
      * split; [by eapply steady_trans|]. split; [done|].
        rewrite (owner_busy_owner info w x l Ho), <- (same_lb_uuid _ _ Hsame). by apply Hbusy.
    + edestruct (does_next (DeleteResource (LoadBalancer.HREF k)) [] w3 x (deleted (LoadBalancer.HREF l) x))
        as (w' & x' & Hg' & Hdel & Hnext); [apply Hs3| |].
      { intros w4 Hg4. rewrite (same_href _ _ Hsame). apply (run_delete w4 x (RLb l) Hg4). by constructor. }
      exists false, w', x'. split.
      { eapply Hround; [done..|]. apply proceeds_done. econstructor; [exact Hctx| |apply Hnext; constructor].
        simpl. unfold run_AwaitLb. by rewrite decide_False. }
      split; [done|]. intros a [i Hi]%list_elem_of_lookup Ha.
      destruct (Forall2_lookup_r _ _ _ _ _ (deleted_lbs _ _ _ Hdel) Hi) as (a0 & Hai & Hak).
      apply list_elem_of_lookup_2, list_elem_of_filter in Hai as [Hne Hax].
      apply Hne. f_equal. apply Ho. split; [done|]. by apply (same_lb_belongs _ _ _ Hak).
Qed.

Lemma reconcile_deletes info orders w x fuel :
  looked_up known_names known_uuids info → good w x →
  (no_owner info x ∨ ∃ l, owner info x l) → (patience < fuel)%nat →
  ∃ w' x', reconcileLbState fuel orders (mret zeroLbState) (actualLbState info) w = Some (Ok tt, w') ∧
    good w' x' ∧ no_owner info x'.
Proof.
  intros Hname Hg Hcase Hf. assert (owner_busy info w x < fuel)%nat as Hb
    by (pose proof (owner_busy_patience info w x Hg); lia).
  clear Hf. revert orders w x Hg Hcase Hb.
  induction fuel as [|fuel IH]; intros orders w x Hg Hcase Hf; [lia|]. rewrite reconcile_unfold.
  destruct (@delete_round (orders 0%nat) info w x Hname Hg Hcase) as (b & w1 & x1 & Hr & Hg1 & Hb).
  rewrite Hr. destruct b; [|by exists w1, x1]. destruct Hb as ([_ Hle] & -> & Hpos).
  destruct (wait_round_good w1 x Hg1) as (w2 & x2 & Hw & Hg2 & Hi & Hbusy). rewrite Hw.
  assert (owner_busy info w2 x ≤ pred (owner_busy info w x))%nat as Hob.
  { apply owner_busy_pred. intros l Hl. specialize (Hbusy l Hl). specialize (Hle l Hl). lia. }
  pose proof (idle_lbs _ _ Hi) as Hlbs. destruct Hcase as [Hno|[l Ho]].
  - apply (IH (λ i, orders (S i)) w2 x2 Hg2); [left; by eapply no_owner_same_lbs|].
    rewrite (owner_busy_none info w2 x2); [lia|]. by eapply no_owner_same_lbs.
  - destruct (owner_same_lbs info x x2 l) as (l' & Ho' & Hs');
      [by apply lb_uuids, good_ok with w2|done|done|].
    apply (IH (λ i, orders (S i)) w2 x2 Hg2); [right; by exists l'|].
    rewrite (owner_busy_owner info w2 x2 l' Ho'), (same_lb_uuid _ _ (proj1 Hs')).
    rewrite (owner_busy_owner info w2 x l Ho) in Hob. lia.
Qed.

(** Without a desired load balancer, [reconcileLbState] waits until the one of
    the service is ready, deletes it, and returns without an error; the
    account has no load balancer of the service then. *)
Theorem reconcileLbState_deletes info orders w x fuel :
  looked_up known_names known_uuids info → good w x →
  (no_owner info x ∨ ∃ l, owner info x l) → (patience < fuel)%nat →
  ∃ w' x', reconcileLbState fuel orders (mret zeroLbState) (actualLbState info) w = Some (Ok tt, w') ∧
    good w' x' ∧ no_owner info x'.
Proof. apply reconcile_deletes. Qed.
End loop.
