(* ===== verification/Realisable.v ===== *)
(** * Realisable

    The desired states [desiredLbState] computes are those [Converge] asks
    for: if the annotations stay within what the API knows and the ports of
    the service are distinct, pool names and the keys below each pool are
    distinct, every part is one the API creates as it is, and the HTTP hosts
    are allocated by the program. *)

From stdpp Require Import base tactics list gmap strings.
From Stdlib Require Import ZArith.
From S2P Require Import Prelude.
From S2P Require Import GoStrings.
From S2P Require Import Json.
From S2P Require Import Cloudscale.
From S2P Require Import ServiceInfo.
From S2P Require Import Actions.
From S2P Require Import LbState.
From S2P Require Import NextActions.
From S2P Require Import LbStateSpec.
From S2P Require Import NextActionsPlan.
From S2P Require Import ActualStateSpec.
From S2P Require Import ApiLaws.
From S2P Require Import Descent.
From S2P Require Import Tasks.
From S2P Require Import Progress.
From S2P Require Import PlanTasks.
From S2P Require Import Settings.
From S2P Require Import Converge.

Section realisable.
Context {W : Type} `{!Client W} `{!ApiLaws W} `{GoExt} `{SDK}.
Variables (info : serviceInfo) (servers : list Server.t).
Variables (algorithms protocols : list string).

(** What the service and its servers have to be for that. *)
Record service_ready : Prop := {
  ready_known : looked_up known_names known_uuids info;
  ready_ips cidrs cidr : annotationList info LoadBalancerFloatingIPs = Ok cidrs → cidr ∈ cidrs →
    known_ips (ip_of_cidr cidr);
  ready_ports :
    NoDup ((λ p, (ServicePort.Protocol p, ServicePort.Name p)) <$> Service.Ports (svc info));
  ready_algorithms : suffix_free algorithms;
  ready_protocols : suffix_free protocols;
  ready_algorithm : annotation info LoadBalancerPoolAlgorithm ∈ algorithms;
  ready_protocol : annotation info LoadBalancerPoolProtocol ∈ protocols;
  ready_udp : "udp" ∈ protocols;
  (** The API lists the subnets of the servers as it knows them. *)
  ready_subnets a : private_address servers a →
    ServerAddress.Subnet a = subnets (SubnetStub.UUID (ServerAddress.Subnet a));
  (** HTTP options are only given for HTTP monitors. *)
  ready_monitor : local_policy info ∨ annotation info LoadBalancerHealthMonitorType ∈ http_types ∨
    annotation info LoadBalancerHealthMonitorHTTP = "{}";
  (** Decoding the annotation allocates the host. *)
  ready_hosts h q :
    Unmarshal_pointer MonitorHTTP.zero decode_MonitorHTTP
      (annotation info LoadBalancerHealthMonitorHTTP) = Ok (Some h) →
    MonitorHTTP.Host h = Some q → ¬ answers_at (addr q) }.

(** Each pool of a computed state stands for a port. *)
Lemma pool_of_port nodes s d :
  desiredLbState info nodes servers = Ok s → d ∈ pools s →
  ∃ i port, ptr d = i ∧ pool d = desiredPool info port ∧ port_state info servers s i port.
Proof.
  intros (_ & _ & Hlen & Hports & _)%desiredLbState_wants [i Hi]%list_elem_of_lookup.
  destruct (lookup_lt_is_Some_2 (Service.Ports (svc info)) i) as [port Hport].
  { apply lookup_lt_Some in Hi. lia. }
  pose proof (Hports i port Hport) as Hs. exists i, port.
  pose proof (port_pool _ _ _ _ _ Hs) as Hp. rewrite Hi in Hp. injection Hp as ->. done.
Qed.

Lemma desired_member_ready allowed np mp m :
  service_ready → m ∈ desiredMembers allowed np mp servers → part_ready (PMember m).
Proof.
  intros Hr (a & Ha & _ & ->)%elem_of_desiredMembers. split; [done|]. by apply ready_subnets.
Qed.

Lemma desired_monitor_ready m :
  service_ready → healthMonitorForPort info = Ok m → part_ready (PMonitor m).
Proof.
  intros Hr [Htype Hhttp _ _ _ _ _]%healthMonitorForPort_wanted. simpl. rewrite Htype.
  case_decide as Hlocal; [left; by left|].
  destruct (ready_monitor Hr) as [?|[?|Hnone]]; [done|by left|right].
  unfold httpVersion. by destruct Hhttp as [(_ & _ & ->)|[(_ & ? & _)|(? & _)]].
Qed.

Lemma desired_host_apart m h q :
  service_ready → healthMonitorForPort info = Ok m →
  HealthMonitor.HTTP m = Some h → MonitorHTTP.Host h = Some q → ¬ answers_at (addr q).
Proof.
  intros Hr [_ Hhttp _ _ _ _ _]%healthMonitorForPort_wanted Hh Hq.
  rewrite Hh in Hhttp. destruct Hhttp as [(_ & _ & [=])|[(_ & _ & [= ->])|(_ & h0 & Hu & [= ->])]].
  - done.
  - by apply (ready_hosts Hr h0 q Hu).
Qed.

(** What a port needs, in terms of its pool. *)
Lemma pool_in_vocabulary port :
  service_ready → pool_vocabulary algorithms protocols (MkPoolPtr 0 (desiredPool info port)).
Proof.
  intros Hr. split; simpl; [by apply ready_algorithm|]. case_decide; [by apply ready_protocol|].
  by apply ready_udp.
Qed.

Lemma state_realisable nodes s dlb :
  service_ready → desiredLbState info nodes servers = Ok s → lb s = Some dlb →
  realisable (W := W) info s dlb algorithms protocols.
Proof.
  intros Hr Hs Hdlb. pose proof (pool_of_port nodes s) as Hport.
  destruct (desiredLbState_wants _ _ _ _ Hs) as ((l & Hl & vip & _ & _ & Hname & _) & Hips & _ & _ & Hnd).
  split; [done|..|by apply ready_algorithms|by apply ready_protocols|].
  - congruence.
  - by apply ready_known.
  - intros cidr Hc. by apply (ready_ips Hr (floatingIPs s)).
  - by apply Hnd, ready_ports.
  - intros d Hd. destruct (Hport d Hs Hd) as (i & port & -> & _ & Hst).
    destruct (port_parts _ _ _ _ _ Hst) as (al & mo & li & _ & _ & -> & ->).
    split; apply NoDup_singleton.
  - intros d y Hd Hy. destruct (Hport d Hs Hd) as (i & port & Hi & _ & Hst).
    destruct (port_parts _ _ _ _ _ Hst) as (al & mo & li & (_ & _ & Hmo & _) & Hme & Hmos & Hlis).
    unfold desired_parts in Hy. rewrite Hi, Hme, Hmos, Hlis in Hy.
    apply elem_of_app in Hy as [(m & -> & Hm)%list_elem_of_fmap|Hy].
    + by eapply desired_member_ready.
    + apply elem_of_app in Hy as [Hy|Hy];
        apply list_elem_of_singleton in Hy as ->; [done|by apply desired_monitor_ready].
  - intros d m h q Hd Hm. destruct (Hport d Hs Hd) as (i & port & Hi & _ & Hst).
    destruct (port_parts _ _ _ _ _ Hst) as (al & mo & li & (_ & _ & Hmo & _) & _ & Hmos & _).
    rewrite Hi, Hmos in Hm. apply list_elem_of_singleton in Hm as ->. by apply desired_host_apart.
  - apply Forall_forall. intros d Hd. destruct (Hport d Hs Hd) as (i & port & _ & Hp & _).
    unfold pool_vocabulary. rewrite Hp. by apply pool_in_vocabulary.
Qed.
(** C14. Every desired state that is computed for such a service can be realised:
    it asks for the load balancer the service is looked up by, the names of
    its pools are distinct, each pool has one listener and one monitor, and
    the API creates all of it as it is. *)
Theorem desiredLbState_realisable nodes s dlb :
  service_ready → desiredLbState info nodes servers = Ok s → lb s = Some dlb →
  realisable (W := W) info s dlb algorithms protocols.
Proof. apply state_realisable. Qed.
End realisable.
