(* ===== verification/FakeApiLaws.v ===== *)
(** * FakeApiLaws

    The simulated account of [FakeApi] obeys [ApiLaws]: the contract can be
    met, and the theorems of [Converge] are applied to it. *)

From stdpp Require Import base tactics list gmap strings pretty.
From Stdlib Require Import ZArith.
From S2P Require Import Prelude.
From S2P Require Import GoStrings.
From S2P Require Import Json.
From S2P Require Import Cloudscale.
From S2P Require Import ServiceInfo.
From S2P Require Import Actions.
From S2P Require Import LbState.
From S2P Require Import NextActions.
From S2P Require Import NextActionsSpec.
From S2P Require Import NextActionsPlan.
From S2P Require Import ActualState.
From S2P Require Import ActualStateSpec.
From S2P Require Import Examples.
From S2P Require Import ApiLaws.
From S2P Require Import FakeApi.
From S2P Require Import Reconcile.
From S2P Require Import ReconcileSpec.
From S2P Require Import Descent.
From S2P Require Import Tasks.
From S2P Require Import Progress.
From S2P Require Import PlanTasks.
From S2P Require Import Settings.
From S2P Require Import Converge.

(** ** Numbered names *)

(** Names end in a number below the counter. *)
Definition numbered (bound : nat) (s : string) : Prop :=
  ∃ k n, s = k +:+ String "-" (pretty n) ∧ (n < bound)%nat.

Lemma numbered_le a b s : (a ≤ b)%nat → numbered a s → numbered b s.
Proof. intros Hab (k & n & -> & Hn). exists k, n. split; [done|lia]. Qed.

Lemma fresh_numbered k w : numbered (S (counter w)) (fresh k w).
Proof. exists k, (counter w). split; [done|lia]. Qed.

Lemma fresh_href_numbered k w : numbered (S (counter w)) ("/" +:+ fresh k w).
Proof. exists ("/" +:+ k), (counter w). split; [done|lia]. Qed.

Lemma numbered_inj k1 k2 (n1 n2 : nat) :
  k1 +:+ String "-" (pretty n1) = k2 +:+ String "-" (pretty n2) → n1 = n2.
Proof.
  assert (∀ n : nat, without "-" (pretty n) = true) as Hw.
  { intros n. apply digit_without; [done|]. apply (pretty_N_digits (N.of_nat n)). }
  intros [_ Heq]%last_sep_inj; [|apply Hw..]. by apply (inj pretty).
Qed.

Lemma fresh_new k w : ¬ numbered (counter w) (fresh k w).
Proof. intros (k' & n & Heq & Hn). apply numbered_inj in Heq. lia. Qed.

Lemma fresh_href_new k w : ¬ numbered (counter w) ("/" +:+ fresh k w).
Proof.
  intros (k' & n & Heq & Hn). change ("/" +:+ fresh k w) with
    (("/" +:+ k) +:+ String "-" (pretty (counter w))) in Heq. apply numbered_inj in Heq. lia.
Qed.

(** ** Well-formed accounts *)

Inductive item : Type :=
| ILb (l : LoadBalancer.t)
| IPool (p : Pool.t)
| IMember (m : string * PoolMember.t)
| IListener (l : Listener.t)
| IMonitor (m : HealthMonitor.t).

Definition item_href (i : item) : string :=
  match i with
  | ILb l => LoadBalancer.HREF l
  | IPool p => Pool.HREF p
  | IMember m => PoolMember.HREF m.2
  | IListener l => Listener.HREF l
  | IMonitor m => HealthMonitor.HREF m
  end.

Definition items (w : account) : list item :=
  (ILb <$> lbs w) ++ (IPool <$> acc_pools w) ++ (IMember <$> acc_members w) ++
  (IListener <$> acc_listeners w) ++ (IMonitor <$> acc_monitors w).

Definition hrefs (w : account) : list string := item_href <$> items w.

(** The UUIDs of load balancers and pools, where they are and where others
    refer to them. *)
Definition references (w : account) : list string :=
  (LoadBalancer.UUID <$> lbs w) ++ (Pool.UUID <$> acc_pools w) ++
  (Pool.LoadBalancer <$> acc_pools w) ++ (fst <$> acc_members w) ++
  omap Listener.Pool (acc_listeners w) ++ (HealthMonitor.Pool <$> acc_monitors w) ++
  omap FloatingIP.LoadBalancer (ips w).

Record wf (w : account) : Prop := {
  wf_outage : outage w = None;
  wf_servers : acc_servers w = example_servers;
  wf_settling u : (pauses_left w u ≤ 2)%nat;
  wf_hrefs : NoDup (hrefs w);
  wf_numbered : Forall (numbered (counter w)) (hrefs w);
  wf_references : Forall (numbered (counter w)) (references w);
  wf_lbs l : l ∈ lbs w → LoadBalancer.HREF l = "/" +:+ LoadBalancer.UUID l;
  wf_pools p : p ∈ acc_pools w → Pool.HREF p = "/" +:+ Pool.UUID p;
  wf_listeners l : l ∈ acc_listeners w → Listener.HREF l = "/" +:+ Listener.UUID l;
  wf_monitors m : m ∈ acc_monitors w → HealthMonitor.HREF m = "/" +:+ HealthMonitor.UUID m;
  wf_hosts m h q : m ∈ acc_monitors w → HealthMonitor.HTTP m = Some h →
    MonitorHTTP.Host h = Some q → addr q = 2%positive }.

Lemma elem_of_items w i :
  i ∈ items w ↔
  match i with
  | ILb l => l ∈ lbs w
  | IPool p => p ∈ acc_pools w
  | IMember m => m ∈ acc_members w
  | IListener l => l ∈ acc_listeners w
  | IMonitor m => m ∈ acc_monitors w
  end.
Proof.
  unfold items. rewrite !elem_of_app, !list_elem_of_fmap. destruct i; naive_solver.
Qed.

(** What is listed below a pool. *)
Lemma elem_of_parts w p y :
  y ∈ parts (api_of w) p ↔
  match y with
  | PMember m => (Pool.UUID p, m) ∈ acc_members w
  | PListener l => l ∈ acc_listeners w ∧ Listener.Pool l = Some (Pool.UUID p)
  | PMonitor m => m ∈ acc_monitors w ∧ HealthMonitor.Pool m = Pool.UUID p
  end.
Proof.
  unfold parts, listeners_of, monitors_of. simpl.
  rewrite !elem_of_app, !list_elem_of_fmap.
  setoid_rewrite list_elem_of_fmap. setoid_rewrite list_elem_of_filter.
  destruct y as [m|l|m]; split.
  - intros [(? & [= <-] & [u m'] & -> & <- & Hm)|[(? & ? & _)|(? & ? & _)]]; done.
  - intros Hm. left. exists m. split; [done|]. by exists (Pool.UUID p, m).
  - intros [(? & ? & _)|[(? & [= <-] & ? & ?)|(? & ? & _)]]; done.
  - intros [? ?]. right; left. by exists l.
  - intros [(? & ? & _)|[(? & ? & _)|(? & [= <-] & ? & ?)]]; done.
  - intros [? ?]. right; right. by exists m.
Qed.

Section wf.
Context (w : account) (Hwf : wf w).

Lemma item_inj i j : i ∈ items w → j ∈ items w → item_href i = item_href j → i = j.
Proof. apply NoDup_key_inj, (wf_hrefs w Hwf). Qed.

Lemma items_NoDup : NoDup (items w).
Proof. eapply NoDup_fmap_1, (wf_hrefs w Hwf). Qed.

Lemma fake_lb_inj l k :
  l ∈ lbs w → k ∈ lbs w → LoadBalancer.UUID l = LoadBalancer.UUID k → l = k.
Proof.
  intros Hl Hk Hu. assert (ILb l = ILb k) as [=]; [|done].
  apply item_inj; [by apply elem_of_items..|]. simpl. by rewrite !(wf_lbs w Hwf), Hu.
Qed.

Lemma fake_pool_inj p q :
  p ∈ acc_pools w → q ∈ acc_pools w → Pool.UUID p = Pool.UUID q → p = q.
Proof.
  intros Hp Hq Hu. assert (IPool p = IPool q) as [=]; [|done].
  apply item_inj; [by apply elem_of_items..|]. simpl. by rewrite !(wf_pools w Hwf), Hu.
Qed.

Lemma fake_listener_inj p q :
  p ∈ acc_listeners w → q ∈ acc_listeners w → Listener.UUID p = Listener.UUID q → p = q.
Proof.
  intros Hp Hq Hu. assert (IListener p = IListener q) as [=]; [|done].
  apply item_inj; [by apply elem_of_items..|]. simpl. by rewrite !(wf_listeners w Hwf), Hu.
Qed.

Lemma fake_monitor_inj p q :
  p ∈ acc_monitors w → q ∈ acc_monitors w → HealthMonitor.UUID p = HealthMonitor.UUID q → p = q.
Proof.
  intros Hp Hq Hu. assert (IMonitor p = IMonitor q) as [=]; [|done].
  apply item_inj; [by apply elem_of_items..|]. simpl. by rewrite !(wf_monitors w Hwf), Hu.
Qed.

(** Distinct items with an injective key. *)
Lemma NoDup_key {A B} (f : A → B) (l : list A) :
  NoDup l → (∀ x y, x ∈ l → y ∈ l → f x = f y → x = y) → NoDup (f <$> l).
Proof. intros Hnd Hf. by apply NoDup_fmap_2_strong. Qed.

Lemma split_items :
  NoDup (lbs w) ∧ NoDup (acc_pools w) ∧ NoDup (acc_members w) ∧
  NoDup (acc_listeners w) ∧ NoDup (acc_monitors w).
Proof.
  pose proof items_NoDup as Hnd. unfold items in Hnd. rewrite !NoDup_app in Hnd.
  destruct Hnd as (H1 & _ & H2 & _ & H3 & _ & H4 & _ & H5).
  apply NoDup_fmap_1 in H1, H2, H3, H4, H5. done.
Qed.

Lemma fake_parts_NoDup p : NoDup (parts (api_of w) p).
Proof.
  destruct split_items as (_ & _ & Hm & Hl & Ho). unfold parts, listeners_of, monitors_of. simpl.
  apply NoDup_app. split; [|split].
  - apply NoDup_fmap_2; [by intros ? ? [=]|]. apply NoDup_key; [by apply NoDup_filter|].
    intros [u m] [v n] [Hu _]%list_elem_of_filter [Hv _]%list_elem_of_filter. simpl in *. congruence.
  - intros y (m & -> & _)%list_elem_of_fmap.
    by intros [(? & ? & _)%list_elem_of_fmap|(? & ? & _)%list_elem_of_fmap]%elem_of_app.
  - apply NoDup_app. split; [|split].
    + apply NoDup_fmap_2; [by intros ? ? [=]|]. by apply NoDup_filter.
    + intros y (m & -> & _)%list_elem_of_fmap. by intros (? & ? & _)%list_elem_of_fmap.
    + apply NoDup_fmap_2; [by intros ? ? [=]|]. by apply NoDup_filter.
Qed.

(** Every resource is an item, and parts know their pool. *)
Lemma holds_item r : holds (api_of w) r → ∃ i, i ∈ items w ∧ item_href i = href r ∧
  match r, i with
  | RLb l, ILb k => l = shown_lb w k
  | RPool p, IPool q => p = q
  | RPart p (PMember m), IMember n => n = (Pool.UUID p, m)
  | RPart p (PListener l), IListener k => l = k ∧ Listener.Pool l = Some (Pool.UUID p)
  | RPart p (PMonitor m), IMonitor n => m = n ∧ HealthMonitor.Pool m = Pool.UUID p
  | _, _ => False
  end.
Proof.
  intros [l Hl|p Hp|p y Hp Hy].
  - simpl in Hl. apply list_elem_of_fmap in Hl as (k & -> & Hk). exists (ILb k).
    by rewrite elem_of_items.
  - exists (IPool p). by rewrite elem_of_items.
  - apply elem_of_parts in Hy. destruct y as [m|l|m].
    + exists (IMember (Pool.UUID p, m)). by rewrite elem_of_items.
    + exists (IListener l). rewrite elem_of_items. naive_solver.
    + exists (IMonitor m). rewrite elem_of_items. naive_solver.
Qed.

Lemma holds_pool_of p y : holds (api_of w) (RPart p y) → p ∈ acc_pools w.
Proof. by inversion 1. Qed.

Lemma fake_hrefs_unique r s :
  holds (api_of w) r → holds (api_of w) s → href r = href s → r = s.
Proof.
  intros Hr Hs Heq.
  destruct (holds_item r Hr) as (i & Hi & Hir & Hri), (holds_item s Hs) as (j & Hj & Hjs & Hsj).
  assert (i = j) as <- by (apply item_inj; congruence).
  assert (∀ p q, p ∈ acc_pools w → q ∈ acc_pools w → Pool.UUID p = Pool.UUID q → p = q)
    as Hpool by apply fake_pool_inj.
  destruct r as [l|p|p y], s as [k|q|q z], i; try done; try (destruct y; done); try (destruct z; done);
    try congruence.
  all: apply holds_pool_of in Hr; apply holds_pool_of in Hs.
  all: destruct y, z; try done; simplify_eq.
  - f_equal. by apply Hpool.
  - destruct Hri as [-> Hp], Hsj as [-> Hq]. f_equal. apply Hpool; [done..|congruence].
  - destruct Hri as [-> Hp], Hsj as [-> Hq]. f_equal. apply Hpool; [done..|congruence].
Qed.

Lemma fake_ok : api_ok (api_of w).
Proof.
  destruct split_items as (Hl & Hp & _). split.
  - simpl. rewrite shown_uuids. apply NoDup_key; [done|]. apply fake_lb_inj.
  - simpl. apply NoDup_key; [done|]. apply fake_pool_inj.
  - intros p _. apply fake_parts_NoDup.
  - apply fake_hrefs_unique.
  - intros p q l k Hl1 Hk1 Hu.
    pose proof Hl1 as Hl2. pose proof Hk1 as Hk2.
    inversion Hl1 as [| |? ? _ Hlp]; subst. inversion Hk1 as [| |? ? _ Hkq]; subst.
    apply elem_of_parts in Hlp as [Hlp _], Hkq as [Hkq _].
    assert (RPart p (PListener l) = RPart q (PListener k)) as [= -> ->]; [|done].
    apply fake_hrefs_unique; [done..|]. simpl. by rewrite !(wf_listeners w Hwf), Hu.
  - intros p q l k Hl1 Hk1 Hu.
    pose proof Hl1 as Hl2. pose proof Hk1 as Hk2.
    inversion Hl1 as [| |? ? _ Hlp]; subst. inversion Hk1 as [| |? ? _ Hkq]; subst.
    apply elem_of_parts in Hlp as [Hlp _], Hkq as [Hkq _].
    assert (RPart p (PMonitor l) = RPart q (PMonitor k)) as [= -> ->]; [|done].
    apply fake_hrefs_unique; [done..|]. simpl. by rewrite !(wf_monitors w Hwf), Hu.
Qed.
End wf.

(** ** The writes keep accounts well-formed *)

Lemma hrefs_kept w w' n :
  wf w → sublist (hrefs w') (hrefs w) → (counter w ≤ n)%nat →
  NoDup (hrefs w') ∧ Forall (numbered n) (hrefs w').
Proof.
  intros Hwf Hs Hc. split; [by eapply sublist_NoDup; [apply (wf_hrefs w Hwf)|exact Hs]|].
  apply Forall_forall. intros h Hh. eapply numbered_le; [exact Hc|].
  pose proof (wf_numbered w Hwf) as Hn. rewrite Forall_forall in Hn. apply Hn.
  by eapply sublist_subseteq.
Qed.

Lemma hrefs_added w w' k :
  wf w → hrefs w' ≡ₚ ("/" +:+ fresh k w) :: hrefs w →
  NoDup (hrefs w') ∧ Forall (numbered (S (counter w))) (hrefs w').
Proof.
  intros Hwf Hp. rewrite Hp. pose proof (wf_numbered w Hwf) as Hn. split.
  - constructor; [|apply (wf_hrefs w Hwf)]. intros Hin. rewrite Forall_forall in Hn.
    eapply fresh_href_new, Hn, Hin.
  - constructor; [apply fresh_href_numbered|]. eapply Forall_impl; [exact Hn|].
    intros s. by apply numbered_le, Nat.le_succ_diag_r.
Qed.

Lemma references_added w w' u n :
  wf w → (∀ h, h ∈ references w' → h = u ∨ h ∈ references w) → numbered n u →
  (counter w ≤ n)%nat → Forall (numbered n) (references w').
Proof.
  intros Hwf Hs Hu Hc. pose proof (wf_references w Hwf) as Hn. rewrite Forall_forall in Hn |- *.
  intros h [-> | Hh]%Hs; [done|]. eapply numbered_le; [exact Hc|]. by apply Hn.
Qed.

Lemma references_kept w w' n :
  wf w → references w' ⊆ references w → (counter w ≤ n)%nat →
  Forall (numbered n) (references w').
Proof.
  intros Hwf Hs Hc. pose proof (wf_references w Hwf) as Hn. rewrite Forall_forall in Hn |- *.
  intros h Hh. eapply numbered_le; [exact Hc|]. by apply Hn, Hs.
Qed.

(** What is left of well-formedness when addresses and references are in order. *)
Lemma wf_intro w' :
  outage w' = None → acc_servers w' = example_servers → (∀ u, pauses_left w' u ≤ 2)%nat →
  NoDup (hrefs w') ∧ Forall (numbered (counter w')) (hrefs w') →
  Forall (numbered (counter w')) (references w') →
  (∀ l, l ∈ lbs w' → LoadBalancer.HREF l = "/" +:+ LoadBalancer.UUID l) →
  (∀ p, p ∈ acc_pools w' → Pool.HREF p = "/" +:+ Pool.UUID p) →
  (∀ l, l ∈ acc_listeners w' → Listener.HREF l = "/" +:+ Listener.UUID l) →
  (∀ m, m ∈ acc_monitors w' → HealthMonitor.HREF m = "/" +:+ HealthMonitor.UUID m ∧
     ∀ h q, HealthMonitor.HTTP m = Some h → MonitorHTTP.Host h = Some q → addr q = 2%positive) →
  wf w'.
Proof. intros ??? [? ?] ???? Hm. split; [done..| |]; naive_solver. Qed.

Lemma wf_monitor w m : wf w → m ∈ acc_monitors w →
  HealthMonitor.HREF m = "/" +:+ HealthMonitor.UUID m ∧
  ∀ h q, HealthMonitor.HTTP m = Some h → MonitorHTTP.Host h = Some q → addr q = 2%positive.
Proof. intros Hwf Hm. split; [by apply (wf_monitors w)|]. intros h q. by apply (wf_hosts w Hwf). Qed.

Ltac references_in :=
  intros h; unfold references; simpl; rewrite ?fmap_app, ?omap_app, !elem_of_app; simpl;
  rewrite ?list_elem_of_singleton; tauto.

Ltac listed_in Hin := apply elem_of_app in Hin as [Hin | ->%list_elem_of_singleton].

(** A new resource has a new address. *)
Ltac added kind :=
  eapply hrefs_added with (k := kind); [done|]; unfold hrefs, items; simpl;
  rewrite !fmap_app; simpl; solve_Permutation.

Lemma pauses_changing w uuid u :
  pauses_left (changing w uuid) u = if decide (uuid = u) then 2%nat else pauses_left w u.
Proof. unfold pauses_left, changing. simpl. rewrite lookup_insert. by case_decide. Qed.

Lemma pauses_pause w d u :
  pauses_left (fake_pause d w).2 u =
  if decide (5 * Second ≤ d)%Z then pred (pauses_left w u) else pauses_left w u.
Proof.
  unfold pauses_left. simpl. destruct (decide (5 * Second ≤ d)%Z); [|done].
  rewrite lookup_fmap. by destruct (FakeApi.settling w !! u).
Qed.

Lemma wf_pause w d : wf w → wf (fake_pause d w).2.
Proof.
  intros Hwf. pose proof (wf_settling w Hwf) as Hset. destruct Hwf. split; try done.
  intros u. rewrite pauses_pause. specialize (Hset u). case_decide; lia.
Qed.

Lemma wf_create_lb w req : wf w → wf (fake_create_lb req w).2.
Proof.
  intros Hwf. apply wf_intro; simpl; try apply Hwf.
  - intros u. rewrite pauses_changing. case_decide; [lia|]. apply (wf_settling w Hwf).
  - added "lb".
  - eapply references_added with (w := w) (u := fresh "lb" w); [done| | |lia].
    + references_in.
    + apply fresh_numbered.
  - intros l Hl. listed_in Hl; [by apply (wf_lbs w)|done].
  - intros m. by apply (wf_monitor w).
Qed.

Lemma wf_create_pool w req :
  wf w → PoolRequest.LoadBalancer req ∈ references w → wf (fake_create_pool req w).2.
Proof.
  intros Hwf Hreq. apply wf_intro; simpl; try apply Hwf.
  - added "pool".
  - eapply references_added with (w := w) (u := fresh "pool" w); [done| | |lia].
    + intros h Hh. assert (h = fresh "pool" w ∨ h = PoolRequest.LoadBalancer req ∨ h ∈ references w)
        as [-> | [-> | Hr]]; [|by left|by right|by right].
      revert h Hh. references_in.
    + apply fresh_numbered.
  - intros p Hp. listed_in Hp; [by apply (wf_pools w)|done].
  - intros m. by apply (wf_monitor w).
Qed.

Lemma wf_create_member w uuid req :
  wf w → uuid ∈ references w → wf (fake_create_member uuid req w).2.
Proof.
  intros Hwf Hreq. apply wf_intro; simpl; try apply Hwf.
  - added "member".
  - apply (references_kept w); [done| |lia]. intros h Hh.
    assert (h = uuid ∨ h ∈ references w) as [-> | Hr]; [|done..]. revert h Hh. references_in.
  - intros m. by apply (wf_monitor w).
Qed.

Lemma wf_create_listener w req :
  wf w → ListenerRequest.Pool req ∈ references w → wf (fake_create_listener req w).2.
Proof.
  intros Hwf Hreq. apply wf_intro; simpl; try apply Hwf.
  - added "listener".
  - apply (references_kept w); [done| |lia]. intros h Hh.
    assert (h = ListenerRequest.Pool req ∨ h ∈ references w) as [-> | Hr]; [|done..].
    revert h Hh. references_in.
  - intros l Hl. listed_in Hl; [by apply (wf_listeners w)|done].
  - intros m. by apply (wf_monitor w).
Qed.

Lemma fake_http_hosts type_ req h q :
  fake_http type_ req = Some h → MonitorHTTP.Host h = Some q → addr q = 2%positive.
Proof.
  unfold fake_http. intros Hh Hq. destruct (decide _); simplify_eq. simpl in Hq.
  apply fmap_Some in Hq as (? & _ & ->). done.
Qed.

Lemma wf_create_monitor w req :
  wf w → HealthMonitorRequest.Pool req ∈ references w → wf (fake_create_monitor req w).2.
Proof.
  intros Hwf Hreq. apply wf_intro; simpl; try apply Hwf.
  - added "monitor".
  - apply (references_kept w); [done| |lia]. intros h Hh.
    assert (h = HealthMonitorRequest.Pool req ∨ h ∈ references w) as [-> | Hr]; [|done..].
    revert h Hh. references_in.
  - intros m Hm. listed_in Hm; [by apply (wf_monitor w)|]. split; [done|].
    intros h q. apply fake_http_hosts.
Qed.

(** Updates keep addresses and references. *)
Lemma fmap_kept {A B} (g : A → B) (f : A → A) (l : list A) :
  (∀ a, g (f a) = g a) → g <$> (f <$> l) = g <$> l.
Proof. intros Hf. rewrite <- list_fmap_compose. apply list_fmap_ext. intros i a _. apply Hf. Qed.

Lemma omap_kept {A B} (g : A → option B) (f : A → A) (l : list A) :
  (∀ a, g (f a) = g a) → omap g (f <$> l) = omap g l.
Proof. intros Hf. induction l as [|a l IH]; [done|]. csimpl. by rewrite Hf, IH. Qed.

Lemma item_hrefs_kept {A} (c : A → item) (f : A → A) (l : list A) :
  (∀ a, item_href (c (f a)) = item_href (c a)) →
  item_href <$> (c <$> (f <$> l)) = item_href <$> (c <$> l).
Proof. intros Hf. rewrite <- !(list_fmap_compose c). by apply (fmap_kept (item_href ∘ c)). Qed.

Lemma wf_rename w uuid req : wf w → wf (fake_rename uuid req w).2.
Proof.
  intros Hwf. apply wf_intro; simpl; try apply Hwf.
  - apply (hrefs_kept w); [done| |lia]. unfold hrefs, items. simpl.
    rewrite !fmap_app, item_hrefs_kept; [done|]. intros l. by case_decide.
  - apply (references_kept w); [done| |lia]. unfold references. simpl.
    rewrite (fmap_kept LoadBalancer.UUID); [done|]. intros l. by case_decide.
  - intros l (k & -> & Hk)%list_elem_of_fmap. apply (wf_lbs w Hwf) in Hk. by case_decide.
  - intros m. by apply (wf_monitor w).
Qed.

Lemma wf_update_listener w uuid req : wf w → wf (fake_update_listener uuid req w).2.
Proof.
  intros Hwf. apply wf_intro; simpl; try apply Hwf.
  - apply (hrefs_kept w); [done| |lia]. unfold hrefs, items. simpl.
    rewrite !fmap_app, (item_hrefs_kept IListener); [done|]. intros l. by case_decide.
  - apply (references_kept w); [done| |lia]. unfold references. simpl.
    rewrite omap_kept; [done|]. intros l. by case_decide.
  - intros l (k & -> & Hk)%list_elem_of_fmap. apply (wf_listeners w Hwf) in Hk. by case_decide.
  - intros m. by apply (wf_monitor w).
Qed.

Lemma wf_update_monitor w uuid req : wf w → wf (fake_update_monitor uuid req w).2.
Proof.
  intros Hwf. apply wf_intro; simpl; try apply Hwf.
  - apply (hrefs_kept w); [done| |lia]. unfold hrefs, items. simpl.
    rewrite !fmap_app, (item_hrefs_kept IMonitor); [done|]. intros l. by case_decide.
  - apply (references_kept w); [done| |lia]. unfold references. simpl.
    rewrite (fmap_kept HealthMonitor.Pool); [done|]. intros l. by case_decide.
  - intros m (k & -> & Hk)%list_elem_of_fmap. apply (wf_monitor w k Hwf) in Hk.
    case_decide; [|done]. split; [apply Hk|]. intros h q Hh Hq. simpl in Hh.
    apply fmap_Some in Hh as (h' & _ & ->). simpl in Hq. apply fmap_Some in Hq as (? & _ & ->). done.
Qed.

Lemma wf_assign w ip uuid : wf w → uuid ∈ references w → wf (fake_assign ip uuid w).2.
Proof.
  intros Hwf Huuid. apply wf_intro; simpl; try apply Hwf.
  - by apply (hrefs_kept w); [| |lia].
  - apply (references_kept w); [done| |lia]. intros h. unfold references in *. simpl.
    rewrite !elem_of_app in *. rewrite !list_elem_of_omap in *.
    intros [?|[?|[?|[?|[?|[?|(f' & Hf' & Hh)]]]]]]; [tauto..|].
    apply list_elem_of_fmap in Hf' as (f & -> & Hf). simpl in Hh. case_decide; [by injection Hh as <-|].
    do 6 right. by exists f.
  - intros m. by apply (wf_monitor w).
Qed.

Lemma wf_delete w url : wf w → wf (fake_delete url w).2.
Proof.
  intros Hwf. apply wf_intro; simpl; try apply Hwf.
  - apply (hrefs_kept w); [done| |lia]. unfold hrefs, items. simpl. apply fmap_sublist.
    repeat apply sublist_app; apply fmap_sublist, sublist_filter.
  - apply (references_kept w); [done| |lia]. unfold references. simpl.
    intros h. rewrite !elem_of_app, !list_elem_of_fmap, !list_elem_of_omap.
    setoid_rewrite list_elem_of_filter. naive_solver.
  - intros l [_ Hl]%list_elem_of_filter. by apply (wf_lbs w).
  - intros l [_ Hl]%list_elem_of_filter. by apply (wf_pools w).
  - intros l [_ Hl]%list_elem_of_filter. by apply (wf_listeners w).
  - intros m [_ Hm]%list_elem_of_filter. by apply (wf_monitor w).
Qed.

(** ** The laws *)

Definition fake_good (w : account) (x : api) : Prop := x = api_of w ∧ wf w.

(** Outside the load balancers, nothing has changed. *)
Lemma parts_same w w' p :
  acc_members w' = acc_members w → acc_listeners w' = acc_listeners w →
  acc_monitors w' = acc_monitors w → parts (api_of w') p = parts (api_of w) p.
Proof. intros Hm Hl Ho. unfold parts. simpl. by rewrite Hm, Hl, Ho. Qed.

Lemma shown_same w w' ls : Forall2 same_lb (shown_lb w <$> ls) (shown_lb w' <$> ls).
Proof. apply Forall2_fmap, Forall_Forall2_diag, Forall_true. by repeat split. Qed.

(** What a new resource refers to, or is referred to by. *)
Lemma reference_known w u : wf w → u ∈ references w → u ≠ fresh "pool" w ∧ u ≠ fresh "lb" w.
Proof.
  intros Hwf Hu. pose proof (wf_references w Hwf) as Hn. rewrite Forall_forall in Hn.
  split; intros ->; eapply fresh_new, Hn, Hu.
Qed.

Lemma elem_of_references w u :
  u ∈ references w ↔
  u ∈ LoadBalancer.UUID <$> lbs w ∨ u ∈ Pool.UUID <$> acc_pools w ∨
  u ∈ Pool.LoadBalancer <$> acc_pools w ∨ u ∈ (acc_members w).*1 ∨
  u ∈ omap Listener.Pool (acc_listeners w) ∨ u ∈ HealthMonitor.Pool <$> acc_monitors w ∨
  u ∈ omap FloatingIP.LoadBalancer (ips w).
Proof. unfold references. by rewrite !elem_of_app. Qed.

Lemma lb_reference w l : l ∈ api_lbs (api_of w) → LoadBalancer.UUID l ∈ references w.
Proof.
  simpl. intros (k & -> & Hk)%list_elem_of_fmap. apply elem_of_references. left.
  apply list_elem_of_fmap. by exists k.
Qed.

Lemma pool_reference w p : p ∈ acc_pools w → Pool.UUID p ∈ references w.
Proof.
  intros Hp. apply elem_of_references. right; left. by apply (list_elem_of_fmap_2 Pool.UUID).
Qed.

(** Nothing hangs below an unknown pool. *)
Lemma parts_unknown w p : Pool.UUID p ∉ references w → parts (api_of w) p = [].
Proof.
  rewrite elem_of_references. intros Hp.
  destruct (parts (api_of w) p) as [|y l] eqn:Heq; [done|]. exfalso. apply Hp.
  assert (y ∈ parts (api_of w) p) as Hy by (rewrite Heq; left).
  apply elem_of_parts in Hy. destruct y as [m|k|m].
  - do 3 right. left. apply list_elem_of_fmap. by exists (Pool.UUID p, m).
  - do 4 right. left. apply list_elem_of_omap. exists k. naive_solver.
  - do 5 right. left. apply list_elem_of_fmap. exists m. naive_solver.
Qed.

Lemma fake_pause_law w d : wf w → ∃ w' x', fake_pause d w = (false, w') ∧ fake_good w' x' ∧
  idle (api_of w) x' ∧ (∀ u, pauses_left w' u ≤ pauses_left w u)%nat ∧
  ((5 * Second ≤ d)%Z → ∀ u, (pauses_left w' u ≤ pred (pauses_left w u))%nat).
Proof.
  intros Hwf. exists (fake_pause d w).2, (api_of (fake_pause d w).2).
  split; [done|]. split; [by split; [|apply wf_pause]|].
  split; [split; try done; apply shown_same|]. split.
  - intros u. rewrite pauses_pause. case_decide; lia.
  - intros Hd u. by rewrite pauses_pause, decide_True.
Qed.

Lemma vips_granted (vips : list VIPAddressRequest.t) :
  vips ≠ [] → Forall2 vip_granted vips (fake_vips (Some vips)).
Proof.
  intros Hne. destruct vips as [|r vips]; [done|]. simpl fake_vips.
  change (Forall2 vip_granted (r :: vips) ((λ r, VIPAddress.Mk
         (if decide (VIPAddressRequest.Address r = "") then "5.102.144.101"
          else VIPAddressRequest.Address r)
         (fake_subnet (VIPAddressRequest.Subnet r))) <$> (r :: vips))).
  apply Forall2_fmap_r, Forall_Forall2_diag, Forall_true. intros v. split; [|done].
  simpl. case_decide; [by left|by right].
Qed.

Lemma fake_create_lb_law w req : wf w → ∃ l w' x',
  fake_create_lb req w = (Ok l, w') ∧ fake_good w' x' ∧ created_lb req l (api_of w) x'.
Proof.
  intros Hwf. do 3 eexists. split; [reflexivity|].
  split; [split; [reflexivity|exact (wf_create_lb w req Hwf)]|].
  split; simpl; try done.
  - intros vips -> Hne. by apply vips_granted.
  - exists (shown_lb (changing w (fresh "lb" w)) <$> lbs w). split; [|apply shown_same].
    rewrite fmap_app. apply Permutation_app_comm.
  - intros p Hp Heq. apply (reference_known w (Pool.LoadBalancer p) Hwf); [|done].
    apply elem_of_references. do 2 right. left. apply list_elem_of_fmap. by exists p.
  - intros f Hf Heq. apply (reference_known w (fresh "lb" w) Hwf); [|done].
    apply elem_of_references. do 6 right. apply list_elem_of_omap. by exists f.
Qed.

Lemma fake_rename_law w l name : wf w → l ∈ api_lbs (api_of w) → ∃ w' x',
  fake_rename (LoadBalancer.UUID l) (LoadBalancerRequest.Mk name "" None "") w = (Ok tt, w') ∧
  fake_good w' x' ∧ renamed_lb (LoadBalancer.UUID l) name (api_of w) x'.
Proof.
  intros Hwf _. do 2 eexists. split; [reflexivity|].
  split; [split; [reflexivity|eapply (wf_rename w _ _ Hwf)]|].
  split; try done. simpl. rewrite <- list_fmap_compose.
  apply Forall2_fmap, Forall_Forall2_diag, Forall_true. intros k. simpl. by case_decide.
Qed.

Lemma fake_create_pool_law w l req :
  wf w → l ∈ api_lbs (api_of w) → PoolRequest.LoadBalancer req = LoadBalancer.UUID l → ∃ p w' x',
  fake_create_pool req w = (Ok p, w') ∧ fake_good w' x' ∧ created_pool req p (api_of w) x'.
Proof.
  intros Hwf Hl Hreq. apply lb_reference in Hl. rewrite <- Hreq in Hl.
  do 3 eexists. split; [reflexivity|].
  split; [split; [reflexivity|eapply (wf_create_pool w _ Hwf Hl)]|].
  split; try done.
  - apply shown_same.
  - simpl. apply Permutation_app_comm.
  - etrans; [by apply (parts_same w)|]. apply parts_unknown. intros Hp.
    by destruct (reference_known w _ Hwf Hp) as [[] _].
Qed.

(** A new part is listed below its pool and no other. *)
Lemma created_parts w w' uuid y :
  (∀ p, parts (api_of w') p ≡ₚ
     (if decide (Pool.UUID p = uuid) then [y] else []) ++ parts (api_of w) p) →
  lbs w' = lbs w → acc_pools w' = acc_pools w → ips w' = ips w →
  created_part uuid y (api_of w) (api_of w').
Proof. intros Hp Hl Hps Hi. split; simpl; try done. unfold same_lbs. simpl. rewrite Hl. apply shown_same. Qed.

Lemma fake_create_member_law w p req : wf w → p ∈ acc_pools w → ∃ m w' x',
  fake_create_member (Pool.UUID p) req w = (Ok m, w') ∧ fake_good w' x' ∧
  created_part (Pool.UUID p) (PMember m) (api_of w) x' ∧ member_granted fake_subnet req m.
Proof.
  intros Hwf Hp. apply pool_reference in Hp.
  do 3 eexists. split; [reflexivity|].
  split; [split; [reflexivity|eapply (wf_create_member w _ _ Hwf Hp)]|].
  split; [|by split]. apply created_parts; try done. intros q. unfold parts. simpl.
  rewrite filter_app, fmap_app, filter_cons. simpl. repeat case_decide; try congruence; simpl.
  - rewrite fmap_app. simpl. solve_Permutation.
  - by rewrite app_nil_r.
Qed.

Lemma fake_create_listener_law w p req :
  wf w → p ∈ acc_pools w → ListenerRequest.Pool req = Pool.UUID p → ∃ l w' x',
  fake_create_listener req w = (Ok l, w') ∧ fake_good w' x' ∧
  created_part (Pool.UUID p) (PListener l) (api_of w) x' ∧ listener_granted req l.
Proof.
  intros Hwf Hp Hreq. apply pool_reference in Hp. rewrite <- Hreq in Hp.
  do 3 eexists. split; [reflexivity|].
  split; [split; [reflexivity|eapply (wf_create_listener w _ Hwf Hp)]|].
  split; [|by split]. apply created_parts; try done. intros q. unfold parts, listeners_of. simpl.
  rewrite filter_app, filter_cons. simpl. rewrite Hreq. repeat case_decide; try congruence; simpl.
  - rewrite fmap_app. simpl. solve_Permutation.
  - by rewrite app_nil_r.
Qed.

Lemma fake_http_granted type_ req h :
  req = Some h →
  if decide (type_ ∈ http_types)
  then ∃ g, fake_http type_ req = Some g ∧ MonitorHTTP.Version g =
    if decide (MonitorHTTPRequest.Version h = "") then "1.1" else MonitorHTTPRequest.Version h
  else fake_http type_ req = None.
Proof. intros ->. unfold fake_http. case_decide; [|done]. by eexists. Qed.

Lemma fake_create_monitor_law w p req :
  wf w → p ∈ acc_pools w → HealthMonitorRequest.Pool req = Pool.UUID p → ∃ m w' x',
  fake_create_monitor req w = (Ok m, w') ∧ fake_good w' x' ∧
  created_part (Pool.UUID p) (PMonitor m) (api_of w) x' ∧ monitor_granted req m.
Proof.
  intros Hwf Hp Hreq. apply pool_reference in Hp. rewrite <- Hreq in Hp.
  do 3 eexists. split; [reflexivity|].
  split; [split; [reflexivity|eapply (wf_create_monitor w _ Hwf Hp)]|].
  split; [|split; [done|simpl; intros h; apply fake_http_granted]].
  apply created_parts; try done. intros q. unfold parts, monitors_of. simpl.
  rewrite filter_app, filter_cons. simpl. rewrite Hreq. repeat case_decide; try congruence; simpl.
  - rewrite fmap_app. simpl. solve_Permutation.
  - by rewrite app_nil_r.
Qed.

(** Filtering commutes with updates that keep the key. *)
Lemma filter_kept {A} (P : A → Prop) `{∀ a, Decision (P a)} (f : A → A) (l : list A) :
  (∀ a, P (f a) ↔ P a) → filter P (f <$> l) = f <$> filter P l.
Proof.
  intros Hf. induction l as [|a l IH]; [done|]. rewrite fmap_cons, !filter_cons, IH.
  pose proof (Hf a). repeat case_decide; tauto.
Qed.

Lemma Forall2_refl_list {A} (R : A → A → Prop) (l : list A) :
  (∀ a, a ∈ l → R a a) → Forall2 R l l.
Proof. intros HR. apply Forall_Forall2_diag. by rewrite Forall_forall. Qed.

Lemma Forall2_kind {A} (c : A → part) (f : A → A) (R : part → part → Prop) (l : list A) :
  (∀ a, R (c a) (c (f a))) → Forall2 R (c <$> l) (c <$> (f <$> l)).
Proof.
  intros HR. rewrite <- list_fmap_compose. apply Forall2_fmap, Forall2_refl_list.
  intros a _. apply HR.
Qed.

Lemma fake_update_listener_law w uuid req : wf w → ∃ w' x',
  fake_update_listener uuid req w = (Ok tt, w') ∧ fake_good w' x' ∧
  updated (listener_updated uuid req) (api_of w) x'.
Proof.
  intros Hwf. do 2 eexists. split; [reflexivity|].
  split; [split; [reflexivity|eapply (wf_update_listener w _ _ Hwf)]|].
  split; try done; [apply shown_same|]. intros q _. unfold parts, listeners_of. simpl.
  rewrite filter_kept by (intros l; by case_decide). apply Forall2_app; [|apply Forall2_app].
  - apply Forall2_refl_list. by intros y (m & -> & _)%list_elem_of_fmap.
  - by apply Forall2_kind.
  - apply Forall2_refl_list. by intros y (m & -> & _)%list_elem_of_fmap.
Qed.

Lemma like_at_2 m : monitor_like (at_2 m) m.
Proof. split; try done. simpl. destruct (HealthMonitor.HTTP m) as [h|]; constructor.
  repeat split; try done. simpl. by destruct (MonitorHTTP.Host h).
Qed.

Lemma like_refl m : monitor_like m m.
Proof. split; try done. destruct (HealthMonitor.HTTP m) as [h|]; by constructor. Qed.

Lemma fake_update_monitor_law w uuid req : wf w → ∃ w' x',
  fake_update_monitor uuid req w = (Ok tt, w') ∧ fake_good w' x' ∧
  updated (monitor_updated uuid req) (api_of w) x'.
Proof.
  intros Hwf. do 2 eexists. split; [reflexivity|].
  split; [split; [reflexivity|eapply (wf_update_monitor w _ _ Hwf)]|].
  split; try done; [apply shown_same|]. intros q _. unfold parts, monitors_of. simpl.
  rewrite filter_kept by (intros m; by case_decide). apply Forall2_app; [|apply Forall2_app].
  - apply Forall2_refl_list. by intros y (m & -> & _)%list_elem_of_fmap.
  - apply Forall2_refl_list. by intros y (m & -> & _)%list_elem_of_fmap.
  - apply Forall2_kind. intros m. eexists. split; [done|].
    case_decide; [apply like_at_2|apply like_refl].
Qed.

Lemma fake_assign_law w ip l : wf w → l ∈ api_lbs (api_of w) →
  let uuid := LoadBalancer.UUID l in ∃ w' x',
  fake_assign ip uuid w = (Ok tt, w') ∧ fake_good w' x' ∧ assigned ip uuid (api_of w) x'.
Proof.
  intros Hwf Hl%lb_reference uuid. do 2 eexists. split; [reflexivity|].
  split; [split; [reflexivity|by eapply (wf_assign w _ _ Hwf)]|].
  split; try done. apply shown_same.
Qed.

(** A deletion takes the resource from its list. *)
Lemma filter_parts {A} (c : A → part) (P : part → Prop) `{∀ y, Decision (P y)}
    (Q : A → Prop) `{∀ a, Decision (Q a)} (l : list A) :
  (∀ a, Q a ↔ P (c a)) → c <$> filter Q l = filter P (c <$> l).
Proof.
  intros HQ. induction l as [|a l IH]; [done|]. rewrite fmap_cons, !filter_cons.
  pose proof (HQ a). repeat case_decide; try tauto; csimpl; by rewrite IH.
Qed.

Lemma fake_delete_law w url : wf w → ∃ w' x',
  fake_delete url w = (Ok tt, w') ∧ fake_good w' x' ∧ deleted url (api_of w) x'.
Proof.
  intros Hwf. do 2 eexists. split; [reflexivity|].
  split; [split; [reflexivity|eapply (wf_delete w _ Hwf)]|]. split.
  - simpl. rewrite (filter_kept _ (shown_lb w)) by done. apply shown_same.
  - intros _. split; try done. intros p _. unfold parts, listeners_of, monitors_of. simpl.
    rewrite !filter_app. f_equal; [|f_equal].
    + rewrite filter_comm, <- !list_fmap_compose. by apply filter_parts.
    + rewrite filter_comm. by apply filter_parts.
    + rewrite filter_comm. by apply filter_parts.
Qed.

(** What is listed below a pool has the simulated hosts. *)
Lemma fake_hosts w p m h q :
  wf w → holds (api_of w) (RPart p (PMonitor m)) → HealthMonitor.HTTP m = Some h →
  MonitorHTTP.Host h = Some q → addr q = 2%positive.
Proof.
  intros Hwf Hm. inversion Hm as [| |? ? _ Hin]; subst. apply elem_of_parts in Hin as [Hin _].
  by apply (wf_hosts w Hwf).
Qed.

Lemma fake_changing w l : l ∈ api_lbs (api_of w) → LoadBalancer.Status l = "changing" →
  (0 < pauses_left w (LoadBalancer.UUID l))%nat.
Proof.
  simpl. intros (k & -> & _)%list_elem_of_fmap. simpl. case_decide; [done|lia].
Qed.

Lemma fake_good_serves w x : fake_good w x → serves w x.
Proof.
  intros [-> Hwf]. apply fake_serves; [by apply wf_outage|].
  pose proof (lb_uuids _ (fake_ok w Hwf)) as Hnd. simpl in Hnd. by rewrite shown_uuids in Hnd.
Qed.

#[export, program] Instance fake_laws : ApiLaws account := {|
  good := fake_good;
  known_names _ := True; known_uuids _ := True; known_ips _ := True;
  answers_at a := a = 2%positive;
  subnets := fake_subnet;
  deletes q url := q = url;
  busy := pauses_left;
  patience := 2 |}.
Next Obligation.
  intros w x Hg. apply serves_steady; [intros w'; apply fake_good_serves|intros w' l [-> _]|done].
  apply fake_changing.
Qed.
Next Obligation. intros w x [-> Hwf]. by apply fake_ok. Qed.
Next Obligation. intros w x uuid [-> Hwf]. by apply wf_settling. Qed.
Next Obligation. intros w x p m h q [-> Hwf]. by apply fake_hosts. Qed.
Next Obligation. intros w x Hg. exists w. split; [done|by apply steady_refl]. Qed.
Next Obligation.
  intros w x k Hg Hk. exists 0%Z, w. split; [done|]. split; [by apply steady_refl|lia].
Qed.
Next Obligation. intros w x d [-> Hwf]. destruct (fake_pause_law w d Hwf) as (w' & x' & Hp & Hg & Hi & Hc & Hb).
  exists w', x'. split_and!; [done..|intros l _; apply Hc|intros Hd l _; by apply Hb]. Qed.
Next Obligation. intros w x url Hg. exists url, w. split; [done|]. split; [by apply steady_refl|done]. Qed.
Next Obligation. intros w x r q [-> Hwf] _ ->. by apply fake_delete_law. Qed.
Next Obligation. intros w x req [-> Hwf] _. by apply fake_create_lb_law. Qed.
Next Obligation. intros w x l name [-> Hwf] Hl _. by apply fake_rename_law. Qed.
Next Obligation. intros w x l req [-> Hwf] Hl Hreq. by eapply fake_create_pool_law. Qed.
Next Obligation. intros w x p req [-> Hwf] Hp. by apply fake_create_member_law. Qed.
Next Obligation. intros w x p req [-> Hwf] Hp Hreq. by apply fake_create_listener_law. Qed.
Next Obligation. intros w x p req [-> Hwf] Hp Hreq. by apply fake_create_monitor_law. Qed.
Next Obligation. intros w x p l req [-> Hwf] _ _. by apply fake_update_listener_law. Qed.
Next Obligation. intros w x p m req [-> Hwf] _ _. by apply fake_update_monitor_law. Qed.
Next Obligation. intros w x l f [-> Hwf] Hl _ _. by apply fake_assign_law. Qed.

(** ** Runs of the loop *)

#[local] Existing Instance example_GoExt.
#[local] Existing Instance example_SDK.

(** An account with a Floating IP and a load balancer that is still changing. *)
Definition fake_single (name : string) : account :=
  MkAccount [{| LoadBalancer.HREF := "/lb-0"; LoadBalancer.UUID := "lb-0";
                LoadBalancer.Name := name; LoadBalancer.Status := "running";
                LoadBalancer.VIPAddresses := []; LoadBalancer.Flavor := "lb-standard";
                LoadBalancer.Zone := "lpg1" |}]
    [] [] [] [] [FloatingIP.Mk "5.102.150.1/32" None] example_servers 1 {[ "lb-0" := 2%nat ]} None.

(** The load balancer belongs to another service, or to the one of the examples. *)
Definition fake_start : account := fake_single "k8s-service-other".
Definition fake_owned : account := fake_single "k8s-service-deadbeef".

Definition ip_annotations : list (string * string) :=
  (LoadBalancerFloatingIPs, quoted "['5.102.150.1/32']") :: host_annotations.

Definition ip_desired : lbState := example_desired ip_annotations.

#[local] Instance part_ready_dec y : Decision (part_ready (W := account) y).
Proof. destruct y; simpl; apply _. Defined.

(** No host of the monitor is at address 2. *)
Definition host_apart (m : HealthMonitor.t) : Prop :=
  (addr <$> (HealthMonitor.HTTP m ≫= MonitorHTTP.Host)) ≠ Some 2%positive.

#[local] Instance host_apart_dec m : Decision (host_apart m).
Proof. unfold host_apart. apply _. Defined.

Lemma ip_realisable :
  realisable (W := account) (example_service ip_annotations) ip_desired (lb_of ip_desired)
    api_algorithms api_protocols.
Proof.
  split.
  - vm_compute. reflexivity.
  - vm_compute. reflexivity.
  - split; [vm_compute; discriminate|done].
  - done.
  - unfold names_distinct. by_decide.
  - unfold keys_distinct. apply Forall_forall. by_decide.
  - assert (Forall (λ d, Forall part_ready (desired_parts ip_desired d)) (pools ip_desired)) as Hr
      by by_decide.
    intros d y Hd Hy. rewrite Forall_forall in Hr. specialize (Hr d Hd).
    rewrite Forall_forall in Hr. by apply Hr.
  - assert (Forall (λ d, Forall host_apart (slice_at (monitors ip_desired) (Some (ptr d))))
      (pools ip_desired)) as Hr by by_decide.
    intros d m h q Hd Hm Hh Hq Ha. rewrite Forall_forall in Hr. specialize (Hr d Hd).
    rewrite Forall_forall in Hr. apply (Hr m Hm). unfold host_apart.
    rewrite Hh. simpl. rewrite Hq. simpl. by rewrite <- Ha.
  - by_decide.
  - by_decide.
  - by_decide.
Qed.

Lemma ip_reachable :
  reachable (example_service ip_annotations) ip_desired (lb_of ip_desired)
    api_algorithms api_protocols (api_of fake_start).
Proof.
  split.
  - unfold ips_known. apply Forall_forall. by_decide.
  - left. unfold no_owner. apply Forall_forall. by_decide.
Qed.

Lemma fake_single_good name : good (fake_single name) (api_of (fake_single name)).
Proof.
  split; [done|]. apply wf_intro; simpl; try done.
  - intros u. unfold pauses_left. simpl. destruct (decide (u = "lb-0")) as [->|Hu].
    + by rewrite lookup_singleton_eq.
    + rewrite lookup_singleton_ne by done. simpl. lia.
  - split; [apply NoDup_singleton|]. apply Forall_cons. split; [|constructor].
    exists "/lb", 0%nat. split; [by vm_compute|lia].
  - apply Forall_cons. split; [|constructor]. exists "lb", 0%nat. split; [by vm_compute|lia].
  - by intros l ->%list_elem_of_singleton.
  - by intros p ?%elem_of_nil.
  - by intros p ?%elem_of_nil.
  - by intros p ?%elem_of_nil.
Qed.


Lemma reconcileLbState_deletes_witness :
  ∃ w' x',
    reconcileLbState 3 (λ _, default_order) (mret zeroLbState)
      (actualLbState (example_service [])) fake_owned = Some (Ok tt, w') ∧
    good w' x' ∧ no_owner (example_service []) x'.
Proof.
  apply (reconcileLbState_deletes (example_service []) (λ _, default_order) fake_owned
    (api_of fake_owned)).
  - split; [vm_compute; discriminate|done].
  - apply fake_single_good.
  - right. eexists. intros l. split.
    + by intros [Hl%list_elem_of_singleton _].
    + intros ->. split; [by left|by_decide].
  - simpl. lia.
Defined.
