(* ===== verification/ProviderID.v ===== *)
(** * ProviderID

    src/pkg/cloudscale_ccm/provider_id.go: the text that links a Kubernetes
    node to a server.  UUIDs come from the package google/uuid, a parameter. *)

From stdpp Require Import base tactics list strings.
From S2P Require Import Prelude.
From S2P Require Import GoStrings.

(** Package uuid: a type of identifiers, [Parse] and [String]. *)
Class UUIDPackage := {
  UUID : Type;
  uuid_Parse : string → result UUID;
  uuid_String : UUID → string }.

(** "://" cannot start inside a word of these. *)
Definition ProviderName : string := "cloudscale".

Section ProviderID.
Context `{UUIDPackage}.

Record cloudscaleProviderID : Type := MkProviderID { id : UUID }.

(** [cloudscaleProviderID.String] *)
Definition ProviderID_String (i : cloudscaleProviderID) : string :=
  ProviderName +:+ "://" +:+ uuid_String (id i).

(** [cloudscaleProviderID.UUID] *)
Definition ProviderID_UUID (i : cloudscaleProviderID) : UUID := id i.

Definition parseCloudscaleProviderID (text : string) : result cloudscaleProviderID :=
  if negb (Contains text "://") then
    Err (ErrorString ("bad providerID: " +:+ text +:+ " has no '://'"))
  else
    match SplitN2 text "://" with
    | [p0; p1] =>
        let p0 := Trim is_space p0 in
        let p1 := Trim is_space p1 in
        if decide (p0 = "") then
          Err (ErrorString ("bad providerID: no provider in " +:+ text))
        else if decide (p0 ≠ ProviderName) then
          Err (ErrorString ("not a cloudscale providerID: " +:+ text))
        else if decide (p1 = "") then
          Err (ErrorString ("bad providerID: no id in " +:+ text))
        else
          match uuid_Parse p1 with
          | Ok id => Ok (MkProviderID id)
          | Err _ => Err (ErrorString ("bad providerID (no uuid at end): " +:+ text))
          | Panic msg => Panic msg
          end
    | _ => Panic "index out of range"
    end.

(** What the package documents: a printed UUID has 36 characters, hexadecimal
    digits and dashes, and is parsed back. *)
Definition uuid_byte (c : Ascii.ascii) : bool :=
  is_digit c || Ascii.eqb c "-" ||
  existsb (Ascii.eqb c) ["a"; "b"; "c"; "d"; "e"; "f"]%char.

Record uuid_laws : Prop := {
  uuid_text u : String.length (uuid_String u) = 36%nat ∧
    all_bytes uuid_byte (uuid_String u) = true;
  uuid_round_trip u : uuid_Parse (uuid_String u) = Ok u }.
End ProviderID.
Arguments cloudscaleProviderID {_}.

Lemma uuid_byte_not_space c : uuid_byte c = true → is_space c = false.
Proof.
  intros Hc. destruct (is_space c) eqn:Hs; [|done].
  apply Ascii.eqb_eq in Hs as ->. vm_compute in Hc. discriminate.
Qed.

Lemma providerID_parse_String `{UUIDPackage} (i : cloudscaleProviderID) :
  uuid_laws → parseCloudscaleProviderID (ProviderID_String i) = Ok i.
Proof.
  intros [Htext Hrt]. destruct i as [u]. destruct (Htext u) as [Hlen Hbytes].
  unfold parseCloudscaleProviderID, ProviderID_String. cbn [id].
  assert (Cut (ProviderName +:+ "://" +:+ uuid_String u) "://" =
    Some (ProviderName, uuid_String u)) as Hcut.
  { unfold ProviderName. rewrite !append_cons, !append_nil. cbn. by destruct (uuid_String u). }
  unfold Contains, SplitN2. rewrite Hcut. cbn [negb].
  rewrite (Trim_bytes _ _ uuid_byte_not_space Hbytes).
  change (Trim is_space ProviderName) with ProviderName.
  rewrite !decide_False; [|by intros Hu; rewrite Hu in Hlen|by intros []|done].
  by rewrite Hrt.
Qed.

(** ** Properties *)

(** C27. Printing a provider ID and parsing the text gives it back. *)
Theorem providerID_round_trip `{UUIDPackage} (i : cloudscaleProviderID) :
  uuid_laws → parseCloudscaleProviderID (ProviderID_String i) = Ok i.
Proof. apply providerID_parse_String. Qed.

(** Only texts of the form [cloudscale://<uuid>], up to spaces around the two
    words, are provider IDs of the program; it never panics on others. *)
Theorem parseCloudscaleProviderID_correct `{UUIDPackage} (text : string) :
  (∀ s, match uuid_Parse s with Panic _ => False | _ => True end) →
  match parseCloudscaleProviderID text with
  | Ok i => ∃ p0 p1, text = p0 +:+ "://" +:+ p1 ∧ Trim is_space p0 = ProviderName ∧
      Trim is_space p1 ≠ "" ∧ uuid_Parse (Trim is_space p1) = Ok (id i)
  | Err _ => ∀ p0 p1, Cut text "://" = Some (p0, p1) → Trim is_space p0 = ProviderName →
      Trim is_space p1 ≠ "" → ∀ u, uuid_Parse (Trim is_space p1) ≠ Ok u
  | Panic _ => False
  end.
Proof.
  intros Hparse. unfold parseCloudscaleProviderID, Contains, SplitN2.
  destruct (Cut text "://") as [[p0 p1]|] eqn:Hcut; cbn [negb]; [|done].
  case_decide as H0; [intros ? ? [= <- <-]; by rewrite H0|].
  case_decide as H1; [by intros ? ? [= <- <-]|].
  case_decide as H2; [by intros ? ? [= <- <-]|].
  specialize (Hparse (Trim is_space p1)).
  destruct (uuid_Parse (Trim is_space p1)) as [u|e|msg] eqn:Hu; [|by intros ? ? [= <- <-]; rewrite Hu|done].
  exists p0, p1. by apply Cut_Some in Hcut.
Qed.

(** ** A concrete package of two UUIDs *)

Definition uuid_1 : string := "9e2b1d0c-41a7-4a52-8a0e-0123456789ab".
Definition uuid_2 : string := "0769b7cf-199b-4d42-9fbd-9ab3d11d08da".

Definition example_UUID : UUIDPackage := {|
  UUID := bool;
  uuid_Parse s :=
    if decide (s = uuid_1) then Ok true else if decide (s = uuid_2) then Ok false
    else Err (ForeignError "invalid UUID format");
  uuid_String b := if b then uuid_1 else uuid_2 |}.

Lemma example_uuid_laws : @uuid_laws example_UUID.
Proof. split; intros []; vm_compute; done. Qed.

Lemma providerID_round_trip_witness :
  @parseCloudscaleProviderID example_UUID "cloudscale://0769b7cf-199b-4d42-9fbd-9ab3d11d08da" =
  Ok (@MkProviderID example_UUID false).
Proof.
  exact (@providerID_round_trip example_UUID (@MkProviderID example_UUID false) example_uuid_laws).
Defined.

Lemma parseCloudscaleProviderID_correct_witness :
  match @parseCloudscaleProviderID example_UUID "aws://i-0123" with
  | Ok _ | Panic _ => False
  | Err _ => ∀ p0 p1, Cut "aws://i-0123" "://" = Some (p0, p1) → Trim is_space p0 = ProviderName →
      Trim is_space p1 ≠ "" → ∀ u, @uuid_Parse example_UUID (Trim is_space p1) ≠ Ok u
  end.
Proof.
  refine (@parseCloudscaleProviderID_correct example_UUID "aws://i-0123" _).
  intros s. simpl. by repeat case_decide.
Defined.
