(* ===== verification/ServerMapper.v ===== *)
(** * ServerMapper

    src/pkg/cloudscale_ccm/server_mapper.go: the servers behind the nodes of
    the cluster, found by provider ID or, without one, by name, and the
    addresses of a server. *)

From stdpp Require Import base tactics list gmap strings.
From Stdlib Require Import ZArith.
From S2P Require Import Prelude.
From S2P Require Import GoStrings.
From S2P Require Import Limiter.
From S2P Require Import Cloudscale.
From S2P Require Import LbMapper.
From S2P Require Import ProviderID.

(** [v1.NodeAddress] *)
Module NodeAddress.
Record t := Mk { Type_ : string; Address : string }.
#[global] Instance t_eq_dec : EqDecision t.
Proof. solve_decision. Defined.
End NodeAddress.

Definition NodeHostName : string := "Hostname".
Definition NodeExternalIP : string := "ExternalIP".
Definition NodeInternalIP : string := "InternalIP".

Section ServerMapper.
Context {W : Type} `{Client W} `{UUIDPackage}.

Definition getByProviderID (id : cloudscaleProviderID) : M W (Limiter Server.t) :=
  try (Servers_Get (uuid_String (ProviderID_UUID id)))
    (λ server, mret (New None [server]))
    (λ err, if is_not_found err then mret (New None []) else mret (New (Some err) [])).

(** [serverMapper.findByName] *)
Definition findServerByName (name : string) : M W (Limiter Server.t) :=
  try Servers_List
    (λ servers, mret (New None (filter (λ srv, Server.Name srv = name) servers)))
    (λ err, mret (New (Some err) [])).

Definition findByNode (node : option Node.t) : M W (Limiter Server.t) :=
  match node with
  | None => mret (New None [])
  | Some node =>
      if decide (Node.ProviderID node ≠ "") then
        match parseCloudscaleProviderID (Node.ProviderID node) with
        | Err err =>
            mret (New (Some (WrapError
              (Node.ProviderID node +:+ " is not a valid cloudscale provider id: ") err)) [])
        | Ok providerID => getByProviderID providerID
        | Panic msg => lift (Panic msg)
        end
      else findServerByName (Node.Name node)
  end.

(** The loop over the nodes: an error ends it. *)
Fixpoint mapNodes_loop (servers : list Server.t) (nodes : list Node.t)
    : M W (Limiter Server.t) :=
  match nodes with
  | [] => mret (New None servers)
  | node :: nodes' =>
      found ← findByNode (Some node);
      match One found with
      | Err err => mret (New (Some err) [])
      | Ok server => mapNodes_loop (servers ++ [server]) nodes'
      | Panic msg => lift (Panic msg)
      end
  end.

Definition mapNodes (nodes : list Node.t) : M W (Limiter Server.t) := mapNodes_loop [] nodes.

Definition nodeAddress (i : ServerInterface.t) (a : ServerAddress.t) : NodeAddress.t :=
  if decide (ServerInterface.Type_ i = "public")
  then NodeAddress.Mk NodeExternalIP (ServerAddress.Address a)
  else NodeAddress.Mk NodeInternalIP (ServerAddress.Address a).

Definition nodeAddresses (server : option Server.t) : list NodeAddress.t :=
  match server with
  | None => []
  | Some server =>
      NodeAddress.Mk NodeHostName (Server.Name server) ::
      flat_map (λ i, map (nodeAddress i) (ServerInterface.Addresses i)) (Server.Interfaces server)
  end.
End ServerMapper.
