(* ===== verification/Instances.v ===== *)
(** * Instances

    src/pkg/cloudscale_ccm/instances.go: the three questions Kubernetes asks
    about the server behind a node. *)

From stdpp Require Import base tactics list gmap strings.
From Stdlib Require Import ZArith.
From S2P Require Import Prelude.
From S2P Require Import GoStrings.
From S2P Require Import Limiter.
From S2P Require Import Cloudscale.
From S2P Require Import LbMapper.
From S2P Require Import ProviderID.
From S2P Require Import ServerMapper.

(** [cloudprovider.InstanceMetadata] *)
Module Metadata.
Record t := Mk {
  ProviderID : string;
  InstanceType : string;
  NodeAddresses : list NodeAddress.t;
  Zone : string;
  Region : string }.
#[global] Instance t_eq_dec : EqDecision t.
Proof. solve_decision. Defined.
End Metadata.

Section Instances.
Context {W : Type} `{Client W} `{UUIDPackage}.

Definition err_no_ProviderID (node : Node.t) : error :=
  ErrorString ("node " +:+ Node.Name node +:+ " has no ProviderID").
Definition unable_to_find (node : Node.t) : error → error :=
  WrapError ("unable to find node " +:+ Node.Name node +:+ ": ").

Definition InstanceExists (node : Node.t) : M W bool :=
  if decide (Node.ProviderID node = "") then throw (err_no_ProviderID node)
  else
    found ← findByNode (Some node);
    server ← lift (wrap_err (unable_to_find node) (AtMostOne found));
    mret (match server with None => false | Some _ => true end).

Definition InstanceShutdown (node : Node.t) : M W bool :=
  if decide (Node.ProviderID node = "") then throw (err_no_ProviderID node)
  else
    found ← findByNode (Some node);
    server ← lift (wrap_err (unable_to_find node) (One found));
    mret (bool_decide (Server.Status server = "stopped")).

Definition InstanceMetadata (node : Node.t) : M W Metadata.t :=
  found ← findByNode (Some node);
  server ← lift (wrap_err (unable_to_find node) (One found));
  match uuid_Parse (Server.UUID server) with
  | Err _ => throw (ErrorString ("invalid server UUID: " +:+ Server.UUID server))
  | Panic msg => lift (Panic msg)
  | Ok id =>
      mret {| Metadata.ProviderID := ProviderID_String (MkProviderID id);
              Metadata.InstanceType := Server.Flavor server;
              Metadata.NodeAddresses := nodeAddresses (Some server);
              Metadata.Zone := Server.Zone server;
              Metadata.Region := TrimRight is_digit (Server.Zone server) |}
  end.
End Instances.
