(* ===== verification/InstancesSpec.v ===== *)
(** * InstancesSpec

    Which servers the nodes are mapped to, that a node is reported gone only
    on the API's word, and what the metadata of a node says. *)

From stdpp Require Import base tactics list gmap strings.
From Stdlib Require Import ZArith.
From S2P Require Import Prelude.
From S2P Require Import GoStrings.
From S2P Require Import Limiter.
From S2P Require Import Cloudscale.
From S2P Require Import LbState.
From S2P Require Import Examples.
From S2P Require Import LbMapper.
From S2P Require Import ActualStateSpec.
From S2P Require Import FakeApi.
From S2P Require Import ProviderID.
From S2P Require Import ServerMapper.
From S2P Require Import Instances.

Section spec.
Context {W : Type} `{Client W} `{UUIDPackage}.
Implicit Types (w : W) (node : Node.t) (server : Server.t).

(** ** Mapping nodes to servers *)

Definition get_server (servers : list Server.t) (uuid : string) : option Server.t :=
  head (filter (λ s, Server.UUID s = uuid) servers).

(** In the state [w] the API answers with the given servers, and with the
    status 404 for any other. *)
Record serves_servers w (servers : list Server.t) : Prop := {
  serves_server uuid : ∃ msg, Servers_Get uuid w =
    (match get_server servers uuid with
     | Some s => Ok s | None => Err (ErrorResponse StatusNotFound msg) end, w);
  serves_all : Servers_List w = (Ok servers, w) }.

(** While the world is in one of the states [I], it answers so and stays there. *)
Record answers_servers (I : W → Prop) (servers : list Server.t) : Prop := {
  answers_server uuid w : I w → ∃ r w', Servers_Get uuid w = (r, w') ∧ I w' ∧
    match get_server servers uuid with
    | Some s => r = Ok s
    | None => ∃ msg, r = Err (ErrorResponse StatusNotFound msg)
    end;
  answers_all w : I w → ∃ w', Servers_List w = (Ok servers, w') ∧ I w' }.

Lemma serves_answers_servers w servers : serves_servers w servers → answers_servers (eq w) servers.
Proof.
  intros [Hg Hl]. split.
  - intros uuid ? <-. destruct (Hg uuid) as [msg Hr]. eexists _, w. split; [exact Hr|].
    split; [done|]. destruct (get_server servers uuid); eauto.
  - intros ? <-. by exists w.
Qed.

(** The server is the one the node names: by its provider ID, or, without
    one, as the only server of its name. *)
Definition identifies (servers : list Server.t) node server : Prop :=
  (Node.ProviderID node ≠ "" ∧ ∃ i, parseCloudscaleProviderID (Node.ProviderID node) = Ok i ∧
     get_server servers (uuid_String (id i)) = Some server) ∨
  (Node.ProviderID node = "" ∧
     filter (λ s, Server.Name s = Node.Name node) servers = [server]).

Lemma parse_no_panic (text : string) :
  (∀ s, match uuid_Parse s with Panic _ => False | _ => True end) →
  match parseCloudscaleProviderID text with Panic _ => False | _ => True end.
Proof.
  intros Hp. unfold parseCloudscaleProviderID, Contains, SplitN2.
  destruct (Cut text "://") as [[p0 p1]|]; simpl; [|done].
  repeat case_decide; try done. specialize (Hp (Trim is_space p1)). by destruct (uuid_Parse _).
Qed.

Section answered.
Context (I : W → Prop) (servers : list Server.t) (Hs : answers_servers I servers).
Hypothesis no_panic : ∀ s, match uuid_Parse s with Panic _ => False | _ => True end.

Lemma findByNode_answers w node :
  I w → ∃ found w', findByNode (Some node) w = (Ok found, w') ∧ I w' ∧
    ∀ server, One found = Ok server ↔ identifies servers node server.
Proof.
  destruct Hs as [Hget Hall]. intros Hw. unfold findByNode, identifies. case_decide as Hid.
  - pose proof (parse_no_panic (Node.ProviderID node) no_panic) as Hnp.
    destruct (parseCloudscaleProviderID (Node.ProviderID node)) as [i|err|msg]; [|clear Hnp|done].
    + unfold getByProviderID, ProviderID_UUID, try.
      destruct (Hget (uuid_String (id i)) w Hw) as (r & w' & -> & Hw' & Hr).
      destruct (get_server servers (uuid_String (id i))) as [s|] eqn:Hsv.
      * subst r. eexists _, w'. split; [done|]. split; [done|]. intros server. rewrite One_Ok. simpl.
        naive_solver.
      * destruct Hr as [msg ->]. eexists _, w'. split; [done|]. split; [done|]. intros server.
        rewrite One_Ok. simpl. naive_solver.
    + eexists _, w. split; [done|]. split; [done|]. intros server. rewrite One_Ok. simpl. naive_solver.
  - unfold findServerByName, try. destruct (Hall w Hw) as (w' & -> & Hw'). eexists _, w'.
    split; [done|]. split; [done|]. intros server. rewrite One_Ok. simpl. naive_solver.
Qed.

Lemma mapNodes_loop_answers w nodes found0 :
  I w → ∃ found w', mapNodes_loop found0 nodes w = (Ok found, w') ∧ I w' ∧
    ∀ result, All found = Ok result ↔
      ∃ ss, result = found0 ++ ss ∧ Forall2 (identifies servers) nodes ss.
Proof.
  revert w found0. induction nodes as [|node nodes IH]; intros w found0 Hw; cbn [mapNodes_loop].
  { eexists _, w. split; [done|]. split; [done|]. intros result. unfold All. simpl. split.
    - intros [= <-]. exists []. by rewrite app_nil_r.
    - intros (ss & -> & Hss). inversion_clear Hss. by rewrite app_nil_r. }
  destruct (findByNode_answers w node Hw) as (f & w1 & Hf & Hw1 & Hone).
  unfold mbind, M_bind. rewrite Hf. destruct (One f) as [server|e|msg] eqn:Ho.
  - destruct (IH w1 (found0 ++ [server]) Hw1) as (found & w2 & Heq & Hw2 & Hall).
    exists found, w2. split; [done|]. split; [done|].
    intros result. rewrite Hall. split.
    + intros (ss & -> & Hss). exists (server :: ss). rewrite <- app_assoc. split; [done|].
      constructor; [|done]. by apply Hone.
    + intros (ss & -> & Hss). inversion Hss as [|? s ? ss' Hs1 Hss']; subst.
      apply Hone in Hs1. injection Hs1 as <-. exists ss'. by rewrite <- app_assoc.
  - eexists _, w1. split; [done|]. split; [done|]. intros result. split; [done|].
    intros (ss & _ & Hss). inversion Hss as [|? s ? ss' Hs1 _]; subst. by apply Hone in Hs1.
  - unfold One in Ho. destruct (Error f); [done|]. by destruct (elements f) as [|? [|]].
Qed.
End answered.

(** C26. The mapping succeeds exactly when every node names one server, and gives
    one server per node, in the order of the nodes. *)
Theorem mapNodes_correct servers w nodes :
  (∀ s, match uuid_Parse s with Panic _ => False | _ => True end) →
  serves_servers w servers →
  ∃ found, mapNodes nodes w = (Ok found, w) ∧
    ∀ result, All found = Ok result ↔ Forall2 (identifies servers) nodes result.
Proof.
  intros Hp Hw. destruct (mapNodes_loop_answers _ servers (serves_answers_servers w servers Hw) Hp w nodes [])
    as (found & w' & Hf & <- & Hall); [done|].
  exists found. split; [done|]. intros result. rewrite Hall. simpl. naive_solver.
Qed.

Lemma mapNodes_loop_length w nodes found0 found w' result :
  mapNodes_loop found0 nodes w = (Ok found, w') → All found = Ok result →
  length result = (length found0 + length nodes)%nat.
Proof.
  revert w found0. induction nodes as [|node nodes IH]; intros w found0; cbn [mapNodes_loop].
  { intros [= <- _] [= <-]. simpl. lia. }
  unfold mbind, M_bind. destruct (findByNode (Some node) w) as [[f|e|msg] w1]; [|done..].
  destruct (One f) as [server|e|msg]; [|by intros [= <- _]|done].
  intros Hl Ha. rewrite (IH _ _ Hl Ha), length_app. simpl. lia.
Qed.

(** Whatever the API answers, servers come one per node, so the error for a
    bad node to server mapping cannot occur in the handlers. *)
Theorem mapNodes_length w nodes found w' servers :
  mapNodes nodes w = (Ok found, w') → All found = Ok servers →
  length nodes = length servers.
Proof. intros Hm Ha. by rewrite (mapNodes_loop_length _ _ _ _ _ _ Hm Ha). Qed.

(** ** Existence and shutdown *)

(** C21. A node is reported gone only if its provider ID is one of this program
    and the API answered 404 for its UUID.  A missing or foreign provider ID
    and every other API failure are errors. *)
Theorem InstanceExists_safe node w w' :
  InstanceExists node w = (Ok false, w') →
  ∃ i e, parseCloudscaleProviderID (Node.ProviderID node) = Ok i ∧
    Servers_Get (uuid_String (id i)) w = (Err e, w') ∧ errors_As e = Some StatusNotFound.
Proof.
  unfold InstanceExists. case_decide as Hid; [done|].
  unfold findByNode. rewrite decide_True by done. unfold mbind, M_bind.
  destruct (parseCloudscaleProviderID (Node.ProviderID node)) as [i|e|msg]; [|done..].
  unfold getByProviderID, try, ProviderID_UUID.
  destruct (Servers_Get (uuid_String (id i)) w) as [[s|e|msg] w1] eqn:Hg; [done| |done].
  intros Hr. exists i, e. unfold is_not_found in Hr.
  destruct (errors_As e) as [code|] eqn:He; [|done]. case_bool_decide as Hc; [|done].
  subst code. injection Hr as <-. done.
Qed.

(** Against an API that answers, a node exists, or is shut down, according to
    the server its provider ID names. *)
Theorem Instance_status servers w node i :
  serves_servers w servers → parseCloudscaleProviderID (Node.ProviderID node) = Ok i →
  Node.ProviderID node ≠ "" →
  InstanceExists node w =
    (Ok (bool_decide (is_Some (get_server servers (uuid_String (id i))))), w) ∧
  InstanceShutdown node w =
    (match get_server servers (uuid_String (id i)) with
     | Some s => Ok (bool_decide (Server.Status s = "stopped"))
     | None => Err (unable_to_find node err_none)
     end, w).
Proof.
  intros [Hget _] Hi Hid. unfold InstanceExists, InstanceShutdown, findByNode.
  destruct (decide (Node.ProviderID node = "")) as [|_]; [done|].
  rewrite decide_True by done. rewrite Hi.
  unfold mbind, M_bind, getByProviderID, try, ProviderID_UUID.
  destruct (Hget (uuid_String (id i))) as [msg ->].
  destruct (get_server servers (uuid_String (id i))) as [s|]; by split.
Qed.

(** ** Metadata *)

Lemma TrimRight_suffix p s : ∃ t, s = TrimRight p s +:+ t ∧ all_bytes p t = true.
Proof.
  induction s as [|c s (t & Hs & Ht)]; [by exists ""|]. simpl.
  destruct (TrimRight p s) as [|c' s'] eqn:He.
  - rewrite append_nil in Hs. destruct (p c) eqn:Hc.
    + exists (String c s). split; [done|]. simpl. rewrite Hc. by rewrite Hs.
    + exists s. split; [done|]. by rewrite Hs.
  - exists t. split; [|done]. rewrite append_cons. by rewrite <- Hs.
Qed.

(** The provider ID of the metadata is parsed back to the UUID of the server
    the node was matched with, so that later lookups find the same server;
    the host name comes first in the addresses, and the region is the zone
    without its trailing digits. *)
Theorem InstanceMetadata_correct node w m w' :
  uuid_laws → InstanceMetadata node w = (Ok m, w') →
  ∃ found server u, findByNode (Some node) w = (Ok found, w') ∧ One found = Ok server ∧
    uuid_Parse (Server.UUID server) = Ok u ∧
    parseCloudscaleProviderID (Metadata.ProviderID m) = Ok (MkProviderID u) ∧
    Metadata.NodeAddresses m = nodeAddresses (Some server) ∧
    head (Metadata.NodeAddresses m) = Some (NodeAddress.Mk NodeHostName (Server.Name server)) ∧
    Metadata.InstanceType m = Server.Flavor server ∧ Metadata.Zone m = Server.Zone server ∧
    ∃ digits, Metadata.Zone m = Metadata.Region m +:+ digits ∧ all_bytes is_digit digits = true.
Proof.
  intros Hlaws. unfold InstanceMetadata. rewrite M_bind_Ok. intros (found & w1 & Hf & Hm).
  apply M_bind_Ok in Hm as (server & w2 & Hs & Hm). unfold lift in Hs. injection Hs as Hs <-.
  apply wrap_err_Ok in Hs. destruct (uuid_Parse (Server.UUID server)) as [u|e|msg] eqn:Hu;
    [|done..].
  injection Hm as <- <-. exists found, server, u.
  split_and!; [done..| |reflexivity|reflexivity|reflexivity|reflexivity|apply TrimRight_suffix].
  by apply providerID_parse_String.
Qed.
End spec.

(** ** Concrete inputs *)

Section witnesses.
#[local] Existing Instance example_UUID.

(** A server with the second of the two UUIDs, in the zone lpg1. *)
Definition uuid_server : Server.t :=
  {| Server.UUID := uuid_2; Server.Name := "worker-1"; Server.Status := "stopped";
     Server.Zone := "lpg1"; Server.Flavor := "flex-4-2";
     Server.Interfaces :=
       [ServerInterface.Mk "private" [ServerAddress.Mk "10.0.0.1" example_subnet]] |}.

Definition fake_servers : account :=
  MkAccount [] [] [] [] [] [] (uuid_server :: example_servers) 0 ∅ None.

Definition uuid_node : Node.t := Node.Mk "worker-1" ∅ ("cloudscale://" +:+ uuid_2).
Definition gone_node : Node.t := Node.Mk "worker-9" ∅ ("cloudscale://" +:+ uuid_1).
Definition named_node : Node.t := Node.Mk "worker-2" ∅ "".

Lemma fake_serves_servers w : serves_servers w (acc_servers w).
Proof.
  split; [|done]. intros uuid. exists "not found". simpl. unfold fake_server, get_server.
  by destruct (head _).
Qed.

Lemma example_parse_no_panic s : match uuid_Parse s with Panic _ => False | _ => True end.
Proof. simpl. by repeat case_decide. Qed.

Lemma mapNodes_correct_witness :
  ∃ found, mapNodes [uuid_node; named_node] fake_servers = (Ok found, fake_servers) ∧
    ∀ result, All found = Ok result ↔
      Forall2 (identifies (acc_servers fake_servers)) [uuid_node; named_node] result.
Proof.
  apply (mapNodes_correct (acc_servers fake_servers) fake_servers [uuid_node; named_node]).
  - apply example_parse_no_panic.
  - apply fake_serves_servers.
Defined.

Lemma mapNodes_length_witness :
  mapNodes [uuid_node; named_node] fake_servers =
    (Ok (New None [uuid_server; example_server "worker-2" "5.102.144.2" "10.0.0.2"]),
     fake_servers) ∧
  length [uuid_node; named_node] =
    length [uuid_server; example_server "worker-2" "5.102.144.2" "10.0.0.2"].
Proof.
  split; [vm_compute; reflexivity|].
  apply (mapNodes_length fake_servers [uuid_node; named_node]
    (New None [uuid_server; example_server "worker-2" "5.102.144.2" "10.0.0.2"]) fake_servers);
    vm_compute; reflexivity.
Defined.

Lemma InstanceExists_safe_witness :
  ∃ i e, parseCloudscaleProviderID (Node.ProviderID gone_node) = Ok i ∧
    Servers_Get (uuid_String (id i)) fake_servers = (Err e, fake_servers) ∧
    errors_As e = Some StatusNotFound.
Proof.
  apply (InstanceExists_safe gone_node fake_servers fake_servers). vm_compute. reflexivity.
Defined.

Lemma Instance_status_witness :
  InstanceExists uuid_node fake_servers = (Ok true, fake_servers) ∧
  InstanceShutdown uuid_node fake_servers = (Ok true, fake_servers).
Proof.
  apply (Instance_status (acc_servers fake_servers) fake_servers uuid_node (@MkProviderID example_UUID false)).
  - apply fake_serves_servers.
  - vm_compute. reflexivity.
  - vm_compute. discriminate.
Defined.

Lemma InstanceMetadata_correct_witness :
  let m := {| Metadata.ProviderID := "cloudscale://" +:+ uuid_2;
              Metadata.InstanceType := "flex-4-2";
              Metadata.NodeAddresses :=
                [NodeAddress.Mk NodeHostName "worker-1"; NodeAddress.Mk NodeInternalIP "10.0.0.1"];
              Metadata.Zone := "lpg1"; Metadata.Region := "lpg" |} in
  ∃ found server u, findByNode (Some uuid_node) fake_servers = (Ok found, fake_servers) ∧
    One found = Ok server ∧ uuid_Parse (Server.UUID server) = Ok u ∧
    parseCloudscaleProviderID (Metadata.ProviderID m) = Ok (MkProviderID u) ∧
    Metadata.NodeAddresses m = nodeAddresses (Some server) ∧
    head (Metadata.NodeAddresses m) = Some (NodeAddress.Mk NodeHostName (Server.Name server)) ∧
    Metadata.InstanceType m = Server.Flavor server ∧ Metadata.Zone m = Server.Zone server ∧
    ∃ digits, Metadata.Zone m = Metadata.Region m +:+ digits ∧ all_bytes is_digit digits = true.
Proof.
  apply InstanceMetadata_correct; [apply example_uuid_laws|vm_compute; reflexivity].
Defined.
End witnesses.
