(* ===== verification/JsonEncode.v ===== *)
(** * JsonEncode

    Go's [json.Marshal] of the values the program sends, and that the scanner
    of [Json] reads what it writes.  Only the empty object and objects with
    sorted keys are marshalled, so the keys of an object are a list. *)

From stdpp Require Import base tactics list strings.
From Stdlib Require Import ZArith.
From S2P Require Import Prelude.
From S2P Require Import GoStrings.
From S2P Require Import Json.

Definition hex_digit (n : nat) : ascii :=
  ascii_of_nat (if (n <? 10)%nat then 48 + n else 87 + n).

(** An ASCII byte: quotes, backslashes and control characters are escaped, and
    the characters that mean something in HTML. *)
Definition escape_ascii (c : ascii) : list ascii :=
  match nat_of_ascii c with
  | 34 | 92 => ["\"%char; c]
  | 8 => ["\"; "b"]%char
  | 12 => ["\"; "f"]%char
  | 10 => ["\"; "n"]%char
  | 13 => ["\"; "r"]%char
  | 9 => ["\"; "t"]%char
  | n =>
      if (n <? 32)%nat || Ascii.eqb c "<" || Ascii.eqb c ">" || Ascii.eqb c "&"
      then ["\"%char; "u"%char; "0"%char; "0"%char; hex_digit (n / 16); hex_digit (n mod 16)]
      else [c]
  end.

(** A rune of three bytes: the line and paragraph separators are escaped. *)
Definition escape_three (c c1 c2 : ascii) : list ascii :=
  match nat_of_ascii c, nat_of_ascii c1, nat_of_ascii c2 with
  | 226, 128, 168 => list_ascii_of_string "\u2028"
  | 226, 128, 169 => list_ascii_of_string "\u2029"
  | _, _, _ => [c; c1; c2]
  end.

Fixpoint escape (s : list ascii) : list ascii :=
  match s with
  | [] => []
  | c :: s' =>
      match rune_width s, s' with
      | Some 1%nat, _ => escape_ascii c ++ escape s'
      | Some 2%nat, c1 :: s'' => c :: c1 :: escape s''
      | Some 3%nat, c1 :: c2 :: s'' => escape_three c c1 c2 ++ escape s''
      | Some _, c1 :: c2 :: c3 :: s'' => c :: c1 :: c2 :: c3 :: escape s''
      | _, _ => list_ascii_of_string "\ufffd" ++ escape s'
      end
  end.

Definition marshal_string (s : string) : list ascii :=
  "034"%char :: escape (list_ascii_of_string s) ++ ["034"%char].

Fixpoint join_bytes (l : list (list ascii)) : list ascii :=
  match l with
  | [] => []
  | [x] => x
  | x :: l' => x ++ ","%char :: join_bytes l'
  end.

Fixpoint marshal (v : json) : list ascii :=
  match v with
  | JNull => list_ascii_of_string "null"
  | JBool b => list_ascii_of_string (if b then "true" else "false")
  | JNumber literal => list_ascii_of_string literal
  | JString s => marshal_string s
  | JArray elems => "["%char :: join_bytes (map marshal elems) ++ ["]"%char]
  | JObject fields =>
      "{"%char ::
      join_bytes (map (λ f, marshal_string f.1 ++ ":"%char :: marshal f.2) fields) ++ ["}"%char]
  end.

(** [json.Marshal] *)
Definition Marshal (v : json) : string := string_of_list_ascii (marshal v).

(** ** Reading it back *)

Definition ascii_byte (c : ascii) : bool := in_bytes 0 127 c.
Definition ascii_text (s : string) : Prop :=
  Forall (λ c, ascii_byte c = true) (list_ascii_of_string s).

Lemma scan_app s l1 l2 : steps s (l1 ++ l2) = s' ← steps s l1; steps s' l2.
Proof.
  revert s. induction l1 as [|c l1 IH]; intros s; simpl; [done|].
  by destruct (step s c); simpl.
Qed.

Lemma escape_cons c l :
  ascii_byte c = true → escape (c :: l) = escape_ascii c ++ escape l.
Proof. intros Hc. cbn [escape]. unfold rune_width. unfold ascii_byte in Hc. by rewrite Hc. Qed.

Lemma scan_escape_ascii st key lit c :
  ascii_byte c = true →
  steps (st, InString key lit) (escape_ascii c) = Some (st, InString key (rev (escape_ascii c) ++ lit)).
Proof. by destruct c as [[] [] [] [] [] [] [] []]. Qed.

Lemma unquote_escape_ascii c l :
  ascii_byte c = true → unquote (escape_ascii c ++ l) = c :: unquote l.
Proof. by destruct c as [[] [] [] [] [] [] [] []]. Qed.

Lemma scan_escape st key lit l :
  Forall (λ c, ascii_byte c = true) l →
  steps (st, InString key lit) (escape l) = Some (st, InString key (rev (escape l) ++ lit)).
Proof.
  intros Hl. revert lit. induction Hl as [|c l Hc Hl IH]; intros lit; [done|].
  rewrite (escape_cons _ _ Hc), scan_app, (scan_escape_ascii _ _ _ _ Hc). simpl.
  by rewrite IH, rev_app_distr, <- app_assoc.
Qed.

Lemma unquote_escape l : Forall (λ c, ascii_byte c = true) l → unquote (escape l) = l.
Proof.
  induction 1 as [|c l Hc Hl IH]; [done|].
  by rewrite (escape_cons _ _ Hc), (unquote_escape_ascii _ _ Hc), IH.
Qed.

Lemma scan_string st key s rest :
  ascii_text s →
  steps (st, InString key []) (escape (list_ascii_of_string s) ++ "034"%char :: rest) =
  steps (st, match key with
             | None => EndValue (JString s)
             | Some fields => EndKey fields s
             end) rest.
Proof.
  intros Hs. rewrite scan_app, (scan_escape _ _ _ _ Hs), app_nil_r.
  assert (string_value (rev (escape (list_ascii_of_string s))) = s) as Hv.
  { unfold string_value. by rewrite rev_involutive, (unquote_escape _ Hs),
      string_of_list_ascii_of_string. }
  simpl. destruct key; simpl; by rewrite Hv.
Qed.

(** A string where a value is expected. *)
Lemma scan_value_string st s rest :
  ascii_text s →
  steps (st, BeginValue) (marshal_string s ++ rest) = steps (st, EndValue (JString s)) rest.
Proof.
  intros Hs. unfold marshal_string. rewrite <- app_comm_cons, <- app_assoc.
  rewrite <- (scan_string st None s rest Hs). done.
Qed.

(** A string where a key is expected. *)
Lemma scan_key fields f st s rest :
  ascii_text s →
  steps (f :: st, BeginString fields) (marshal_string s ++ rest) =
  steps (f :: st, EndKey fields s) rest.
Proof.
  intros Hs. unfold marshal_string. rewrite <- app_comm_cons, <- app_assoc.
  rewrite <- (scan_string (f :: st) (Some fields) s rest Hs). done.
Qed.

(** ** Whole values *)

(** Values without numbers whose strings are ASCII. *)
Fixpoint ascii_json (v : json) : Prop :=
  match v with
  | JNull | JBool _ => True
  | JNumber _ => False
  | JString s => ascii_text s
  | JArray elems => foldr (λ v P, ascii_json v ∧ P) True elems
  | JObject fields => foldr (λ f P, (ascii_text f.1 ∧ ascii_json f.2) ∧ P) True fields
  end.

Fixpoint depth (v : json) : nat :=
  match v with
  | JArray elems => S (foldr (λ v n, depth v `max` n) 0 elems)
  | JObject fields => S (foldr (λ f n, depth f.2 `max` n) 0 fields)
  | _ => 0
  end%nat.

Fixpoint json_nested_ind (P : json → Prop) (Hnull : P JNull) (Hbool : ∀ b, P (JBool b))
    (Hnum : ∀ s, P (JNumber s)) (Hstr : ∀ s, P (JString s))
    (Harr : ∀ l, Forall P l → P (JArray l))
    (Hobj : ∀ l, Forall (λ f, P f.2) l → P (JObject l)) (v : json) : P v :=
  let go := json_nested_ind P Hnull Hbool Hnum Hstr Harr Hobj in
  match v with
  | JNull => Hnull
  | JBool b => Hbool b
  | JNumber s => Hnum s
  | JString s => Hstr s
  | JArray l => Harr l ((fix all (l : list json) : Forall P l :=
      match l with
      | [] => List.Forall_nil _
      | v :: l' => List.Forall_cons _ _ _ (go v) (all l')
      end) l)
  | JObject l => Hobj l ((fix all (l : list (string * json)) : Forall (λ f, P f.2) l :=
      match l with
      | [] => List.Forall_nil _
      | f :: l' => List.Forall_cons (λ f, P f.2) f _ (go f.2) (all l')
      end) l)
  end.

(** The scanner reads the value [v] wherever a value is expected. *)
Definition scans (v : json) : Prop := ∀ st rest,
  ascii_json v → (length st + depth v ≤ maxNestingDepth)%nat →
  steps (st, BeginValue) (marshal v ++ rest) = steps (st, EndValue v) rest.

Lemma marshal_head v : ascii_json v → ∃ c l, marshal v = c :: l ∧
  json_space c = false ∧ c ≠ "]"%char.
Proof. destruct v as [|[]| | | |]; try done; eexists _, _; (split; [reflexivity|done]). Qed.

Lemma scan_elems st acc v l rest :
  Forall scans (v :: l) → foldr (λ v P, ascii_json v ∧ P) True (v :: l) →
  (length (InArray acc :: st) + foldr (λ v n, depth v `max` n) 0 (v :: l) ≤ maxNestingDepth)%nat →
  steps (InArray acc :: st, BeginValue) (join_bytes (map marshal (v :: l)) ++ "]"%char :: rest) =
  steps (st, EndValue (JArray (rev acc ++ v :: l))) rest.
Proof.
  revert acc v. induction l as [|v' l IH]; intros acc v [Hv Hl]%Forall_cons [Ha Hal] Hd;
    cbn [foldr] in Hd.
  - cbn [map join_bytes]. rewrite Hv by (done || lia). simpl. done.
  - change (join_bytes (map marshal (v :: v' :: l)))
      with (marshal v ++ ","%char :: join_bytes (map marshal (v' :: l))).
    rewrite <- app_assoc, Hv by (done || lia).
    trans (steps (InArray (v :: acc) :: st, BeginValue)
             (join_bytes (map marshal (v' :: l)) ++ "]"%char :: rest)); [done|].
    rewrite IH; [by simpl; rewrite <- app_assoc|done|done|cbn [foldr length] in *; lia].
Qed.

(** The frame holds stale fields while a key is read. *)
Lemma scan_field st f acc0 acc k0 rest :
  scans f.2 → ascii_text f.1 → ascii_json f.2 →
  (S (length st) + depth f.2 ≤ maxNestingDepth)%nat →
  steps (InObject acc0 k0 :: st, BeginString acc)
    ((marshal_string f.1 ++ ":"%char :: marshal f.2) ++ rest) =
  steps (InObject acc f.1 :: st, EndValue f.2) rest.
Proof.
  intros Hf Hk Hv Hd. rewrite <- app_assoc, (scan_key _ _ _ _ _ Hk).
  rewrite <- (Hf (InObject acc f.1 :: st) rest) by (done || simpl; lia). done.
Qed.

Definition marshal_field (f : string * json) : list ascii :=
  marshal_string f.1 ++ ":"%char :: marshal f.2.

Lemma scan_fields st acc0 acc f l rest k0 :
  Forall (λ f, scans f.2) (f :: l) →
  foldr (λ f P, (ascii_text f.1 ∧ ascii_json f.2) ∧ P) True (f :: l) →
  (S (length st) + foldr (λ f n, depth f.2 `max` n) 0 (f :: l) ≤ maxNestingDepth)%nat →
  steps (InObject acc0 k0 :: st, BeginString acc)
    (join_bytes (map marshal_field (f :: l)) ++ "}"%char :: rest) =
  steps (st, EndValue (JObject (rev acc ++ f :: l))) rest.
Proof.
  revert acc0 acc f k0.
  induction l as [|f' l IH]; intros acc0 acc f k0 [Hf Hl]%Forall_cons [[Hk Ha] Hal] Hd;
    cbn [foldr] in Hd.
  - cbn [map join_bytes]. unfold marshal_field. rewrite scan_field by (done || lia).
    simpl. by destruct f.
  - change (join_bytes (map marshal_field (f :: f' :: l)))
      with (marshal_field f ++ ","%char :: join_bytes (map marshal_field (f' :: l))).
    rewrite <- app_assoc. unfold marshal_field at 1. rewrite scan_field by (done || lia).
    trans (steps (InObject acc f.1 :: st, BeginString ((f.1, f.2) :: acc))
             (join_bytes (map marshal_field (f' :: l)) ++ "}"%char :: rest)); [done|].
    rewrite IH; [|done|done|cbn [foldr length] in *; lia]. destruct f. simpl. by rewrite <- app_assoc.
Qed.

Lemma push_Some f m st :
  (length st < maxNestingDepth)%nat → push f m st = Some (f :: st, m).
Proof.
  intros Hd. unfold push. destruct (_ <=? _)%nat eqn:Hm; [done|].
  apply Nat.leb_gt in Hm. cbn [length] in Hm. lia.
Qed.

Lemma open_array st rest :
  (length st < maxNestingDepth)%nat →
  steps (st, BeginValue) ("["%char :: rest) = steps (InArray [] :: st, BeginValueOrEmpty) rest.
Proof.
  intros Hd. cbn [steps]. change (step (st, BeginValue) "["%char)
    with (push (InArray []) BeginValueOrEmpty st).
  by rewrite push_Some.
Qed.

Lemma open_object st rest :
  (length st < maxNestingDepth)%nat →
  steps (st, BeginValue) ("{"%char :: rest) = steps (InObject [] "" :: st, BeginStringOrEmpty) rest.
Proof.
  intros Hd. cbn [steps]. change (step (st, BeginValue) "{"%char)
    with (push (InObject [] "") BeginStringOrEmpty st).
  by rewrite push_Some.
Qed.

Lemma marshal_elems_head v l :
  ascii_json v → ∃ c bs, join_bytes (map marshal (v :: l)) = c :: bs ∧ json_space c = false ∧
    c ≠ "]"%char.
Proof.
  intros (c & bs & Hm & ? & ?)%marshal_head. destruct l; cbn [map join_bytes]; rewrite Hm; eauto.
Qed.

Lemma begin_elems st c bs :
  json_space c = false → c ≠ "]"%char →
  steps (InArray [] :: st, BeginValueOrEmpty) (c :: bs) =
  steps (InArray [] :: st, BeginValue) (c :: bs).
Proof.
  intros Hsp Hbr. cbn [steps].
  assert (step (InArray [] :: st, BeginValueOrEmpty) c = begin_value (InArray [] :: st) c) as ->;
    [|done].
  transitivity (if json_space c then Some (InArray [] :: st, BeginValueOrEmpty)
    else begin_value (InArray [] :: st) c); [|by rewrite Hsp].
  by destruct c as [[] [] [] [] [] [] [] []].
Qed.

Lemma scan_marshal v : scans v.
Proof.
  induction v as [|b|s|s|l Hl|l Hl] using json_nested_ind; intros st rest Ha Hd;
    [done|by destruct b|done|by apply scan_value_string|..];
    cbn [marshal depth] in *; rewrite <- app_comm_cons, <- app_assoc; cbn [app].
  - rewrite open_array by lia. destruct l as [|v l]; [done|].
    destruct (marshal_elems_head v l (proj1 Ha)) as (c & bs & Hc & Hsp & Hbr).
    pose proof (scan_elems st [] v l rest Hl Ha ltac:(cbn [length]; lia)) as Hscan.
    rewrite Hc, <- app_comm_cons in *. by rewrite begin_elems.
  - rewrite open_object by lia. destruct l as [|f l]; [done|].
    pose proof (scan_fields st [] [] f l rest "" Hl Ha ltac:(lia)) as Hscan.
    cbn [rev app] in Hscan. rewrite <- Hscan. by destruct l.
Qed.

Lemma marshal_parse (v : json) :
  ascii_json v → (depth v ≤ maxNestingDepth)%nat → parse (Marshal v) = Some v.
Proof.
  intros Ha Hd. unfold parse, Marshal. rewrite list_ascii_of_string_of_list_ascii.
  by rewrite (scan_marshal v [] [" "%char] Ha Hd).
Qed.

(** Marshalled values are read back: a value without numbers, whose strings
    are ASCII and which is nested no deeper than the scanner allows, is
    parsed from its encoding. *)
Theorem Marshal_round_trip (v : json) :
  ascii_json v → (depth v ≤ maxNestingDepth)%nat → parse (Marshal v) = Some v.
Proof. apply marshal_parse. Qed.

(** An object with text that needs escaping. *)
Definition example_json : json :=
  JArray [JObject [("op", JString "add"); ("value", JObject [])];
          JObject [("a<b", JString (String "034" "x\y")); ("n", JNull)]].

Theorem Marshal_round_trip_witness : parse (Marshal example_json) = Some example_json.
Proof.
  apply (Marshal_round_trip example_json).
  - repeat constructor.
  - by_decide.
Defined.
