(* ===== verification/KubeUtil.v ===== *)
(** * KubeUtil

    Package kubeutil (src/pkg/internal/kubeutil): annotating and patching a
    service with JSON patches, and the check of the Kubernetes release.  The
    Kubernetes API is the class [Kube].  An operation of a patch is a Go map
    with the keys op, path and value, which [json.Marshal] writes in this
    (sorted) order. *)

From stdpp Require Import base tactics list gmap strings.
From Stdlib Require Import ZArith.
From S2P Require Import Prelude.
From S2P Require Import GoStrings.
From S2P Require Import Json.
From S2P Require Import JsonEncode.
From S2P Require Import Cloudscale.

(** The calls of the Kubernetes client the program makes: patching a service
    (namespace, name, patch), a page of all services (continue token, limit)
    with the next token, the server's major and minor version, and an event
    for a service (type, reason, message). *)
Class Kube (W : Type) := {
  Services_Patch : string → string → string → M W unit;
  Services_List : string → Z → M W (list Service.t * string);
  ServerVersion : M W (string * string);
  Recorder_Event : Service.t → string → string → string → W → W }.

Definition operation (op path : string) (value : json) : json :=
  JObject [("op", JString op); ("path", JString path); ("value", value)].

(** https://www.rfc-editor.org/rfc/rfc6901#section-3 *)
Definition escape_key (k : string) : string :=
  ReplaceAll (ReplaceAll k "~" "~0") "/" "~1".

Section KubeUtil.
Context {W : Type} `{Kube W}.

Definition PatchService (service : Service.t) (operations : list json) : M W unit :=
  wrapM (WrapError ("failed to apply patch to " +:+ Service.Name service +:+ ": "))
    (Services_Patch (Service.Namespace service) (Service.Name service)
       (Marshal (JArray operations))).

Definition err_odd : error :=
  ErrorString "expected an even number of arguments (key, value)".
Definition err_no_client : error := ErrorString "no valid kubernetes client given".

(** The loop over the pairs. *)
Fixpoint annotate_operations (annotations : option (gmap string string)) (kv : list string)
    : list json :=
  match kv with
  | k :: v :: kv' =>
      (if match annotations with
          | Some m => bool_decide (default "" (m !! k) = v)
          | None => false
          end
       then []
       else [operation "add" ("/metadata/annotations/" +:+ escape_key k) (JString v)]) ++
      annotate_operations annotations kv'
  | _ => []
  end.

Definition all_operations (annotations : option (gmap string string)) (kv : list string)
    : list json :=
  (match annotations with
   | None => [operation "add" "/metadata/annotations" (JObject [])]
   | Some _ => []
   end) ++ annotate_operations annotations kv.

(** [client] tells whether the Kubernetes client is not nil. *)
Definition AnnotateService (client : bool) (service : Service.t) (kv : list string) : M W unit :=
  if decide (kv = []) then mret tt
  else if negb (Nat.even (length kv)) then throw err_odd
  else if negb client then throw err_no_client
  else
    let operations := all_operations (Service.Annotations service) kv in
    if decide (operations = []) then mret tt
    else PatchService service operations.

Definition PatchServiceExternalTrafficPolicy (service : Service.t) (policy : string) : M W unit :=
  if decide (Service.ExternalTrafficPolicy service = policy) then mret tt
  else PatchService service [operation "replace" "/spec/externalTrafficPolicy" (JString policy)].

(** [strconv.Atoi] with the error of the caller. *)
Definition version_number (s : string) : result Z :=
  match Atoi s with
  | (n, None) => Ok n
  | (_, Some err) => Err (WrapError ("failed to convert '" +:+ s +:+ "' to int: ") err)
  end.

Definition IsKubernetesReleaseOrNewer (major minor : Z) : M W bool :=
  release ← wrapM (WrapError "failed to read kubernetes version: ") ServerVersion;
  k8sMajor ← lift (version_number release.1);
  k8sMinor ← lift (version_number release.2);
  mret ((major <? k8sMajor)%Z || ((k8sMajor =? major)%Z && (minor <=? k8sMinor)%Z)).
End KubeUtil.
