(* ===== verification/KubeUtilSpec.v ===== *)
(** * KubeUtilSpec

    The patch [AnnotateService] sends, read by the rules of JSON patch
    (RFC 6902) and JSON pointer (RFC 6901), sets the annotations it is given
    and no others; the release check compares versions. *)

From stdpp Require Import base tactics list gmap strings pretty.
From Stdlib Require Import ZArith.
From S2P Require Import Prelude.
From S2P Require Import GoStrings.
From S2P Require Import Json.
From S2P Require Import JsonEncode.
From S2P Require Import Cloudscale.
From S2P Require Import KubeUtil.

(** ** JSON pointer and JSON patch *)

(** A reference token read back: [~1] is a slash and [~0] a tilde. *)
Fixpoint unescape_key (s : string) : string :=
  match s with
  | String "~" (String "1" s') => String "/" (unescape_key s')
  | String "~" (String "0" s') => String "~" (unescape_key s')
  | String c s' => String c (unescape_key s')
  | EmptyString => ""
  end.

(** What an [add] does to the annotations of an object: it sets the whole
    map, or one member of a map that exists. *)
Definition apply_operation (annotations : option (gmap string string)) (op : json)
    : option (option (gmap string string)) :=
  match op with
  | JObject [("op", JString "add"); ("path", JString path); ("value", value)] =>
      if decide (path = "/metadata/annotations") then
        match value with JObject [] => Some (Some ∅) | _ => None end
      else
        match drop_prefix "/metadata/annotations/" path, annotations, value with
        | Some k, Some m, JString v => Some (Some (<[unescape_key k := v]> m))
        | _, _, _ => None
        end
  | _ => None
  end.

Definition apply_operations (annotations : option (gmap string string)) (ops : list json)
    : option (option (gmap string string)) :=
  foldl (λ a op, a ← a; apply_operation a op) (Some annotations) ops.

(** ** Escaping *)

Definition escape_key_byte (c : ascii) : string :=
  if Ascii.eqb c "~" then "~0" else if Ascii.eqb c "/" then "~1" else String c "".

Lemma escape_key_cons c k : escape_key (String c k) = escape_key_byte c +:+ escape_key k.
Proof.
  unfold escape_key, escape_key_byte. cbn [ReplaceAll].
  destruct (Ascii.eqb c "~") eqn:Ht; [done|]. cbn [ReplaceAll].
  by destruct (Ascii.eqb c "/").
Qed.

Lemma unescape_escape k : unescape_key (escape_key k) = k.
Proof.
  induction k as [|c k IH]; [done|]. rewrite escape_key_cons. unfold escape_key_byte.
  destruct (Ascii.eqb c "~") eqn:Ht.
  { apply Ascii.eqb_eq in Ht as ->. rewrite !append_cons, append_nil. cbn. by rewrite IH. }
  destruct (Ascii.eqb c "/") eqn:Hs.
  { apply Ascii.eqb_eq in Hs as ->. rewrite !append_cons, append_nil. cbn. by rewrite IH. }
  rewrite append_cons, append_nil. rewrite <- IH at 2.
  by destruct c as [[] [] [] [] [] [] [] []].
Qed.

Lemma ascii_text_app s1 s2 : ascii_text s1 → ascii_text s2 → ascii_text (s1 +:+ s2).
Proof.
  unfold ascii_text. induction s1 as [|c s1 IH]; [done|]. rewrite append_cons. simpl.
  intros [Hc Hs]%Forall_cons H2. constructor; auto.
Qed.

Lemma escape_key_ascii k : ascii_text k → ascii_text (escape_key k).
Proof.
  induction k as [|c k IH]; [done|]. intros [Hc Hk]%Forall_cons. rewrite escape_key_cons.
  apply ascii_text_app; [|by apply IH]. unfold escape_key_byte.
  destruct (Ascii.eqb c "~"); [by repeat constructor|].
  destruct (Ascii.eqb c "/"); [by repeat constructor|]. by constructor.
Qed.

#[export] Hint Resolve ascii_text_app escape_key_ascii : ccm.

(** ** Applying the patch *)

Definition flatten (kv : list (string * string)) : list string :=
  flat_map (λ p, [p.1; p.2]) kv.

Definition add_operation (p : string * string) : json :=
  operation "add" ("/metadata/annotations/" +:+ escape_key p.1) (JString p.2).

Lemma apply_add m p :
  apply_operation (Some m) (add_operation p) = Some (Some (<[p.1 := p.2]> m)).
Proof.
  unfold add_operation, operation, apply_operation.
  rewrite decide_False by (by rewrite !append_cons).
  by rewrite drop_prefix_app, unescape_escape.
Qed.

(** Whether an annotation is already as wanted, in the service as given. *)
Definition already (annotations : option (gmap string string)) (p : string * string) : Prop :=
  ∃ m, annotations = Some m ∧ default "" (m !! p.1) = p.2.

Lemma annotate_operations_cons annotations p kv :
  annotate_operations annotations (flatten (p :: kv)) = add_operation p ::
    annotate_operations annotations (flatten kv) ∧ ¬ already annotations p ∨
  annotate_operations annotations (flatten (p :: kv)) =
    annotate_operations annotations (flatten kv) ∧ already annotations p.
Proof.
  destruct p as [k v]. unfold already. cbn. destruct annotations as [m|].
  - case_bool_decide as Hv; [right|left]; (split; [done|]); naive_solver.
  - left. split; [done|]. by intros (? & ? & _).
Qed.

Lemma apply_annotate annotations kv m :
  NoDup kv.*1 →
  (∀ p, p ∈ kv → already annotations p → default "" (m !! p.1) = p.2) →
  ∃ m', apply_operations (Some m) (annotate_operations annotations (flatten kv)) = Some (Some m') ∧
    (∀ p, p ∈ kv → default "" (m' !! p.1) = p.2) ∧
    (∀ k, k ∉ kv.*1 → m' !! k = m !! k).
Proof.
  revert m. induction kv as [|p kv IH]; intros m Hnd Hal.
  { exists m. split_and!; [done|by intros p ?%not_elem_of_nil|done]. }
  csimpl in Hnd. apply NoDup_cons in Hnd as [Hp Hnd].
  assert (∀ q, q ∈ kv → q.1 ≠ p.1) as Hne.
  { intros q Hq Heq. apply Hp. rewrite <- Heq. by apply list_elem_of_fmap_2. }
  destruct (annotate_operations_cons annotations p kv) as [[-> _]|[-> Hap]].
  - destruct (IH (<[p.1 := p.2]> m)) as (m' & Hm' & Hin & Hout); [done| |].
    { intros q Hq Haq. rewrite lookup_insert_ne by (symmetry; auto). apply Hal; [by right|done]. }
    exists m'. unfold apply_operations in *. cbn [foldl mbind option_bind]. rewrite apply_add.
    split_and!; [done| |].
    + intros q [->|Hq]%elem_of_cons; [|by apply Hin]. rewrite Hout by done.
      by rewrite lookup_insert_eq.
    + intros k Hk. csimpl in Hk. apply not_elem_of_cons in Hk as [Hk1 Hk2]. rewrite Hout by done. by rewrite lookup_insert_ne.
  - destruct (IH m) as (m' & Hm' & Hin & Hout); [done| |].
    { intros q Hq. apply Hal. by right. }
    exists m'. split_and!; [done| |].
    + intros q [->|Hq]%elem_of_cons; [|by apply Hin]. rewrite Hout by done.
      apply Hal; [by left|done].
    + intros k Hk. csimpl in Hk. apply not_elem_of_cons in Hk as [Hk1 Hk2]. by apply Hout.
Qed.

Lemma all_operations_apply annotations kv :
  NoDup kv.*1 →
  ∃ m', apply_operations annotations (all_operations annotations (flatten kv)) = Some (Some m') ∧
    (∀ p, p ∈ kv → default "" (m' !! p.1) = p.2) ∧
    (∀ k, k ∉ kv.*1 → m' !! k = default ∅ annotations !! k).
Proof.
  intros Hnd. unfold all_operations. destruct annotations as [m|].
  - apply (apply_annotate (Some m) kv m Hnd). intros p _ (? & [= <-] & ?). done.
  - apply (apply_annotate None kv ∅ Hnd). by intros p _ (? & ? & _).
Qed.

(** ** Its encoding *)

Lemma annotate_operations_ascii annotations kv :
  Forall (λ p, ascii_text p.1 ∧ ascii_text p.2) kv →
  Forall (λ op, ascii_json op ∧ (depth op ≤ 2)%nat)
    (annotate_operations annotations (flatten kv)).
Proof.
  induction 1 as [|p kv [Hk Hv] _ IH]; [constructor|].
  destruct (annotate_operations_cons annotations p kv) as [[-> _]|[-> _]]; [|done].
  constructor; [|done]. split; [|simpl; lia].
  assert (ascii_text "/metadata/annotations/") as Hpath by repeat constructor.
  simpl. split_and!; try by repeat constructor.
  apply (ascii_text_app "/metadata/annotations/"); auto with ccm.
Qed.

Lemma ascii_json_list ops :
  Forall (λ op, ascii_json op ∧ (depth op ≤ 2)%nat) ops →
  ascii_json (JArray ops) ∧ (depth (JArray ops) ≤ 3)%nat.
Proof.
  cbn [ascii_json depth]. induction 1 as [|op ops [Ha Hd] _ [IHa IHd]]; [split; [done|simpl; lia]|].
  cbn [foldr]. split; [done|]. lia.
Qed.

Lemma all_operations_parse annotations kv :
  Forall (λ p, ascii_text p.1 ∧ ascii_text p.2) kv →
  parse (Marshal (JArray (all_operations annotations (flatten kv)))) =
  Some (JArray (all_operations annotations (flatten kv))).
Proof.
  intros Hkv. assert (Forall (λ op, ascii_json op ∧ (depth op ≤ 2)%nat)
    (all_operations annotations (flatten kv))) as Hops.
  { unfold all_operations. apply Forall_app. split; [|by apply annotate_operations_ascii].
    destruct annotations; [constructor|]. constructor; [|constructor].
    split; [|simpl; lia]. repeat constructor. }
  apply ascii_json_list in Hops as [Ha Hd]. apply marshal_parse; [done|].
  transitivity 3%nat; [done|]. by_decide.
Qed.

Lemma annotate_operations_nil annotations kv :
  annotate_operations annotations (flatten kv) = [] → ∀ p, p ∈ kv → already annotations p.
Proof.
  induction kv as [|p kv IH]; [by intros _ p ?%not_elem_of_nil|].
  destruct (annotate_operations_cons annotations p kv) as [[-> _]|[-> Ha]]; [done|].
  intros Hn q [->|Hq]%elem_of_cons; auto.
Qed.

Lemma Nat_even_flatten kv : Nat.even (length (flatten kv)) = true.
Proof. by induction kv. Qed.

(** ** Properties *)

(** C28. Annotating a service with distinct keys either finds every value in place
    and sends nothing, or sends one patch for the service which, parsed and
    applied to its annotations by the rules of JSON patch, sets every value
    and leaves all other annotations alone, whether or not the service had
    annotations before. *)
Theorem AnnotateService_correct {W} `{Kube W} (service : Service.t)
    (kv : list (string * string)) (w : W) :
  NoDup kv.*1 → Forall (λ p, ascii_text p.1 ∧ ascii_text p.2) kv →
  (AnnotateService true service (flatten kv) w = (Ok tt, w) ∧
     ∀ p, p ∈ kv → already (Service.Annotations service) p) ∨
  ∃ patch ops m',
    AnnotateService true service (flatten kv) w =
      wrapM (WrapError ("failed to apply patch to " +:+ Service.Name service +:+ ": "))
        (Services_Patch (Service.Namespace service) (Service.Name service) patch) w ∧
    parse patch = Some (JArray ops) ∧
    apply_operations (Service.Annotations service) ops = Some (Some m') ∧
    (∀ p, p ∈ kv → default "" (m' !! p.1) = p.2) ∧
    (∀ k, k ∉ kv.*1 → m' !! k = default ∅ (Service.Annotations service) !! k).
Proof.
  intros Hnd Hascii. unfold AnnotateService. case_decide as Hnil.
  { left. split; [done|]. destruct kv; [by intros p ?%not_elem_of_nil|done]. }
  rewrite Nat_even_flatten. cbn [negb]. case_decide as Hops.
  - left. split; [done|]. apply annotate_operations_nil. unfold all_operations in Hops.
    by apply app_eq_nil in Hops as [_ ?].
  - right. destruct (all_operations_apply (Service.Annotations service) kv Hnd)
      as (m' & Happly & Hin & Hout).
    eexists _, _, m'. split; [reflexivity|]. split; [by apply all_operations_parse|]. done.
Qed.

(** An odd number of arguments and a missing client are errors; without
    arguments nothing happens. *)
Theorem AnnotateService_arguments {W} `{Kube W} (client : bool) (service : Service.t)
    (kv : list string) (w : W) :
  AnnotateService client service [] w = (Ok tt, w) ∧
  (Nat.odd (length kv) = true → AnnotateService client service kv w = (Err err_odd, w)) ∧
  (kv ≠ [] → Nat.even (length kv) = true →
   AnnotateService false service kv w = (Err err_no_client, w)).
Proof.
  split; [done|]. unfold AnnotateService. split.
  - intros Hodd. rewrite decide_False by (by intros ->). unfold Nat.odd in Hodd.
    by rewrite Hodd.
  - intros Hne Heven. by rewrite decide_False, Heven.
Qed.

(** The release check compares versions lexicographically, and it reads
    only plain decimal numbers: a minor version such as [30+] is an error. *)
Theorem IsKubernetesReleaseOrNewer_correct {W} `{Kube W} (major minor kmajor kminor : Z)
    (w w' : W) :
  (minInt64 ≤ kmajor ≤ maxInt64)%Z → (0 ≤ kminor ≤ maxInt64)%Z →
  (ServerVersion w = (Ok (Itoa kmajor, Itoa kminor), w') →
   ∃ b, IsKubernetesReleaseOrNewer major minor w = (Ok b, w') ∧
     (b = true ↔ (major < kmajor ∨ major = kmajor ∧ minor ≤ kminor)%Z)) ∧
  (ServerVersion w = (Ok (Itoa kmajor, Itoa kminor +:+ "+"), w') →
   ∃ e, IsKubernetesReleaseOrNewer major minor w = (Err e, w')).
Proof.
  intros Hmaj Hmin. unfold IsKubernetesReleaseOrNewer, mbind, M_bind, wrapM, lift, version_number.
  split; intros ->; simpl; rewrite Atoi_Itoa by done.
  - rewrite Atoi_Itoa by (unfold minInt64; lia). eexists. split; [reflexivity|].
    rewrite orb_true_iff, andb_true_iff, Z.ltb_lt, Z.eqb_eq, Z.leb_le. lia.
  - destruct (Atoi_plus (Itoa kminor)) as (v & e & ->). by eexists.
Qed.
