(* ===== verification/LoadBalancerHandlers.v ===== *)
(** * LoadBalancerHandlers

    src/pkg/cloudscale_ccm/loadbalancer.go: the operations Kubernetes calls
    for a service of type LoadBalancer, with the validation in front of them
    and the status they report.

    The handlers run one at a time per service (see [Locks]); here is what
    one of them does between taking and releasing its lock.  The service is a
    pointer.  The nodes are pointers into the cache of the caller and not nil.
    The parser of label selectors is the class [LabelsPackage]. *)

From stdpp Require Import base tactics list gmap strings pretty.
From Stdlib Require Import ZArith.
From S2P Require Import Prelude.
From S2P Require Import GoStrings.
From S2P Require Import Json.
From S2P Require Import Limiter.
From S2P Require Import Cloudscale.
From S2P Require Import ServiceInfo.
From S2P Require Import LbState.
From S2P Require Import NextActions.
From S2P Require Import LbMapper.
From S2P Require Import ActualState.
From S2P Require Import Reconcile.
From S2P Require Import ProviderID.
From S2P Require Import ServerMapper.
From S2P Require Import KubeUtil.

(** Package k8s.io/apimachinery/pkg/labels. *)
Class LabelsPackage := {
  Selector : Type;
  labels_Everything : Selector;
  labels_Parse : string → result Selector;
  Matches : Selector → gmap string string → bool }.

(** [v1.LoadBalancerIngress] *)
Module Ingress.
Record t := Mk { IP : string; Hostname : string; IPMode : option string }.
#[global] Instance t_eq_dec : EqDecision t.
Proof. solve_decision. Defined.
End Ingress.

(** [v1.LoadBalancerStatus]: the ingress items. *)
Definition LoadBalancerStatus : Type := list Ingress.t.

Definition nil_dereference : string := "invalid memory address or nil pointer dereference".

Section calls.
Context {W : Type}.

(** [if err != nil { return wrap(err) }] after a call that may not return. *)
Definition wrapD {A} (f : error → error) (m : D W A) : D W A :=
  λ w, match m w with None => None | Some (r, w') => Some (wrap_err f r, w') end.
End calls.

Section handlers.
Context {W : Type} `{Client W} `{Kube W} `{GoExt} `{SDK} `{UUIDPackage} `{LabelsPackage}.

(** ** Validation *)

(** The Floating IPs of one other service that are also in [ips]. *)
Definition service_conflicts (info : serviceInfo) (ips : list string)
    (conflicts : gmap string string) (service : Service.t) : gmap string string :=
  if decide (Service.Type_ service ≠ "LoadBalancer") then conflicts
  else if decide (Service.UID service = Service.UID (svc info)) then conflicts
  else
    match annotationList (MkServiceInfo service (clusterName info)) LoadBalancerFloatingIPs with
    | Ok other =>
        foldl (λ c ip, if decide (ip ∈ ips) then <[ip := Service.Name service]> c else c)
          conflicts other
    | Err _ | Panic _ => conflicts
    end.

(** The loop over the pages; [fuel] bounds their number. *)
Fixpoint list_conflicts (fuel : nat) (info : serviceInfo) (ips : list string)
    (conflicts : gmap string string) (token : string) : D W (gmap string string) :=
  match fuel with
  | O => out_of_fuel
  | S fuel' =>
      services ← call (wrapM (WrapError "failed to retrieve services: ")
                         (Services_List token 250));
      let conflicts := foldl (service_conflicts info ips) conflicts services.1 in
      if decide (services.2 = "") then mret conflicts
      else list_conflicts fuel' info ips conflicts services.2
  end.

Definition findIPsAssignedElsewhere (fuel : nat) (info : serviceInfo)
    : D W (gmap string string) :=
  ips ← call (lift (annotationList info LoadBalancerFloatingIPs));
  if decide (ips = []) then mret ∅ else list_conflicts fuel info ips ∅ "".

Definition err_conflict (info : serviceInfo) (pairs : list (string * string)) : error :=
  ErrorString ("at least one Floating IP assigned to service " +:+ Service.Name (svc info) +:+
    " is also assigned to another service. Refusing to continue to avoid flapping: " +:+
    GoStrings.Join (map (λ p, p.1 +:+ "->" +:+ p.2) pairs) ", ").

Definition ensureValidConfig `{MapOrder} (fuel : nat) (info : serviceInfo) : D W unit :=
  match isSupported info with
  | (false, Some err) => call (throw err)
  | (false, None) => mret tt
  | (true, _) =>
      ips ← wrapD (λ _, err_parse_floating) (findIPsAssignedElsewhere fuel info);
      if decide (0 < size ips)%nat then call (throw (err_conflict info (range [5%nat] ips)))
      else mret tt
  end.

Definition filterNodesBySelector (info : serviceInfo) (nodes : list Node.t)
    : result (list Node.t) :=
  let v := annotation info LoadBalancerNodeSelector in
  selector ← (if decide (v = "") then Ok labels_Everything
              else wrap_err (WrapError "unable to parse selector: ") (labels_Parse v));
  Ok (filter (λ node, Matches selector (Node.Labels node) = true) nodes).

(** ** The status *)

Definition err_ip_mode (mode : string) : error :=
  ErrorString ("unsupported IP mode: '" +:+ mode +:+ "', must be 'Proxy' or 'VIP'").

Definition ingress_of (supportsIPMode : bool) (mode : string) (a : VIPAddress.t) : Ingress.t :=
  Ingress.Mk (VIPAddress.Address a) "" (if supportsIPMode then Some mode else None).

Definition loadBalancerStatus (info : serviceInfo) (lb : LoadBalancer.t)
    : M W LoadBalancerStatus :=
  let hostname := annotation info LoadBalancerForceHostname in
  if decide (hostname ≠ "") then mret [Ingress.Mk "" hostname None]
  else
    let mode := annotation info LoadBalancerIPMode in
    if decide (mode = "Proxy" ∨ mode = "VIP") then
      supportsIPMode ← wrapM (WrapError "failed to get load balancer status: ")
                         (IsKubernetesReleaseOrNewer 1 30);
      mret (map (ingress_of supportsIPMode mode) (LoadBalancer.VIPAddresses lb))
    else throw (err_ip_mode mode).

(** ** The handlers *)

(** The status, whether the load balancer exists, and the error. *)
Definition GetLoadBalancer (clusterName : string) (service : option Service.t)
    : M W (option LoadBalancerStatus * bool * option error) :=
  info ← lift (newServiceInfo service clusterName);
  if negb (isSupported info).1 then mret (None, false, None)
  else
    found ← findByServiceInfo info;
    match AtMostOne found with
    | Err err =>
        mret (None, false, Some (WrapError
          ("unable to get load balancer for " +:+ Service.Name (svc info) +:+ ": ") err))
    | Panic msg => lift (Panic msg)
    | Ok None => mret (None, false, None)
    | Ok (Some instance) =>
        try (loadBalancerStatus info instance)
          (λ status, mret (Some status, true, None))
          (λ err, mret (None, true, Some (WrapError
             ("unable to get load balancer state for " +:+ Service.Name (svc info) +:+ ": ") err)))
    end.

Definition GetLoadBalancerName (clusterName : string) (service : option Service.t)
    : result string :=
  info ← newServiceInfo service clusterName;
  Ok (annotation info LoadBalancerName).

(** The functions passed to [reconcileLbState]. *)
Definition desiredState (info : serviceInfo) (nodes : list Node.t) : M W lbState :=
  found ← mapNodes nodes;
  servers ← lift (wrap_err
    (WrapError ("unable to get load balancer for " +:+ Service.Name (svc info) +:+ ": "))
    (All found));
  lift (desiredLbState info nodes servers).

Definition no_valid_nodes (info : serviceInfo) : string :=
  "No valid nodes for service found, double-check node-selector annotation: " +:+
  LoadBalancerNodeSelector +:+ ": " +:+ annotation info LoadBalancerNodeSelector.

Definition warn_no_nodes (info : serviceInfo) (nodes : list Node.t) : M W unit := λ w,
  (Ok tt, match nodes with
          | [] => Recorder_Event (svc info) "Warning" "NoValidNodes" (no_valid_nodes info) w
          | _ => w
          end).

(** What [EnsureLoadBalancer] and [UpdateLoadBalancer] have in common; the
    service has been dereferenced for its lock. *)
Definition reconcileService `{MapOrder} (fuel : nat) (orders : nat → MapOrder)
    (info : serviceInfo) (nodes : list Node.t) : D W unit :=
  _ ← ensureValidConfig fuel info;
  filteredNodes ← call (lift (filterNodesBySelector info nodes));
  _ ← call (warn_no_nodes info filteredNodes);
  reconcileLbState fuel orders (desiredState info filteredNodes) (actualLbState info).

(** [actual.lb] is dereferenced without a check. *)
Definition EnsureLoadBalancer `{MapOrder} (fuel : nat) (orders : nat → MapOrder)
    (clusterName : string) (service : option Service.t) (nodes : list Node.t)
    : D W LoadBalancerStatus :=
  match service with
  | None => call (lift (Panic nil_dereference))
  | Some service =>
      let info := MkServiceInfo service clusterName in
      _ ← reconcileService fuel orders info nodes;
      actual ← call (actualLbState info);
      let version := annotation info LoadBalancerConfigVersion in
      match lb actual with
      | None => call (lift (Panic nil_dereference))
      | Some l =>
          _ ← call (wrapM (WrapError ("unable to annotate service " +:+ Service.Name service +:+ ": "))
                      (AnnotateService true service
                        [LoadBalancerUUID; LoadBalancer.UUID l;
                         LoadBalancerConfigVersion; version;
                         LoadBalancerZone; LoadBalancer.Zone l]));
          call (wrapM (WrapError ("unable to get load balancer state for " +:+
                         Service.Name service +:+ ": "))
                  (loadBalancerStatus info l))
      end
  end.

Definition UpdateLoadBalancer `{MapOrder} (fuel : nat) (orders : nat → MapOrder)
    (clusterName : string) (service : option Service.t) (nodes : list Node.t) : D W unit :=
  match service with
  | None => call (lift (Panic nil_dereference))
  | Some service => reconcileService fuel orders (MkServiceInfo service clusterName) nodes
  end.

Definition EnsureLoadBalancerDeleted `{MapOrder} (fuel : nat) (orders : nat → MapOrder)
    (clusterName : string) (service : option Service.t) : D W unit :=
  match service with
  | None => call (lift (Panic nil_dereference))
  | Some service =>
      let info := MkServiceInfo service clusterName in
      _ ← ensureValidConfig fuel info;
      reconcileLbState fuel orders (mret zeroLbState) (actualLbState info)
  end.
End handlers.
