(* ===== verification/LoadBalancerSpec.v ===== *)
(** * LoadBalancerSpec

    What the handlers guarantee: a Floating IP used twice blocks every change,
    success of [EnsureLoadBalancer] and [EnsureLoadBalancerDeleted] means that
    the last look at the load balancer showed the intended state, the reported
    status, and when a load balancer is reported to exist. *)

From stdpp Require Import base tactics list gmap strings pretty.
From Stdlib Require Import ZArith.
From S2P Require Import Prelude.
From S2P Require Import GoStrings.
From S2P Require Import Json.
From S2P Require Import Limiter.
From S2P Require Import Cloudscale.
From S2P Require Import ServiceInfo.
From S2P Require Import Actions.
From S2P Require Import LbState.
From S2P Require Import NextActions.
From S2P Require Import LbStateSpec.
From S2P Require Import LbMapper.
From S2P Require Import ActualState.
From S2P Require Import ActualStateSpec.
From S2P Require Import Reconcile.
From S2P Require Import ReconcileSpec.
From S2P Require Import ProviderID.
From S2P Require Import ServerMapper.
From S2P Require Import KubeUtil.
From S2P Require Import LoadBalancerHandlers.

Section spec.
Context {W : Type} `{Client W} `{Kube W} `{GoExt} `{SDK} `{UUIDPackage} `{LabelsPackage}.
Implicit Types (info : serviceInfo) (w : W) (service : Service.t).

Lemma D_bind_Ok {A B} (m : D W A) (f : A → D W B) w b w' :
  (m ≫= f) w = Some (Ok b, w') ↔ ∃ a w1, m w = Some (Ok a, w1) ∧ f a w1 = Some (Ok b, w').
Proof. unfold mbind, D_bind. destruct (m w) as [[[a|e|msg] w1]|]; naive_solver. Qed.

Lemma call_Ok {A} (m : M W A) w r w' : call m w = Some (r, w') ↔ m w = (r, w').
Proof. unfold call. split; [by intros [= ->]|by intros ->]. Qed.

(** ** Floating IPs of other services *)

(** The pages of a listing that changes nothing, from a token on. *)
Inductive pages w : string → list (list Service.t) → Prop :=
| last_page token items :
    Services_List token 250 w = (Ok (items, ""), w) → pages w token [items]
| more_pages token items next rest :
    Services_List token 250 w = (Ok (items, next), w) → next ≠ "" →
    pages w next rest → pages w token (items :: rest).

(** The pages of a listing in the states [I], which it does not leave. *)
Inductive listing (I : W → Prop) : string → list (list Service.t) → Prop :=
| listing_last token items :
    (∀ w, I w → ∃ w', Services_List token 250 w = (Ok (items, ""), w') ∧ I w') →
    listing I token [items]
| listing_more token items next rest :
    (∀ w, I w → ∃ w', Services_List token 250 w = (Ok (items, next), w') ∧ I w') → next ≠ "" →
    listing I next rest → listing I token (items :: rest).

Lemma pages_listing w token ps : pages w token ps → listing (eq w) token ps.
Proof.
  induction 1; [apply listing_last; intros ? <-; by exists w|].
  apply (listing_more _ _ _ next); [intros ? <-; by exists w|done..].
Qed.

(** Another load balancer service whose list of Floating IPs has the IP. *)
Definition uses_ip info service (ip : string) : Prop :=
  Service.Type_ service = "LoadBalancer" ∧ Service.UID service ≠ Service.UID (svc info) ∧
  ∃ other, annotationList (MkServiceInfo service (clusterName info)) LoadBalancerFloatingIPs =
    Ok other ∧ ip ∈ other.

Lemma elem_of_foldl_insert (ips other : list string) (name : string) (c : gmap string string) ip :
  is_Some (foldl (λ c ip, if decide (ip ∈ ips) then <[ip := name]> c else c) c other !! ip) ↔
  is_Some (c !! ip) ∨ ip ∈ ips ∧ ip ∈ other.
Proof.
  revert c. induction other as [|o other IH]; intros c; cbn [foldl].
  { rewrite elem_of_nil. tauto. }
  rewrite IH, elem_of_cons. case_decide as Ho; [|naive_solver].
  rewrite lookup_insert_is_Some. destruct (decide (o = ip)); naive_solver.
Qed.

Lemma service_conflicts_spec info ips c service ip :
  is_Some (service_conflicts info ips c service !! ip) ↔
  is_Some (c !! ip) ∨ ip ∈ ips ∧ uses_ip info service ip.
Proof.
  unfold service_conflicts, uses_ip. case_decide as Ht; [naive_solver|].
  case_decide as Hu; [naive_solver|].
  destruct (annotationList _ _) as [other|e|msg] eqn:Ha.
  - rewrite elem_of_foldl_insert. naive_solver.
  - naive_solver.
  - naive_solver.
Qed.

Lemma page_conflicts_spec info ips services c ip :
  is_Some (foldl (service_conflicts info ips) c services !! ip) ↔
  is_Some (c !! ip) ∨ ip ∈ ips ∧ ∃ service, service ∈ services ∧ uses_ip info service ip.
Proof.
  revert c. induction services as [|s services IH]; intros c; cbn [foldl].
  { setoid_rewrite elem_of_nil. naive_solver. }
  rewrite IH, service_conflicts_spec. setoid_rewrite elem_of_cons. naive_solver.
Qed.

Lemma list_conflicts_spec fuel info ips (I : W → Prop) c token w ps :
  listing I token ps → I w → (length ps ≤ fuel)%nat →
  ∃ c' w', list_conflicts fuel info ips c token w = Some (Ok c', w') ∧ I w' ∧
    ∀ ip, is_Some (c' !! ip) ↔
      is_Some (c !! ip) ∨ ip ∈ ips ∧ ∃ service, service ∈ concat ps ∧ uses_ip info service ip.
Proof.
  intros Hp. revert fuel c w. induction Hp as [token items Hl|token items next rest Hl Hne _ IH];
    intros [|fuel] c w Hw Hf; cbn [length] in Hf; [lia| |lia|]; cbn [list_conflicts];
    destruct (Hl w Hw) as (w1 & Hl1 & Hw1);
    unfold mbind, D_bind, call, wrapM; rewrite Hl1; cbn [wrap_err fst snd].
  - rewrite decide_True by done. eexists _, w1. split; [reflexivity|]. split; [done|]. intros ip.
    rewrite page_conflicts_spec. cbn [concat]. by rewrite app_nil_r.
  - rewrite decide_False by done.
    destruct (IH fuel (foldl (service_conflicts info ips) c items) w1 Hw1) as (c' & w2 & Hc' & Hw2 & Hin);
      [lia|].
    exists c', w2. split; [exact Hc'|]. split; [done|]. intros ip. rewrite Hin, page_conflicts_spec.
    cbn [concat]. setoid_rewrite elem_of_app. naive_solver.
Qed.

(** An IP of the service that another service has, among the listed ones. *)
Definition conflicting info (services : list Service.t) : Prop :=
  ∃ ips ip service, annotationList info LoadBalancerFloatingIPs = Ok ips ∧ ip ∈ ips ∧
    service ∈ services ∧ uses_ip info service ip.

Lemma isSupported_true info :
  Service.LoadBalancerClass (svc info) = None → isSupported info = (true, None).
Proof. unfold isSupported. by intros ->. Qed.

Lemma mapR_no_panic {A B} (f : A → result B) l msg :
  (∀ x msg, f x ≠ Panic msg) → mapR f l ≠ Panic msg.
Proof.
  intros Hf. induction l as [|x l IH]; [done|]. cbn [mapR mbind].
  destruct (f x) as [y|e|msg'] eqn:Hx; [|done|by destruct (Hf x msg')]. cbn.
  by destruct (mapR f l); intros ?; simplify_eq/=.
Qed.

Lemma annotationList_no_panic info key msg : annotationList info key ≠ Panic msg.
Proof.
  unfold annotationList. case_decide; [done|].
  unfold Unmarshal_strings, parseR. destruct (parse _) as [j|]; [|done]. cbn.
  assert (decode_slice decode_string j ≠ Panic msg) as Hd.
  { destruct j; try done. apply mapR_no_panic. by intros []. }
  by destruct (decode_slice decode_string j).
Qed.

(** The validation on a supported service, against a listing in pages. *)
Lemma ensureValidConfig_listing `{MapOrder} fuel info (I : W → Prop) w ps :
  Service.LoadBalancerClass (svc info) = None →
  listing I "" ps → I w → (length ps ≤ fuel)%nat →
  ∃ r w', ensureValidConfig fuel info w = Some (r, w') ∧ I w' ∧
    (r = Ok tt ↔ is_Ok (annotationList info LoadBalancerFloatingIPs) ∧
       ¬ conflicting info (concat ps)) ∧
    ∀ msg, r ≠ Panic msg.
Proof.
  intros Hsup Hp Hw Hf. unfold ensureValidConfig. rewrite (isSupported_true _ Hsup).
  unfold findIPsAssignedElsewhere, conflicting, is_Ok, mbind, D_bind, wrapD, call, lift.
  destruct (annotationList info LoadBalancerFloatingIPs) as [ips|e|msg] eqn:Ha.
  - case_decide as Hips; [subst ips|].
    + eexists _, w. split; [reflexivity|]. split; [done|]. cbn. split; [|done]. split; [|done]. intros _.
      split; [eauto|]. by intros (? & ? & ? & [= <-] & ?%not_elem_of_nil & _).
    + destruct (list_conflicts_spec fuel info ips I ∅ "" w ps Hp Hw Hf) as (c & w1 & -> & Hw1 & Hc).
      cbn [wrap_err]. assert (size c = 0%nat ↔ ¬ ∃ ip, is_Some (c !! ip)) as Hsize.
      { rewrite map_size_empty_iff. split.
        - intros -> [ip [? ?]]. by rewrite lookup_empty in *.
        - intros Hn. apply map_empty. intros ip. apply eq_None_not_Some. naive_solver. }
      case_decide as Hlt.
      * eexists _, w1. split; [reflexivity|]. split; [done|]. split; [|done]. split; [done|]. intros [_ Hn].
        exfalso. assert (size c = 0%nat); [|lia]. apply Hsize. intros [ip Hip]. apply Hn.
        apply Hc in Hip as [Hip|(Hin & service & ? & ?)]; [by apply lookup_empty_is_Some in Hip|].
        by exists ips, ip, service.
      * eexists _, w1. split; [reflexivity|]. split; [done|]. split; [|done]. split; [|done]. intros _.
        split; [eauto|].
        intros (ips' & ip & service & [= <-] & Hin & Hs & Hu).
        apply (proj1 Hsize); [lia|]. exists ip. apply Hc. right. eauto.
  - eexists _, w. split; [reflexivity|]. split; [done|]. cbn. split; [|done]. split; [done|].
    by intros [[? ?] _].
  - by destruct (annotationList_no_panic info LoadBalancerFloatingIPs msg).
Qed.

Lemma ensureValidConfig_spec `{MapOrder} fuel info w ps :
  Service.LoadBalancerClass (svc info) = None →
  pages w "" ps → (length ps ≤ fuel)%nat →
  ∃ r, ensureValidConfig fuel info w = Some (r, w) ∧
    (r = Ok tt ↔ is_Ok (annotationList info LoadBalancerFloatingIPs) ∧
       ¬ conflicting info (concat ps)) ∧
    ∀ msg, r ≠ Panic msg.
Proof.
  intros Hsup Hp%pages_listing Hf.
  destruct (ensureValidConfig_listing fuel info _ w ps Hsup Hp eq_refl Hf) as (r & w' & Hr & <- & Hspec).
  by exists r.
Qed.

(** C19. The validation passes exactly if the list of Floating IPs can be read and
    no other load balancer service, on any page, has one of them.  If it
    fails, every handler that changes something returns its error, and the
    world is as it was before. *)
Theorem invalid_config_changes_nothing `{MapOrder} fuel orders service clusterName nodes w ps :
  let info := MkServiceInfo service clusterName in
  Service.LoadBalancerClass service = None →
  pages w "" ps → (length ps ≤ fuel)%nat →
  ∃ r, ensureValidConfig fuel info w = Some (r, w) ∧
    (r = Ok tt ↔ is_Ok (annotationList info LoadBalancerFloatingIPs) ∧
       ¬ conflicting info (concat ps)) ∧
    (r ≠ Ok tt → ∃ e,
       EnsureLoadBalancer fuel orders clusterName (Some service) nodes w = Some (Err e, w) ∧
       UpdateLoadBalancer fuel orders clusterName (Some service) nodes w = Some (Err e, w) ∧
       EnsureLoadBalancerDeleted fuel orders clusterName (Some service) w = Some (Err e, w)).
Proof.
  intros info Hsup Hp Hf.
  destruct (ensureValidConfig_spec fuel info w ps Hsup Hp Hf) as (r & Hr & Hiff & Hpanic).
  exists r. split; [done|]. split; [done|]. intros Hne.
  destruct r as [[]|e|msg]; [done| |by destruct (Hpanic msg)]. exists e.
  unfold EnsureLoadBalancer, UpdateLoadBalancer, EnsureLoadBalancerDeleted, reconcileService.
  unfold mbind, D_bind. fold info. by rewrite Hr.
Qed.

(** ** Success *)

Lemma desiredState_lb info nodes w desired w' :
  desiredState info nodes w = (Ok desired, w') → is_Some (lb desired).
Proof.
  unfold desiredState. rewrite M_bind_Ok. intros (found & w1 & _ & Hd).
  apply M_bind_Ok in Hd as (servers & w2 & _ & Hd). unfold lift in Hd. injection Hd as Hd _.
  apply desiredLbState_Ok in Hd as (_ & l & ips & _ & _ & Hf).
  apply foldR_ports in Hf as (_ & Hlb & _); [|auto with ccm].
  rewrite Hlb. by eexists.
Qed.

(** C18. When [EnsureLoadBalancer] succeeds, its last round saw a load balancer
    that is ready and has exactly the structure desired for the servers of
    the selected nodes, and ran what was left to update to its end; it has
    then read the load balancer again, annotated
    the service with its UUID, its zone and the configuration version, and
    returns its status. *)
Theorem EnsureLoadBalancer_success `{MapOrder} fuel orders service clusterName nodes w status w' :
  let info := MkServiceInfo service clusterName in
  EnsureLoadBalancer fuel orders clusterName (Some service) nodes w = Some (Ok status, w') →
  ∃ selected desired actual dlb alb i plan final l w0 w1 w2 w3 w4 w5,
    filterNodesBySelector info nodes = Ok selected ∧
    desiredState info selected w0 = (Ok desired, w1) ∧
    actualLbState info w1 = (Ok actual, w2) ∧
    lb desired = Some dlb ∧ lb actual = Some alb ∧ structure_agrees desired actual ∧
    @nextLbActions _ _ (orders i) (Some desired) (Some actual) = Ok plan ∧
    proceeds plan w2 w3 ∧
    actualLbState info w3 = (Ok final, w4) ∧ lb final = Some l ∧
    AnnotateService true service
      [LoadBalancerUUID; LoadBalancer.UUID l;
       LoadBalancerConfigVersion; annotation info LoadBalancerConfigVersion;
       LoadBalancerZone; LoadBalancer.Zone l] w4 = (Ok tt, w5) ∧
    loadBalancerStatus info l w5 = (Ok status, w').
Proof.
  intros info. unfold EnsureLoadBalancer. fold info. rewrite D_bind_Ok.
  intros ([] & w3 & Hr & Hfinal). unfold reconcileService in Hr.
  apply D_bind_Ok in Hr as ([] & wv & _ & Hr).
  apply D_bind_Ok in Hr as (selected & ws & Hs%call_Ok & Hr).
  apply D_bind_Ok in Hr as ([] & we & _ & Hr).
  apply reconcile_success in Hr as (i & d & a & w0 & w1 & w2 & next & Hd & Ha & Hn & Hp & Hagree).
  apply D_bind_Ok in Hfinal as (final & w4 & Hf%call_Ok & Hfinal).
  destruct (lb final) as [l|] eqn:Hl; [|done].
  apply D_bind_Ok in Hfinal as ([] & w5 & Han%call_Ok & Hst%call_Ok).
  apply wrapM_Ok in Han, Hst.
  destruct (desiredState_lb _ _ _ _ _ Hd) as [dlb Hdlb].
  destruct (lb a) as [alb|] eqn:Halb; [|by unfold structure_agrees in Hagree; rewrite Hdlb, Halb in Hagree].
  exists selected, d, a, dlb, alb, i, next, final, l, w0, w1, w2, w3, w4, w5.
  unfold lift in Hs. injection Hs as Hs _. by split_and!.
Qed.

(** When [EnsureLoadBalancerDeleted] succeeds, its last look found no load
    balancer for the service, or one that was ready and whose deletion
    succeeded as the last step. *)
Theorem EnsureLoadBalancerDeleted_success `{MapOrder} fuel orders service clusterName w w' :
  let info := MkServiceInfo service clusterName in
  EnsureLoadBalancerDeleted fuel orders clusterName (Some service) w = Some (Ok tt, w') →
  ∃ actual w0 w1, actualLbState info w0 = (Ok actual, w1) ∧
    match lb actual with
    | None => w' = w1
    | Some l => LoadBalancer.Status l ≠ "changing" ∧
        ∃ w2, Run (DeleteResource (LoadBalancer.HREF l)) w2 = (Ok (Proceed, None), w')
    end.
Proof.
  intros info. unfold EnsureLoadBalancerDeleted. fold info. rewrite D_bind_Ok.
  intros ([] & wv & _ & Hr).
  apply reconcile_success in Hr as (i & d & a & w0 & w1 & w2 & next & Hd & Ha & Hn & Hp & Hagree).
  injection Hd as <- <-. exists a, w0, w2. split; [done|].
  unfold nextLbActions in Hn. unfold structure_agrees in Hagree. cbn [lb zeroLbState] in *.
  destruct (lb a) as [l|]; injection Hn as <-; [|by inversion Hp].
  split; [done|]. inversion Hp as [|? ? ? ? ? ? _ _ Hp2]; subst.
  inversion Hp2 as [|? ? ? wr ? ? _ Hrun Hp3]; subst. inversion Hp3; subst. by eexists.
Qed.

(** ** Status and existence *)

(** The status names the forced host name alone, or the addresses of the load
    balancer in their order, with the IP mode if the cluster knows it; an
    unknown IP mode is an error before the cluster is asked. *)
Theorem loadBalancerStatus_correct info l w :
  let hostname := annotation info LoadBalancerForceHostname in
  let mode := annotation info LoadBalancerIPMode in
  (hostname ≠ "" → loadBalancerStatus info l w = (Ok [Ingress.Mk "" hostname None], w)) ∧
  (hostname = "" → mode ≠ "Proxy" → mode ≠ "VIP" →
   loadBalancerStatus info l w = (Err (err_ip_mode mode), w)) ∧
  (∀ b w', hostname = "" → mode = "Proxy" ∨ mode = "VIP" →
   IsKubernetesReleaseOrNewer 1 30 w = (Ok b, w') →
   ∃ items, loadBalancerStatus info l w = (Ok items, w') ∧
     Ingress.IP <$> items = VIPAddress.Address <$> LoadBalancer.VIPAddresses l ∧
     Forall (λ i, Ingress.Hostname i = "" ∧
                  Ingress.IPMode i = if b then Some mode else None) items).
Proof.
  intros hostname mode. unfold loadBalancerStatus. fold hostname mode.
  generalize hostname mode. clear hostname mode. intros hostname mode.
  split; [intros Hh; by rewrite decide_True|]. split.
  - intros -> Hm1 Hm2. rewrite decide_False by (intros []; done).
    rewrite decide_False by (by intros []). done.
  - intros b w' -> Hmode Hk. rewrite decide_False by (intros []; done).
    rewrite decide_True by done. unfold mbind, M_bind, wrapM. rewrite Hk.
    eexists. split; [reflexivity|]. split.
    + rewrite <- list_fmap_compose. by apply list_fmap_ext.
    + apply Forall_forall. intros i (a & -> & _)%list_elem_of_fmap. by destruct b.
Qed.

Lemma status_no_panic info l w :
  (∀ w msg, (ServerVersion w).1 ≠ Panic msg) →
  ∃ r w', loadBalancerStatus info l w = (r, w') ∧ ∀ msg, r ≠ Panic msg.
Proof.
  intros Hv. unfold loadBalancerStatus. case_decide; [by eexists _, _|].
  case_decide; [|by eexists _, _].
  unfold IsKubernetesReleaseOrNewer, mbind, M_bind, wrapM, lift, version_number.
  pose proof (Hv w) as Hw. destruct (ServerVersion w) as [[[ma mi]|e|msg] w1];
    [|by eexists _, _|by destruct (Hw msg)].
  cbn. destruct (Atoi ma) as [? [?|]]; [by eexists _, _|]. cbn.
  destruct (Atoi mi) as [? [?|]]; by eexists _, _.
Qed.

(** C29. Against an API that answers, a load balancer is reported to exist exactly
    if one belongs to the service, and to be missing exactly if none does;
    several are an error.  A service of another class never has one. *)
Theorem GetLoadBalancer_correct (x : api) service clusterName w :
  let info := MkServiceInfo service clusterName in
  serves w x → annotation info LoadBalancerName ≠ "" →
  (∀ w msg, (ServerVersion w).1 ≠ Panic msg) →
  ∃ status exists_ err w',
    GetLoadBalancer clusterName (Some service) w = (Ok (status, exists_, err), w') ∧
    match Service.LoadBalancerClass service with
    | Some _ => (status, exists_, err) = (None, false, None)
    | None =>
        (exists_ = true ↔ ∃ l, ∀ l', l' ∈ api_lbs x ∧ belongs info l' ↔ l' = l) ∧
        (exists_ = false ∧ err = None ↔ ∀ l, l ∈ api_lbs x → ¬ belongs info l)
    end.
Proof.
  intros info Hw Hname Hv. unfold GetLoadBalancer, isSupported. cbn [newServiceInfo].
  unfold mbind, M_bind, lift. fold info. cbn [svc info].
  destruct (Service.LoadBalancerClass service) as [class|]; cbn [fst negb].
  { by eexists _, _, _, _. }
  destruct (findByServiceInfo_serves info x w Hw Hname) as (found & -> & Hnd & Hin).
  destruct found as [|l [|l2 found]]; cbn.
  - eexists _, _, _, _. split; [reflexivity|]. split; split; try done.
    + intros [l Hl]. assert (l ∈ []) as []%not_elem_of_nil. apply Hin. by apply Hl.
    + intros _ l Hl Hb. by eapply not_elem_of_nil, Hin.
  - assert (∀ l', l' ∈ api_lbs x ∧ belongs info l' ↔ l' = l) as Hone.
    { intros l'. rewrite <- Hin. apply list_elem_of_singleton. }
    destruct (status_no_panic info l w Hv) as (r & w' & Hr & Hp). unfold try. rewrite Hr.
    destruct (proj2 (Hone l) eq_refl) as [Hl Hb].
    destruct r as [st|e|msg]; [| |by destruct (Hp msg)]; eexists _, _, _, _;
      (split; [reflexivity|]; split; split; [by exists l|done|by intros [? _]|naive_solver]).
  - eexists _, _, _, _. split; [reflexivity|].
    destruct (proj1 (Hin l)) as [Hl Hb]; [by left|].
    destruct (proj1 (Hin l2)) as [Hl2 Hb2]; [by right; left|].
    apply NoDup_cons in Hnd as [Hne _].
    split; split; [done| |by intros [_ ?]|intros Hn; by destruct (Hn l)].
    intros [l' Hall]. destruct Hne. rewrite (proj1 (Hall l)) by done.
    rewrite <- (proj1 (Hall l2)) by done. by left.
Qed.

(** If the node selector leaves no node, the desired state keeps every pool
    but empties it, so that reconciling removes all members; it exists only
    if a zone is set by annotation, since no server tells it. *)
Theorem no_nodes_empty_pools info w :
  ∃ r, desiredState info [] w = (r, w) ∧
    (is_Ok r → annotation info LoadBalancerZone ≠ "") ∧
    ∀ s, r = Ok s →
      length (pools s) = length (Service.Ports (svc info)) ∧
      ∀ i, (i < length (pools s))%nat → slice_at (members s) (Some i) = [].
Proof.
  exists (desiredLbState info [] []). split; [done|]. split.
  - intros [s (_ & l & ips & (vip & _ & Hz & _) & _)%desiredLbState_Ok] Ha.
    destruct Hz as [Hne [Hz|(_ & [|k] & m & Hz)]]; [congruence|done..].
  - intros s (_ & l & ips & _ & _ & Hf)%desiredLbState_Ok.
    apply foldR_ports in Hf as (_ & _ & _ & Hlen & _ & Hports); [|auto with ccm].
    cbn [pools length Nat.add] in Hlen, Hports. split; [done|]. intros i Hi.
    destruct (lookup_lt_is_Some_2 (Service.Ports (svc info)) i) as [port Hport]; [lia|].
    destruct (Hports i port Hport) as [_ (al & mo & li & _ & -> & _)]. done.
Qed.
End spec.
