(* ===== verification/HandlersConverge.v ===== *)
(** * HandlersConverge

    The handlers of the cloud provider, from the call to the state of the
    account afterwards: against an API with [ApiLaws] and a cluster with
    [KubeLaws], [EnsureLoadBalancer] and [UpdateLoadBalancer] return without
    an error and leave the load balancer of the service as its annotations
    and nodes ask for, and [EnsureLoadBalancerDeleted] leaves none. *)

From stdpp Require Import base tactics list gmap strings.
From Stdlib Require Import ZArith.
From S2P Require Import Prelude.
From S2P Require Import GoStrings.
From S2P Require Import Json.
From S2P Require Import Limiter.
From S2P Require Import Cloudscale.
From S2P Require Import ServiceInfo.
From S2P Require Import LbState.
From S2P Require Import NextActions.
From S2P Require Import NextActionsSpec.
From S2P Require Import LbMapper.
From S2P Require Import ActualState.
From S2P Require Import ActualStateSpec.
From S2P Require Import Reconcile.
From S2P Require Import ApiLaws.
From S2P Require Import Descent.
From S2P Require Import Progress.
From S2P Require Import Settings.
From S2P Require Import Converge.
From S2P Require Import Realisable.
From S2P Require Import ProviderID.
From S2P Require Import ServerMapper.
From S2P Require Import InstancesSpec.
From S2P Require Import JsonEncode.
From S2P Require Import KubeUtil.
From S2P Require Import LoadBalancerHandlers.
From S2P Require Import LoadBalancerSpec.

(** What the calls to the cluster do: they succeed and leave the account
    alone.  The servers of the account do not change either, nor what the
    listing of services shows. *)
Class KubeLaws (W : Type) `{ApiLaws W, !Kube W} := {
  listed_servers : list Server.t;
  services_page : string → list Service.t * string;
  law_services w x token : good w x → ∃ w',
    Services_List token 250 w = (Ok (services_page token), w') ∧ steady good busy w x w';
  law_servers w x : good w x → answers_servers (steady good busy w x) listed_servers;
  law_patch namespace name patch w x : good w x → ∃ w',
    Services_Patch namespace name patch w = (Ok tt, w') ∧ good w' x;
  law_event service type_ reason message w x : good w x →
    good (Recorder_Event service type_ reason message w) x;
  law_version w x : good w x → ∃ major minor w',
    ServerVersion w = (Ok (Itoa major, Itoa minor), w') ∧ good w' x ∧
    (minInt64 ≤ major ≤ maxInt64)%Z ∧ (minInt64 ≤ minor ≤ maxInt64)%Z }.

Section handlers.
Context {W : Type} `{!Client W} `{!ApiLaws W} `{!Kube W} `{!KubeLaws W}.
Context `{GoExt} `{SDK} `{UUIDPackage} `{LabelsPackage}.
Implicit Types (info : serviceInfo) (w : W) (x : api) (service : Service.t).

Lemma annotate_good service kv w x :
  Nat.even (length kv) = true → good w x → ∃ w', AnnotateService true service kv w = (Ok tt, w') ∧ good w' x.
Proof.
  intros Hev Hg. unfold AnnotateService. case_decide; [by exists w|]. rewrite Hev. simpl.
  case_decide; [by exists w|]. unfold PatchService, wrapM.
  destruct (law_patch (Service.Namespace service) (Service.Name service)
    (Marshal (JArray (all_operations (Service.Annotations service) kv))) w x Hg) as (w' & -> & Hg').
  by exists w'.
Qed.

(** The status can be told: there is a forced host name, or a known IP mode. *)
Definition status_known info : Prop :=
  annotation info LoadBalancerForceHostname ≠ "" ∨
  annotation info LoadBalancerIPMode = "Proxy" ∨ annotation info LoadBalancerIPMode = "VIP".

Lemma status_good info l w x :
  status_known info → good w x → ∃ status w', loadBalancerStatus info l w = (Ok status, w') ∧ good w' x.
Proof.
  intros Hk Hg. unfold loadBalancerStatus. case_decide as Hh; [by eexists _, w|].
  rewrite decide_True by (by destruct Hk).
  destruct (law_version w x Hg) as (major & minor & w' & Hv & Hg' & Hma & Hmi).
  unfold IsKubernetesReleaseOrNewer, mbind, M_bind, wrapM, lift. rewrite Hv. simpl.
  unfold version_number. rewrite !Atoi_Itoa by done. simpl. by eexists _, w'.
Qed.

Lemma warn_good info nodes w x : good w x → ∃ w', warn_no_nodes info nodes w = (Ok tt, w') ∧ good w' x.
Proof.
  intros Hg. unfold warn_no_nodes. destruct nodes; [|by exists w].
  eexists. split; [done|]. by apply law_event.
Qed.

(** The servers named by the nodes are found in every state. *)
Lemma desiredState_good info nodes servers desired w x :
  (∀ s, match uuid_Parse s with Panic _ => False | _ => True end) →
  Forall2 (identifies listed_servers) nodes servers →
  desiredLbState info nodes servers = Ok desired → good w x →
  ∃ w', desiredState info nodes w = (Ok desired, w') ∧ steady good busy w x w'.
Proof.
  intros Hp Hn Hd Hg. unfold desiredState, mapNodes, mbind, M_bind, lift.
  destruct (mapNodes_loop_answers _ listed_servers (law_servers w x Hg) Hp w nodes [])
    as (found & w' & -> & Hs & Hall); [by apply steady_refl|].
  assert (All found = Ok servers) as -> by (apply Hall; by exists servers). cbn.
  rewrite Hd. by exists w'.
Qed.

(** The pages of the listing, from a token on. *)
Inductive listed_pages : string → list (list Service.t) → Prop :=
| last_listed token :
    (services_page token).2 = "" → listed_pages token [(services_page token).1]
| more_listed token rest :
    (services_page token).2 ≠ "" → listed_pages (services_page token).2 rest →
    listed_pages token ((services_page token).1 :: rest).

Lemma listed_listing w x token ps :
  listed_pages token ps → listing (steady good busy w x) token ps.
Proof.
  assert (∀ token w1, steady good busy w x w1 → ∃ w2, Services_List token 250 w1 =
    (Ok ((services_page token).1, (services_page token).2), w2) ∧ steady good busy w x w2) as Hl.
  { intros t w1 Hs. destruct (law_services w1 x t (proj1 Hs)) as (w2 & Hr & Hs2).
    exists w2. rewrite <- surjective_pairing. split; [done|]. by eapply steady_trans. }
  induction 1 as [token Hlast|token rest Hmore _ IH].
  - apply listing_last. intros w1 Hs. rewrite <- Hlast. by apply Hl.
  - apply (listing_more _ _ _ (services_page token).2); [|done|done]. intros w1 Hs. by apply Hl.
Qed.

(** A service this program is responsible for, with Floating IPs that no
    service on the pages of the cluster's listing has as well. *)
Definition admitted (fuel : nat) info : Prop :=
  Service.LoadBalancerClass (svc info) = None ∧
  is_Ok (annotationList info LoadBalancerFloatingIPs) ∧
  ∃ ps, listed_pages "" ps ∧ (length ps ≤ fuel)%nat ∧ ¬ conflicting info (concat ps).

Lemma admitted_valid `{MapOrder} fuel info w x :
  admitted fuel info → good w x →
  ∃ w', ensureValidConfig fuel info w = Some (Ok tt, w') ∧ steady good busy w x w'.
Proof.
  intros (Hc & Hi & ps & Hps & Hf & Hn) Hg.
  destruct (ensureValidConfig_listing fuel info _ w ps Hc (listed_listing w x "" ps Hps))
    as (r & w' & -> & Hs & Hr & _); [by apply steady_refl|done|].
  exists w'. by rewrite (proj2 Hr) by done.
Qed.

(** The nodes the service selects, the servers they name, and the state that
    is desired for them. *)
Record wanted info nodes (desired : lbState) (dlb : LoadBalancer.t)
    (algorithms protocols : list string) : Prop := {
  wanted_parser s : match uuid_Parse s with Panic _ => False | _ => True end;
  wanted_state : ∃ selected servers,
    filterNodesBySelector info nodes = Ok selected ∧
    Forall2 (identifies listed_servers) selected servers ∧
    desiredLbState info selected servers = Ok desired ∧
    service_ready (W := W) info servers algorithms protocols;
  wanted_lb : lb desired = Some dlb }.

Lemma reconcileService_converges `{MapOrder} fuel orders info nodes desired dlb algorithms protocols w x :
  admitted fuel info → wanted info nodes desired dlb algorithms protocols →
  reachable info desired dlb algorithms protocols x → good w x →
  (rounds_bound (W := W) desired x < fuel)%nat →
  ∃ w' x' l, reconcileService fuel orders info nodes w = Some (Ok tt, w') ∧
    good w' x' ∧ in_place info desired dlb x' l.
Proof.
  intros Ha [Hp (selected & servers & Hs & Hi & Hd & Hr) Hl] Hre Hg Hf.
  destruct (admitted_valid fuel info w x Ha Hg) as (w0 & Hv & Hg0 & _).
  unfold reconcileService, mbind, D_bind, call, lift. rewrite Hv, Hs.
  destruct (warn_good info selected w0 x Hg0) as (w1 & -> & Hg1).
  eapply (reconcile_converges info desired dlb algorithms protocols); [|done|done| |done].
  - by eapply state_realisable.
  - intros w2 x2 Hg2. by eapply desiredState_good.
Qed.

(** Reading again finds the one load balancer of the service. *)
Lemma actual_owner info w x l :
  looked_up known_names known_uuids info → good w x → owner info x l →
  ∃ s k w', actualLbState info w = (Ok s, w') ∧ good w' x ∧ lb s = Some k ∧ same_lb l k.
Proof.
  intros Hn Hg Ho.
  destruct (actualLbState_answers _ _ _ _ _ (good_answers w x Hg) info w)
    as (r & w' & -> & [Hg' _] & Hr); [by apply steady_refl|done|].
  destruct (owner_elem _ _ _ Ho) as [Hl Hb].
  destruct r as [s|e|msg]; [| |done].
  - destruct Hr as [[_ Hno]|(l0 & k & Hl0 & [Hs _] & Hr)]; [by destruct (Hno l)|].
    exists s, k, w'. split; [done|]. split; [done|]. split; [by apply (the_lb _ _ _ Hr)|].
    by assert (l = l0) as -> by (by apply Hl0).
  - destruct Hr as (l1 & l2 & Hne & Hl1 & Hb1 & Hl2 & Hb2). destruct Hne.
    trans l; [by apply Ho|symmetry; by apply Ho].
Qed.

(** The handlers, from the call to the account afterwards. *)
Lemma ensure_converges `{MapOrder} fuel orders service clusterName nodes
    desired dlb algorithms protocols w x :
  let info := MkServiceInfo service clusterName in
  admitted fuel info → wanted info nodes desired dlb algorithms protocols →
  status_known info →
  reachable info desired dlb algorithms protocols x → good w x →
  (rounds_bound (W := W) desired x < fuel)%nat →
  ∃ status w' x' l,
    EnsureLoadBalancer fuel orders clusterName (Some service) nodes w = Some (Ok status, w') ∧
    good w' x' ∧ in_place info desired dlb x' l.
Proof.
  intros info Ha Hw Hk Hre Hg Hf.
  assert (looked_up known_names known_uuids info) as Hn.
  { destruct Hw as [_ (selected & servers & _ & _ & _ & Hr) _]. by apply (ready_known _ _ _ _ Hr). }
  destruct (reconcileService_converges fuel orders info nodes desired dlb algorithms protocols w x
    Ha Hw Hre Hg Hf) as (w1 & x1 & l & Hr & Hg1 & Hin).
  destruct (actual_owner info w1 x1 l Hn Hg1 (placed_owner _ _ _ _ _ Hin)) as (s & k & w1' & Hs & Hg1' & Hl & _).
  unfold EnsureLoadBalancer. fold info. unfold mbind, D_bind, call, wrapM. rewrite Hr, Hs, Hl.
  edestruct (annotate_good service) as (w2 & -> & Hg2); [reflexivity|exact Hg1'|]. cbn.
  destruct (status_good info k w2 x1 Hk Hg2) as (status & w3 & -> & Hg3). cbn.
  by exists status, w3, x1, l.
Qed.


Theorem UpdateLoadBalancer_converges `{MapOrder} fuel orders service clusterName nodes
    desired dlb algorithms protocols w x :
  let info := MkServiceInfo service clusterName in
  admitted fuel info → wanted info nodes desired dlb algorithms protocols →
  reachable info desired dlb algorithms protocols x → good w x →
  (rounds_bound (W := W) desired x < fuel)%nat →
  ∃ w' x' l, UpdateLoadBalancer fuel orders clusterName (Some service) nodes w = Some (Ok tt, w') ∧
    good w' x' ∧ in_place info desired dlb x' l.
Proof. intros info. apply reconcileService_converges. Qed.

Lemma delete_converges `{MapOrder} fuel orders service clusterName w x :
  let info := MkServiceInfo service clusterName in
  admitted fuel info → looked_up known_names known_uuids info → good w x →
  (no_owner info x ∨ ∃ l, owner info x l) → (patience (W := W) < fuel)%nat →
  ∃ w' x', EnsureLoadBalancerDeleted fuel orders clusterName (Some service) w = Some (Ok tt, w') ∧
    good w' x' ∧ no_owner info x'.
Proof.
  intros info Ha Hn Hg Hcase Hf. unfold EnsureLoadBalancerDeleted. fold info.
  destruct (admitted_valid fuel info w x Ha Hg) as (w0 & Hv & Hg0 & _).
  unfold mbind, D_bind. rewrite Hv. by apply reconcile_deletes with x.
Qed.
(** [EnsureLoadBalancerDeleted] terminates: a service this program admits and
    that has at most one load balancer has none when the call returns, and it
    returns without an error. *)
Theorem EnsureLoadBalancerDeleted_converges `{MapOrder} fuel orders service clusterName w x :
  let info := MkServiceInfo service clusterName in
  admitted fuel info → looked_up known_names known_uuids info → good w x →
  (no_owner info x ∨ ∃ l, owner info x l) → (patience (W := W) < fuel)%nat →
  ∃ w' x', EnsureLoadBalancerDeleted fuel orders clusterName (Some service) w = Some (Ok tt, w') ∧
    good w' x' ∧ no_owner info x'.
Proof. apply delete_converges. Qed.
End handlers.
