(* ===== verification/Sharing.v ===== *)
(** * Sharing

    What a service sees of an account it shares with others: its own load
    balancers, their pools with all below, and the Floating IPs that are in its
    annotations or assigned to them.  Every write that is about them has, on
    this view, the effect it has on the account. *)

From stdpp Require Import base tactics list gmap strings.
From Stdlib Require Import ZArith.
From S2P Require Import Prelude.
From S2P Require Import GoStrings.
From S2P Require Import Cloudscale.
From S2P Require Import ServiceInfo.
From S2P Require Import Actions.
From S2P Require Import LbState.
From S2P Require Import ActualState.
From S2P Require Import ActualStateSpec.
From S2P Require Import ApiLaws.
From S2P Require Import Descent.
From S2P Require Import Tasks.
From S2P Require Import Progress.
From S2P Require Import Settings.
From S2P Require Import NextActionsPlan.
From S2P Require Import PlanTasks.
From S2P Require Import Converge.

(** ** Lists *)

Section lists.
Context {A B : Type}.

Lemma filter_ext_elem (P Q : A → Prop) `{!∀ a, Decision (P a), !∀ a, Decision (Q a)} (l : list A) :
  (∀ a, a ∈ l → P a ↔ Q a) → filter P l = filter Q l.
Proof.
  induction l as [|a l IH]; intros HPQ; [done|]. rewrite !filter_cons.
  rewrite IH by (intros b Hb; apply HPQ; by right).
  pose proof (HPQ a ltac:(by left)). repeat case_decide; naive_solver.
Qed.

Lemma Forall2_filter (R : A → B → Prop) (P : A → Prop) (Q : B → Prop)
    `{!∀ a, Decision (P a), !∀ b, Decision (Q b)} l k :
  (∀ a b, a ∈ l → R a b → P a ↔ Q b) → Forall2 R l k → Forall2 R (filter P l) (filter Q k).
Proof.
  intros HPQ Hl. induction Hl as [|a b l k Hab _ IH]; [constructor|]. rewrite !filter_cons.
  assert (Forall2 R (filter P l) (filter Q k)) as Hlk by (apply IH; intros a' b' Ha'; apply HPQ; by right).
  pose proof (HPQ a b ltac:(by left) Hab). repeat case_decide; [by constructor|naive_solver..].
Qed.

Lemma filter_fmap_iff (f : A → A) (P : A → Prop) `{!∀ a, Decision (P a)} (l : list A) :
  (∀ a, P (f a) ↔ P a) → filter P (f <$> l) = f <$> filter P l.
Proof.
  intros Hf. induction l as [|a l IH]; [done|]. rewrite fmap_cons, !filter_cons, IH.
  pose proof (Hf a). repeat case_decide; naive_solver.
Qed.
End lists.

Lemma Forall2_compose {A B C} (R : A → B → Prop) (S : B → C → Prop) (T : A → C → Prop) l k m :
  (∀ a b c, R a b → S b c → T a c) → Forall2 R l k → Forall2 S k m → Forall2 T l m.
Proof.
  intros HT Hl. revert m. induction Hl as [|a b l k Hab _ IH]; intros m Hm; inversion Hm; subst;
    constructor; eauto.
Qed.

#[export] Instance same_lb_equivalence : Equivalence same_lb.
Proof.
  split.
  - intros l. by split; [split|].
  - intros l l' [[] ?]. by split; [split|].
  - intros l1 l2 l3 [[] ?] [[] ?]. split; [split|]; congruence.
Qed.

Lemma shown_same_uuids ls ls' :
  Forall2 same_lb ls ls' → LoadBalancer.UUID <$> ls' = LoadBalancer.UUID <$> ls.
Proof.
  induction 1 as [|l l' ls ls' [Hs _] _ IH]; [done|]. by rewrite !fmap_cons, IH, (same_lb_uuid _ _ Hs).
Qed.

(** The lists below a pool, from its parts. *)
Lemma parts_lists x x' p : parts x p = parts x' p →
  api_members x (Pool.UUID p) = api_members x' (Pool.UUID p) ∧
  listeners_of (api_listeners x) p = listeners_of (api_listeners x') p ∧
  monitors_of (api_monitors x) p = monitors_of (api_monitors x') p.
Proof.
  assert (∀ ms ls os, (omap (λ y, match y with PMember m => Some m | _ => None end)
      ((PMember <$> ms) ++ (PListener <$> ls) ++ (PMonitor <$> os)) = ms) ∧
    (omap (λ y, match y with PListener l => Some l | _ => None end)
      ((PMember <$> ms) ++ (PListener <$> ls) ++ (PMonitor <$> os)) = ls) ∧
    (omap (λ y, match y with PMonitor m => Some m | _ => None end)
      ((PMember <$> ms) ++ (PListener <$> ls) ++ (PMonitor <$> os)) = os)) as Hom.
  { intros ms ls os. rewrite !omap_app.
    assert (∀ {X} (c : X → part) {Y} (g : part → option Y) (h : X → option Y) (l : list X),
      (∀ a, g (c a) = h a) → omap g (c <$> l) = omap h l) as Hc.
    { intros X c Y g h l Hg. induction l as [|a l IH]; [done|]. csimpl. by rewrite Hg, IH. }
    assert (∀ {X Y} (l : list X), omap (λ _, @None Y) l = []) as Hnone.
    { intros X Y l. by induction l. }
    assert (∀ {X} (l : list X), omap Some l = l) as Hsome.
    { intros X l. induction l as [|a l IH]; [done|]. csimpl. by rewrite IH. }
    split_and!.
    - rewrite (Hc _ PMember _ _ Some), (Hc _ PListener _ _ (λ _, None)),
        (Hc _ PMonitor _ _ (λ _, None)) by done. by rewrite Hsome, !Hnone, app_nil_r.
    - rewrite (Hc _ PMember _ _ (λ _, None)), (Hc _ PListener _ _ Some),
        (Hc _ PMonitor _ _ (λ _, None)) by done. by rewrite Hsome, !Hnone, app_nil_r.
    - rewrite (Hc _ PMember _ _ (λ _, None)), (Hc _ PListener _ _ (λ _, None)),
        (Hc _ PMonitor _ _ Some) by done. by rewrite Hsome, !Hnone. }
  unfold parts. intros Heq.
  destruct (Hom (api_members x (Pool.UUID p)) (listeners_of (api_listeners x) p)
    (monitors_of (api_monitors x) p)) as (H1 & H2 & H3). rewrite Heq in H1, H2, H3.
  destruct (Hom (api_members x' (Pool.UUID p)) (listeners_of (api_listeners x') p)
    (monitors_of (api_monitors x') p)) as (H1' & H2' & H3'). split_and!; congruence.
Qed.

(** The Floating IPs in the annotations, as requests address them. *)
Definition service_ips (info : serviceInfo) : list string :=
  match annotationList info LoadBalancerFloatingIPs with
  | Ok cidrs => ip_of_cidr <$> cidrs
  | Err _ | Panic _ => []
  end.

(** ** The view *)

Section view.
Context (info : serviceInfo).
Implicit Types (x y : api) (l : LoadBalancer.t) (p : Pool.t) (f : FloatingIP.t).

Definition own_lbs x : list LoadBalancer.t := filter (belongs info) (api_lbs x).
Definition own_uuids x : list string := LoadBalancer.UUID <$> own_lbs x.
Definition own_pools x : list Pool.t := filter (λ p, Pool.LoadBalancer p ∈ own_uuids x) (api_pools x).

Definition own_ip (uuids : list string) f : Prop :=
  ip_of_cidr (FloatingIP.Network f) ∈ service_ips info ∨
  FloatingIP.LoadBalancer f ∈ Some <$> uuids.
#[export] Instance own_ip_dec uuids f : Decision (own_ip uuids f).
Proof. unfold own_ip. apply _. Defined.

Definition own_ips x : list FloatingIP.t := filter (own_ip (own_uuids x)) (api_ips x).

Definition view x : api :=
  MkApi (own_lbs x) (own_pools x) (api_members x) (api_monitors x) (api_listeners x) (own_ips x).

(** [y] is what the service sees of [x], up to the status of load balancers. *)
Record sees x y : Prop := {
  sees_lbs : Forall2 same_lb (own_lbs x) (api_lbs y);
  sees_pools : api_pools y = own_pools x;
  sees_parts p : p ∈ api_pools y → parts y p = parts x p;
  sees_floating l : l ∈ api_lbs y → floating_listeners (LoadBalancer.UUID l) (api_listeners y) =
    floating_listeners (LoadBalancer.UUID l) (api_listeners x);
  sees_ips : api_ips y = own_ips x }.

(** A change that does not concern the service. *)
Record unconcerned x x' : Prop := {
  unconcerned_lbs : Forall2 same_lb (own_lbs x) (own_lbs x');
  unconcerned_pools : own_pools x' = own_pools x;
  unconcerned_parts p : p ∈ own_pools x → parts x' p = parts x p;
  unconcerned_floating u : u ∈ own_uuids x →
    floating_listeners u (api_listeners x') = floating_listeners u (api_listeners x);
  unconcerned_ips : own_ips x' = own_ips x }.

Lemma sees_view x : sees x (view x).
Proof. by split. Qed.

Lemma sees_uuids x y : sees x y → LoadBalancer.UUID <$> api_lbs y = own_uuids x.
Proof. intros Hs. apply shown_same_uuids, Hs. Qed.

Lemma sees_uuid x y l : sees x y → l ∈ api_lbs y → LoadBalancer.UUID l ∈ own_uuids x.
Proof. intros Hs Hl. rewrite <- (sees_uuids x y Hs). by apply list_elem_of_fmap_2. Qed.

Lemma sees_unconcerned x x' y : sees x y → unconcerned x x' → sees x' y.
Proof.
  intros Hs [Hl Hp Hpa Hf Hi]. pose proof (sees_pools _ _ Hs) as Hps. split.
  - etrans; [symmetry; exact Hl|apply Hs].
  - by rewrite Hp.
  - intros p Hin. rewrite Hpa by (by rewrite <- Hps). by apply (sees_parts _ _ Hs).
  - intros l Hin. rewrite Hf by (by eapply sees_uuid). by apply (sees_floating _ _ Hs).
  - rewrite Hi. apply Hs.
Qed.

(** What is seen is there. *)
Lemma sees_lb x y l : sees x y → l ∈ api_lbs y → ∃ l0, l0 ∈ api_lbs x ∧ belongs info l0 ∧ same_lb l0 l.
Proof.
  intros Hs [i Hi]%list_elem_of_lookup.
  destruct (Forall2_lookup_r _ _ _ _ _ (sees_lbs _ _ Hs) Hi) as (l0 & Hl0 & Hsame).
  apply list_elem_of_lookup_2, list_elem_of_filter in Hl0 as [Hb Hl0]. by exists l0.
Qed.

Lemma sees_own_lb x y l0 : sees x y → l0 ∈ api_lbs x → belongs info l0 → ∃ l, l ∈ api_lbs y ∧ same_lb l0 l.
Proof.
  intros Hs Hl0 Hb. assert (l0 ∈ own_lbs x) as Hin by (by apply list_elem_of_filter).
  apply list_elem_of_lookup in Hin as [i Hi].
  destruct (Forall2_lookup_l _ _ _ _ _ (sees_lbs _ _ Hs) Hi) as (l & Hl & Hsame).
  exists l. split; [by eapply list_elem_of_lookup_2|done].
Qed.

Lemma sees_pool x y p : sees x y → p ∈ api_pools y → p ∈ api_pools x ∧ Pool.LoadBalancer p ∈ own_uuids x.
Proof. intros Hs. rewrite (sees_pools _ _ Hs). unfold own_pools. rewrite list_elem_of_filter. tauto. Qed.

(** The resource a resource of the view stands for. *)
Definition stands_for (r0 r : resource) : Prop :=
  match r, r0 with
  | RLb l, RLb l0 => same_lb l0 l
  | RPool p, RPool p0 => p0 = p
  | RPart p b, RPart p0 b0 => p0 = p ∧ b0 = b
  | _, _ => False
  end.

Lemma sees_holds x y r : sees x y → holds y r → ∃ r0, holds x r0 ∧ href r0 = href r ∧ stands_for r0 r.
Proof.
  intros Hs [l Hl|p Hp|p b Hp Hb].
  - destruct (sees_lb x y l Hs Hl) as (l0 & Hl0 & _ & Hsame). exists (RLb l0).
    split; [by constructor|]. split; [|done]. symmetry. apply (same_href _ _ (proj1 Hsame)).
  - exists (RPool p). split; [constructor; by eapply sees_pool|done].
  - rewrite (sees_parts _ _ Hs p Hp) in Hb. exists (RPart p b).
    split; [constructor; [by eapply sees_pool|done]|done].
Qed.

Lemma sees_ok x y : sees x y → api_ok x → api_ok y.
Proof.
  intros Hs Hok. assert (NoDup (LoadBalancer.UUID <$> api_lbs y)) as Hnd.
  { rewrite (sees_uuids x y Hs). eapply sublist_NoDup; [apply (lb_uuids _ Hok)|].
    apply fmap_sublist, sublist_filter. }
  split.
  - done.
  - rewrite (sees_pools _ _ Hs). eapply sublist_NoDup; [apply (pool_uuids _ Hok)|].
    apply fmap_sublist, sublist_filter.
  - intros p Hp. rewrite (sees_parts _ _ Hs p Hp). apply (parts_listed_once _ Hok). by eapply sees_pool.
  - intros r1 r2 H1 H2 Heq.
    destruct (sees_holds x y r1 Hs H1) as (s1 & Hs1 & Hh1 & Hr1), (sees_holds x y r2 Hs H2) as (s2 & Hs2 & Hh2 & Hr2).
    assert (s1 = s2) as <- by (apply (hrefs_unique _ Hok); congruence).
    destruct r1, r2, s1; simpl in *; try done; [|congruence|naive_solver].
    f_equal. inversion H1; inversion H2; subst.
    apply (NoDup_key_inj LoadBalancer.UUID (api_lbs y)); [done..|].
    by rewrite (same_lb_uuid _ _ (proj1 Hr1)), (same_lb_uuid _ _ (proj1 Hr2)).
  - intros p q l k Hl Hk. destruct (sees_holds x y _ Hs Hl) as ([| |p0 b0] & Hl0 & _ & Hr); try done.
    destruct (sees_holds x y _ Hs Hk) as ([| |q0 c0] & Hk0 & _ & Hr'); try done.
    destruct Hr as [-> ->], Hr' as [-> ->]. by apply (listener_uuids _ Hok).
  - intros p q m n Hm Hn. destruct (sees_holds x y _ Hs Hm) as ([| |p0 b0] & Hm0 & _ & Hr); try done.
    destruct (sees_holds x y _ Hs Hn) as ([| |q0 c0] & Hn0 & _ & Hr'); try done.
    destruct Hr as [-> ->], Hr' as [-> ->]. by apply (monitor_uuids _ Hok).
Qed.

(** ** Effects on the view *)

Section effects.
Context (x x' y : api) (Hs : sees x y).

Lemma view_parts p : p ∈ api_pools y → parts x' p = parts x p → parts (view x') p = parts y p.
Proof. intros Hp Heq. rewrite (sees_parts _ _ Hs p Hp), <- Heq. done. Qed.

Lemma view_lbs : same_lbs x x' → same_lbs y (view x').
Proof.
  intros Hl. unfold same_lbs, view. simpl.
  assert (Forall2 same_lb (own_lbs x) (own_lbs x')) as Hown.
  { apply Forall2_filter; [|done]. intros a b _. apply same_lb_belongs. }
  etrans; [symmetry; apply (sees_lbs _ _ Hs)|exact Hown].
Qed.

Lemma own_uuids_same : same_lbs x x' → own_uuids x' = own_uuids x.
Proof.
  intros Hl. unfold own_uuids. apply shown_same_uuids. apply Forall2_filter; [|done].
  intros a b _. apply same_lb_belongs.
Qed.

Lemma view_pools : same_lbs x x' → api_pools x' = api_pools x → api_pools (view x') = api_pools y.
Proof.
  intros Hl Hp. rewrite (sees_pools _ _ Hs). simpl. unfold own_pools.
  by rewrite Hp, (own_uuids_same Hl).
Qed.

Lemma view_ips : same_lbs x x' → api_ips x' = api_ips x → api_ips (view x') = api_ips y.
Proof.
  intros Hl Hi. rewrite (sees_ips _ _ Hs). simpl. unfold own_ips. by rewrite Hi, (own_uuids_same Hl).
Qed.

Lemma seen_pool p : p ∈ api_pools y → p ∈ api_pools x.
Proof. intros Hp. by eapply sees_pool. Qed.

Lemma view_idle : idle x x' → idle y (view x').
Proof.
  intros [Hl Hp Hpa Hi]. split; [by apply view_lbs|by apply view_pools| |by apply view_ips].
  intros p Hin. apply view_parts; [done|]. by apply Hpa, seen_pool.
Qed.

Lemma view_updated change : updated change x x' → updated change y (view x').
Proof.
  intros [Hl Hp Hpa Hi]. split; [by apply view_lbs|by apply view_pools| |by apply view_ips].
  intros q Hin. rewrite (sees_parts _ _ Hs q Hin). by apply (Hpa q), seen_pool.
Qed.

Lemma view_created_part uuid b : created_part uuid b x x' → created_part uuid b y (view x').
Proof.
  intros [Hl Hp Hpa Hi]. split; [by apply view_lbs|by apply view_pools| |by apply view_ips].
  intros q Hin. rewrite (sees_parts _ _ Hs q Hin). by apply (Hpa q), seen_pool.
Qed.

Lemma view_created_pool req p :
  PoolRequest.LoadBalancer req ∈ own_uuids x → created_pool req p x x' → created_pool req p y (view x').
Proof.
  intros Hreq [Hn Ha Hpr Hlb Hl Hp He Hpa Hi]. split; try done; [by apply view_lbs| | |by apply view_ips].
  - rewrite (sees_pools _ _ Hs). simpl. unfold own_pools. rewrite (own_uuids_same Hl), Hp, filter_cons.
    by rewrite decide_True by congruence.
  - intros q Hq. apply view_parts; [done|]. by apply Hpa, seen_pool.
Qed.

Lemma view_assigned ip uuid :
  ip ∈ service_ips info → assigned ip uuid x x' → assigned ip uuid y (view x').
Proof.
  intros Hip [Hl Hp Hpa Hi]. split; [by apply view_lbs|by apply view_pools| |].
  - intros p Hin. apply view_parts; [done|]. by apply Hpa, seen_pool.
  - rewrite (sees_ips _ _ Hs). simpl. unfold own_ips. rewrite (own_uuids_same Hl), Hi.
    apply filter_fmap_iff. intros f. unfold own_ip. simpl. case_decide as Hf; [|done]. subst. tauto.
Qed.

Lemma view_renamed uuid name :
  api_ok x → uuid ∈ own_uuids x → name = annotation info LoadBalancerName →
  renamed_lb uuid name x x' → renamed_lb uuid name y (view x').
Proof.
  intros Hok Hu -> [Hl Hp Hpa Hi].
  assert (Forall2 (λ l l', same_lb_as l l' ∧ LoadBalancer.Name l' =
      if decide (LoadBalancer.UUID l = uuid) then annotation info LoadBalancerName else LoadBalancer.Name l)
    (own_lbs x) (own_lbs x')) as Hown.
  { apply Forall2_filter; [|done]. intros a b Ha [Hab Hn]. unfold belongs.
    rewrite (same_lb_uuid _ _ Hab), Hn. case_decide as Heq; [|done].
    apply list_elem_of_fmap in Hu as (l & -> & [Hb Hin]%list_elem_of_filter).
    rewrite (NoDup_key_inj _ _ a l (lb_uuids _ Hok) Ha Hin Heq). split; [by right|]. intros _. exact Hb. }
  assert (own_uuids x' = own_uuids x) as Hus.
  { unfold own_uuids. induction Hown as [|a b la lb [Hab _] _ IH]; [done|].
    by rewrite !fmap_cons, IH, (same_lb_uuid _ _ Hab). }
  split.
  - simpl. eapply (Forall2_compose same_lb); [|symmetry; apply (sees_lbs _ _ Hs)|exact Hown].
    intros a b c [Hab Hnab] [Hbc Hnbc]. split; [destruct Hab, Hbc; split; congruence|].
    by rewrite Hnbc, (same_lb_uuid _ _ Hab), Hnab.
  - simpl. rewrite (sees_pools _ _ Hs). unfold own_pools. by rewrite Hus, Hp.
  - intros p Hin. apply view_parts; [done|]. by apply Hpa, seen_pool.
  - simpl. rewrite (sees_ips _ _ Hs). unfold own_ips. by rewrite Hus, Hi.
Qed.

Lemma view_created_lb req l :
  LoadBalancerRequest.Name req = annotation info LoadBalancerName →
  created_lb req l x x' → created_lb req l y (view x').
Proof.
  intros Hreq [Hn Hf Hz Hv (ls & Hls & Hsame) He Hfree Hp Hpa Hi].
  assert (belongs info l) as Hb by (right; congruence).
  assert (own_lbs x' ≡ₚ l :: filter (belongs info) ls) as Hown.
  { unfold own_lbs. rewrite Hls, filter_cons. by rewrite decide_True. }
  assert (Forall2 same_lb (own_lbs x) (filter (belongs info) ls)) as Hrest.
  { apply Forall2_filter; [|done]. intros a b _. apply same_lb_belongs. }
  assert (∀ u, u ∈ own_uuids x' ↔ u = LoadBalancer.UUID l ∨ u ∈ own_uuids x) as Hus.
  { intros u. unfold own_uuids. rewrite Hown, fmap_cons, elem_of_cons.
    by rewrite (shown_same_uuids _ _ Hrest). }
  assert (own_pools x' = own_pools x) as Hpools.
  { unfold own_pools. rewrite Hp. apply filter_ext_elem. intros p Hin. rewrite Hus.
    specialize (He p). rewrite Hp in He. specialize (He Hin). tauto. }
  split; try done.
  - exists (filter (belongs info) ls). split; [done|].
    etrans; [symmetry; apply (sees_lbs _ _ Hs)|exact Hrest].
  - intros p [_ Hin]%list_elem_of_filter. by apply He.
  - intros f [_ Hin]%list_elem_of_filter. by apply Hfree.
  - by rewrite (sees_pools _ _ Hs).
  - intros p Hin. apply view_parts; [done|]. by apply Hpa, seen_pool.
  - rewrite (sees_ips _ _ Hs). simpl. unfold own_ips. rewrite Hi. apply filter_ext_elem.
    intros f Hin. unfold own_ip. rewrite Hi in Hfree. specialize (Hfree f Hin).
    rewrite !list_elem_of_fmap. setoid_rewrite Hus. naive_solver.
Qed.

Lemma view_deleted r : api_ok x → holds y r → deleted (href r) x x' → deleted (href r) y (view x').
Proof.
  intros Hok Hr [Hlbs Hrest].
  destruct (sees_holds x y r Hs Hr) as (r0 & Hr0 & Hh & Hstands).
  split.
  - simpl. eapply (Forall2_compose same_lb same_lb same_lb); [intros ???; apply transitivity| |].
    + symmetry. apply (Forall2_filter same_lb (λ l, LoadBalancer.HREF l ≠ href r)
        (λ l, LoadBalancer.HREF l ≠ href r) (own_lbs x) (api_lbs y)); [|apply Hs].
      intros a b _ [Hab _]. by rewrite (same_href _ _ Hab).
    + unfold own_lbs. rewrite (filter_comm (λ l, LoadBalancer.HREF l ≠ href r) (belongs info)).
      apply Forall2_filter; [|done]. intros a b _. apply same_lb_belongs.
  - intros Hnl.
    assert (∀ l, l ∈ api_lbs x → LoadBalancer.HREF l ≠ href r) as Hnl0.
    { intros l Hl Heq. assert (RLb l = r0) as <- by (apply (hrefs_unique _ Hok); [by constructor|done|simpl; congruence]).
      destruct r as [k|p|p b]; simpl in *; try done. inversion Hr; subst.
      apply (Hnl k); [done|]. done. }
    rewrite filter_id in Hlbs by done.
    assert (own_uuids x' = own_uuids x) as Hus by (by apply own_uuids_same).
    destruct (Hrest Hnl0) as [Hps Hpa Hi]. split.
    + rewrite (sees_pools _ _ Hs). simpl. unfold own_pools. rewrite Hus, Hps. apply filter_comm.
    + intros p Hin. simpl in Hin. apply list_elem_of_filter in Hin as [Hown Hin].
      change (parts (view x') p) with (parts x' p). rewrite Hpa by done. f_equal. symmetry.
      apply (sees_parts _ _ Hs). rewrite (sees_pools _ _ Hs). apply list_elem_of_filter.
      rewrite Hus in Hown. split; [done|]. rewrite Hps in Hin. by apply list_elem_of_filter in Hin as [_ ?].
    + simpl. rewrite (sees_ips _ _ Hs). unfold own_ips. by rewrite Hi, Hus.
Qed.
End effects.

Lemma unconcerned_refl x : unconcerned x x.
Proof. by split. Qed.

Lemma unconcerned_uuids x x' : unconcerned x x' → own_uuids x' = own_uuids x.
Proof. intros Hu. apply shown_same_uuids, Hu. Qed.

Lemma unconcerned_trans x1 x2 x3 : unconcerned x1 x2 → unconcerned x2 x3 → unconcerned x1 x3.
Proof.
  intros H1 H2. pose proof (unconcerned_uuids _ _ H1) as Hu.
  destruct H1 as [L1 P1 Q1 F1 I1], H2 as [L2 P2 Q2 F2 I2]. split; [by etrans|congruence| | |congruence].
  - intros p Hp. rewrite Q2, Q1 by (by rewrite ?P1). done.
  - intros u Hin. rewrite F2, F1 by (by rewrite ?Hu). done.
Qed.

(** ** What others may do *)

Section others.
Context (x x' : api).
Hypothesis floating : ∀ u, u ∈ own_uuids x →
  floating_listeners u (api_listeners x') = floating_listeners u (api_listeners x).

Lemma own_pool_elem p : p ∈ own_pools x → p ∈ api_pools x.
Proof. by intros [_ ?]%list_elem_of_filter. Qed.

(** Time passes. *)
Lemma unconcerned_idle : idle x x' → unconcerned x x'.
Proof.
  intros [Hl Hp Hpa Hi]. pose proof (own_uuids_same x x' Hl) as Hu. split; try done.
  - apply Forall2_filter; [|done]. intros a b _. apply same_lb_belongs.
  - unfold own_pools. by rewrite Hu, Hp.
  - intros p Hin%own_pool_elem. by apply Hpa.
  - unfold own_ips. by rewrite Hu, Hi.
Qed.

(** A load balancer that is not the service's, listed after the others or
    before them. *)
Lemma unconcerned_created_lb req l :
  LoadBalancerRequest.Name req ≠ annotation info LoadBalancerName →
  (annotation info LoadBalancerUUID ≠ "" → LoadBalancer.UUID l ≠ annotation info LoadBalancerUUID) →
  (∃ before after, api_lbs x' = before ++ l :: after ∧ Forall2 same_lb (api_lbs x) (before ++ after)) →
  created_lb req l x x' → unconcerned x x'.
Proof.
  intros Hn Hu (before & after & Hls & Hsame) [Hname _ _ _ _ _ _ Hp Hpa Hi].
  assert (¬ belongs info l) as Hb by (intros [[Hne Heq]|Heq]; [by apply Hu|congruence]).
  assert (Forall2 same_lb (own_lbs x) (own_lbs x')) as Hown.
  { unfold own_lbs. rewrite Hls, filter_app, filter_cons, decide_False, <- filter_app by done.
    apply Forall2_filter; [|done]. intros a b _. apply same_lb_belongs. }
  assert (own_uuids x' = own_uuids x) as Hus by (by apply shown_same_uuids).
  split; try done.
  - unfold own_pools. by rewrite Hus, Hp.
  - intros p Hin%own_pool_elem. by apply Hpa.
  - unfold own_ips. by rewrite Hus, Hi.
Qed.

(** A pool of a load balancer that is not the service's. *)
Lemma unconcerned_created_pool req p :
  PoolRequest.LoadBalancer req ∉ own_uuids x → api_pools x' = api_pools x ++ [p] →
  created_pool req p x x' → unconcerned x x'.
Proof.
  intros Hreq Hps [_ _ _ Hlb Hl _ _ Hpa Hi]. pose proof (own_uuids_same x x' Hl) as Hu. split; try done.
  - apply Forall2_filter; [|done]. intros a b _. apply same_lb_belongs.
  - unfold own_pools. rewrite Hu, Hps, filter_app, filter_cons, decide_False by congruence.
    apply app_nil_r.
  - intros q Hin%own_pool_elem. by apply Hpa.
  - unfold own_ips. by rewrite Hu, Hi.
Qed.

(** A pool that is not the service's, or what hangs below one, is deleted. *)
Lemma unconcerned_deleted r p :
  api_ok x → holds x r → p ∉ own_pools x →
  match r with RLb _ => False | RPool q => q = p | RPart q _ => q = p end →
  deleted (href r) x x' → unconcerned x x'.
Proof.
  intros Hok Hr Hp Hrp [Hl Hrest].
  assert (∀ r', holds x r' → href r' = href r → r' = r) as Hinj
    by (intros r' Hr' Heq; by apply (hrefs_unique _ Hok)).
  assert (∀ l, l ∈ api_lbs x → LoadBalancer.HREF l ≠ href r) as Hnl.
  { intros l Hin Heq. destruct r; [done|..]; by discriminate (Hinj (RLb l) ltac:(by constructor) Heq). }
  rewrite filter_id in Hl by done. destruct (Hrest Hnl) as [Hps Hpa Hi].
  pose proof (own_uuids_same x x' Hl) as Hu.
  assert (∀ q, q ∈ own_pools x → Pool.HREF q ≠ href r) as Hq.
  { intros q Hin Heq. pose proof (Hinj (RPool q) ltac:(constructor; by apply own_pool_elem) Heq) as <-.
    by subst. }
  assert (own_pools x' = own_pools x) as Hops.
  { unfold own_pools. rewrite Hu, Hps, filter_comm. apply filter_id. by intros q Hin; apply Hq. }
  split; try done.
  - apply Forall2_filter; [|done]. intros a b _. apply same_lb_belongs.
  - intros q Hin. rewrite Hpa by (rewrite <- Hops in Hin; by apply list_elem_of_filter in Hin as [_ ?]).
    apply filter_id. intros y Hy Heq.
    pose proof (Hinj (RPart q y) ltac:(constructor; [by apply own_pool_elem|done]) Heq) as <-. by subst.
  - unfold own_ips. by rewrite Hu, Hi.
Qed.
End others.

(** ** What the service asks for, on the view *)

Lemma sees_owner x y l0 :
  api_ok x → sees x y → owner info x l0 → ∃ l, owner info y l ∧ same_lb l0 l.
Proof.
  intros Hok Hs Ho. destruct (owner_elem _ _ _ Ho) as [Hl0 Hb].
  destruct (sees_own_lb x y l0 Hs Hl0 Hb) as (l & Hl & Hsame). exists l. split; [|done].
  intros k. split; [|intros ->; split; [done|by apply (same_lb_belongs info l0 l)]].
  intros [Hk _]. destruct (sees_lb x y k Hs Hk) as (k0 & Hk0 & Hbk & Hsk).
  assert (k0 = l0) as -> by (by apply Ho).
  apply (NoDup_key_inj LoadBalancer.UUID (api_lbs y)); [by eapply lb_uuids, sees_ok|done..|].
  by rewrite (same_lb_uuid _ _ (proj1 Hsk)), (same_lb_uuid _ _ (proj1 Hsame)).
Qed.

Lemma owner_sees x y l :
  api_ok x → sees x y → owner info y l → ∃ l0, owner info x l0 ∧ same_lb l0 l.
Proof.
  intros Hok Hs Ho. destruct (owner_elem _ _ _ Ho) as [Hl _].
  destruct (sees_lb x y l Hs Hl) as (l0 & Hl0 & Hb & Hsame). exists l0. split; [|done].
  intros k0. split; [|by intros ->]. intros [Hk0 Hbk].
  destruct (sees_own_lb x y k0 Hs Hk0 Hbk) as (k & Hk & Hsk).
  assert (k = l) as -> by (apply Ho; split; [done|]; by apply (same_lb_belongs info k0 k)).
  apply (NoDup_key_inj LoadBalancer.UUID (api_lbs x)); [by apply lb_uuids|done..|].
  by rewrite <- (same_lb_uuid _ _ (proj1 Hsk)), <- (same_lb_uuid _ _ (proj1 Hsame)).
Qed.

Lemma sees_no_owner x y : sees x y → no_owner info x ↔ no_owner info y.
Proof.
  intros Hs. split; intros Hno l Hl Hb.
  - destruct (sees_lb x y l Hs Hl) as (l0 & Hl0 & Hb0 & _). by destruct (Hno l0).
  - destruct (sees_own_lb x y l Hs Hl Hb) as (k & Hk & Hsame). destruct (Hno k); [done|].
    by apply (same_lb_belongs info l k).
Qed.

Lemma sees_pools_of x y u : sees x y → u ∈ own_uuids x → pools_of y u = pools_of x u.
Proof.
  intros Hs Hu. unfold pools_of. rewrite (sees_pools _ _ Hs). apply list_filter_filter_l. by intros p ->.
Qed.

Lemma sees_assigned x y u : sees x y → u ∈ own_uuids x →
  assigned_ips u (api_ips y) = assigned_ips u (api_ips x).
Proof.
  intros Hs Hu. rewrite (sees_ips _ _ Hs). unfold assigned_ips, own_ips. f_equal.
  apply list_filter_filter_l. intros f Hf. right. rewrite Hf. by apply list_elem_of_fmap_2.
Qed.

Section goal.
Context `{GoExt} `{SDK}.
Context (desired : lbState) (dlb : LoadBalancer.t) (algorithms protocols : list string).

(** If the service sees what it asks for, the account holds it. *)
Lemma sees_in_place x y l :
  api_ok x → sees x y → in_place info desired dlb y l → ∃ l0, in_place info desired dlb x l0.
Proof.
  intros Hok Hs [Ho Hn Him Hps Hea Hip]. destruct (owner_sees x y l Hok Hs Ho) as (l0 & Ho0 & Hsame).
  pose proof (sees_uuid x y l Hs (proj1 (owner_elem _ _ _ Ho))) as Hu.
  rewrite (same_lb_uuid _ _ (proj1 Hsame)) in *. exists l0.
  rewrite (sees_pools_of x y _ Hs Hu) in Hps. rewrite (sees_assigned x y _ Hs Hu) in Hip.
  split; [done|by rewrite <- (proj2 Hsame)| |done| |done].
  - destruct Hsame as [[_ _ Hv Hf Hz] _], Him as [H1 H2 H3]. rewrite Hv in H1. split; congruence.
  - intros d (p & [Ht Hpa Hli Hmo])%Hea. exists p. unfold target in Ht.
    rewrite (sees_pools_of x y _ Hs Hu) in Ht.
    destruct (target_Some _ _ _ _ Ht) as [Hp%in_pools_of _].
    assert (p ∈ api_pools y) as Hpy.
    { rewrite (sees_pools _ _ Hs). apply list_elem_of_filter. split; [|done].
      apply target_Some in Ht as [Hp' _]. by apply elem_of_pools_of in Hp' as [-> _]. }
    rewrite (sees_parts _ _ Hs p Hpy) in Hpa, Hli, Hmo. by split.
Qed.

(** If the account allows what it asks for, the service can see so. *)
Lemma view_reachable x :
  api_ok x → annotationList info LoadBalancerFloatingIPs = Ok (floatingIPs desired) →
  reachable info desired dlb algorithms protocols x →
  reachable info desired dlb algorithms protocols (view x).
Proof.
  intros Hok Hips [Hk Hcase]. pose proof (sees_view x) as Hs. split.
  - intros ip Hip. specialize (Hk ip Hip). apply list_elem_of_fmap in Hk as (f & -> & Hf).
    apply list_elem_of_fmap_2, list_elem_of_filter. split; [|done]. left.
    unfold service_ips. rewrite Hips. by apply list_elem_of_fmap_2.
  - destruct Hcase as [Hno|(l0 & Ho & Him & Hv)]; [left; by apply (sees_no_owner x)|].
    destruct (sees_owner x (view x) l0 Hok Hs Ho) as (l & Hl & Hsame). right. exists l.
    split; [done|]. split; [by eapply immutable_same; [apply Hsame|]|]. intros p.
    rewrite (sees_pools_of x _ _ Hs) by (apply (sees_uuid x (view x) l Hs), (owner_elem _ _ _ Hl)).
    rewrite (same_lb_uuid _ _ (proj1 Hsame)). apply Hv.
Qed.
End goal.

Lemma at_most_one_view x : api_ok x →
  (no_owner info x ∨ ∃ l, owner info x l) → no_owner info (view x) ∨ ∃ l, owner info (view x) l.
Proof.
  intros Hok [Hno|[l Ho]]; [left; by apply (sees_no_owner x (view x) (sees_view x))|right].
  destruct (sees_owner x (view x) l Hok (sees_view x) Ho) as (k & Hk & _). by exists k.
Qed.

(** The view is no larger than the account. *)
Lemma view_size x :
  (length (api_pools (view x)) + total (λ p, length (parts (view x) p)) (api_pools (view x)) ≤
   length (api_pools x) + total (λ p, length (parts x p)) (api_pools x))%nat.
Proof.
  pose proof (filter_length_le (λ p, Pool.LoadBalancer p ∈ own_uuids x) (api_pools x)).
  pose proof (total_filter (λ p, length (parts x p)) (λ p, Pool.LoadBalancer p ∈ own_uuids x) (api_pools x)).
  change (api_pools (view x)) with (filter (λ p, Pool.LoadBalancer p ∈ own_uuids x) (api_pools x)).
  change (λ p, length (parts (view x) p)) with (λ p, length (parts x p)). lia.
Qed.
End view.
