(* ===== verification/Others.v ===== *)
(** * Others

    A world in which others act between the calls of a handler.  [Interference]
    tells what they do after each call; [disturbed] counts the calls, and every
    call of the API or the cluster is followed by what the others do. *)

From stdpp Require Import base tactics list gmap strings.
From Stdlib Require Import ZArith.
From S2P Require Import Prelude.
From S2P Require Import GoStrings.
From S2P Require Import Cloudscale.
From S2P Require Import ServiceInfo.
From S2P Require Import Actions.
From S2P Require Import ProviderID.
From S2P Require Import KubeUtil.

(** What others do after the n-th call. *)
Class Interference (W : Type) := { others : nat → W → W }.

Record disturbed (W : Type) : Type := MkDisturbed { inner : W; calls_made : nat }.
Arguments MkDisturbed {W}.
Arguments inner {W}.
Arguments calls_made {W}.

Section client.
Context {W : Type} `{!Interference W}.

Definition disturb {R} (m : W → R * W) : disturbed W → R * disturbed W := λ s,
  let '(r, w) := m (inner s) in (r, MkDisturbed (others (calls_made s) w) (S (calls_made s))).

#[export] Instance disturbed_client `{!Client W} : Client (disturbed W) := {|
  Request := Request;
  NewRequest method url := disturb (NewRequest method url);
  Do q := disturb (Do q);
  LoadBalancers_Get uuid := disturb (LoadBalancers_Get uuid);
  LoadBalancers_List := disturb LoadBalancers_List;
  LoadBalancers_Create req := disturb (LoadBalancers_Create req);
  LoadBalancers_Update uuid req := disturb (LoadBalancers_Update uuid req);
  Pools_List := disturb Pools_List;
  Pools_Create req := disturb (Pools_Create req);
  PoolMembers_List uuid := disturb (PoolMembers_List uuid);
  PoolMembers_Create uuid req := disturb (PoolMembers_Create uuid req);
  Listeners_List := disturb Listeners_List;
  Listeners_Create req := disturb (Listeners_Create req);
  Listeners_Update uuid req := disturb (Listeners_Update uuid req);
  HealthMonitors_List := disturb HealthMonitors_List;
  HealthMonitors_Create req := disturb (HealthMonitors_Create req);
  HealthMonitors_Update uuid req := disturb (HealthMonitors_Update uuid req);
  FloatingIPs_List := disturb FloatingIPs_List;
  FloatingIPs_Update ip uuid := disturb (FloatingIPs_Update ip uuid);
  Servers_Get uuid := disturb (Servers_Get uuid);
  Servers_List := disturb Servers_List;
  ctx_Err := disturb ctx_Err;
  select_after d := disturb (select_after d);
  rand_Intn k := disturb (rand_Intn k) |}.

#[export] Instance disturbed_kube `{!Kube W} : Kube (disturbed W) := {|
  Services_Patch ns name patch := disturb (Services_Patch ns name patch);
  Services_List token limit := disturb (Services_List token limit);
  ServerVersion := disturb ServerVersion;
  Recorder_Event service type_ reason message s :=
    (disturb (λ w, (tt, Recorder_Event service type_ reason message w)) s).2 |}.
End client.

(** Nobody else acts. *)
Definition nobody {W : Type} : Interference W := {| others _ w := w |}.
