(* ===== verification/Disturbed.v ===== *)
(** * Disturbed

    A handler while others act.  In the world [disturbed], after every call
    others do something: another handler that creates, changes or deletes its
    own load balancers, a user of the account, or time that passes.  What they
    do is arbitrary, as long as it does not concern the load balancers and the
    Floating IPs of the service ([Considerate]).

    If the API obeys [ApiLaws] for the whole account, the disturbed world does
    for what the service sees of it.  So the convergence theorems apply: a
    handler reaches its goal whatever others do meanwhile. *)

From stdpp Require Import base tactics list gmap strings.
From Stdlib Require Import ZArith.
From S2P Require Import Prelude.
From S2P Require Import GoStrings.
From S2P Require Import Cloudscale.
From S2P Require Import ServiceInfo.
From S2P Require Import Actions.
From S2P Require Import LbState.
From S2P Require Import LbStateSpec.
From S2P Require Import LbMapper.
From S2P Require Import ActualState.
From S2P Require Import ActualStateSpec.
From S2P Require Import ApiLaws.
From S2P Require Import Descent.
From S2P Require Import Tasks.
From S2P Require Import Settings.
From S2P Require Import Converge.
From S2P Require Import Realisable.
From S2P Require Import ProviderID.
From S2P Require Import ServerMapper.
From S2P Require Import InstancesSpec.
From S2P Require Import KubeUtil.
From S2P Require Import LoadBalancerHandlers.
From S2P Require Import LoadBalancerSpec.
From S2P Require Import HandlersConverge.
From S2P Require Import Sharing.
From S2P Require Import Others.

(** A change of the world that spares the service: the account stays in order,
    what the service sees of it stays the same, and its load balancers are not
    busy for longer. *)
Definition spares {W} `{ApiLaws W} (info : serviceInfo) (w w' : W) : Prop :=
  ∀ x, good w x → ∃ x', good w' x' ∧ unconcerned info x x' ∧
    ∀ u, u ∈ own_uuids info x → (busy w' u ≤ busy w u)%nat.

Lemma spares_refl {W} `{ApiLaws W} info (w : W) : spares info w w.
Proof. intros x Hg. exists x. split; [done|]. split; [apply unconcerned_refl|done]. Qed.

Lemma spares_trans {W} `{ApiLaws W} info (w1 w2 w3 : W) :
  spares info w1 w2 → spares info w2 w3 → spares info w1 w3.
Proof.
  intros H12 H23 x Hg. destruct (H12 x Hg) as (x2 & Hg2 & Hu2 & Hb2).
  destruct (H23 x2 Hg2) as (x3 & Hg3 & Hu3 & Hb3). exists x3. split; [done|].
  split; [by eapply unconcerned_trans|]. intros u Hu. etrans; [|by apply Hb2].
  apply Hb3. by rewrite (unconcerned_uuids info x x2 Hu2).
Qed.

(** The service is known to the laws, and others spare it. *)
Class Considerate (W : Type) `{ApiLaws W, !Interference W} (info : serviceInfo) := {
  known_here : looked_up known_names known_uuids info;
  known_ips_here ip : ip ∈ service_ips info → known_ips ip;
  considerate n w : spares info w (others n w) }.

Section laws.
Context {W : Type} `{!Client W} `{!ApiLaws W} `{!Interference W}.
Context (info : serviceInfo) `{!Considerate W info}.
Implicit Types (s : disturbed W) (w : W) (x y : api).

Definition seen_good s y : Prop := ∃ x, good (inner s) x ∧ sees info x y.
Definition seen_busy s : string → nat := busy (inner s).

(** After a call, others act, and the service sees what the call left. *)
Lemma disturb_sees {R} (m : W → R * W) s r w x y :
  m (inner s) = (r, w) → good w x → sees info x y →
  ∃ s', disturb m s = (r, s') ∧ seen_good s' y ∧
    ∀ u, u ∈ own_uuids info x → (seen_busy s' u ≤ busy w u)%nat.
Proof.
  intros Hm Hg Hs. destruct (considerate (calls_made s) w x Hg) as (x' & Hg' & Hun & Hb).
  unfold disturb. rewrite Hm. eexists. split; [reflexivity|].
  split; [|exact Hb]. exists x'. split; [exact Hg'|]. by eapply sees_unconcerned.
Qed.

(** A call that reads. *)
Lemma disturb_steady {R} (m : W → R * W) s r w x y :
  good (inner s) x → sees info x y → m (inner s) = (r, w) → steady good busy (inner s) x w →
  ∃ s', disturb m s = (r, s') ∧ steady seen_good seen_busy s y s'.
Proof.
  intros Hg Hs Hm [Hg' Hb]. destruct (disturb_sees m s r w x y Hm Hg' Hs) as (s' & Hd & Hg2 & Hb2).
  exists s'. split; [done|]. split; [done|]. intros l Hl.
  specialize (Hb2 _ (sees_uuid info x y l Hs Hl)).
  destruct (sees_lb info x y l Hs Hl) as (l0 & Hl0 & _ & [Hsame _]). specialize (Hb l0 Hl0).
  rewrite <- (same_lb_uuid _ _ Hsame) in Hb. unfold seen_busy in *. lia.
Qed.

(** A call that writes: its effect on the account is one on the view. *)
Lemma disturb_effect {R} (m : W → R * W) s r w x x' y (E : api → Prop) :
  sees info x y → m (inner s) = (r, w) → good w x' → E (view info x') →
  ∃ s' y', disturb m s = (r, s') ∧ seen_good s' y' ∧ E y'.
Proof.
  intros Hs Hm Hg He. destruct (disturb_sees m s r w x' (view info x') Hm Hg (sees_view info x'))
    as (s' & Hd & Hg' & _). by exists s', (view info x').
Qed.

Lemma seen_before s y s' l0 l :
  l0 ∈ api_lbs y → steady seen_good seen_busy s y s' → sighted busy (inner s') l0 l →
  sighted seen_busy s l0 l.
Proof. apply (sighted_before seen_good seen_busy). Qed.

(** ** What a service is told *)

Definition here_name (name : string) : Prop := name = annotation info LoadBalancerName.
Definition here_uuid (uuid : string) : Prop := uuid = annotation info LoadBalancerUUID ∧ uuid ≠ "".

(** A read of the account, as the service sees it. *)
Lemma disturb_reads {A} (m : M W A) (P : api → A → Prop) s y s0 :
  (∀ w x, good w x → ∃ a w', m w = (Ok a, w') ∧ steady good busy w x w' ∧ P x a) →
  steady seen_good seen_busy s0 y s →
  ∃ x a s', sees info x y ∧ disturb m s = (Ok a, s') ∧ steady seen_good seen_busy s0 y s' ∧ P x a.
Proof.
  intros Hm Hs0. destruct (proj1 Hs0) as (x & Hg & Hs). destruct (Hm _ _ Hg) as (a & w' & Hr & Hst & HP).
  destruct (disturb_steady m s _ w' x y Hg Hs Hr Hst) as (s' & Hd & Hst').
  exists x, a, s'. split_and!; [done..| |done]. by eapply steady_trans.
Qed.

Lemma seen_get x y uuid : api_ok x → here_uuid uuid → sees info x y →
  match get_lb x uuid with
  | Some l0 => ∃ l, get_lb y uuid = Some l ∧ same_lb l0 l
  | None => get_lb y uuid = None
  end.
Proof.
  intros Hok [-> Hne] Hs. pose proof (lb_uuids _ Hok) as Hnd.
  pose proof (lb_uuids _ (sees_ok info x y Hs Hok)) as Hnd'.
  destruct (get_lb x _) as [l0|] eqn:Hl.
  - apply get_lb_Some in Hl as [Hl Hu]; [|done].
    destruct (sees_own_lb info x y l0 Hs Hl) as (l & Hl' & Hsame); [by left|].
    exists l. split; [|done]. apply get_lb_Some; [done|]. split; [done|].
    by rewrite (same_lb_uuid _ _ (proj1 Hsame)).
  - destruct (get_lb y _) as [l|] eqn:Hl'; [|done].
    apply get_lb_Some in Hl' as [Hl' Hu]; [|done].
    destruct (sees_lb info x y l Hs Hl') as (l0 & Hl0 & _ & Hsame).
    enough (get_lb x (annotation info LoadBalancerUUID) = Some l0) by congruence.
    apply get_lb_Some; [done|]. split; [done|]. by rewrite <- (same_lb_uuid _ _ (proj1 Hsame)).
Qed.

Lemma seen_named (R : LoadBalancer.t → LoadBalancer.t → Prop) x y name ls :
  (∀ a b c, same_lb a b → R b c → R a c) → here_name name → sees info x y →
  Forall2 R (filter (λ l, LoadBalancer.Name l = name) (api_lbs x)) ls →
  Forall2 R (filter (λ l, LoadBalancer.Name l = name) (api_lbs y)) ls.
Proof.
  intros HR -> Hs Hls.
  assert (filter (λ l, LoadBalancer.Name l = annotation info LoadBalancerName) (own_lbs info x) =
    filter (λ l, LoadBalancer.Name l = annotation info LoadBalancerName) (api_lbs x)) as Hown.
  { apply list_filter_filter_l. intros l. by right. }
  rewrite <- Hown in Hls. eapply (Forall2_compose same_lb); [exact HR| |exact Hls].
  symmetry. apply Forall2_filter; [|apply (sees_lbs _ _ _ Hs)]. by intros a b _ [_ ->].
Qed.
Lemma Forall2_impl_l {A B} (R S : A → B → Prop) l k :
  (∀ a b, a ∈ l → R a b → S a b) → Forall2 R l k → Forall2 S l k.
Proof.
  intros HRS. induction 1 as [|a b l k Hab _ IH]; constructor; [by apply HRS; [left|]|].
  apply IH. intros a' b' Ha'. apply HRS. by right.
Qed.

(** The reads, in every state in which the service still sees [y]. *)
Section reads.
Context (s : disturbed W) (y : api).
#[local] Abbreviation steadily := (steady seen_good seen_busy s y).

Lemma here_names_known name : here_name name → known_names name.
Proof. intros ->. apply (known_here (W := W)). Qed.

Lemma here_uuids_known uuid : here_uuid uuid → known_uuids uuid.
Proof. intros [-> Hne]. by apply (known_here (W := W)). Qed.

Lemma seen_answers_get uuid s1 : steadily s1 → here_uuid uuid →
  ∃ r s', LoadBalancers_Get uuid s1 = (r, s') ∧ steadily s' ∧
    match get_lb y uuid with
    | Some l0 => ∃ l, r = Ok l ∧ sighted seen_busy s l0 l
    | None => ∃ msg, r = Err (ErrorResponse StatusNotFound msg)
    end.
Proof.
  intros Hs1 Hu. destruct (proj1 Hs1) as (x & Hg & Hs).
  destruct (answers_get _ _ _ _ _ (good_answers _ _ Hg) uuid (inner s1)) as (r & w' & Hr & Hst & Hm);
    [by apply steady_refl|by apply here_uuids_known|].
  destruct (disturb_steady _ s1 r w' x y Hg Hs Hr Hst) as (s' & Hd & Hst').
  exists r, s'. split; [exact Hd|]. split; [by eapply steady_trans|].
  pose proof (seen_get x y uuid (good_ok _ _ Hg) Hu Hs) as Hget.
  destruct (get_lb x uuid) as [l0|] eqn:Hx; [|by rewrite Hget].
  destruct Hget as (l & Hl & Hsame), Hm as (k & -> & Hsk & Hb). rewrite Hl. exists k. split; [done|].
  apply (seen_before s y s1); [|done|].
  - apply get_lb_Some in Hl as [? _]; [done|]. by apply lb_uuids, (sees_ok info x y), good_ok with (inner s1).
  - split; [|exact Hb]. by etrans; [symmetry|].
Qed.

Lemma seen_answers_lbs s1 : steadily s1 →
  ∃ ls s', LoadBalancers_List s1 = (Ok ls, s') ∧ steadily s' ∧ ∀ name, here_name name →
    Forall2 (sighted seen_busy s) (filter (λ l, LoadBalancer.Name l = name) (api_lbs y))
      (filter (λ l, LoadBalancer.Name l = name) ls).
Proof.
  intros Hs1. destruct (proj1 Hs1) as (x & Hg & Hs).
  destruct (answers_lbs _ _ _ _ _ (good_answers _ _ Hg) (inner s1)) as (ls & w' & Hr & Hst & Hm);
    [by apply steady_refl|].
  destruct (disturb_steady _ s1 _ w' x y Hg Hs Hr Hst) as (s' & Hd & Hst').
  exists ls, s'. split; [exact Hd|]. split; [by eapply steady_trans|].
  intros name Hn. eapply (Forall2_impl_l (sighted busy (inner s1))).
  - intros a b [_ Ha]%list_elem_of_filter. by apply (seen_before s y s1).
  - apply (seen_named _ x y name); [|done|done|by apply Hm, here_names_known].
    intros a b c Hab [Hbc Hb]. split; [by etrans|done].
Qed.

Lemma seen_answers_pools s1 : steadily s1 →
  ∃ ps s', Pools_List s1 = (Ok ps, s') ∧ steadily s' ∧ ∀ l, l ∈ api_lbs y →
    filter (λ p, Pool.LoadBalancer p = LoadBalancer.UUID l) ps =
    filter (λ p, Pool.LoadBalancer p = LoadBalancer.UUID l) (api_pools y).
Proof.
  intros Hs1. destruct (disturb_reads Pools_List (λ x ps, ∀ l, l ∈ api_lbs x →
    filter (λ p, Pool.LoadBalancer p = LoadBalancer.UUID l) ps =
    filter (λ p, Pool.LoadBalancer p = LoadBalancer.UUID l) (api_pools x)) s1 y s)
    as (x & ps & s' & Hs & Hd & Hst & Hps); [|done|].
  { intros w x Hg. apply (answers_pools _ _ _ _ _ (good_answers _ _ Hg)). by apply steady_refl. }
  exists ps, s'. split; [done|]. split; [done|]. intros l Hl.
  destruct (sees_lb info x y l Hs Hl) as (l0 & Hl0 & _ & Hsame).
  pose proof (sees_uuid info x y l Hs Hl) as Hu.
  rewrite (same_lb_uuid _ _ (proj1 Hsame)) in *. rewrite (Hps l0 Hl0), (sees_pools _ _ _ Hs).
  symmetry. apply list_filter_filter_l. by intros p ->.
Qed.

Lemma seen_answers_members s1 p : steadily s1 → p ∈ api_pools y →
  ∃ s', PoolMembers_List (Pool.UUID p) s1 = (Ok (api_members y (Pool.UUID p)), s') ∧ steadily s'.
Proof.
  intros Hs1 Hp. destruct (proj1 Hs1) as (x & Hg & Hs).
  destruct (sees_pool info x y p Hs Hp) as [Hpx _].
  destruct (answers_members _ _ _ _ _ (good_answers _ _ Hg) (inner s1) p) as (w' & Hr & Hst);
    [by apply steady_refl|done|].
  destruct (disturb_steady _ s1 _ w' x y Hg Hs Hr Hst) as (s' & Hd & Hst').
  destruct (parts_lists y x p (sees_parts _ _ _ Hs p Hp)) as [-> _].
  exists s'. split; [exact Hd|]. by eapply steady_trans.
Qed.

Lemma seen_answers_monitors s1 : steadily s1 →
  ∃ ms s', HealthMonitors_List s1 = (Ok ms, s') ∧ steadily s' ∧
    ∀ p, p ∈ api_pools y → monitors_of ms p = monitors_of (api_monitors y) p.
Proof.
  intros Hs1. destruct (disturb_reads HealthMonitors_List (λ x ms, ∀ p, p ∈ api_pools x →
    monitors_of ms p = monitors_of (api_monitors x) p) s1 y s)
    as (x & ms & s' & Hs & Hd & Hst & Hms); [|done|].
  { intros w x Hg. apply (answers_monitors _ _ _ _ _ (good_answers _ _ Hg)). by apply steady_refl. }
  exists ms, s'. split; [done|]. split; [done|]. intros p Hp.
  destruct (parts_lists y x p (sees_parts _ _ _ Hs p Hp)) as (_ & _ & ->).
  apply Hms. by eapply sees_pool.
Qed.

Lemma seen_answers_listeners s1 : steadily s1 →
  ∃ ls s', Listeners_List s1 = (Ok ls, s') ∧ steadily s' ∧
    (∀ p, p ∈ api_pools y → listeners_of ls p = listeners_of (api_listeners y) p) ∧
    ∀ l, l ∈ api_lbs y → floating_listeners (LoadBalancer.UUID l) ls =
      floating_listeners (LoadBalancer.UUID l) (api_listeners y).
Proof.
  intros Hs1. destruct (disturb_reads Listeners_List (λ x ls,
    (∀ p, p ∈ api_pools x → listeners_of ls p = listeners_of (api_listeners x) p) ∧
    ∀ l, l ∈ api_lbs x → floating_listeners (LoadBalancer.UUID l) ls =
      floating_listeners (LoadBalancer.UUID l) (api_listeners x)) s1 y s)
    as (x & ls & s' & Hs & Hd & Hst & Hls & Hfl); [|done|].
  { intros w x Hg. apply (answers_listeners _ _ _ _ _ (good_answers _ _ Hg)). by apply steady_refl. }
  exists ls, s'. split; [done|]. split; [done|]. split.
  - intros p Hp. destruct (parts_lists y x p (sees_parts _ _ _ Hs p Hp)) as (_ & -> & _).
    apply Hls. by eapply sees_pool.
  - intros l Hl. rewrite (sees_floating _ _ _ Hs l Hl).
    destruct (sees_lb info x y l Hs Hl) as (l0 & Hl0 & _ & Hsame).
    rewrite (same_lb_uuid _ _ (proj1 Hsame)). by apply Hfl.
Qed.

Lemma seen_answers_ips s1 : steadily s1 →
  ∃ fs s', FloatingIPs_List s1 = (Ok fs, s') ∧ steadily s' ∧ ∀ l, l ∈ api_lbs y →
    assigned_ips (LoadBalancer.UUID l) fs = assigned_ips (LoadBalancer.UUID l) (api_ips y).
Proof.
  intros Hs1. destruct (disturb_reads FloatingIPs_List (λ x fs, ∀ l, l ∈ api_lbs x →
    assigned_ips (LoadBalancer.UUID l) fs = assigned_ips (LoadBalancer.UUID l) (api_ips x)) s1 y s)
    as (x & fs & s' & Hs & Hd & Hst & Hfs); [|done|].
  { intros w x Hg. apply (answers_ips _ _ _ _ _ (good_answers _ _ Hg)). by apply steady_refl. }
  exists fs, s'. split; [done|]. split; [done|]. intros l Hl.
  rewrite (sees_assigned info x y _ Hs (sees_uuid info x y l Hs Hl)).
  destruct (sees_lb info x y l Hs Hl) as (l0 & Hl0 & _ & Hsame).
  rewrite (same_lb_uuid _ _ (proj1 Hsame)). by apply Hfs.
Qed.

Lemma seen_answers : seen_good s y →
  answers steadily (sighted seen_busy s) here_name here_uuid y.
Proof.
  intros (x & Hg & Hs). split.
  - intros uuid s1. apply seen_answers_get.
  - exact seen_answers_lbs.
  - exact seen_answers_pools.
  - exact seen_answers_members.
  - exact seen_answers_monitors.
  - exact seen_answers_listeners.
  - exact seen_answers_ips.
  - intros l0 l [[Hl _] _]. by apply same_lb_uuid.
  - intros l0 l [[_ Hn] _]. done.
  - by apply lb_uuids, (sees_ok info x y), good_ok with (inner s).
Qed.
End reads.

(** ** The laws *)

(** A write that creates something, and one that does not. *)
Lemma disturb_value {A} (m : M W A) s x y (E E' : A → api → Prop) :
  sees info x y →
  (∃ a w' x', m (inner s) = (Ok a, w') ∧ good w' x' ∧ E a x') →
  (∀ a x', E a x' → E' a (view info x')) →
  ∃ a s' y', disturb m s = (Ok a, s') ∧ seen_good s' y' ∧ E' a y'.
Proof.
  intros Hs (a & w' & x' & Hr & Hg & He) HE.
  destruct (disturb_effect m s _ w' x x' y (E' a) Hs Hr Hg (HE a x' He)) as (s' & y' & H).
  by exists a, s', y'.
Qed.

Lemma disturb_unit (m : M W unit) s x y (E E' : api → Prop) :
  sees info x y →
  (∃ w' x', m (inner s) = (Ok tt, w') ∧ good w' x' ∧ E x') →
  (∀ x', E x' → E' (view info x')) →
  ∃ s' y', disturb m s = (Ok tt, s') ∧ seen_good s' y' ∧ E' y'.
Proof.
  intros Hs (w' & x' & Hr & Hg & He) HE.
  destruct (disturb_effect m s _ w' x x' y E' Hs Hr Hg (HE x' He)) as (s' & y' & H).
  by exists s', y'.
Qed.

(** What is seen of a load balancer. *)
Lemma seen_lb x y l : sees info x y → l ∈ api_lbs y →
  ∃ l0, l0 ∈ api_lbs x ∧ LoadBalancer.UUID l = LoadBalancer.UUID l0 ∧
    LoadBalancer.UUID l0 ∈ own_uuids info x.
Proof.
  intros Hs Hl. destruct (sees_lb info x y l Hs Hl) as (l0 & Hl0 & _ & Hsame).
  pose proof (sees_uuid info x y l Hs Hl) as Hu. pose proof (same_lb_uuid _ _ (proj1 Hsame)) as Heq.
  exists l0. by rewrite <- Heq.
Qed.

Lemma seen_listener x y p l : sees info x y → p ∈ api_pools y → PListener l ∈ parts y p →
  p ∈ api_pools x ∧ PListener l ∈ parts x p.
Proof. intros Hs Hp. rewrite (sees_parts _ _ _ Hs p Hp). split; [by eapply sees_pool|done]. Qed.

Lemma seen_monitor x y p m : sees info x y → p ∈ api_pools y → PMonitor m ∈ parts y p →
  p ∈ api_pools x ∧ PMonitor m ∈ parts x p.
Proof. intros Hs Hp. rewrite (sees_parts _ _ _ Hs p Hp). split; [by eapply sees_pool|done]. Qed.

#[program] Definition disturbed_laws : ApiLaws (disturbed W) := {|
  good := seen_good;
  known_names := here_name;
  known_uuids := here_uuid;
  known_ips ip := ip ∈ service_ips info;
  answers_at := answers_at (W := W);
  subnets := subnets (W := W);
  deletes := deletes (W := W);
  busy := seen_busy;
  patience := patience (W := W) |}.
Next Obligation. apply seen_answers. Qed.
Next Obligation. intros s y (x & Hg & Hs). by apply (sees_ok info x y), (good_ok _ _ Hg). Qed.
Next Obligation. intros s y uuid (x & Hg & _). by eapply good_busy. Qed.
Next Obligation.
  intros s y p m h q (x & Hg & Hs) Hm. inversion Hm; subst.
  edestruct seen_monitor as [Hp Hb]; [done..|]. eapply (good_hosts _ _ p m); [done|by constructor].
Qed.
Next Obligation.
  intros s y (x & Hg & Hs). destruct (good_ctx _ _ Hg) as (w' & Hr & Hst).
  by eapply disturb_steady.
Qed.
Next Obligation.
  intros s y k (x & Hg & Hs) Hk. destruct (good_rand _ _ k Hg Hk) as (n & w' & Hr & Hst & Hn).
  destruct (disturb_steady _ s n w' x y Hg Hs Hr Hst) as (s' & Hd & Hst'). by exists n, s'.
Qed.
Next Obligation.
  intros s y d (x & Hg & Hs). destruct (pause _ _ d Hg) as (w' & x' & Hr & Hg' & Hi & Hc & Hb).
  destruct (disturb_sees _ s false w' x' (view info x') Hr Hg' (sees_view info x')) as (s' & Hd & Hg2 & Hb2).
  assert (∀ l, l ∈ api_lbs y → ∃ l0, l0 ∈ api_lbs x ∧ LoadBalancer.UUID l = LoadBalancer.UUID l0 ∧
    (seen_busy s' (LoadBalancer.UUID l0) ≤ busy w' (LoadBalancer.UUID l0))%nat) as Hl.
  { intros l Hl. destruct (seen_lb x y l Hs Hl) as (l0 & Hl0 & Hu & Hown). exists l0.
    split; [done|]. split; [done|]. apply Hb2. by rewrite (own_uuids_same info x x' (idle_lbs _ _ Hi)). }
  exists s', (view info x'). split; [exact Hd|]. split; [done|]. split; [by apply (view_idle info x x' y)|].
  split.
  - intros l (l0 & Hl0 & -> & Hle)%Hl. specialize (Hc l0 Hl0). unfold seen_busy in *. lia.
  - intros H5 l (l0 & Hl0 & -> & Hle)%Hl. specialize (Hb H5 l0 Hl0). unfold seen_busy in *. lia.
Qed.
Next Obligation.
  intros s y url (x & Hg & Hs). destruct (law_request _ _ url Hg) as (q & w' & Hr & Hst & Hq).
  destruct (disturb_steady _ s _ w' x y Hg Hs Hr Hst) as (s' & Hd & Hst'). by exists q, s'.
Qed.
Next Obligation.
  intros s y r q (x & Hg & Hs) Hr Hq. destruct (sees_holds info x y r Hs Hr) as (r0 & Hr0 & Hh & _).
  eapply (disturb_unit _ s x y (deleted (href r0) x)); [done|by apply law_delete; rewrite ?Hh|].
  intros x'. rewrite Hh. apply view_deleted; [done|by eapply good_ok|done].
Qed.
Next Obligation.
  intros s y req (x & Hg & Hs) Hn. eapply (disturb_value _ s x y (λ l, created_lb req l x)); [done| |].
  - apply law_create_lb; [done|by apply here_names_known].
  - intros l x'. by apply view_created_lb.
Qed.
Next Obligation.
  intros s y l name (x & Hg & Hs) Hl Hn. destruct (seen_lb x y l Hs Hl) as (l0 & Hl0 & -> & Hown).
  eapply (disturb_unit _ s x y (renamed_lb (LoadBalancer.UUID l0) name x)); [done| |].
  - apply law_rename_lb; [done..|by apply here_names_known].
  - intros x'. apply view_renamed; [done|by eapply good_ok|done..].
Qed.
Next Obligation.
  intros s y l req (x & Hg & Hs) Hl Hreq. destruct (seen_lb x y l Hs Hl) as (l0 & Hl0 & Hu & Hown).
  eapply (disturb_value _ s x y (λ p, created_pool req p x)); [done| |].
  - apply (law_create_pool _ _ l0); [done..|congruence].
  - intros p x'. apply view_created_pool; [done|congruence].
Qed.
Next Obligation.
  intros s y p req (x & Hg & Hs) Hp.
  eapply (disturb_value _ s x y (λ m x', created_part (Pool.UUID p) (PMember m) x x' ∧ member_granted subnets req m));
    [done|apply law_create_member; [done|by eapply sees_pool]|].
  intros m x' [Hc Hm]. split; [by apply view_created_part with x|done].
Qed.
Next Obligation.
  intros s y p req (x & Hg & Hs) Hp Hreq.
  eapply (disturb_value _ s x y (λ l x', created_part (Pool.UUID p) (PListener l) x x' ∧ listener_granted req l));
    [done|apply law_create_listener; [done|by eapply sees_pool|done]|].
  intros m x' [Hc Hm]. split; [by apply view_created_part with x|done].
Qed.
Next Obligation.
  intros s y p req (x & Hg & Hs) Hp Hreq.
  eapply (disturb_value _ s x y (λ m x', created_part (Pool.UUID p) (PMonitor m) x x' ∧ monitor_granted req m));
    [done|apply law_create_monitor; [done|by eapply sees_pool|done]|].
  intros m x' [Hc Hm]. split; [by apply view_created_part with x|done].
Qed.
Next Obligation.
  intros s y p l req (x & Hg & Hs) Hp Hl. destruct (seen_listener x y p l Hs Hp Hl) as [Hpx Hlx].
  eapply (disturb_unit _ s x y (updated _ x)); [done|by eapply law_update_listener|].
  intros x'. by apply view_updated.
Qed.
Next Obligation.
  intros s y p m req (x & Hg & Hs) Hp Hm. destruct (seen_monitor x y p m Hs Hp Hm) as [Hpx Hmx].
  eapply (disturb_unit _ s x y (updated _ x)); [done|by eapply law_update_monitor|].
  intros x'. by apply view_updated.
Qed.
Next Obligation.
  intros s y l f (x & Hg & Hs) Hl Hf Hip. destruct (seen_lb x y l Hs Hl) as (l0 & Hl0 & -> & Hown).
  eapply (disturb_unit _ s x y (assigned _ _ x)); [done| |].
  - apply law_assign; [done..| |by apply (known_ips_here (info := info))].
    rewrite (sees_ips _ _ _ Hs) in Hf. by apply list_elem_of_filter in Hf as [_ ?].
  - intros x'. by apply view_assigned.
Qed.
End laws.
