(* ===== verification/HandlersDisturbed.v ===== *)
(** * HandlersDisturbed

    The handlers while others act.  In the world [disturbed] of [Disturbed],
    where others change the account after every call, [EnsureLoadBalancer] and
    [EnsureLoadBalancerDeleted] terminate without an error and reach their goal
    in the account, as long as nobody else changes the load balancers and the
    Floating IPs of the service. *)

From stdpp Require Import base tactics list gmap strings.
From Stdlib Require Import ZArith.
From S2P Require Import Prelude.
From S2P Require Import GoStrings.
From S2P Require Import Cloudscale.
From S2P Require Import ServiceInfo.
From S2P Require Import Actions.
From S2P Require Import LbState.
From S2P Require Import LbStateSpec.
From S2P Require Import LbMapper.
From S2P Require Import ActualState.
From S2P Require Import ActualStateSpec.
From S2P Require Import ApiLaws.
From S2P Require Import Descent.
From S2P Require Import Tasks.
From S2P Require Import Settings.
From S2P Require Import Converge.
From S2P Require Import Realisable.
From S2P Require Import ProviderID.
From S2P Require Import ServerMapper.
From S2P Require Import InstancesSpec.
From S2P Require Import KubeUtil.
From S2P Require Import LoadBalancerHandlers.
From S2P Require Import LoadBalancerSpec.
From S2P Require Import HandlersConverge.
From S2P Require Import Sharing.
From S2P Require Import NextActions.
From S2P Require Import NextActionsPlan.
From S2P Require Import Reconcile.
From S2P Require Import Progress.
From S2P Require Import Others.
From S2P Require Import Disturbed.

Section handlers.
Context {W : Type} `{!Client W} `{!ApiLaws W} `{!Kube W} `{!KubeLaws W} `{!Interference W}.
Context `{GoExt} `{SDK} `{UUIDPackage} `{LabelsPackage}.
Context (info : serviceInfo) `{!Considerate W info}.
Implicit Types (s : disturbed W) (w : W) (x y : api).

#[local] Existing Instance disturbed_laws.

(** The laws of the cluster, in every state in which the service sees [y]. *)
Section servers.
Context (s : disturbed W) (y : api).
#[local] Abbreviation steadily := (steady (seen_good info) seen_busy s y).

Lemma seen_server uuid s1 : steadily s1 → ∃ r s',
  Servers_Get uuid s1 = (r, s') ∧ steadily s' ∧
  match get_server (listed_servers (W := W)) uuid with
  | Some server => r = Ok server
  | None => ∃ msg, r = Err (ErrorResponse StatusNotFound msg)
  end.
Proof.
  intros Hs1. destruct (proj1 Hs1) as (x & Hg & Hs).
  destruct (answers_server _ _ (law_servers _ _ Hg) uuid (inner s1)) as (r & w' & Hr & Hst & Hm);
    [by apply steady_refl|].
  destruct (disturb_steady info _ s1 r w' x y Hg Hs Hr Hst) as (s' & Hd & Hst').
  exists r, s'. split; [exact Hd|]. split; [by eapply steady_trans|done].
Qed.

Lemma seen_servers : answers_servers steadily (listed_servers (W := W)).
Proof.
  split; [exact seen_server|]. intros s1 Hs1. destruct (proj1 Hs1) as (x & Hg & Hs).
  destruct (answers_all _ _ (law_servers _ _ Hg) (inner s1)) as (w' & Hr & Hst);
    [by apply steady_refl|].
  destruct (disturb_steady info _ s1 _ w' x y Hg Hs Hr Hst) as (s' & Hd & Hst').
  exists s'. split; [exact Hd|]. by eapply steady_trans.
Qed.
End servers.

#[local, program] Instance disturbed_kube_laws : KubeLaws (disturbed W) := {|
  listed_servers := listed_servers (W := W);
  services_page := services_page (W := W) |}.
Next Obligation.
  intros s y token (x & Hg & Hs). destruct (law_services _ _ token Hg) as (w' & Hr & Hst).
  by eapply disturb_steady.
Qed.
Next Obligation. intros s y Hg. apply seen_servers. Qed.
Next Obligation.
  intros namespace name patch s y (x & Hg & Hs).
  destruct (law_patch namespace name patch _ _ Hg) as (w' & Hr & Hg').
  destruct (disturb_sees info _ s _ w' x y Hr Hg' Hs) as (s' & Hd & Hg2 & _). by exists s'.
Qed.
Next Obligation.
  intros service type_ reason message s y (x & Hg & Hs).
  destruct (disturb_sees info (λ w, (tt, Recorder_Event service type_ reason message w)) s _ _ x y eq_refl)
    as (s' & Hd & Hg2 & _); [by apply law_event|done|].
  cbn [Recorder_Event disturbed_kube]. by rewrite Hd.
Qed.
Next Obligation.
  intros s y (x & Hg & Hs). destruct (law_version _ _ Hg) as (major & minor & w' & Hr & Hg' & Hb).
  destruct (disturb_sees info _ s _ w' x y Hr Hg' Hs) as (s' & Hd & Hg2 & _).
  by exists major, minor, s'.
Qed.

(** What the service needs carries over. *)
Lemma disturbed_ready servers algorithms protocols :
  service_ready (W := W) info servers algorithms protocols →
  service_ready (W := disturbed W) info servers algorithms protocols.
Proof.
  intros [Hk _ Hp Ha Hpr Hal Hpo Hu Hs Hm Hh]. split; try done.
  - split; [apply Hk|]. split; [done|]. by intros Hne.
  - intros cidrs cidr Hc Hin. simpl. unfold service_ips. rewrite Hc. by apply list_elem_of_fmap_2.
Qed.

Lemma disturbed_wanted nodes desired dlb algorithms protocols :
  wanted (W := W) info nodes desired dlb algorithms protocols →
  wanted (W := disturbed W) info nodes desired dlb algorithms protocols.
Proof.
  intros [Hp (selected & servers & Hs & Hi & Hd & Hr) Hl]. split; [done| |done].
  exists selected, servers. split; [done|]. split; [done|]. split; [done|]. by apply disturbed_ready.
Qed.

Lemma disturbed_admitted fuel : admitted (W := W) fuel info → admitted (W := disturbed W) fuel info.
Proof.
  intros (Hc & Hi & ps & Hps & Hn). split; [done|]. split; [done|]. exists ps. split; [|done].
  clear Hn. induction Hps as [token Hl|token rest Hm _ IH].
  - exact (last_listed (W := disturbed W) token Hl).
  - exact (more_listed (W := disturbed W) token rest Hm IH).
Qed.

Lemma view_rounds desired x :
  (rounds_bound (W := W) desired (view info x) ≤ rounds_bound (W := W) desired x)%nat.
Proof. pose proof (view_size info x). unfold rounds_bound. nia. Qed.

Lemma good_view s x : good (inner s) x → good s (view info x).
Proof. intros Hg. exists x. split; [done|apply sees_view]. Qed.

Lemma wanted_ips nodes desired dlb algorithms protocols :
  wanted (W := W) info nodes desired dlb algorithms protocols →
  annotationList info LoadBalancerFloatingIPs = Ok (floatingIPs desired).
Proof.
  intros [_ (selected & servers & _ & _ & Hd & _) _]. by apply desiredLbState_wants in Hd as (_ & Hips & _).
Qed.
End handlers.

(** ** The handlers *)

Section converge.
Context {W : Type} `{!Client W} `{!ApiLaws W} `{!Kube W} `{!KubeLaws W} `{!Interference W}.
Context `{GoExt} `{SDK} `{UUIDPackage} `{LabelsPackage} `{MapOrder}.
Implicit Types (s : disturbed W) (x y : api) (info : serviceInfo) (service : Service.t).

(** In terms of what the service sees. *)
Section seen.
Context (fuel : nat) (orders : nat → MapOrder).
Context (desired : lbState) (dlb : LoadBalancer.t) (algorithms protocols : list string).

Lemma seen_account info s y : seen_good info s y → ∃ x, good (inner s) x ∧ sees info x y ∧ api_ok x.
Proof. intros (x & Hg & Hs). exists x. split; [done|]. split; [done|]. by eapply good_ok. Qed.

Lemma ensure_seen service clusterName nodes s y :
  let info := MkServiceInfo service clusterName in
  Considerate W info →
  admitted (W := W) fuel info → wanted (W := W) info nodes desired dlb algorithms protocols →
  status_known info → reachable info desired dlb algorithms protocols y → seen_good info s y →
  (rounds_bound (W := W) desired y < fuel)%nat →
  ∃ status s' y' l,
    EnsureLoadBalancer fuel orders clusterName (Some service) nodes s = Some (Ok status, s') ∧
    seen_good info s' y' ∧ in_place info desired dlb y' l.
Proof.
  intros info Hcon Ha Hw Hk Hre Hg Hf.
  exact (ensure_converges (W := disturbed W)
    (ApiLaws0 := disturbed_laws info) (KubeLaws0 := disturbed_kube_laws info) fuel orders service clusterName nodes desired dlb
    algorithms protocols s y (disturbed_admitted info fuel Ha) (disturbed_wanted info _ _ _ _ _ Hw)
    Hk Hre Hg Hf).
Qed.

Lemma update_seen info nodes s y :
  Considerate W info →
  admitted (W := W) fuel info → wanted (W := W) info nodes desired dlb algorithms protocols →
  reachable info desired dlb algorithms protocols y → seen_good info s y →
  (rounds_bound (W := W) desired y < fuel)%nat →
  ∃ s' y' l, reconcileService fuel orders info nodes s = Some (Ok tt, s') ∧
    seen_good info s' y' ∧ in_place info desired dlb y' l.
Proof.
  intros Hcon Ha Hw Hre Hg Hf.
  exact (reconcileService_converges (W := disturbed W)
    (ApiLaws0 := disturbed_laws info) (KubeLaws0 := disturbed_kube_laws info) fuel orders info nodes desired dlb
    algorithms protocols s y (disturbed_admitted info fuel Ha) (disturbed_wanted info _ _ _ _ _ Hw)
    Hre Hg Hf).
Qed.

Lemma delete_seen service clusterName s y :
  let info := MkServiceInfo service clusterName in
  Considerate W info →
  admitted (W := W) fuel info → seen_good info s y →
  (no_owner info y ∨ ∃ l, owner info y l) → (patience (W := W) < fuel)%nat →
  ∃ s' y', EnsureLoadBalancerDeleted fuel orders clusterName (Some service) s = Some (Ok tt, s') ∧
    seen_good info s' y' ∧ no_owner info y'.
Proof.
  intros info Hcon Ha Hg Hcase Hf.
  refine (delete_converges (W := disturbed W) (ApiLaws0 := disturbed_laws info) (KubeLaws0 := disturbed_kube_laws info)
    fuel orders service clusterName s y (disturbed_admitted info fuel Ha) _ Hg Hcase Hf).
  split; [apply (known_here (W := W))|]. by split.
Qed.
End seen.

(** C2. [EnsureLoadBalancer] reaches its goal while others act.  After every call
    others may change the account in any way that does not concern the load
    balancers and Floating IPs of the service.  Within a number of rounds that
    is bounded in the size of the account at the beginning, and in whatever
    order maps are iterated, the call returns a status without an error, and
    what the service asks for is then in place, in the sense of [in_place]:
    the load balancer, the keys of its parts, the settings that a request can
    carry, and every Floating IP of the annotation. *)
Theorem EnsureLoadBalancer_undisturbed fuel orders service clusterName nodes
    desired dlb algorithms protocols s x :
  let info := MkServiceInfo service clusterName in
  Considerate W info →
  admitted (W := W) fuel info → wanted (W := W) info nodes desired dlb algorithms protocols →
  status_known info →
  reachable info desired dlb algorithms protocols x → good (inner s) x →
  (rounds_bound (W := W) desired x < fuel)%nat →
  ∃ status s' x' l,
    EnsureLoadBalancer fuel orders clusterName (Some service) nodes s = Some (Ok status, s') ∧
    good (inner s') x' ∧ in_place info desired dlb x' l.
Proof.
  intros info Hcon Ha Hw Hk Hre Hg Hf.
  destruct (ensure_seen fuel orders desired dlb algorithms protocols service clusterName nodes
    s (view info x) Hcon Ha Hw Hk)
    as (status & s' & y' & l & Hr & (x' & Hg' & Hs & Hok)%seen_account & Hin).
  - apply view_reachable; [by eapply good_ok|by eapply wanted_ips|done].
  - by apply good_view.
  - pose proof (view_rounds info desired x). lia.
  - destruct (sees_in_place info desired dlb x' y' l Hok Hs Hin) as [l0 Hl0].
    by exists status, s', x', l0.
Qed.

(** C3. [EnsureLoadBalancerDeleted] reaches its goal while others act: if the
    service has at most one load balancer, the call returns without an error
    within a bounded number of rounds, and the account then has none of the
    service, whatever happened to the rest of it meanwhile. *)
Theorem EnsureLoadBalancerDeleted_undisturbed fuel orders service clusterName s x :
  let info := MkServiceInfo service clusterName in
  Considerate W info →
  admitted (W := W) fuel info → good (inner s) x →
  (no_owner info x ∨ ∃ l, owner info x l) → (patience (W := W) < fuel)%nat →
  ∃ s' x', EnsureLoadBalancerDeleted fuel orders clusterName (Some service) s = Some (Ok tt, s') ∧
    good (inner s') x' ∧ no_owner info x'.
Proof.
  intros info Hcon Ha Hg Hcase Hf.
  destruct (delete_seen fuel orders service clusterName s (view info x) Hcon Ha)
    as (s' & y' & Hr & (x' & Hg' & Hs & Hok)%seen_account & Hno); [by apply good_view| |done|].
  - apply (at_most_one_view info x); [by eapply good_ok|done].
  - exists s', x'. split; [done|]. split; [done|]. by apply (sees_no_owner info x' y').
Qed.
End converge.
