(* ===== verification/FakeCluster.v ===== *)
(** * FakeCluster

    A Kubernetes cluster next to the account of [FakeApi], also simulated in
    memory, and the properties of the handlers and of the annotations applied
    on it. *)

From stdpp Require Import base tactics list gmap strings pretty.
From Stdlib Require Import ZArith.
From S2P Require Import Prelude.
From S2P Require Import GoStrings.
From S2P Require Import Json.
From S2P Require Import JsonEncode.
From S2P Require Import Limiter.
From S2P Require Import Cloudscale.
From S2P Require Import ServiceInfo.
From S2P Require Import Actions.
From S2P Require Import LbState.
From S2P Require Import NextActions.
From S2P Require Import LbMapper.
From S2P Require Import ActualState.
From S2P Require Import ActualStateSpec.
From S2P Require Import Examples.
From S2P Require Import FakeApi.
From S2P Require Import Reconcile.
From S2P Require Import ReconcileSpec.
From S2P Require Import ProviderID.
From S2P Require Import ServerMapper.
From S2P Require Import KubeUtil.
From S2P Require Import KubeUtilSpec.
From S2P Require Import LoadBalancerHandlers.
From S2P Require Import LoadBalancerSpec.

Record cluster : Type := MkCluster {
  acct : account;
  kservices : list (list Service.t);
  version : string * string;
  patches : list string;
  events : list string }.

Definition on_account {A} (m : M account A) : M cluster A := λ c,
  let '(r, a) := m (acct c) in
  (r, MkCluster a (kservices c) (version c) (patches c) (events c)).

#[export] Instance cluster_client : Client cluster := {|
  Request := string;
  NewRequest _ url := mret url;
  Do url := on_account (fake_delete url);
  LoadBalancers_Get uuid := on_account (fake_get uuid);
  LoadBalancers_List := on_account (gives (λ w, api_lbs (api_of w)));
  LoadBalancers_Create req := on_account (fake_create_lb req);
  LoadBalancers_Update uuid req := on_account (fake_rename uuid req);
  Pools_List := on_account (gives acc_pools);
  Pools_Create req := on_account (fake_create_pool req);
  PoolMembers_List uuid := on_account (gives (λ w, api_members (api_of w) uuid));
  PoolMembers_Create uuid req := on_account (fake_create_member uuid req);
  Listeners_List := on_account (gives acc_listeners);
  Listeners_Create req := on_account (fake_create_listener req);
  Listeners_Update uuid req := on_account (fake_update_listener uuid req);
  HealthMonitors_List := on_account (gives acc_monitors);
  HealthMonitors_Create req := on_account (fake_create_monitor req);
  HealthMonitors_Update uuid req := on_account (fake_update_monitor uuid req);
  FloatingIPs_List := on_account (gives ips);
  FloatingIPs_Update ip uuid := on_account (fake_assign ip uuid);
  Servers_Get uuid := on_account (fake_server uuid);
  Servers_List := on_account (gives acc_servers);
  ctx_Err w := (None, w);
  select_after d c :=
    let '(b, a) := fake_pause d (acct c) in
    (b, MkCluster a (kservices c) (version c) (patches c) (events c));
  rand_Intn _ w := (0%Z, w) |}.

(** The pages are numbered by their tokens. *)
Definition fake_page (c : cluster) (n : nat) : list Service.t * string :=
  (default [] (kservices c !! n),
   if decide (S n < length (kservices c))%nat then pretty (S n) else "").

#[export] Instance cluster_kube : Kube cluster := {|
  Services_Patch ns name patch c :=
    (Ok tt, MkCluster (acct c) (kservices c) (version c) (patches c ++ [patch]) (events c));
  Services_List token _ c :=
    (Ok (fake_page c (match token with "" => 0%nat | _ => Z.to_nat (Atoi token).1 end)), c);
  ServerVersion c := (Ok (version c), c);
  Recorder_Event _ _ reason _ c :=
    MkCluster (acct c) (kservices c) (version c) (patches c) (events c ++ [reason]) |}.

(** Selectors that name one label. *)
Definition example_labels : LabelsPackage := {|
  Selector := option string;
  labels_Everything := None;
  labels_Parse s := Ok (Some s);
  Matches sel ls := match sel with None => true | Some l => bool_decide (is_Some (ls !! l)) end |}.

Section examples.
#[local] Existing Instance example_GoExt.
#[local] Existing Instance example_SDK.
#[local] Existing Instance example_UUID.
#[local] Existing Instance example_labels.

Definition example_web : Service.t := svc (example_service []).

(** A second service with the Floating IP of the first, on the second page. *)
Definition floating_service (uid name : string) : Service.t :=
  {| Service.Namespace := "default"; Service.Name := name; Service.UID := uid;
     Service.Annotations :=
       Some {[ LoadBalancerFloatingIPs := quoted "['5.102.150.1/32']" ]};
     Service.Type_ := "LoadBalancer"; Service.LoadBalancerClass := None;
     Service.ExternalTrafficPolicy := "Cluster"; Service.HealthCheckNodePort := 0;
     Service.Ports := example_ports |}.

Definition example_cluster : cluster :=
  {| acct := MkAccount [] [] [] [] [] [] example_servers 0 ∅ None;
     kservices := [[example_web; floating_service "u1" "first"];
                   [floating_service "u2" "second"]];
     version := ("1", "31"); patches := []; events := [] |}.

Definition cluster_of {A} (r : option (result A * cluster)) : cluster :=
  match r with Some (_, c) => c | None => example_cluster end.

Definition example_ensure (fuel : nat) : option (result LoadBalancerStatus * cluster) :=
  @EnsureLoadBalancer _ _ _ _ _ _ _ default_order fuel (λ _, default_order) "kubernetes"
    (Some example_web) example_nodes example_cluster.

(** The service is set up, annotated and reported. *)
Definition ensured : cluster := cluster_of (example_ensure 5).

Definition example_delete (fuel : nat) : option (result unit * cluster) :=
  @EnsureLoadBalancerDeleted _ _ _ _ _ default_order fuel (λ _, default_order) "kubernetes"
    (Some example_web) ensured.

Definition deleted : cluster := cluster_of (example_delete 1).

Lemma example_ensure_runs :
  example_ensure 5 =
    Some (Ok [Ingress.Mk "5.102.144.101" "" (Some "Proxy")], ensured) ∧
  length (patches ensured) = 1%nat ∧ length (acc_members (acct ensured)) = 4%nat ∧
  example_delete 1 = Some (Ok tt, deleted) ∧ lbs (acct deleted) = [].
Proof. split_and!; vm_compute; reflexivity. Qed.

(** ** The properties, applied *)

Lemma example_pages :
  pages example_cluster ""
    [[example_web; floating_service "u1" "first"]; [floating_service "u2" "second"]].
Proof.
  apply (more_pages _ _ _ "1"); [vm_compute; reflexivity|done|].
  apply last_page. vm_compute. reflexivity.
Defined.

Lemma invalid_config_changes_nothing_witness :
  ∃ r, @ensureValidConfig _ _ default_order 2
      (MkServiceInfo (floating_service "u1" "first") "kubernetes") example_cluster =
    Some (r, example_cluster) ∧ r ≠ Ok tt ∧
    ∃ e, @EnsureLoadBalancer _ _ _ _ _ _ _ default_order 2 (λ _, default_order) "kubernetes"
      (Some (floating_service "u1" "first")) example_nodes example_cluster =
      Some (Err e, example_cluster).
Proof.
  destruct (@invalid_config_changes_nothing _ _ _ _ _ _ _ default_order 2 (λ _, default_order)
    (floating_service "u1" "first") "kubernetes" example_nodes example_cluster
    [[example_web; floating_service "u1" "first"]; [floating_service "u2" "second"]])
    as (r & Hr & _ & He).
  - reflexivity.
  - exact example_pages.
  - simpl. lia.
  - exists r. split; [exact Hr|].
    assert (r ≠ Ok tt) as Hne.
    { intros ->. vm_compute in Hr. discriminate Hr. }
    split; [exact Hne|]. destruct (He Hne) as (e & Heq & _). by exists e.
Defined.

Lemma EnsureLoadBalancer_success_witness :
  ∃ selected desired actual dlb alb (i : nat) plan final l w0 w1 w2 w3 w4 w5,
    filterNodesBySelector (example_service []) example_nodes = Ok selected ∧
    desiredState (example_service []) selected w0 = (Ok desired, w1) ∧
    actualLbState (example_service []) w1 = (Ok actual, w2) ∧
    lb desired = Some dlb ∧ lb actual = Some alb ∧ structure_agrees desired actual ∧
    @nextLbActions _ _ default_order (Some desired) (Some actual) = Ok plan ∧
    proceeds plan w2 w3 ∧
    actualLbState (example_service []) w3 = (Ok final, w4) ∧ lb final = Some l ∧
    AnnotateService true example_web
      [LoadBalancerUUID; LoadBalancer.UUID l;
       LoadBalancerConfigVersion; annotation (example_service []) LoadBalancerConfigVersion;
       LoadBalancerZone; LoadBalancer.Zone l] w4 = (Ok tt, w5) ∧
    loadBalancerStatus (example_service []) l w5 =
      (Ok [Ingress.Mk "5.102.144.101" "" (Some "Proxy")], ensured).
Proof.
  apply (@EnsureLoadBalancer_success _ _ _ _ _ _ _ default_order 5 (λ _, default_order)
    example_web "kubernetes" example_nodes example_cluster
    [Ingress.Mk "5.102.144.101" "" (Some "Proxy")] ensured).
  vm_compute. reflexivity.
Defined.

Lemma EnsureLoadBalancerDeleted_success_witness :
  ∃ actual w0 w1, actualLbState (example_service []) w0 = (Ok actual, w1) ∧
    match lb actual with
    | None => deleted = w1
    | Some l => LoadBalancer.Status l ≠ "changing" ∧
        ∃ w2, Run (DeleteResource (LoadBalancer.HREF l)) w2 = (Ok (Proceed, None), deleted)
    end.
Proof.
  apply (@EnsureLoadBalancerDeleted_success _ _ _ _ _ default_order 1 (λ _, default_order)
    example_web "kubernetes" ensured deleted).
  vm_compute. reflexivity.
Defined.

Lemma cluster_serves (c : cluster) :
  outage (acct c) = None → NoDup (LoadBalancer.UUID <$> lbs (acct c)) →
  serves c (api_of (acct c)).
Proof.
  intros Ho Hnd. destruct c as [a ks v ps es].
  split; [|done..|simpl; by rewrite shown_uuids]. intros uuid. exists "not found".
  simpl in *. unfold on_account, fake_get. simpl. by rewrite Ho.
Qed.

Lemma GetLoadBalancer_correct_witness :
  ∃ status exists_ err w',
    GetLoadBalancer "kubernetes" (Some example_web) ensured = (Ok (status, exists_, err), w') ∧
    match Service.LoadBalancerClass example_web with
    | Some _ => (status, exists_, err) = (None, false, None)
    | None =>
        (exists_ = true ↔ ∃ l, ∀ l',
           l' ∈ api_lbs (api_of (acct ensured)) ∧ belongs (example_service []) l' ↔ l' = l) ∧
        (exists_ = false ∧ err = None ↔
           ∀ l, l ∈ api_lbs (api_of (acct ensured)) → ¬ belongs (example_service []) l)
    end.
Proof.
  apply (GetLoadBalancer_correct (api_of (acct ensured)) example_web "kubernetes" ensured).
  - apply cluster_serves; [vm_compute; reflexivity|].
    by_decide.
  - vm_compute. discriminate.
  - intros [] msg. simpl. done.
Defined.

Lemma AnnotateService_correct_witness :
  let kv := [(LoadBalancerUUID, "lb-0"); (LoadBalancerZone, "lpg1")] in
  NoDup kv.*1 ∧
  ((AnnotateService true example_web (flatten kv) example_cluster = (Ok tt, example_cluster) ∧
    ∀ p, p ∈ kv → already (Service.Annotations example_web) p) ∨
   ∃ patch ops m',
    AnnotateService true example_web (flatten kv) example_cluster =
      wrapM (WrapError ("failed to apply patch to " +:+ Service.Name example_web +:+ ": "))
        (Services_Patch (Service.Namespace example_web) (Service.Name example_web) patch)
        example_cluster ∧
    parse patch = Some (JArray ops) ∧
    apply_operations (Service.Annotations example_web) ops = Some (Some m') ∧
    (∀ p, p ∈ kv → default "" (m' !! p.1) = p.2) ∧
    (∀ k, k ∉ kv.*1 → m' !! k = default ∅ (Service.Annotations example_web) !! k)).
Proof.
  intros kv. assert (NoDup kv.*1) as Hnd by (by_decide).
  split; [exact Hnd|]. apply (AnnotateService_correct example_web kv example_cluster Hnd).
  repeat constructor.
Defined.

Lemma IsKubernetesReleaseOrNewer_correct_witness :
  ∃ b, IsKubernetesReleaseOrNewer 1 30 example_cluster = (Ok b, example_cluster) ∧
    (b = true ↔ (1 < 1 ∨ 1 = 1 ∧ 30 ≤ 31)%Z).
Proof.
  refine (proj1 (IsKubernetesReleaseOrNewer_correct 1 30 1 31 example_cluster example_cluster
    _ _) _).
  - unfold minInt64, maxInt64. lia.
  - unfold maxInt64. lia.
  - vm_compute. reflexivity.
Defined.
End examples.
