(* ===== verification/FakeClusterLaws.v ===== *)
(** * FakeClusterLaws

    The simulated cluster of [FakeCluster] obeys [ApiLaws] and [KubeLaws], and
    the theorems of [HandlersConverge] are applied to it. *)

From stdpp Require Import base tactics list gmap strings pretty.
From Stdlib Require Import ZArith.
From S2P Require Import Prelude.
From S2P Require Import GoStrings.
From S2P Require Import Json.
From S2P Require Import Cloudscale.
From S2P Require Import ServiceInfo.
From S2P Require Import Actions.
From S2P Require Import LbState.
From S2P Require Import LbStateSpec.
From S2P Require Import NextActionsPlan.
From S2P Require Import ActualState.
From S2P Require Import ActualStateSpec.
From S2P Require Import Examples.
From S2P Require Import ApiLaws.
From S2P Require Import FakeApi.
From S2P Require Import Reconcile.
From S2P Require Import Tasks.
From S2P Require Import Settings.
From S2P Require Import Converge.
From S2P Require Import Realisable.
From S2P Require Import FakeApiLaws.
From S2P Require Import ProviderID.
From S2P Require Import ServerMapper.
From S2P Require Import InstancesSpec.
From S2P Require Import KubeUtil.
From S2P Require Import LoadBalancerHandlers.
From S2P Require Import LoadBalancerSpec.
From S2P Require Import HandlersConverge.
From S2P Require Import FakeCluster.

(** The cluster with another account. *)
Definition with_account (c : cluster) (w : account) : cluster :=
  MkCluster w (kservices c) (FakeCluster.version c) (patches c) (events c).

(** A service with a Floating IP and an HTTP health check, in a cluster with
    another service that has a different Floating IP. *)
Definition ip_service : Service.t := svc (example_service ip_annotations).

Definition ip_pages : list (list Service.t) := [[ip_service; example_web]].

(** A version and services that stay, and a well-formed account. *)
Definition cluster_stays (c : cluster) : Prop :=
  FakeCluster.version c = ("1", "31") ∧ kservices c = ip_pages.

Definition cluster_good (c : cluster) (x : api) : Prop :=
  fake_good (acct c) x ∧ cluster_stays c.

Lemma cluster_good_serves c x : cluster_good c x → serves c x.
Proof.
  intros [[-> Hwf] _]. apply cluster_serves; [by apply wf_outage|].
  pose proof (lb_uuids _ (fake_ok _ Hwf)) as Hnd. simpl in Hnd. by rewrite shown_uuids in Hnd.
Qed.

Lemma on_account_Ok {A} (m : M account A) c a w' :
  m (acct c) = (Ok a, w') → on_account m c = (Ok a, with_account c w').
Proof. intros Hm. unfold on_account. by rewrite Hm. Qed.

(** A law of the account about a call that returns a value, or none. *)
Lemma lift_value {A} (m : M account A) c (P : A → api → Prop) :
  cluster_stays c →
  (∃ a w' x', m (acct c) = (Ok a, w') ∧ fake_good w' x' ∧ P a x') →
  ∃ a c' x', on_account m c = (Ok a, c') ∧ cluster_good c' x' ∧ P a x'.
Proof.
  intros Hv (a & w' & x' & Hm & Hg & HP). exists a, (with_account c w'), x'.
  split; [by apply on_account_Ok|]. done.
Qed.

Lemma lift_unit (m : M account unit) c (P : api → Prop) :
  cluster_stays c →
  (∃ w' x', m (acct c) = (Ok tt, w') ∧ fake_good w' x' ∧ P x') →
  ∃ c' x', on_account m c = (Ok tt, c') ∧ cluster_good c' x' ∧ P x'.
Proof.
  intros Hv (w' & x' & Hm & Hg & HP). exists (with_account c w'), x'.
  split; [by apply on_account_Ok|]. done.
Qed.

#[export, program] Instance cluster_laws : ApiLaws cluster := {|
  good := cluster_good;
  known_names _ := True; known_uuids _ := True; known_ips _ := True;
  answers_at a := a = 2%positive;
  subnets := fake_subnet;
  deletes q url := q = url;
  busy c := pauses_left (acct c);
  patience := 2 |}.
Next Obligation.
  intros c x Hg. apply serves_steady; [intros c'; apply cluster_good_serves|intros c' l [[-> _] _]|done].
  apply fake_changing.
Qed.
Next Obligation. intros c x [[-> Hwf] _]. by apply fake_ok. Qed.
Next Obligation. intros c x uuid [[-> Hwf] _]. by apply wf_settling. Qed.
Next Obligation. intros c x p m h q [[-> Hwf] _]. by apply fake_hosts. Qed.
Next Obligation. intros c x Hg. exists c. split; [done|by apply steady_refl]. Qed.
Next Obligation.
  intros c x k Hg Hk. exists 0%Z, c. split; [done|]. split; [by apply steady_refl|lia].
Qed.
Next Obligation.
  intros c x d [[-> Hwf] Hv]. destruct (fake_pause_law (acct c) d Hwf) as (w' & x' & Hp & Hg & Hi & Hc & Hb).
  exists (with_account c w'), x'. split; [cbn [select_after cluster_client]; by rewrite Hp|].
  split; [done|]. split; [done|]. split; [intros l _; apply Hc|intros Hd l _; by apply Hb].
Qed.
Next Obligation.
  intros c x url Hg. exists url, c. split; [done|]. split; [by apply steady_refl|done].
Qed.
Next Obligation.
  intros c x r q [[-> Hwf] Hv] _ ->.
  exact (lift_unit (fake_delete (href r)) c _ Hv (fake_delete_law _ (href r) Hwf)).
Qed.
Next Obligation. intros c x req [[-> Hwf] Hv] _. by apply lift_value, fake_create_lb_law. Qed.
Next Obligation. intros c x l name [[-> Hwf] Hv] Hl _. by apply lift_unit, fake_rename_law. Qed.
Next Obligation. intros c x l req [[-> Hwf] Hv] Hl Hreq. apply lift_value; [done|]. by eapply fake_create_pool_law. Qed.
Next Obligation. intros c x p req [[-> Hwf] Hv] Hp. apply lift_value; [done|]. by apply fake_create_member_law. Qed.
Next Obligation. intros c x p req [[-> Hwf] Hv] Hp Hreq. apply lift_value; [done|]. by apply fake_create_listener_law. Qed.
Next Obligation. intros c x p req [[-> Hwf] Hv] Hp Hreq. apply lift_value; [done|]. by apply fake_create_monitor_law. Qed.
Next Obligation. intros c x p l req [[-> Hwf] Hv] _ _. by apply lift_unit, fake_update_listener_law. Qed.
Next Obligation. intros c x p m req [[-> Hwf] Hv] _ _. by apply lift_unit, fake_update_monitor_law. Qed.
Next Obligation. intros c x l f [[-> Hwf] Hv] Hl _ _. by apply lift_unit, fake_assign_law. Qed.

Definition page_number (token : string) : nat :=
  match token with "" => 0%nat | _ => Z.to_nat (Atoi token).1 end.

#[export, program] Instance cluster_kube_laws : KubeLaws cluster := {|
  listed_servers := example_servers;
  services_page token :=
    (default [] (ip_pages !! page_number token), "") |}.
Next Obligation.
  intros c x token Hg. exists c. split; [|exact (steady_refl _ _ c x Hg)].
  destruct Hg as [_ [_ Hk]]. simpl. unfold fake_page. rewrite Hk, decide_False; [done|]. simpl. lia.
Qed.
Next Obligation.
  intros c0 x _. split.
  - intros uuid c Hc. pose proof (wf_servers _ (proj2 (proj1 (proj1 Hc)))) as Hs.
    eexists _, c. split; [|split; [done|]].
    + destruct c as [w ks v ps es]. reflexivity.
    + rewrite <- Hs. unfold get_server. destruct (head _); eauto.
  - intros c Hc. pose proof (wf_servers _ (proj2 (proj1 (proj1 Hc)))) as Hs.
    exists c. split; [|done]. rewrite <- Hs. by destruct c as [w ks v ps es].
Qed.
Next Obligation. intros ns name patch c x Hg. by eexists. Qed.
Next Obligation. done. Qed.
Next Obligation.
  intros c x [Hg [Hv Hk]]. exists 1%Z, 31%Z, c. simpl. rewrite Hv. split; [by vm_compute|].
  split; [done|]. unfold minInt64, maxInt64. lia.
Qed.

(** ** The handlers, run to their end *)

#[local] Existing Instance example_GoExt.
#[local] Existing Instance example_SDK.
#[local] Existing Instance example_UUID.
#[local] Existing Instance example_labels.
#[local] Existing Instance default_order.

Definition ip_cluster (w : account) : cluster :=
  {| acct := w; kservices := ip_pages;
     version := ("1", "31"); patches := []; events := [] |}.

Lemma ip_admitted : admitted 60 (example_service ip_annotations).
Proof.
  split; [done|]. split; [by eexists; vm_compute|].
  exists ip_pages. split; [exact (last_listed (W := cluster) "" eq_refl)|].
  split; [simpl; lia|]. intros (ips & ip & service & _ & _ & Hs & _ & Hne & _).
  apply elem_of_cons in Hs as [->|Hs]; [done|]. apply list_elem_of_singleton in Hs as ->. done.
Qed.

Lemma ip_subnets a :
  private_address example_servers a →
  ServerAddress.Subnet a = fake_subnet (SubnetStub.UUID (ServerAddress.Subnet a)).
Proof.
  assert (Forall (λ s, Forall (λ i, ServerInterface.Type_ i ≠ "public" →
    Forall (λ a, ServerAddress.Subnet a = fake_subnet (SubnetStub.UUID (ServerAddress.Subnet a)))
      (ServerInterface.Addresses i)) (Server.Interfaces s)) example_servers) as Hall by by_decide.
  intros (s & i & Hs & Hi & Ht & Ha & _). rewrite Forall_forall in Hall. specialize (Hall s Hs).
  simpl in Hall. rewrite Forall_forall in Hall. specialize (Hall i Hi Ht).
  rewrite Forall_forall in Hall. by apply Hall.
Qed.

Lemma ip_ready :
  service_ready (W := cluster) (example_service ip_annotations) example_servers
    api_algorithms api_protocols.
Proof.
  split.
  - split; [vm_compute; discriminate|done].
  - done.
  - by_decide.
  - by_decide.
  - by_decide.
  - by_decide.
  - by_decide.
  - by_decide.
  - exact ip_subnets.
  - right; left. by_decide.
  - intros h q Hh Hq. vm_compute in Hh. injection Hh as <-. simpl in Hq. injection Hq as <-. done.
Qed.

Lemma ip_wanted :
  wanted (W := cluster) (example_service ip_annotations) example_nodes ip_desired (lb_of ip_desired)
    api_algorithms api_protocols.
Proof.
  split; [by apply example_parse_no_panic| |by vm_compute].
  exists example_nodes, example_servers. split; [by vm_compute|].
  split; [|split; [by vm_compute|exact ip_ready]].
  repeat constructor; right; by vm_compute.
Qed.


Lemma EnsureLoadBalancerDeleted_converges_witness :
  ∃ w' x',
    EnsureLoadBalancerDeleted 60 (λ _, default_order) "kubernetes" (Some ip_service)
      (ip_cluster fake_owned) = Some (Ok tt, w') ∧
    good w' x' ∧ no_owner (example_service ip_annotations) x'.
Proof.
  apply (EnsureLoadBalancerDeleted_converges 60 (λ _, default_order) ip_service "kubernetes"
    (ip_cluster fake_owned) (api_of fake_owned)).
  - exact ip_admitted.
  - split; [vm_compute; discriminate|done].
  - split; [|done]. apply fake_single_good.
  - right. eexists. intros l. split.
    + by intros [Hl%list_elem_of_singleton _].
    + intros ->. split; [by left|by_decide].
  - simpl. lia.
Defined.

Lemma desiredLbState_realisable_witness :
  realisable (W := cluster) (example_service ip_annotations) ip_desired (lb_of ip_desired)
    api_algorithms api_protocols.
Proof.
  apply (desiredLbState_realisable (example_service ip_annotations) example_servers
    api_algorithms api_protocols example_nodes).
  - exact ip_ready.
  - by vm_compute.
  - by vm_compute.
Defined.
