(* ===== verification/FakeDisturbed.v ===== *)
(** * FakeDisturbed

    A neighbour in the simulated account: between any two calls of a handler
    it creates load balancers with a name of its own, adds pools to them, and
    deletes pools again, and time passes.  It is considerate, so the theorems
    of [HandlersDisturbed] are applied to a handler that runs next to it. *)

From stdpp Require Import base tactics list gmap strings pretty.
From Stdlib Require Import ZArith.
From S2P Require Import Prelude.
From S2P Require Import GoStrings.
From S2P Require Import Json.
From S2P Require Import Cloudscale.
From S2P Require Import ServiceInfo.
From S2P Require Import Actions.
From S2P Require Import LbState.
From S2P Require Import LbStateSpec.
From S2P Require Import NextActionsPlan.
From S2P Require Import ActualState.
From S2P Require Import ActualStateSpec.
From S2P Require Import Examples.
From S2P Require Import ApiLaws.
From S2P Require Import FakeApi.
From S2P Require Import Reconcile.
From S2P Require Import Tasks.
From S2P Require Import Settings.
From S2P Require Import Converge.
From S2P Require Import Realisable.
From S2P Require Import FakeApiLaws.
From S2P Require Import ProviderID.
From S2P Require Import ServerMapper.
From S2P Require Import InstancesSpec.
From S2P Require Import KubeUtil.
From S2P Require Import LoadBalancerHandlers.
From S2P Require Import LoadBalancerSpec.
From S2P Require Import HandlersConverge.
From S2P Require Import FakeCluster.
From S2P Require Import FakeClusterLaws.
From S2P Require Import Sharing.
From S2P Require Import Others.
From S2P Require Import Disturbed.
From S2P Require Import HandlersDisturbed.

#[local] Existing Instance example_GoExt.
#[local] Existing Instance example_SDK.
#[local] Existing Instance example_UUID.
#[local] Existing Instance example_labels.
#[local] Existing Instance default_order.

Definition neighbour_name : string := "k8s-service-neighbour".

Definition neighbour_lb (w : account) : option LoadBalancer.t :=
  head (filter (λ l, LoadBalancer.Name l = neighbour_name) (api_lbs (api_of w))).

Definition neighbour_pool (w : account) : option Pool.t :=
  l ← neighbour_lb w; head (filter (λ p, Pool.LoadBalancer p = LoadBalancer.UUID l) (acc_pools w)).

(** The neighbour takes turns: it creates a load balancer, then a pool, and
    deletes its first pool; then time passes. *)
Definition neighbour (n : nat) (w : account) : account :=
  match (n mod 4)%nat with
  | 0 => (fake_create_lb (LoadBalancerRequest.Mk neighbour_name "lb-standard" None "lpg1") w).2
  | 1 =>
      match neighbour_lb w with
      | Some l => (fake_create_pool (PoolRequest.Mk "tcp/web" (LoadBalancer.UUID l) "round_robin" "tcp") w).2
      | None => w
      end
  | 2 => match neighbour_pool w with Some p => (fake_delete (Pool.HREF p) w).2 | None => w end
  | _ => (fake_pause (5 * Second) w).2
  end.

#[local] Instance neighbourhood : Interference cluster := {|
  others n c := with_account c (neighbour n (acct c)) |}.

(** A service that is not the neighbour's. *)
Section considerate.
Context (info : serviceInfo).
Hypothesis named : annotation info LoadBalancerName ≠ "".
Hypothesis own_name : annotation info LoadBalancerName ≠ neighbour_name.
Hypothesis own_uuid : annotation info LoadBalancerUUID = "".

(** What the neighbour does to the account. *)
Definition harmless (w w' : account) : Prop :=
  wf w' ∧ unconcerned info (api_of w) (api_of w') ∧
  ∀ u, u ∈ own_uuids info (api_of w) → (pauses_left w' u ≤ pauses_left w u)%nat.

Lemma harmless_refl w : wf w → harmless w w.
Proof. intros Hwf. split; [done|]. split; [apply unconcerned_refl|done]. Qed.

Lemma own_reference w u : u ∈ own_uuids info (api_of w) → u ∈ references w.
Proof.
  intros (l & -> & [_ Hl]%list_elem_of_filter)%list_elem_of_fmap. by apply lb_reference.
Qed.

Lemma neighbour_lb_Some w l : neighbour_lb w = Some l →
  l ∈ api_lbs (api_of w) ∧ LoadBalancer.Name l = neighbour_name.
Proof.
  unfold neighbour_lb. intros Hl.
  assert (l ∈ filter (λ l, LoadBalancer.Name l = neighbour_name) (api_lbs (api_of w)))
    as [? ?]%list_elem_of_filter by (destruct (filter _ _); simplify_eq/=; by left).
  done.
Qed.

(** The neighbour's load balancer is none of the service's. *)
Lemma neighbour_not_own w l : wf w → neighbour_lb w = Some l →
  LoadBalancer.UUID l ∉ own_uuids info (api_of w).
Proof.
  intros Hwf [Hl Hn]%neighbour_lb_Some (k & Hu & [Hb Hk]%list_elem_of_filter)%list_elem_of_fmap.
  assert (l = k) as <- by (by eapply (NoDup_key_inj LoadBalancer.UUID), Hu; [apply lb_uuids, fake_ok|..]).
  destruct Hb as [[? _]|Hb]; [done|]. congruence.
Qed.

Lemma harmless_create w : wf w → harmless w (neighbour 0 w).
Proof.
  intros Hwf. set (req := LoadBalancerRequest.Mk neighbour_name "lb-standard" None "lpg1").
  destruct (fake_create_lb_law w req Hwf) as (l & w' & x' & Hr & [-> Hwf'] & Hc).
  assert (neighbour 0 w = w') as -> by (change (neighbour 0 w) with (fake_create_lb req w).2; by rewrite Hr).
  split; [done|]. injection Hr as <- <-. split.
  - eapply (unconcerned_created_lb info _ _) with (req := req); [done|exact (not_eq_sym own_name)|done| |exact Hc].
    eexists (shown_lb _ <$> lbs w), []. split; [simpl; by rewrite fmap_app|].
    rewrite app_nil_r. apply shown_same.
  - intros u Hu%own_reference. rewrite pauses_changing, decide_False; [done|]. intros <-.
    by destruct (reference_known w _ Hwf Hu).
Qed.

Lemma harmless_add w : wf w → harmless w (neighbour 1 w).
Proof.
  intros Hwf. change (neighbour 1 w) with (match neighbour_lb w with
    | Some l => (fake_create_pool (PoolRequest.Mk "tcp/web" (LoadBalancer.UUID l) "round_robin" "tcp") w).2
    | None => w end).
  destruct (neighbour_lb w) as [l|] eqn:Hl; [|by apply harmless_refl].
  set (req := PoolRequest.Mk "tcp/web" (LoadBalancer.UUID l) "round_robin" "tcp").
  destruct (fake_create_pool_law w l req Hwf) as (p & w' & x' & Hr & [-> Hwf'] & Hc);
    [by apply neighbour_lb_Some|done|].
  fold req. rewrite Hr. injection Hr as <- <-. split; [done|]. split; [|done].
  eapply (unconcerned_created_pool info _ _) with (req := req); [done| | |exact Hc]; [by apply neighbour_not_own|done].
Qed.

Lemma harmless_remove w : wf w → harmless w (neighbour 2 w).
Proof.
  intros Hwf. change (neighbour 2 w) with
    (match neighbour_pool w with Some p => (fake_delete (Pool.HREF p) w).2 | None => w end).
  destruct (neighbour_pool w) as [p|] eqn:Hp; [|by apply harmless_refl].
  unfold neighbour_pool in Hp. apply bind_Some in Hp as (l & Hl & Hp).
  assert (p ∈ filter (λ p, Pool.LoadBalancer p = LoadBalancer.UUID l) (acc_pools w))
    as [Hpl Hpw]%list_elem_of_filter by (destruct (filter _ _); simplify_eq/=; by left).
  destruct (fake_delete_law w (Pool.HREF p) Hwf) as (w' & x' & Hr & [-> Hwf'] & Hd).
  rewrite Hr. injection Hr as <-. split; [done|]. split; [|done].
  apply (unconcerned_deleted info _ _) with (r := RPool p) (p := p); [|by apply fake_ok|by constructor| |done|done].
  - intros u _. unfold floating_listeners. simpl. f_equal. apply filter_id. intros k Hk Heq.
    assert (IListener k ∈ items w) as Hik by (by apply elem_of_items).
    assert (IPool p ∈ items w) as Hip by (by apply elem_of_items).
    by discriminate (item_inj w Hwf _ _ Hik Hip Heq).
  - intros [Hown _]%list_elem_of_filter. rewrite Hpl in Hown. by apply (neighbour_not_own w l).
Qed.

Lemma harmless_pause w : wf w → harmless w (neighbour 3 w).
Proof.
  intros Hwf. destruct (fake_pause_law w (5 * Second) Hwf) as (w' & x' & Hr & [-> Hwf'] & Hi & Hb & _).
  change (neighbour 3 w) with (fake_pause (5 * Second) w).2. rewrite Hr. split; [done|].
  split; [|by intros u _]. apply unconcerned_idle; [|done]. injection Hr as <-. done.
Qed.

Lemma neighbour_harmless n w : wf w → harmless w (neighbour n w).
Proof.
  intros Hwf. assert (neighbour n w = neighbour (n mod 4) w) as ->.
  { unfold neighbour. by rewrite Nat.Div0.mod_mod. }
  pose proof (Nat.mod_upper_bound n 4 ltac:(lia)).
  destruct (n mod 4)%nat as [|[|[|[|k]]]]; [| | | |lia].
  - by apply harmless_create.
  - by apply harmless_add.
  - by apply harmless_remove.
  - by apply harmless_pause.
Qed.

Lemma neighbour_considerate : Considerate cluster info.
Proof.
  split; [split; [done|by split]|done|]. intros n c x [[-> Hwf] Hstay].
  destruct (neighbour_harmless n (acct c) Hwf) as (Hwf' & Hun & Hb).
  exists (api_of (neighbour n (acct c))). by split_and!.
Qed.
End considerate.

(** ** The handlers next to the neighbour *)

Lemma ip_considerate : Considerate cluster (example_service ip_annotations).
Proof. apply neighbour_considerate; vm_compute; discriminate || reflexivity. Qed.

Lemma EnsureLoadBalancer_undisturbed_witness :
  ∃ status s' x' l,
    EnsureLoadBalancer 60 (λ _, default_order) "kubernetes" (Some ip_service) example_nodes
      (MkDisturbed (ip_cluster fake_start) 0) = Some (Ok status, s') ∧
    good (inner s') x' ∧
    in_place (example_service ip_annotations) ip_desired (lb_of ip_desired) x' l.
Proof.
  apply (EnsureLoadBalancer_undisturbed 60 (λ _, default_order) ip_service "kubernetes" example_nodes
    ip_desired (lb_of ip_desired) api_algorithms api_protocols (MkDisturbed (ip_cluster fake_start) 0)
    (api_of fake_start)).
  - exact ip_considerate.
  - exact ip_admitted.
  - exact ip_wanted.
  - right; left. by vm_compute.
  - exact ip_reachable.
  - split; [|done]. apply fake_single_good.
  - vm_compute. lia.
Defined.

Lemma EnsureLoadBalancerDeleted_undisturbed_witness :
  ∃ s' x',
    EnsureLoadBalancerDeleted 60 (λ _, default_order) "kubernetes" (Some ip_service)
      (MkDisturbed (ip_cluster fake_owned) 0) = Some (Ok tt, s') ∧
    good (inner s') x' ∧ no_owner (example_service ip_annotations) x'.
Proof.
  apply (EnsureLoadBalancerDeleted_undisturbed 60 (λ _, default_order) ip_service "kubernetes"
    (MkDisturbed (ip_cluster fake_owned) 0) (api_of fake_owned)).
  - exact ip_considerate.
  - exact ip_admitted.
  - split; [|done]. apply fake_single_good.
  - right. eexists. intros l. split.
    + by intros [Hl%list_elem_of_singleton _].
    + intros ->. split; [by left|by_decide].
  - simpl. lia.
Defined.

(** The neighbour does act in this run: there are load balancers of both. *)
Definition disturbed_run : option (result LoadBalancerStatus * disturbed cluster) :=
  EnsureLoadBalancer 60 (λ _, default_order) "kubernetes" (Some ip_service) example_nodes
    (MkDisturbed (ip_cluster fake_start) 0).

Lemma disturbed_run_shared :
  match disturbed_run with
  | Some (Ok _, s) =>
      filter (λ l, LoadBalancer.Name l = "k8s-service-deadbeef") (lbs (acct (inner s))) ≠ [] ∧
      filter (λ l, LoadBalancer.Name l = neighbour_name) (lbs (acct (inner s))) ≠ []
  | _ => False
  end.
Proof. vm_compute. split; discriminate. Qed.
