(* ===== verification/Footprint.v ===== *)
(** * Footprint

    Which resources a handler writes to.  A [registry] tells for every address
    and UUID of the API which load balancer the resource belongs to, and for
    every load balancer which service it was made for.  The class [Watched] is
    a client that is watched: a write is harmless if the registry files its
    target under the service at hand.  Whatever the API answers, as long as the
    answers agree with the registry, the handlers only do harmless writes: the
    target of every write was read, in the same round, as a part of a load
    balancer of the service.

    Nothing is assumed about what writes do, whether they fail, or what
    happens to the account between two calls. *)

From stdpp Require Import base tactics list gmap strings.
From Stdlib Require Import ZArith.
From S2P Require Import Prelude.
From S2P Require Import GoStrings.
From S2P Require Import Json.
From S2P Require Import Compare.
From S2P Require Import Limiter.
From S2P Require Import Cloudscale.
From S2P Require Import ServiceInfo.
From S2P Require Import Actions.
From S2P Require Import LbState.
From S2P Require Import NextActions.
From S2P Require Import NextActionsSpec.
From S2P Require Import NextActionsPlan.
From S2P Require Import LbStateSpec.
From S2P Require Import LbMapper.
From S2P Require Import ActualState.
From S2P Require Import ActualStateSpec.
From S2P Require Import Reconcile.
From S2P Require Import ReconcileSpec.
From S2P Require Import ProviderID.
From S2P Require Import ServerMapper.
From S2P Require Import JsonEncode.
From S2P Require Import KubeUtil.
From S2P Require Import LoadBalancerHandlers.

(** ** Computations that keep an invariant *)

Section keeps.
Context {W : Type} (inv : W → Prop).

(** Run from a state with the invariant, [m] ends in one, and what it returns
    satisfies [Q] if it succeeds. *)
Definition keeps {A} (m : M W A) (Q : A → Prop) : Prop :=
  ∀ w r w', inv w → m w = (r, w') → inv w' ∧ ∀ a, r = Ok a → Q a.

Definition keepsD {A} (m : D W A) (Q : A → Prop) : Prop :=
  ∀ w r w', inv w → m w = Some (r, w') → inv w' ∧ ∀ a, r = Ok a → Q a.

Definition any {A} (a : A) : Prop := True.

Lemma keeps_weaken {A} (m : M W A) (Q Q' : A → Prop) :
  keeps m Q → (∀ a, Q a → Q' a) → keeps m Q'.
Proof. intros Hm HQ w r w' Hw Hr. destruct (Hm w r w' Hw Hr). naive_solver. Qed.

Lemma keeps_lift {A} (r : result A) (Q : A → Prop) : (∀ a, r = Ok a → Q a) → keeps (lift r) Q.
Proof. intros Hr w r' w' Hw [= <- <-]. by split. Qed.

Lemma keeps_ret {A} (a : A) (Q : A → Prop) : Q a → keeps (mret a) Q.
Proof. intros Ha. apply keeps_lift. by intros ? [= <-]. Qed.

Lemma keeps_bind {A B} (m : M W A) (f : A → M W B) Q R :
  keeps m Q → (∀ a, Q a → keeps (f a) R) → keeps (m ≫= f) R.
Proof.
  intros Hm Hf w r w' Hw. unfold mbind, M_bind. destruct (m w) as [[a|e|msg] w1] eqn:Hr.
  - destruct (Hm _ _ _ Hw Hr) as [Hw1 Ha]. by apply Hf; auto.
  - intros [= <- <-]. by destruct (Hm _ _ _ Hw Hr).
  - intros [= <- <-]. by destruct (Hm _ _ _ Hw Hr).
Qed.

Lemma keeps_try {A B} (m : M W A) (f : A → M W B) g Q R :
  keeps m Q → (∀ a, Q a → keeps (f a) R) → (∀ e, keeps (g e) R) → keeps (try m f g) R.
Proof.
  intros Hm Hf Hg w r w' Hw. unfold try. destruct (m w) as [[a|e|msg] w1] eqn:Hr;
    destruct (Hm _ _ _ Hw Hr) as [Hw1 Ha].
  - by apply Hf; auto.
  - by apply Hg.
  - by intros [= <- <-].
Qed.

Lemma keeps_wrap {A} f (m : M W A) Q : keeps m Q → keeps (wrapM f m) Q.
Proof.
  intros Hm w r w' Hw. unfold wrapM. destruct (m w) as [r0 w1] eqn:Hr. intros [= <- <-].
  destruct (Hm _ _ _ Hw Hr) as [Hw1 Ha]. split; [done|]. intros a Hra%wrap_err_Ok. auto.
Qed.

Lemma keeps_foldM {A S} (f : S → A → M W S) (l : list A) (P : A → Prop) (Q : S → Prop) s :
  (∀ a, a ∈ l → P a) → (∀ s a, Q s → P a → keeps (f s a) Q) → Q s → keeps (foldM f s l) Q.
Proof.
  intros Hl Hf. revert s. induction l as [|a l IH]; intros s Hs; simpl; [by apply keeps_ret|].
  eapply keeps_bind; [apply Hf; [done|apply Hl; by left]|].
  intros s' Hs'. apply IH; [|done]. intros b ?. apply Hl. by right.
Qed.

Lemma keepsD_call {A} (m : M W A) Q : keeps m Q → keepsD (call m) Q.
Proof. intros Hm w r w' Hw [= Hr]. by apply (Hm w). Qed.

Lemma keepsD_bind {A B} (m : D W A) (f : A → D W B) Q R :
  keepsD m Q → (∀ a, Q a → keepsD (f a) R) → keepsD (m ≫= f) R.
Proof.
  intros Hm Hf w r w' Hw. unfold mbind, D_bind.
  destruct (m w) as [[[a|e|msg] w1]|] eqn:Hr; [..|done]; destruct (Hm _ _ _ Hw Hr) as [Hw1 Ha].
  - by apply Hf; auto.
  - by intros [= <- <-].
  - by intros [= <- <-].
Qed.

Lemma keepsD_wrap {A} f (m : D W A) Q : keepsD m Q → keepsD (wrapD f m) Q.
Proof.
  intros Hm w r w' Hw. unfold wrapD. destruct (m w) as [[r0 w1]|] eqn:Hr; [|done].
  intros [= <- <-]. destruct (Hm _ _ _ Hw Hr) as [Hw1 Ha]. split; [done|].
  intros a Hra%wrap_err_Ok. auto.
Qed.
End keeps.

(** ** The registry *)

Record registry : Type := MkRegistry {
  url_lb : string → string;
  pool_lb : string → string;
  listener_lb : string → string;
  monitor_lb : string → string;
  lb_service : string → string }.

Section footprint.
Context (reg : registry) (info : serviceInfo).
Implicit Types (uuid : string).

(** The load balancers made for the service. *)
Definition mine uuid : Prop := lb_service reg uuid = Service.UID (svc info).

(** Answers that agree with the registry. *)
Definition lb_filed (l : LoadBalancer.t) : Prop :=
  url_lb reg (LoadBalancer.HREF l) = LoadBalancer.UUID l ∧
  (belongs info l → mine (LoadBalancer.UUID l)).

Definition pool_filed (p : Pool.t) : Prop :=
  url_lb reg (Pool.HREF p) = Pool.LoadBalancer p ∧
  pool_lb reg (Pool.UUID p) = Pool.LoadBalancer p.

Definition member_filed uuid (m : PoolMember.t) : Prop :=
  url_lb reg (PoolMember.HREF m) = pool_lb reg uuid.

(** Floating listeners have no pool; the program leaves them alone. *)
Definition listener_filed (l : Listener.t) : Prop :=
  (∀ uuid, Listener.Pool l = Some uuid →
    url_lb reg (Listener.HREF l) = pool_lb reg uuid ∧
    listener_lb reg (Listener.UUID l) = pool_lb reg uuid) ∧
  (Listener.Pool l = None →
    url_lb reg (Listener.HREF l) = Listener.LoadBalancer l ∧
    listener_lb reg (Listener.UUID l) = Listener.LoadBalancer l).

Definition monitor_filed (m : HealthMonitor.t) : Prop :=
  url_lb reg (HealthMonitor.HREF m) = pool_lb reg (HealthMonitor.Pool m) ∧
  monitor_lb reg (HealthMonitor.UUID m) = pool_lb reg (HealthMonitor.Pool m).

Definition own_name (name : string) : Prop := name = annotation info LoadBalancerName.

(** The Floating IPs in the annotations, as requests address them. *)
Definition own_ip (ip : string) : Prop :=
  ∃ cidrs cidr, annotationList info LoadBalancerFloatingIPs = Ok cidrs ∧ cidr ∈ cidrs ∧
    ip = ip_of_cidr cidr.

(** ** The client, watched *)

(** [fine] holds as long as every write was harmless.  [asks q url] tells that
    the request [q] asks to delete [url]. *)
Class Watched (W : Type) `{Client W} := {
  fine : W → Prop;
  asks : Request → string → Prop;
  watch_get uuid : keeps fine (LoadBalancers_Get uuid)
    (λ l, LoadBalancer.UUID l = uuid ∧ lb_filed l);
  watch_lbs : keeps fine LoadBalancers_List (λ ls, ∀ l, l ∈ ls → lb_filed l);
  watch_pools : keeps fine Pools_List (λ ps, ∀ p, p ∈ ps → pool_filed p);
  watch_members uuid : keeps fine (PoolMembers_List uuid)
    (λ ms, ∀ m, m ∈ ms → member_filed uuid m);
  watch_listeners : keeps fine Listeners_List (λ ls, ∀ l, l ∈ ls → listener_filed l);
  watch_monitors : keeps fine HealthMonitors_List (λ ms, ∀ m, m ∈ ms → monitor_filed m);
  watch_ips : keeps fine FloatingIPs_List any;
  watch_server uuid : keeps fine (Servers_Get uuid) any;
  watch_servers : keeps fine Servers_List any;
  watch_ctx w : fine w → fine (ctx_Err w).2;
  watch_select d w : fine w → fine (select_after d w).2;
  watch_rand k w : fine w → fine (rand_Intn k w).2;
  watch_request url : keeps fine (NewRequest "DELETE" url) (λ q, asks q url);
  watch_delete q url : asks q url → mine (url_lb reg url) → keeps fine (Do q) any;
  watch_create_lb req : own_name (LoadBalancerRequest.Name req) →
    keeps fine (LoadBalancers_Create req) any;
  watch_rename uuid req : mine uuid → own_name (LoadBalancerRequest.Name req) →
    keeps fine (LoadBalancers_Update uuid req) any;
  watch_create_pool req : mine (PoolRequest.LoadBalancer req) →
    keeps fine (Pools_Create req) any;
  watch_create_member uuid req : mine (pool_lb reg uuid) →
    keeps fine (PoolMembers_Create uuid req) any;
  watch_create_listener req : mine (pool_lb reg (ListenerRequest.Pool req)) →
    keeps fine (Listeners_Create req) any;
  watch_create_monitor req : mine (pool_lb reg (HealthMonitorRequest.Pool req)) →
    keeps fine (HealthMonitors_Create req) any;
  watch_update_listener uuid req : mine (listener_lb reg uuid) →
    keeps fine (Listeners_Update uuid req) any;
  watch_update_monitor uuid req : mine (monitor_lb reg uuid) →
    keeps fine (HealthMonitors_Update uuid req) any;
  watch_assign ip uuid : own_ip ip → mine uuid → keeps fine (FloatingIPs_Update ip uuid) any }.

(** The cluster is watched for patches: only the service at hand is patched. *)
Class WatchedKube (W : Type) `{Watched W, !Kube W} := {
  watch_patch patch : keeps fine (Services_Patch (Service.Namespace (svc info))
    (Service.Name (svc info)) patch) any;
  watch_services token limit : keeps fine (Services_List token limit) any;
  watch_version : keeps fine ServerVersion any;
  watch_event service type_ reason message w :
    fine w → fine (Recorder_Event service type_ reason message w) }.

(** ** What is read *)

Section reads.
Context {W : Type} `{!Client W} `{!Watched W}.

Definition found_own (t : Limiter LoadBalancer.t) : Prop :=
  ∀ l, l ∈ elements t → lb_filed l ∧ belongs info l.

Lemma getByUUID_own :
  annotation info LoadBalancerUUID ≠ "" →
  keeps fine (getByUUID (annotation info LoadBalancerUUID)) found_own.
Proof.
  intros Hu. eapply keeps_try; [apply watch_get|..].
  - intros l [Hl Hf]. apply keeps_ret. intros k [= ->]%list_elem_of_singleton. by split; [|left].
  - intros e. destruct (is_not_found e); apply keeps_ret; by intros ? ?%not_elem_of_nil.
Qed.

Lemma findByName_own : keeps fine (findByName (annotation info LoadBalancerName)) found_own.
Proof.
  unfold findByName. case_decide; [apply keeps_ret; by intros ? ?%not_elem_of_nil|].
  eapply keeps_try; [apply watch_lbs|..].
  - intros ls Hls. apply keeps_ret. intros l [Hn Hl]%list_elem_of_filter. by split; [apply Hls|right].
  - intros e. apply keeps_ret. by intros ? ?%not_elem_of_nil.
Qed.

Lemma findByServiceInfo_own : keeps fine (findByServiceInfo info) found_own.
Proof.
  unfold findByServiceInfo. case_decide as Hu; [|apply findByName_own].
  eapply keeps_bind; [by apply getByUUID_own|]. intros t1 H1.
  eapply keeps_bind; [apply findByName_own|]. intros t2 H2.
  apply keeps_ret. intros l. unfold Unique. rewrite Join_eq. simpl.
  intros [?%not_elem_of_nil|Hl]%elem_of_fold_unique; [done|].
  rewrite app_nil_r in Hl. apply elem_of_app in Hl as [Hl|Hl]; auto.
Qed.

(** What is known of an actual state. *)
Record owned (s : lbState) : Prop := {
  owned_lb l : lb s = Some l →
    mine (LoadBalancer.UUID l) ∧ mine (url_lb reg (LoadBalancer.HREF l));
  owned_pool p : p ∈ pools s →
    mine (url_lb reg (Pool.HREF (pool p))) ∧ mine (pool_lb reg (Pool.UUID (pool p)));
  owned_member k m : m ∈ slice_at (members s) (Some k) → mine (url_lb reg (PoolMember.HREF m));
  owned_listener k l : l ∈ slice_at (listeners s) (Some k) →
    mine (url_lb reg (Listener.HREF l)) ∧ mine (listener_lb reg (Listener.UUID l));
  owned_monitor k m : m ∈ slice_at (monitors s) (Some k) →
    mine (url_lb reg (HealthMonitor.HREF m)) ∧ mine (monitor_lb reg (HealthMonitor.UUID m)) }.

Lemma owned_none : owned zeroLbState.
Proof.
  split; [done|..]; [by intros ? ?%not_elem_of_nil|..]; intros ? ?; unfold slice_at; simpl;
    rewrite lookup_empty; by intros ?%not_elem_of_nil.
Qed.

Lemma owned_new l :
  mine (LoadBalancer.UUID l) → mine (url_lb reg (LoadBalancer.HREF l)) → owned (newLbState l).
Proof.
  intros Hl Hu. pose proof owned_none as [_ Hp Hm Hli Hmo].
  split; [by intros ? [= <-]|..]; [exact Hp|exact Hm|exact Hli|exact Hmo].
Qed.

Lemma actualPool_owned uuid all_monitors all_listeners s p :
  mine uuid → (∀ m, m ∈ all_monitors → monitor_filed m) →
  (∀ l, l ∈ all_listeners → listener_filed l) → pool_filed p → owned s →
  keeps fine (actualPool uuid all_monitors all_listeners s p) owned.
Proof.
  intros Hu Hmo Hli [Hpu Hp] [Hlb Hps Hms Hls Hmos]. unfold actualPool.
  case_decide as Hd; [by apply keeps_ret|].
  assert (mine (pool_lb reg (Pool.UUID p))) as Hmine by (by rewrite Hp, Hd).
  eapply keeps_bind; [apply keeps_wrap, watch_members|]. intros ms Hm. apply keeps_ret. split; simpl.
  - done.
  - intros q [Hq|[= ->]%list_elem_of_singleton]%elem_of_app; [by apply Hps|]. simpl.
    by rewrite Hpu, Hd.
  - intros k m. rewrite slice_at_insert. case_decide; [|apply Hms]. intros Hin%Hm. by rewrite Hin.
  - intros k l. rewrite slice_at_foldl. case_decide; [|apply Hls].
    intros [Hin|Hin]%elem_of_app; [by eapply Hls|].
    apply list_elem_of_filter in Hin as [Heq Hin]. destruct (proj1 (Hli l Hin) _ Heq) as [-> ->]. done.
  - intros k m. rewrite slice_at_foldl. case_decide; [|apply Hmos].
    intros [Hin|Hin]%elem_of_app; [by eapply Hmos|].
    apply list_elem_of_filter in Hin as [Heq Hin]. destruct (Hmo m Hin) as [-> ->]. by rewrite Heq.
Qed.

Lemma AtMostOne_elem {T} (t : Limiter T) x : AtMostOne t = Ok (Some x) → x ∈ elements t.
Proof.
  unfold AtMostOne. destruct (Error t); [done|].
  destruct (elements t) as [|y [|]]; [done| |done]. intros [= ->]. by left.
Qed.

Lemma actualLbState_owned : keeps fine (actualLbState info) owned.
Proof.
  unfold actualLbState. eapply keeps_bind; [apply findByServiceInfo_own|]. intros t Ht.
  eapply keeps_bind; [apply keeps_wrap, (keeps_lift _ _ (λ o, ∀ l, o = Some l → l ∈ elements t))|].
  { intros o Ho l ->. by apply AtMostOne_elem. }
  intros [l|] Hl; [|apply keeps_ret, owned_none].
  destruct (Ht l (Hl l eq_refl)) as [[Hu Hm] Hb]. specialize (Hm Hb).
  eapply keeps_bind; [apply keeps_wrap, watch_monitors|]. intros mos Hmos.
  eapply keeps_bind; [apply keeps_wrap, watch_listeners|]. intros lis Hlis.
  eapply keeps_bind; [apply keeps_wrap, watch_pools|]. intros ps Hps.
  eapply keeps_bind.
  { eapply keeps_foldM; [exact Hps| |].
    - intros s p Hs Hp. by apply actualPool_owned.
    - apply owned_new; [done|by rewrite Hu]. }
  intros s [Hlb Hpo Hme Hli Hmo].
  eapply keeps_bind; [apply keeps_wrap, watch_ips|]. intros ips _. apply keeps_ret.
  split; simpl; [done..| |done]. intros k x. rewrite slice_at_foldl, decide_False by done. apply Hli.
Qed.
End reads.

(** ** What is planned and run *)

Definition harmless (a : Action) : Prop :=
  match a with
  | CreateLbAction l => own_name (LoadBalancer.Name l)
  | RenameLbAction uuid name => mine uuid ∧ own_name name
  | DeleteResourceAction url => mine (url_lb reg url)
  | CreatePoolAction uuid _ => mine uuid
  | CreatePoolMemberAction uuid _ | CreateListenerAction uuid _
  | CreateHealthMonitorAction uuid _ => mine (pool_lb reg uuid)
  | UpdateListenerAllowedCIDRsAction uuid _ | UpdateListenerTimeoutAction _ uuid _ =>
      mine (listener_lb reg uuid)
  | UpdateMonitorHTTPMethodAction uuid _ | UpdateMonitorHTTPPathAction uuid _
  | UpdateMonitorHTTPHostAction uuid _ | UpdateMonitorHTTPExpectedCodesAction uuid _
  | UpdateMonitorNumberAction uuid _ _ => mine (monitor_lb reg uuid)
  | AssignFloatingIPAction cidr uuid => own_ip (ip_of_cidr cidr) ∧ mine uuid
  | RefetchAction | AwaitLbAction _ | SleepAction _ => True
  end.

(** What is known of a desired state. *)
Definition asked_for (s : lbState) : Prop :=
  (∀ l, lb s = Some l → own_name (LoadBalancer.Name l)) ∧
  ∀ cidr, cidr ∈ floatingIPs s → own_ip (ip_of_cidr cidr).

Lemma poolsByName_elem s name p : poolsByName s !! name = Some p → p ∈ pools s.
Proof.
  rewrite poolsByName_index, index_by_lookup. by intros [_ Hp]%last_with_Some.
Qed.

Lemma listener_update_harmless dl (al : Listener.t) a :
  mine (listener_lb reg (Listener.UUID al)) → listener_update dl al a → harmless a.
Proof. by intros Hl []. Qed.

Lemma monitor_update_harmless dm (am : HealthMonitor.t) a :
  mine (monitor_lb reg (HealthMonitor.UUID am)) → monitor_update dm am a → harmless a.
Proof. intros Hm [? ? ? _ _ []| | | |]; done. Qed.

Section plans.
Context `{GoExt} `{SDK}.

Lemma undesired_mine desired actual url :
  owned actual → undesired desired actual url → mine (url_lb reg url).
Proof.
  intros [_ Hp Hm Hl Hmo]. destruct 1 as [p Hin _|p m _ _ Hin|d a m _ _ Hin _|d a l _ _ Hin _|d a m _ _ Hin _].
  - by apply Hp.
  - by eapply Hm.
  - by eapply Hm.
  - by eapply Hl.
  - by eapply Hmo.
Qed.

Lemma planned_harmless desired actual dlb alb a :
  asked_for desired → owned actual → lb desired = Some dlb → lb actual = Some alb →
  planned desired actual dlb alb a → harmless a.
Proof.
  intros [Hn Hips] Ho Hd Ha. pose proof Ho as [Hlb Hp _ Hl Hm].
  assert (mine (LoadBalancer.UUID alb)) as Halb by (by apply Hlb).
  destruct 1 as [| | | | | | | | |? ? ? ? ? ? _ _ [_ Hal]%last_with_Some ?
    |? ? ? ? ? ? _ _ [_ Ham]%last_with_Some ?|]; simpl; try done.
  - by split; [|apply Hn].
  - by eapply undesired_mine.
  - by eapply Hp, poolsByName_elem.
  - by eapply Hp, poolsByName_elem.
  - by eapply Hp, poolsByName_elem.
  - eapply listener_update_harmless; [|done]. by eapply Hl.
  - eapply monitor_update_harmless; [|done]. by eapply Hm.
  - split; [by apply Hips|done].
Qed.

Lemma plan_harmless `{MapOrder} desired actual next :
  asked_for desired → owned actual →
  nextLbActions (Some desired) (Some actual) = Ok next → Forall harmless next.
Proof.
  intros Hd Ha Hn. destruct (lb desired) as [dlb|] eqn:Hdl, (lb actual) as [alb|] eqn:Hal.
  - destruct (plan_planned desired actual dlb alb next Hdl Hal Hn) as [_ Hall].
    eapply Forall_impl; [exact Hall|]. intros a. by apply planned_harmless.
  - unfold nextLbActions in Hn. rewrite Hdl, Hal in Hn. injection Hn as <-.
    repeat constructor. by apply Hd.
  - unfold nextLbActions in Hn. rewrite Hdl, Hal in Hn. injection Hn as <-.
    repeat constructor. by apply (owned_lb _ Ha).
  - unfold nextLbActions in Hn. rewrite Hdl, Hal in Hn. injection Hn as <-. constructor.
Qed.
End plans.

Section runs.
Context {W : Type} `{!Client W} `{!Watched W}.

Lemma proceed_kept {A} (m : M W A) Q : keeps fine m Q → keeps fine (proceed_on_success m) any.
Proof.
  intros Hm. unfold proceed_on_success, err_of. eapply keeps_bind.
  - eapply (keeps_try _ _ _ _ Q any); [exact Hm|..]; intros; by apply keeps_ret.
  - intros. by apply keeps_ret.
Qed.

Lemma select_kept {A} d (f : bool → result A) :
  keeps fine (λ w, let '(b, w') := select_after d w in (f b, w')) any.
Proof.
  intros w r w' Hw. pose proof (watch_select d w Hw) as Hs.
  destruct (select_after d w) as [b w1]. by intros [= <- <-].
Qed.

(** An update whose request depends on a key. *)
Lemma keeps_if {A} (P : Prop) `{Decision P} (m1 m2 : M W A) Q :
  keeps fine m1 Q → keeps fine m2 Q → keeps fine (if decide P then m1 else m2) Q.
Proof. by case_decide. Qed.

Ltac harmless_write Ha :=
  eapply proceed_kept;
  first [apply watch_create_lb | apply watch_rename | apply watch_create_pool
        | apply watch_create_member | apply watch_create_listener | apply watch_create_monitor
        | apply watch_update_listener | apply watch_update_monitor | apply watch_assign];
  apply Ha.

Lemma Run_kept a : harmless a → keeps fine (Run a) any.
Proof.
  destruct a; simpl; intros Ha; unfold run_CreateLb, run_RenameLb, run_CreatePool,
    run_CreatePoolMember, run_CreateListener, run_CreateHealthMonitor,
    run_UpdateListenerAllowedCIDRs, run_UpdateListenerTimeout, run_UpdateMonitorHTTPMethod,
    run_UpdateMonitorHTTPPath, run_UpdateMonitorHTTPHost, run_UpdateMonitorHTTPExpectedCodes,
    update_monitor_http, run_UpdateMonitorNumber, run_AssignFloatingIP, run_AwaitLb;
    repeat apply keeps_if; try (by apply keeps_ret); try harmless_write Ha.
  - eapply keeps_try; [apply watch_request| |by intros; apply keeps_ret].
    intros q Hq. eapply proceed_kept, watch_delete; [exact Hq|exact Ha].
  - apply select_kept.
Qed.

Lemma runActions_kept next : Forall harmless next → keeps fine (runActions next) any.
Proof.
  induction 1 as [|a next Ha _ IH]; intros w r w' Hw; simpl; [by intros [= <- <-]|].
  pose proof (watch_ctx w Hw) as Hc. destruct (ctx_Err w) as [[e|] w1]; simpl in Hc.
  - pose proof (watch_ctx w1 Hc) as Hc2. destruct (ctx_Err w1) as [err w2]. by intros [= <- <-].
  - destruct (Run a w1) as [ra w2] eqn:Hr. destruct (Run_kept a Ha w1 ra w2 Hc Hr) as [Hw2 _].
    destruct ra as [[[] [e|]]|e|msg]; try (by intros [= <- <-]). by apply IH.
Qed.

Lemma wait_round_kept : keeps fine wait_round any.
Proof.
  intros w r w' Hw. unfold wait_round. pose proof (watch_rand 2500 w Hw) as Hr.
  destruct (rand_Intn 2500 w) as [n w1]. by apply (select_kept _ (λ b : bool,
    if b then Err err_reconcile_aborted else Ok tt)).
Qed.

Lemma reconcileLbState_kept `{GoExt} `{SDK} fuel orders desiredState actualState :
  keeps fine desiredState asked_for → keeps fine actualState owned →
  keepsD fine (reconcileLbState fuel orders desiredState actualState) any.
Proof.
  intros Hd Ha. revert orders. induction fuel as [|fuel IH]; intros orders; [done|]. simpl.
  eapply (keepsD_bind _ _ _ any).
  - apply keepsD_call. unfold reconcileRound. eapply keeps_bind; [exact Hd|]. intros desired Hdes.
    eapply keeps_bind; [exact Ha|]. intros actual Hact.
    eapply keeps_bind; [apply (keeps_lift _ _ (Forall harmless))|].
    + intros next. by apply (@plan_harmless _ _ (orders 0%nat)).
    + apply runActions_kept.
  - intros [] _; [|by apply keepsD_call, keeps_ret].
    eapply keepsD_bind; [apply keepsD_call, wait_round_kept|]. intros _ _. apply IH.
Qed.
End runs.
(** ** The handlers *)

Section handlers.
Context {W : Type} `{!Client W} `{!Watched W} `{!Kube W} `{!WatchedKube W}.
Context `{GoExt} `{SDK} `{UUIDPackage} `{LabelsPackage}.

Lemma findByNode_kept node : keeps fine (findByNode node) any.
Proof.
  unfold findByNode. destruct node as [node|]; [|by apply keeps_ret].
  apply keeps_if.
  - destruct (parseCloudscaleProviderID (Node.ProviderID node)); [|by apply keeps_ret..|by apply keeps_lift].
    unfold getByProviderID. eapply keeps_try; [apply watch_server|by intros; apply keeps_ret|].
    intros e. destruct (is_not_found e); by apply keeps_ret.
  - unfold findServerByName. eapply keeps_try; [apply watch_servers|by intros; apply keeps_ret..].
Qed.

Lemma mapNodes_loop_kept servers nodes : keeps fine (mapNodes_loop servers nodes) any.
Proof.
  revert servers. induction nodes as [|node nodes IH]; intros servers; cbn [mapNodes_loop];
    [by apply keeps_ret|].
  eapply keeps_bind; [apply findByNode_kept|]. intros found _.
  destruct (One found); [apply IH|by apply keeps_ret|by apply keeps_lift].
Qed.

Lemma own_floatingIPs cidrs :
  annotationList info LoadBalancerFloatingIPs = Ok cidrs →
  ∀ cidr, cidr ∈ cidrs → own_ip (ip_of_cidr cidr).
Proof. intros Hc cidr Hin. by exists cidrs, cidr. Qed.

Lemma desiredState_kept nodes : keeps fine (desiredState info nodes) asked_for.
Proof.
  unfold desiredState. eapply keeps_bind; [apply mapNodes_loop_kept|]. intros found _.
  eapply (keeps_bind _ _ _ any); [by apply keeps_lift|]. intros servers _.
  apply keeps_lift. intros s ((l & Hl & Hw) & Hips & _)%desiredLbState_wants. split.
  - intros k. rewrite Hl. intros [= <-]. by destruct Hw as (vip & _ & _ & Hn & _).
  - by apply own_floatingIPs.
Qed.

Lemma list_conflicts_kept fuel ips conflicts token :
  keepsD fine (list_conflicts fuel info ips conflicts token) any.
Proof.
  revert conflicts token. induction fuel as [|fuel IH]; intros conflicts token; [done|]. simpl.
  eapply keepsD_bind; [apply keepsD_call, keeps_wrap, watch_services|]. intros page _.
  case_decide; [by apply keepsD_call, keeps_ret|apply IH].
Qed.

Lemma ensureValidConfig_kept `{MapOrder} fuel : keepsD fine (ensureValidConfig fuel info) any.
Proof.
  assert (keepsD fine (ips ← wrapD (λ _, err_parse_floating) (findIPsAssignedElsewhere fuel info);
    if decide (0 < size ips)%nat then call (throw (err_conflict info (range [5%nat] ips)))
    else mret tt) any) as Hips.
  { eapply (keepsD_bind _ _ _ any); [|intros ips _; case_decide;
      [by apply keepsD_call, keeps_lift|by apply keepsD_call, keeps_ret]].
    apply keepsD_wrap. unfold findIPsAssignedElsewhere.
    eapply (keepsD_bind _ _ _ any); [by apply keepsD_call, keeps_lift|]. intros ips _.
    case_decide; [by apply keepsD_call, keeps_ret|apply list_conflicts_kept]. }
  unfold ensureValidConfig. destruct (isSupported info) as [[] [e|]]; [exact Hips..| |].
  - by apply keepsD_call, keeps_lift.
  - by apply keepsD_call, keeps_ret.
Qed.

Lemma warn_no_nodes_kept nodes : keeps fine (warn_no_nodes info nodes) any.
Proof.
  intros w r w' Hw [= <- <-]. split; [|done]. destruct nodes; [by apply watch_event|done].
Qed.

Lemma reconcileService_kept `{MapOrder} fuel orders nodes :
  keepsD fine (reconcileService fuel orders info nodes) any.
Proof.
  unfold reconcileService. eapply keepsD_bind; [apply ensureValidConfig_kept|]. intros _ _.
  eapply (keepsD_bind _ _ _ any); [by apply keepsD_call, keeps_lift|]. intros selected _.
  eapply keepsD_bind; [apply keepsD_call, warn_no_nodes_kept|]. intros _ _.
  apply reconcileLbState_kept; [apply desiredState_kept|apply actualLbState_owned].
Qed.

Lemma AnnotateService_kept client kv : keeps fine (AnnotateService client (svc info) kv) any.
Proof.
  unfold AnnotateService. apply keeps_if; [by apply keeps_ret|].
  destruct (negb (Nat.even (length kv))); [by apply keeps_lift|].
  destruct (negb client); [by apply keeps_lift|]. apply keeps_if; [by apply keeps_ret|].
  apply keeps_wrap, watch_patch.
Qed.

Lemma loadBalancerStatus_kept l : keeps fine (loadBalancerStatus info l) any.
Proof.
  unfold loadBalancerStatus. apply keeps_if; [by apply keeps_ret|].
  apply keeps_if; [|by apply keeps_lift]. eapply (keeps_bind _ _ _ any); [|intros; by apply keeps_ret].
  apply keeps_wrap. unfold IsKubernetesReleaseOrNewer.
  eapply keeps_bind; [apply keeps_wrap, watch_version|]. intros release _.
  eapply (keeps_bind _ _ _ any); [by apply keeps_lift|]. intros k8sMajor _.
  eapply (keeps_bind _ _ _ any); [by apply keeps_lift|]. intros k8sMinor _. by apply keeps_ret.
Qed.
End handlers.
End footprint.

(** The handlers of a service only do harmless writes. *)
Section handlers.
Context (reg : registry) (service : Service.t) (clusterName : string).
Let info := MkServiceInfo service clusterName.
Context {W : Type} `{!Client W} `{!Watched reg info W} `{!Kube W} `{!WatchedKube reg info W}.
Context `{GoExt} `{SDK} `{UUIDPackage} `{LabelsPackage} `{MapOrder}.

Lemma EnsureLoadBalancer_kept fuel orders nodes :
  keepsD (fine reg info) (EnsureLoadBalancer fuel orders clusterName (Some service) nodes) any.
Proof.
  unfold EnsureLoadBalancer. fold info.
  eapply keepsD_bind; [apply (reconcileService_kept reg info)|]. intros _ _.
  eapply keepsD_bind; [apply keepsD_call, (actualLbState_owned reg info)|]. intros actual _.
  destruct (lb actual) as [l|]; [|by apply keepsD_call, keeps_lift].
  eapply keepsD_bind; [apply keepsD_call, keeps_wrap, (AnnotateService_kept reg info)|]. intros _ _.
  apply keepsD_call, keeps_wrap, (loadBalancerStatus_kept reg info).
Qed.

Lemma UpdateLoadBalancer_kept fuel orders nodes :
  keepsD (fine reg info) (UpdateLoadBalancer fuel orders clusterName (Some service) nodes) any.
Proof. apply (reconcileService_kept reg info). Qed.

Lemma EnsureLoadBalancerDeleted_kept fuel orders :
  keepsD (fine reg info) (EnsureLoadBalancerDeleted fuel orders clusterName (Some service)) any.
Proof.
  unfold EnsureLoadBalancerDeleted. fold info.
  eapply keepsD_bind; [apply (ensureValidConfig_kept reg info)|]. intros _ _.
  apply (reconcileLbState_kept reg info); [|apply actualLbState_owned].
  apply keeps_ret. split; [done|]. by intros ? ?%not_elem_of_nil.
Qed.
End handlers.
