(* ===== verification/Interleaving.v ===== *)
(** * Interleaving

    The handlers as threads whose calls interleave.  A handler is a function on
    the state of the world, which runs to its end without interruption.  To
    interrupt it, it is run in the world [solo]: before each call it meets the
    next state of a script, as others have left it, and what each call makes of
    the state it met is noted.  A script that ends too early makes every
    further call fail, and the run is marked as cut.

    A system has the locks of [Locks], the state of the world and the history
    of all calls.  A thread takes a step by calling [LoadOrStore] or [Lock], by
    the next call of its handler, which is what its run does after the calls it
    has made so far, or by returning.  The world may change on its own. *)

From stdpp Require Import base tactics list gmap strings relations.
From Stdlib Require Import ZArith.
From S2P Require Import Prelude.
From S2P Require Import GoStrings.
From S2P Require Import Cloudscale.
From S2P Require Import ServiceInfo.
From S2P Require Import Reconcile.
From S2P Require Import ProviderID.
From S2P Require Import KubeUtil.
From S2P Require Import LoadBalancerHandlers.
From S2P Require Import Locks.

(** ** A handler alone with its script *)

Record solo (W : Type) : Type := MkSolo {
  upcoming : list W;
  past : list (W * W);
  cut : bool }.
Arguments MkSolo {W}.
Arguments upcoming {W}.
Arguments past {W}.
Arguments cut {W}.

Definition err_cut : error := ForeignError "cut off".

Section solo.
Context {W : Type}.

(** A call that gives [alone] once the script is over. *)
Definition meet {R} (alone : R) (m : W → R * W) : solo W → R * solo W := λ s,
  match upcoming s with
  | [] => (alone, MkSolo [] (past s) true)
  | w :: ws => let '(r, w') := m w in (r, MkSolo ws (past s ++ [(w, w')]) (cut s))
  end.

Definition meets {A} (m : M W A) : M (solo W) A := meet (Err err_cut) m.

#[export] Instance solo_client `{!Client W} : Client (solo W) := {|
  Request := Request;
  NewRequest method url := meets (NewRequest method url);
  Do q := meets (Do q);
  LoadBalancers_Get uuid := meets (LoadBalancers_Get uuid);
  LoadBalancers_List := meets LoadBalancers_List;
  LoadBalancers_Create req := meets (LoadBalancers_Create req);
  LoadBalancers_Update uuid req := meets (LoadBalancers_Update uuid req);
  Pools_List := meets Pools_List;
  Pools_Create req := meets (Pools_Create req);
  PoolMembers_List uuid := meets (PoolMembers_List uuid);
  PoolMembers_Create uuid req := meets (PoolMembers_Create uuid req);
  Listeners_List := meets Listeners_List;
  Listeners_Create req := meets (Listeners_Create req);
  Listeners_Update uuid req := meets (Listeners_Update uuid req);
  HealthMonitors_List := meets HealthMonitors_List;
  HealthMonitors_Create req := meets (HealthMonitors_Create req);
  HealthMonitors_Update uuid req := meets (HealthMonitors_Update uuid req);
  FloatingIPs_List := meets FloatingIPs_List;
  FloatingIPs_Update ip uuid := meets (FloatingIPs_Update ip uuid);
  Servers_Get uuid := meets (Servers_Get uuid);
  Servers_List := meets Servers_List;
  ctx_Err := meet (Some err_cut) ctx_Err;
  select_after d := meet true (select_after d);
  rand_Intn k := meet 0%Z (rand_Intn k) |}.

#[export] Instance solo_kube `{!Kube W} : Kube (solo W) := {|
  Services_Patch ns name patch := meets (Services_Patch ns name patch);
  Services_List token limit := meets (Services_List token limit);
  ServerVersion := meets ServerVersion;
  Recorder_Event service type_ reason message s :=
    (meet tt (λ w, (tt, Recorder_Event service type_ reason message w)) s).2 |}.
End solo.

(** ** Threads *)

(** The handlers that take the lock of their service. *)
Inductive handler : Type :=
| EnsureLb (nodes : list Node.t)
| UpdateLb (nodes : list Node.t)
| DeleteLb.

(** A call of a handler, and how the runtime iterates over maps in it. *)
Record job : Type := MkJob {
  job_service : Service.t;
  job_cluster : string;
  job_handler : handler;
  job_order : MapOrder;
  job_orders : nat → MapOrder }.

Definition job_info (j : job) : serviceInfo := MkServiceInfo (job_service j) (job_cluster j).
Definition job_uid (j : job) : string := Service.UID (job_service j).

(** Who made a call (nobody, if the world changed on its own), the state it
    met and the state it left. *)
Definition event (W : Type) : Type := option nat * (W * W).

Record system (W : Type) : Type := MkSystem {
  lk : locks;
  world : W;
  history : list (event W) }.
Arguments MkSystem {W}.
Arguments lk {W}.
Arguments world {W}.
Arguments history {W}.

Definition calls_of {W} (t : nat) (h : list (event W)) : list (W * W) :=
  snd <$> filter (λ e, e.1 = Some t) h.

(** The handler of a job, in any world. *)
Section run.
Context {V : Type} `{!Client V} `{!Kube V}.
Context `{GoExt} `{SDK} `{UUIDPackage} `{LabelsPackage}.
Implicit Types (j : job).

(** What comes back is not looked at here. *)
Definition forget {A} (m : D V A) : D V unit := λ c,
  match m c with
  | Some (r, c') => Some ((λ _, tt) <$> r, c')
  | None => None
  end.

Definition run_job j (fuel : nat) : D V unit :=
  match job_handler j with
  | EnsureLb nodes => forget (@EnsureLoadBalancer _ _ _ _ _ _ _ (job_order j) fuel (job_orders j)
                        (job_cluster j) (Some (job_service j)) nodes)
  | UpdateLb nodes => @UpdateLoadBalancer _ _ _ _ _ _ _ (job_order j) fuel (job_orders j)
                        (job_cluster j) (Some (job_service j)) nodes
  | DeleteLb => @EnsureLoadBalancerDeleted _ _ _ _ _ (job_order j) fuel (job_orders j)
                  (job_cluster j) (Some (job_service j))
  end.
End run.

Section system.
Context {W : Type} `{!Client W} `{!Kube W}.
Context `{GoExt} `{SDK} `{UUIDPackage} `{LabelsPackage}.
Implicit Types (j : job) (s : system W) (h : list (event W)) (w : W) (calls : list (W * W)).

(** After [calls], the handler calls next, in the state [w], and leaves [w']. *)
Definition next_call j calls (w w' : W) : Prop :=
  ∃ fuel r c, run_job j fuel (MkSolo (calls.*1 ++ [w]) [] false) = Some (r, c) ∧
    past c = calls ++ [(w, w')].

(** After [calls], the handler returns. *)
Definition returned j calls : Prop :=
  ∃ fuel r c, run_job j fuel (MkSolo calls.*1 [] false) = Some (r, c) ∧
    past c = calls ∧ cut c = false.

Definition running (l : locks) (t : nat) : Prop :=
  ∃ uid mu, threads l !! t = Some (Running uid mu).

Inductive system_step (jobs : list job) : system W → system W → Prop :=
| step_lock l w h t l' :
    ¬ running l t → advance l t = Some l' →
    system_step jobs (MkSystem l w h) (MkSystem l' w h)
| step_call l w h t j w' :
    jobs !! t = Some j → running l t → next_call j (calls_of t h) w w' →
    system_step jobs (MkSystem l w h) (MkSystem l w' (h ++ [(Some t, (w, w'))]))
| step_return l w h t j l' :
    jobs !! t = Some j → running l t → returned j (calls_of t h) → advance l t = Some l' →
    system_step jobs (MkSystem l w h) (MkSystem l' w h)
| step_outside l w h w' :
    system_step jobs (MkSystem l w h) (MkSystem l w' (h ++ [(None, (w, w'))])).

Definition system_start (jobs : list job) (w : W) : system W :=
  MkSystem (initial (job_uid <$> jobs)) w [].

Definition system_reachable (jobs : list job) (w : W) : system W → Prop :=
  rtc (system_step jobs) (system_start jobs w).

(** The locks of a system behave as in [Locks]. *)
Lemma system_step_locks jobs s s' : system_step jobs s s' → rtc lock_step (lk s) (lk s').
Proof. destruct 1; simpl; [by eapply rtc_once, lock_step_of|done|by eapply rtc_once, lock_step_of|done]. Qed.

Lemma system_locks jobs w s : system_reachable jobs w s → reachable (job_uid <$> jobs) (lk s).
Proof.
  unfold system_reachable, reachable. change (initial (job_uid <$> jobs)) with (lk (system_start jobs w)).
  generalize (system_start jobs w). intros s0. induction 1 as [|s0 s1 s2 Hs _ IH]; [done|].
  by etrans; [eapply system_step_locks|].
Qed.

(** ** Calls and threads *)

Lemma elem_of_calls t h b a : (b, a) ∈ calls_of t h ↔ (Some t, (b, a)) ∈ h.
Proof.
  unfold calls_of. rewrite list_elem_of_fmap. split.
  - intros ([o e] & -> & [Ho He]%list_elem_of_filter). simpl in *. by subst.
  - intros He. exists (Some t, (b, a)). by rewrite list_elem_of_filter.
Qed.

Lemma calls_of_snoc t h o e :
  calls_of t (h ++ [(o, e)]) = if decide (o = Some t) then calls_of t h ++ [e] else calls_of t h.
Proof.
  unfold calls_of. rewrite filter_app, fmap_app, filter_cons, filter_nil. simpl.
  case_decide; [done|]. apply app_nil_r.
Qed.

Lemma step_history jobs s s' : system_step jobs s s' → ∃ h, history s' = history s ++ h.
Proof. destruct 1; simpl; [exists []; by rewrite app_nil_r|eauto|exists []; by rewrite app_nil_r|eauto]. Qed.

Lemma rtc_history jobs s s' : rtc (system_step jobs) s s' → ∃ h, history s' = history s ++ h.
Proof.
  induction 1 as [s|s1 s2 s3 Hs _ [h Hh]]; [exists []; by rewrite app_nil_r|].
  destruct (step_history _ _ _ Hs) as [h1 Hh1]. exists (h1 ++ h). by rewrite Hh, Hh1, app_assoc.
Qed.

Lemma running_phase l t : running l t ↔ ∃ th, threads l !! t = Some th ∧ thread_phase th = 2%nat.
Proof.
  split; [by intros (uid & mu & Ht); eexists|]. intros ([uid|uid mu|uid mu|uid] & Ht & Hp); try done.
  by exists uid, mu.
Qed.

(** [R] relates what each call left to what the next call met. *)
Definition linked (R : W → W → Prop) (calls : list (W * W)) : Prop :=
  ∀ i e1 e2, calls !! i = Some e1 → calls !! S i = Some e2 → R e1.2 e2.1.

Lemma linked_snoc (R : W → W → Prop) calls e :
  linked R calls → (∀ e0, last calls = Some e0 → R e0.2 e.1) → linked R (calls ++ [e]).
Proof.
  intros Hl He i e1 e2 Hi1 [Hi2|[Hlen Hi2]]%lookup_app_Some.
  - apply lookup_app_Some in Hi1 as [Hi1|[? _]]; [by eapply Hl|]. apply lookup_lt_Some in Hi2. lia.
  - apply list_lookup_singleton_Some in Hi2 as [Hi2 <-].
    apply lookup_app_Some in Hi1 as [Hi1|[? _]]; [|lia]. apply He. rewrite last_lookup.
    by replace (pred (length calls)) with i by lia.
Qed.

Section threads.
Context (jobs : list job).

(** Threads are the jobs, and those that do not run yet have not called. *)
Record threads_ok s : Prop := {
  thread_job t th : threads (lk s) !! t = Some th →
    ∃ j, jobs !! t = Some j ∧ thread_uid th = job_uid j;
  thread_idle t th : threads (lk s) !! t = Some th → (thread_phase th < 2)%nat →
    calls_of t (history s) = [] }.

Lemma threads_start w : threads_ok (system_start jobs w).
Proof.
  split; simpl; [|done]. intros t th. rewrite !list_lookup_fmap. destruct (jobs !! t) as [j|]; [|done].
  intros [= <-]. by exists j.
Qed.

Lemma threads_advance l w h t l' :
  advance l t = Some l' → threads_ok (MkSystem l w h) → threads_ok (MkSystem l' w h).
Proof.
  intros (th & th' & Ht & Hl & Hu & Hp)%advance_threads [Hj Hi].
  assert (t < length (threads l))%nat as Hlt by (by apply lookup_lt_is_Some; eexists).
  split; simpl in *; intros t' th1; rewrite Hl;
    (destruct (decide (t = t')) as [<-|Hne];
      [rewrite list_lookup_insert_eq by done; intros [= <-]
      |rewrite list_lookup_insert_ne by done; eauto]).
  - rewrite Hu. eauto.
  - intros Hlt2. eapply Hi; [exact Ht|lia].
Qed.

Lemma threads_call l w h o e w' :
  (∀ t, o = Some t → running l t) →
  threads_ok (MkSystem l w h) → threads_ok (MkSystem l w' (h ++ [(o, e)])).
Proof.
  intros Ho [Hj Hi]. split; simpl in *; [done|]. intros t th Ht Hp. rewrite calls_of_snoc.
  case_decide as Ht'; [|by eapply Hi].
  destruct (Ho t Ht') as (uid & mu & Hr). rewrite Hr in Ht. injection Ht as <-. simpl in Hp. lia.
Qed.

Lemma threads_step s s' : system_step jobs s s' → threads_ok s → threads_ok s'.
Proof.
  destruct 1; [by eapply threads_advance|apply threads_call|by eapply threads_advance|by apply threads_call].
  by intros ? [= <-].
Qed.

Lemma reachable_threads w s : system_reachable jobs w s → threads_ok s.
Proof.
  revert s. apply (rtc_ind_r threads_ok); [apply threads_start|].
  intros s s' _ Hs. by apply threads_step.
Qed.
End threads.
End system.
