(* ===== verification/Scripts.v ===== *)
(** * Scripts

    The handlers as sequences of calls.  [scripted] relates a computation on a
    script ([solo]) to the same computation among others ([disturbed]): both
    are built from the same calls and do the same with the answers.  All
    handlers are scripted.  On a longer script they do what they did on the
    shorter one, and go on where they were cut off; among others they do what
    they do on the script of the states they meet there. *)

From stdpp Require Import base tactics list gmap strings relations.
From Stdlib Require Import ZArith.
From S2P Require Import Prelude.
From S2P Require Import GoStrings.
From S2P Require Import Limiter.
From S2P Require Import Cloudscale.
From S2P Require Import ServiceInfo.
From S2P Require Import Actions.
From S2P Require Import LbState.
From S2P Require Import NextActions.
From S2P Require Import LbMapper.
From S2P Require Import ActualState.
From S2P Require Import Reconcile.
From S2P Require Import ProviderID.
From S2P Require Import ServerMapper.
From S2P Require Import KubeUtil.
From S2P Require Import LoadBalancerHandlers.
From S2P Require Import Locks.
From S2P Require Import Interleaving.
From S2P Require Import Others.

(** ** Computations built from calls *)

Section scripted.
Context {W : Type} `{!Interference W}.

(** Computations on a script, and among others. *)
#[local] Abbreviation on_script A := (solo W → option (A * solo W)).
#[local] Abbreviation among A := (disturbed W → option (A * disturbed W)).

Inductive scripted {A} : on_script A → among A → Prop :=
| scripted_done m n a : (∀ c, m c = Some (a, c)) → (∀ d, n d = Some (a, d)) → scripted m n
| scripted_fuel m n : (∀ c, m c = None) → (∀ d, n d = None) → scripted m n
| scripted_call {R} (alone : R) (call : W → R * W) k l m n :
    (∀ r, scripted (k r) (l r)) →
    (∀ c, m c = let '(r, c') := meet alone call c in k r c') →
    (∀ d, n d = let '(r, d') := disturb call d in l r d') → scripted m n.

Definition then_ {V A B} (m : V → option (A * V)) (f : A → V → option (B * V)) : V → option (B * V) := λ c,
  match m c with Some (a, c') => f a c' | None => None end.

Lemma scripted_ext {A} (m m' : on_script A) (n n' : among A) :
  scripted m n → (∀ c, m' c = m c) → (∀ d, n' d = n d) → scripted m' n'.
Proof.
  intros [p q a Hp Hq|p q Hp Hq|R alone call k l p q Hk Hp Hq] Hm Hn.
  - apply (scripted_done _ _ a); intros ?; by rewrite ?Hm, ?Hn.
  - apply scripted_fuel; intros ?; by rewrite ?Hm, ?Hn.
  - apply (scripted_call alone call k l); [done|intros ?; by rewrite ?Hm, ?Hn..].
Qed.

Lemma scripted_then {A B} (m : on_script A) (m' : among A) (f : A → on_script B) (f' : A → among B) n n' :
  scripted m m' → (∀ a, scripted (f a) (f' a)) →
  (∀ c, n c = then_ m f c) → (∀ d, n' d = then_ m' f' d) → scripted n n'.
Proof.
  intros Hm Hf. revert n n'.
  induction Hm as [m m' a Hm Hm'|m m' Hm Hm'|R alone call k l m m' _ IH Hm Hm']; intros n n' Hn Hn'.
  - eapply (scripted_ext (f a) _ (f' a)); [done|intros c; rewrite Hn|intros d; rewrite Hn'];
      unfold then_; by rewrite ?Hm, ?Hm'.
  - apply scripted_fuel; [intros c; rewrite Hn|intros d; rewrite Hn']; unfold then_; by rewrite ?Hm, ?Hm'.
  - apply (scripted_call alone call (λ r, then_ (k r) f) (λ r, then_ (l r) f')).
    + intros r. by apply (IH r).
    + intros c. rewrite Hn. unfold then_. rewrite Hm. by destruct (meet alone call c).
    + intros d. rewrite Hn'. unfold then_. rewrite Hm'. by destruct (disturb call d).
Qed.

(** ** What is done with a script *)

Definition log (evs : list (W * W)) (c : solo W) : solo W :=
  MkSolo (upcoming c) (past c ++ evs) (cut c).

(** The calls made take their states from the script, in order. *)
Lemma scripted_consumes {A} (m : on_script A) (n : among A) l p b a c :
  scripted m n → m (MkSolo l p b) = Some (a, c) →
  ∃ evs, l = evs.*1 ++ upcoming c ∧ past c = p ++ evs ∧
    (cut c = b ∨ cut c = true ∧ upcoming c = []).
Proof.
  intros Hm. revert l p b. induction Hm as [m n a0 Hm _|m n Hm _|R alone call q n0 m n _ IH Hm _]; intros l p b.
  - rewrite Hm. intros [= <- <-]. exists []. simpl. rewrite app_nil_r. auto.
  - by rewrite Hm.
  - rewrite Hm. unfold meet. simpl. destruct l as [|w l].
    + intros (evs & Hl & Hp & Hc)%IH. exists evs. split_and!; [done..|].
      symmetry in Hl. apply app_nil in Hl as [_ Hl]. right. by destruct Hc as [->|[-> _]].
    + destruct (call w) as [r w'] eqn:Hw. intros (evs & -> & Hp & Hc)%IH.
      exists ((w, w') :: evs). split_and!; [done| |done]. by rewrite Hp, <- app_assoc.
Qed.

Lemma scripted_shorter {A} (m : on_script A) (n : among A) c a c' :
  scripted m n → m c = Some (a, c') → (length (upcoming c') ≤ length (upcoming c))%nat.
Proof.
  intros Hm Hc. destruct c as [l p b].
  destruct (scripted_consumes m n l p b _ c' Hm Hc) as (evs & -> & _).
  simpl. rewrite length_app. lia.
Qed.

(** On a longer script: the same, if the run was not cut off. *)
Lemma scripted_extend {A} (m : on_script A) (n : among A) l p a c k :
  scripted m n → m (MkSolo l p false) = Some (a, c) → cut c = false →
  m (MkSolo (l ++ k) p false) = Some (a, MkSolo (upcoming c ++ k) (past c) false).
Proof.
  intros Hm. revert l p. induction Hm as [m n a0 Hm _|m n Hm _|R alone call q n0 m n Hn IH Hm _]; intros l p.
  - rewrite !Hm. by intros [= <- <-].
  - by rewrite Hm.
  - rewrite !Hm. unfold meet. simpl. destruct l as [|w l].
    + intros Hr Hc. destruct (scripted_consumes _ _ _ _ _ _ _ (Hn alone) Hr) as (_ & _ & _ & [He|[He _]]); congruence.
    + simpl. destruct (call w) as [r w'] eqn:Hw. apply IH.
Qed.

(** Where a run was cut off, the next state of the script is met. *)
Lemma scripted_resume {A} (m : on_script A) (n : among A) l p a c w k a' c' :
  scripted m n → m (MkSolo l p false) = Some (a, c) → cut c = true →
  m (MkSolo (l ++ w :: k) p false) = Some (a', c') →
  ∃ w' evs, past c' = past c ++ (w, w') :: evs.
Proof.
  intros Hm. revert l p. induction Hm as [m n a0 Hm _|m n Hm _|R alone call q n0 m n Hn IH Hm _]; intros l p.
  - rewrite Hm. by intros [= <- <-].
  - by rewrite Hm.
  - rewrite !Hm. unfold meet. simpl. destruct l as [|v l]; simpl.
    + destruct (call w) as [r w'] eqn:Hw. intros Hr _ Hr'.
      destruct (scripted_consumes _ _ _ _ _ _ _ (Hn alone) Hr) as (evs & Hl & Hp & _).
      symmetry in Hl. apply app_nil in Hl as [Hl _]. apply fmap_nil_inv in Hl as ->.
      destruct (scripted_consumes _ _ _ _ _ _ _ (Hn r) Hr') as (evs' & _ & Hp' & _).
      exists w', evs'. by rewrite Hp, Hp', app_nil_r, <- app_assoc.
    + destruct (call v) as [r v'] eqn:Hv. apply IH.
Qed.

(** ** The same calls among others *)

(** From the [n]-th call on, the others do after each of the calls what leads
    to the state the next one met. *)
Definition tracks (n : nat) (calls : list (W * W)) : Prop :=
  ∀ i e e', calls !! i = Some e → calls !! S i = Some e' → others (n + i) e.2 = e'.1.

Lemma tracks_tail n e calls : tracks n (e :: calls) →
  tracks (S n) calls ∧ (∀ e', head calls = Some e' → others n e.2 = e'.1).
Proof.
  intros Ht. split.
  - intros i e1 e2 H1 H2. replace (S n + i)%nat with (n + S i)%nat by lia. by apply (Ht (S i)).
  - intros e' He'. replace n with (n + 0)%nat by lia. apply (Ht 0%nat); [done|].
    by destruct calls.
Qed.

(** The world after the calls. *)
Fixpoint walk (d : disturbed W) (calls : list (W * W)) : disturbed W :=
  match calls with
  | [] => d
  | (_, w') :: calls => walk (MkDisturbed (others (calls_made d) w') (S (calls_made d))) calls
  end.

Lemma scripted_counts {A} (m : on_script A) (n : among A) d a d' :
  scripted m n → n d = Some (a, d') → (calls_made d ≤ calls_made d')%nat.
Proof.
  intros Hm. revert d. induction Hm as [m n a0 _ Hn|m n _ Hn|R alone call q q' m n _ IH _ Hn]; intros d; rewrite Hn.
  - by intros [= <- <-].
  - done.
  - unfold disturb. destruct (call (inner d)) as [r w']. intros Hle%IH. simpl in Hle. lia.
Qed.

(** Calls on a script are made among others as well, if these lead from one to
    the next.  If the run on the script was not cut off, it is the same run. *)
Lemma scripted_tracks {A} (m : on_script A) (n : among A) p calls r c d a d' :
  scripted m n → m (MkSolo calls.*1 p false) = Some (r, c) → past c = p ++ calls →
  n d = Some (a, d') → (∀ e, head calls = Some e → inner d = e.1) → tracks (calls_made d) calls →
  (calls_made d + length calls ≤ calls_made d')%nat ∧ (cut c = false → r = a ∧ d' = walk d calls).
Proof.
  intros Hm. revert p calls d.
  induction Hm as [m n a0 Hm Hn|m n Hm _|R alone call q q' m n Hq IH Hm Hn]; intros p calls d.
  - rewrite Hm, Hn. intros [= <- <-] Hp [= <- <-] _ _. simpl in Hp.
    assert (calls = []) as -> by (apply (app_inv_head p); by rewrite app_nil_r).
    split; [simpl; lia|done].
  - by rewrite Hm.
  - rewrite Hm, Hn. intros Hr Hp Hd Hh Ht. destruct calls as [|[w w'] calls].
    + split; [|intros Hc; exfalso].
      * unfold disturb in Hd. destruct (call (inner d)) as [r0 v]. apply (scripted_counts _ _ _ _ _ (Hq r0)) in Hd.
        simpl in *. lia.
      * destruct (scripted_consumes _ _ _ _ _ _ _ (Hq alone) Hr) as (_ & _ & _ & [He|[He _]]); congruence.
    + unfold meet in Hr. simpl in Hr. pose proof (Hh _ eq_refl) as Hw. simpl in Hw.
      unfold disturb in Hd. rewrite Hw in Hd. destruct (call w) as [r0 v] eqn:Hv.
      destruct (scripted_consumes _ _ _ _ _ _ _ (Hq r0) Hr) as (evs & _ & Hp' & _).
      assert (v = w') as ->.
      { rewrite Hp, <- app_assoc in Hp'. apply app_inv_head in Hp'. by injection Hp'. }
      destruct (tracks_tail _ _ _ Ht) as [Htl Hnext].
      destruct (IH r0 (p ++ [(w, w')]) calls (MkDisturbed (others (calls_made d) w') (S (calls_made d))))
        as [Hle Heq]; [done|by rewrite <- app_assoc|done|exact Hnext|done|].
      split; [simpl in *; lia|done].
Qed.

(** ** How computations are built *)

(** A computation that returns. *)
Definition script {A} (m : M (solo W) A) (n : M (disturbed W) A) : Prop :=
  scripted (λ c, Some (m c)) (λ d, Some (n d)).

Lemma script_shorter {A} (m : M (solo W) A) n c r c' :
  script m n → m c = (r, c') → (length (upcoming c') ≤ length (upcoming c))%nat.
Proof. intros Hm Hr. eapply scripted_shorter; [exact Hm|]. simpl. by rewrite Hr. Qed.

Lemma script_pure {A} (m : M (solo W) A) n r : (∀ c, m c = (r, c)) → (∀ d, n d = (r, d)) → script m n.
Proof. intros Hm Hn. apply (scripted_done _ _ r); [intros c; by rewrite Hm|intros d; by rewrite Hn]. Qed.

Lemma script_lift {A} (r : result A) : script (lift r) (lift r).
Proof. by apply (script_pure _ _ r). Qed.

Lemma script_ret {A} (a : A) : script (mret a) (mret a).
Proof. by apply (script_pure _ _ (Ok a)). Qed.

Lemma script_meet {R A} (alone : R) (call : W → R * W) (f : R → M (solo W) A) (g : R → M (disturbed W) A) m n :
  (∀ r, script (f r) (g r)) → (∀ c, m c = let '(r, c') := meet alone call c in f r c') →
  (∀ d, n d = let '(r, d') := disturb call d in g r d') → script m n.
Proof.
  intros Hf Hm Hn. apply (scripted_call alone call (λ r c, Some (f r c)) (λ r d, Some (g r d))); [exact Hf|..].
  - intros c. rewrite Hm. by destruct (meet alone call c).
  - intros d. rewrite Hn. by destruct (disturb call d).
Qed.

Lemma script_meets {A} (call : M W A) : script (meets call) (disturb call).
Proof.
  apply (script_meet (Err err_cut) call lift lift); [apply script_lift|..].
  - intros c. unfold meets. by destruct (meet _ _ c).
  - intros d. by destruct (disturb call d).
Qed.

Lemma script_then {A B} (m : M (solo W) A) m' (f : result A → M (solo W) B) f' n n' :
  script m m' → (∀ r, script (f r) (f' r)) → (∀ c, n c = let '(r, c') := m c in f r c') →
  (∀ d, n' d = let '(r, d') := m' d in f' r d') → script n n'.
Proof.
  intros Hm Hf Hn Hn'.
  eapply (scripted_then _ _ (λ r c, Some (f r c)) (λ r d, Some (f' r d))); [exact Hm|exact Hf|..].
  - intros c. unfold then_. rewrite Hn. by destruct (m c).
  - intros d. unfold then_. rewrite Hn'. by destruct (m' d).
Qed.

Lemma script_bind {A B} (m : M (solo W) A) (m' : M (disturbed W) A) (f : A → M (solo W) B)
    (f' : A → M (disturbed W) B) :
  script m m' → (∀ a, script (f a) (f' a)) → script (m ≫= f) (m' ≫= f').
Proof.
  intros Hm Hf. eapply (script_then m m'
    (λ r, match r with Ok a => f a | Err e => lift (Err e) | Panic msg => lift (Panic msg) end)
    (λ r, match r with Ok a => f' a | Err e => lift (Err e) | Panic msg => lift (Panic msg) end)); [exact Hm|..].
  - intros [a|e|msg]; [apply Hf|apply script_lift..].
  - intros c. unfold mbind, M_bind. by destruct (m c) as [[]].
  - intros d. unfold mbind, M_bind. by destruct (m' d) as [[]].
Qed.

Lemma script_try {A B} (m : M (solo W) A) m' (f : A → M (solo W) B) f' g g' :
  script m m' → (∀ a, script (f a) (f' a)) → (∀ e, script (g e) (g' e)) → script (try m f g) (try m' f' g').
Proof.
  intros Hm Hf Hg. eapply (script_then m m'
    (λ r, match r with Ok a => f a | Err e => g e | Panic msg => lift (Panic msg) end)
    (λ r, match r with Ok a => f' a | Err e => g' e | Panic msg => lift (Panic msg) end)); [exact Hm|..].
  - intros [a|e|msg]; [apply Hf|apply Hg|apply script_lift].
  - intros c. unfold try. by destruct (m c) as [[]].
  - intros d. unfold try. by destruct (m' d) as [[]].
Qed.

Lemma script_wrap {A} f (m : M (solo W) A) m' : script m m' → script (wrapM f m) (wrapM f m').
Proof.
  intros Hm. apply (script_then m m' (λ r, lift (wrap_err f r)) (λ r, lift (wrap_err f r)));
    [done|intros; apply script_lift|..].
  - intros c. unfold wrapM. by destruct (m c).
  - intros d. unfold wrapM. by destruct (m' d).
Qed.

Lemma script_if {A} (P : Prop) `{Decision P} (m1 m2 : M (solo W) A) m1' m2' :
  script m1 m1' → script m2 m2' → script (if decide P then m1 else m2) (if decide P then m1' else m2').
Proof. by case_decide. Qed.

Lemma script_foldM {A S} (f : S → A → M (solo W) S) f' l s :
  (∀ s a, script (f s a) (f' s a)) → script (foldM f s l) (foldM f' s l).
Proof.
  intros Hf. revert s. induction l as [|a l IH]; intros s; cbn [foldM]; [apply script_ret|].
  by apply script_bind.
Qed.

Lemma scripted_M {A} (m : M (solo W) A) m' : script m m' → scripted (call m) (call m').
Proof. done. Qed.

Lemma scripted_bind {A B} (m : D (solo W) A) (m' : D (disturbed W) A) (f : A → D (solo W) B)
    (f' : A → D (disturbed W) B) :
  scripted m m' → (∀ a, scripted (f a) (f' a)) → scripted (m ≫= f) (m' ≫= f').
Proof.
  intros Hm Hf. eapply (scripted_then m m'
    (λ r, match r with Ok a => f a | Err e => call (lift (Err e)) | Panic msg => call (lift (Panic msg)) end)
    (λ r, match r with Ok a => f' a | Err e => call (lift (Err e)) | Panic msg => call (lift (Panic msg)) end));
    [exact Hm|..].
  - intros [a|e|msg]; [apply Hf|apply script_lift..].
  - intros c. unfold mbind, D_bind, then_, call, lift. by destruct (m c) as [[[] ?]|].
  - intros d. unfold mbind, D_bind, then_, call, lift. by destruct (m' d) as [[[] ?]|].
Qed.

Lemma scripted_wrap {A} f (m : D (solo W) A) (m' : D (disturbed W) A) : scripted m m' → scripted (wrapD f m) (wrapD f m').
Proof.
  intros Hm. eapply (scripted_then m m' (λ r, call (lift (wrap_err f r))) (λ r, call (lift (wrap_err f r))));
    [exact Hm|..].
  - intros r. apply script_lift.
  - intros c. unfold wrapD, then_. by destruct (m c) as [[]|].
  - intros d. unfold wrapD, then_. by destruct (m' d) as [[]|].
Qed.
End scripted.

Create HintDb script discriminated.
#[export] Hint Constants Opaque : script.
#[export] Hint Resolve script_lift script_ret script_meets script_wrap : script.

(** A call, possibly wrapped, or a value. *)
Ltac scripts :=
  intros; cbv beta; auto with script;
  repeat apply script_wrap; first [apply script_ret | apply script_lift | apply script_meets].

(** ** The handlers are scripted *)

Section handlers.
Context {W : Type} `{!Client W} `{!Kube W} `{!Interference W}.
Context `{GoExt} `{SDK} `{UUIDPackage} `{LabelsPackage}.
Implicit Types (info : serviceInfo).

Lemma findByServiceInfo_script info : script (W := W) (findByServiceInfo info) (findByServiceInfo info).
Proof.
  assert (∀ name, script (W := W) (findByName name) (findByName name)) as Hn.
  { intros name. unfold findByName. apply script_if; [scripts|].
    apply script_try; scripts. }
  unfold findByServiceInfo. apply script_if; [|done].
  apply script_bind; [|intros; apply script_bind; scripts].
  unfold getByUUID. apply script_try; [scripts..|].
  intros e. destruct (is_not_found e); scripts.
Qed.

Lemma actualLbState_script info : script (W := W) (actualLbState info) (actualLbState info).
Proof.
  unfold actualLbState. apply script_bind; [apply findByServiceInfo_script|]. intros found.
  apply script_bind; [scripts|]. intros [l|]; [|scripts].
  repeat (apply script_bind; [scripts|]; intros ?).
  apply script_bind; [|intros; apply script_bind; scripts].
  apply script_foldM. intros s p. unfold actualPool. apply script_if; [scripts|].
  apply script_bind; scripts.
Qed.

Lemma findByNode_script node : script (W := W) (findByNode node) (findByNode node).
Proof.
  unfold findByNode. destruct node as [node|]; [|scripts]. apply script_if.
  - destruct (parseCloudscaleProviderID _); [|scripts..].
    unfold getByProviderID. apply script_try; [scripts..|].
    intros e. destruct (is_not_found e); scripts.
  - unfold findServerByName. apply script_try; scripts.
Qed.

Lemma desiredState_script info nodes : script (W := W) (desiredState info nodes) (desiredState info nodes).
Proof.
  unfold desiredState. apply script_bind; [|intros; apply script_bind; scripts].
  unfold mapNodes. generalize (@nil Server.t). induction nodes as [|node nodes IH]; intros servers;
    cbn [mapNodes_loop]; [scripts|].
  apply script_bind; [apply findByNode_script|]. intros found. destruct (One found); scripts.
Qed.

Lemma proceed_script {A} (m : M (solo W) A) (m' : M (disturbed W) A) :
  script m m' → script (proceed_on_success m) (proceed_on_success m').
Proof.
  intros Hm. unfold proceed_on_success, err_of. apply script_bind; [|scripts].
  by apply script_try; scripts.
Qed.

Lemma select_script d {A} (f : bool → result A) :
  script (λ c, let '(b, c') := select_after (W := solo W) d c in (f b, c'))
    (λ v, let '(b, v') := select_after (W := disturbed W) d v in (f b, v')).
Proof.
  apply (script_meet true (select_after d) (λ b, lift (f b)) (λ b, lift (f b))); [scripts|..].
  - intros c. simpl. by destruct (meet _ _ c).
  - intros v. simpl. by destruct (disturb _ v).
Qed.

Lemma Run_script a : script (W := W) (Run a) (Run a).
Proof.
  destruct a; cbn [Run]; unfold run_CreateLb, run_RenameLb, run_CreatePool,
    run_CreatePoolMember, run_CreateListener, run_CreateHealthMonitor,
    run_UpdateListenerAllowedCIDRs, run_UpdateListenerTimeout, run_UpdateMonitorHTTPMethod,
    run_UpdateMonitorHTTPPath, run_UpdateMonitorHTTPHost, run_UpdateMonitorHTTPExpectedCodes,
    update_monitor_http, run_UpdateMonitorNumber, run_AssignFloatingIP, run_AwaitLb;
    repeat apply script_if; try apply proceed_script; try scripts.
  - unfold run_DeleteResource. apply script_try; [scripts| |scripts].
    intros q. apply proceed_script. scripts.
  - apply select_script.
Qed.

(** What is made of the answer of an action, and of the context. *)
Definition after_Run {V} (a : Action) (rest : M V bool) (r : result (Control * option error)) : M V bool :=
  match r with
  | Ok (_, Some err) => lift (Err (WrapError ("error during " +:+ Label a +:+ ": ") err))
  | Ok (Refresh, None) => mret true
  | Ok (Proceed, None) => rest
  | Ok (Errored, None) => lift (Err err_no_error)
  | Err e => lift (Err e)
  | Panic msg => lift (Panic msg)
  end.

Definition aborted (err : option error) : result bool :=
  Err (match err with
       | Some e => WrapError "aborted action run, cancelled: " e
       | None => ErrorString "aborted action run, cancelled: %!w(<nil>)"
       end).

Lemma runActions_unfold {V} `{!Client V} a next (v : V) :
  runActions (a :: next) v = let '(e, v1) := ctx_Err v in
    match e with
    | Some _ => let '(err, v2) := ctx_Err v1 in (aborted err, v2)
    | None => let '(r, v2) := Run a v1 in after_Run a (runActions next) r v2
    end.
Proof.
  cbn [runActions]. destruct (ctx_Err v) as [[e|] v1]; [by destruct (ctx_Err v1)|].
  by destruct (Run a v1) as [[[[] [e|]]|e|msg] v2].
Qed.

Lemma runActions_script next : script (W := W) (runActions next) (runActions next).
Proof.
  induction next as [|a next IH]; [by apply (script_pure _ _ (Ok false))|].
  eapply (script_meet (Some err_cut) ctx_Err
    (λ e, match e with
      | Some _ => λ c, let '(err, c') := ctx_Err (W := solo W) c in (aborted err, c')
      | None => λ c, let '(r, c') := Run a c in after_Run a (runActions next) r c' end)
    (λ e, match e with
      | Some _ => λ d, let '(err, d') := ctx_Err (W := disturbed W) d in (aborted err, d')
      | None => λ d, let '(r, d') := Run a d in after_Run a (runActions next) r d' end)).
  - intros [e|].
    + apply (script_meet (Some err_cut) ctx_Err (λ err, lift (aborted err)) (λ err, lift (aborted err)));
        [scripts|..]; intros c; simpl; [by destruct (meet _ _ c)|by destruct (disturb _ c)].
    + eapply script_then; [apply (Run_script a)| |reflexivity..].
      intros [[[] [e|]]|e|msg]; scripts.
  - intros c. rewrite runActions_unfold. simpl. by destruct (meet _ _ c) as [[e|] c1].
  - intros d. rewrite runActions_unfold. simpl. by destruct (disturb (R := option error) _ d) as [[e|] d1].
Qed.

Lemma wait_round_script : script (W := W) wait_round wait_round.
Proof.
  apply (script_meet 0%Z (rand_Intn 2500)
    (λ n c, let '(b, c') := select_after (W := solo W) (wait_time n) c in
       ((if (b : bool) then Err err_reconcile_aborted else Ok tt), c'))
    (λ n d, let '(b, d') := select_after (W := disturbed W) (wait_time n) d in
       ((if (b : bool) then Err err_reconcile_aborted else Ok tt), d'))).
  - intros n. apply (select_script (wait_time n) (λ b : bool, if b then Err err_reconcile_aborted else Ok tt)).
  - intros c. unfold wait_round. simpl. by destruct (meet _ _ c).
  - intros d. unfold wait_round. simpl. by destruct (disturb _ d).
Qed.

Lemma reconcileRound_script order (desired actual : M (solo W) lbState) (desired' actual' : M (disturbed W) lbState) :
  script desired desired' → script actual actual' →
  script (reconcileRound order desired actual) (reconcileRound order desired' actual').
Proof.
  intros Hd Ha. unfold reconcileRound. apply script_bind; [done|]. intros d.
  apply script_bind; [done|]. intros a. apply script_bind; [scripts|]. intros next.
  apply runActions_script.
Qed.

Lemma reconcileLbState_script fuel orders (desired actual : M (solo W) lbState)
    (desired' actual' : M (disturbed W) lbState) :
  script desired desired' → script actual actual' →
  scripted (reconcileLbState fuel orders desired actual) (reconcileLbState fuel orders desired' actual').
Proof.
  intros Hd Ha. revert orders. induction fuel as [|fuel IH]; intros orders; cbn [reconcileLbState];
    [by apply scripted_fuel|].
  apply scripted_bind; [by apply scripted_M, reconcileRound_script|].
  intros []; [|apply script_ret]. apply scripted_bind; [apply scripted_M, wait_round_script|].
  intros _. apply IH.
Qed.

Lemma list_conflicts_script fuel info ips conflicts token :
  scripted (W := W) (list_conflicts fuel info ips conflicts token) (list_conflicts fuel info ips conflicts token).
Proof.
  revert conflicts token. induction fuel as [|fuel IH]; intros conflicts token; cbn [list_conflicts];
    [by apply scripted_fuel|].
  apply scripted_bind; [apply scripted_M; scripts|]. intros page.
  case_decide; [apply script_ret|apply IH].
Qed.

Lemma findIPs_script fuel info :
  scripted (W := W) (findIPsAssignedElsewhere fuel info) (findIPsAssignedElsewhere fuel info).
Proof.
  unfold findIPsAssignedElsewhere. apply scripted_bind; [apply script_lift|]. intros ips.
  case_decide; [apply script_ret|apply list_conflicts_script].
Qed.

Lemma ensureValidConfig_script `{MapOrder} fuel info :
  scripted (W := W) (ensureValidConfig fuel info) (ensureValidConfig fuel info).
Proof.
  unfold ensureValidConfig. destruct (isSupported info) as [[] [e|]]; [..|apply script_lift|apply script_ret];
    (apply scripted_bind; [apply scripted_wrap, findIPs_script|]; intros ips;
     case_decide; [apply script_lift|apply script_ret]).
Qed.

Lemma warn_script info nodes : script (W := W) (warn_no_nodes info nodes) (warn_no_nodes info nodes).
Proof.
  unfold warn_no_nodes. destruct nodes as [|n ns]; [|by apply (script_pure _ _ (Ok tt))].
  apply (script_meet tt (λ w, (tt, Recorder_Event (svc info) "Warning" "NoValidNodes"
    (no_valid_nodes info) w)) (λ _, mret tt) (λ _, mret tt)); [scripts|..].
  - intros c. simpl. by destruct (meet _ _ c) as [[] c'].
  - done.
Qed.

Lemma reconcileService_script `{MapOrder} fuel orders info nodes :
  scripted (W := W) (reconcileService fuel orders info nodes) (reconcileService fuel orders info nodes).
Proof.
  unfold reconcileService. apply scripted_bind; [apply ensureValidConfig_script|]. intros _.
  apply scripted_bind; [apply script_lift|]. intros selected.
  apply scripted_bind; [apply scripted_M, warn_script|]. intros _.
  apply reconcileLbState_script; [apply desiredState_script|apply actualLbState_script].
Qed.

Lemma annotate_script service kv : script (W := W) (AnnotateService true service kv) (AnnotateService true service kv).
Proof.
  unfold AnnotateService. apply script_if; [scripts|].
  destruct (negb (Nat.even (length kv))); [scripts|]. simpl.
  apply script_if; [scripts|]. unfold PatchService. scripts.
Qed.

Lemma status_script info l : script (W := W) (loadBalancerStatus info l) (loadBalancerStatus info l).
Proof.
  unfold loadBalancerStatus. apply script_if; [scripts|]. apply script_if; [|scripts].
  apply script_bind; [|scripts]. apply script_wrap. unfold IsKubernetesReleaseOrNewer.
  repeat (apply script_bind; [scripts|]; intros ?). scripts.
Qed.

Lemma forget_script {A} (m : D (solo W) A) (m' : D (disturbed W) A) :
  scripted m m' → scripted (forget m) (forget m').
Proof.
  intros Hm. eapply (scripted_then m m' (λ r, call (lift ((λ _, tt) <$> r)))
    (λ r, call (lift ((λ _, tt) <$> r)))); [exact Hm|..].
  - intros r. apply script_lift.
  - intros c. unfold forget, then_. by destruct (m c) as [[]|].
  - intros d. unfold forget, then_. by destruct (m' d) as [[]|].
Qed.

Lemma run_job_script j fuel : scripted (W := W) (run_job j fuel) (run_job j fuel).
Proof.
  unfold run_job. destruct (job_handler j).
  - apply forget_script.
    unfold EnsureLoadBalancer. apply scripted_bind; [apply reconcileService_script|]. intros _.
    apply scripted_bind; [apply scripted_M, actualLbState_script|]. intros actual.
    destruct (lb actual); [|apply script_lift].
    apply scripted_bind; [apply scripted_M, script_wrap, annotate_script|]. intros _.
    apply scripted_M, script_wrap, status_script.
  - apply reconcileService_script.
  - unfold EnsureLoadBalancerDeleted. apply scripted_bind; [apply ensureValidConfig_script|]. intros _.
    apply reconcileLbState_script; [apply script_ret|apply actualLbState_script].
Qed.

End handlers.
