(* ===== verification/Causality.v ===== *)
(** * Causality

    What a handler does next depends on the calls it has made and on nothing
    else ([Scripts]), and every script is long enough for some fuel.  So a
    running thread of a system can always make its next call, in whatever state
    the others have left the world, or return. *)

From stdpp Require Import base tactics list gmap strings relations.
From Stdlib Require Import ZArith.
From S2P Require Import Prelude.
From S2P Require Import GoStrings.
From S2P Require Import Limiter.
From S2P Require Import Cloudscale.
From S2P Require Import ServiceInfo.
From S2P Require Import Actions.
From S2P Require Import LbState.
From S2P Require Import NextActions.
From S2P Require Import LbMapper.
From S2P Require Import ActualState.
From S2P Require Import Reconcile.
From S2P Require Import ProviderID.
From S2P Require Import ServerMapper.
From S2P Require Import KubeUtil.
From S2P Require Import LoadBalancerHandlers.
From S2P Require Import Locks.
From S2P Require Import Interleaving.
From S2P Require Import Others.
From S2P Require Import Scripts.

(** ** Enough fuel *)

Section fuel.
Context {W : Type} `{!Client W} `{!Kube W}.
Context `{GoExt} `{SDK} `{UUIDPackage} `{LabelsPackage}.
Implicit Types (info : serviceInfo).
#[local] Existing Instance nobody.

(** With a script shorter than [n] there is an outcome. *)
Definition lasts {A} (n : nat) (m : solo W → option (A * solo W)) : Prop :=
  ∀ c, (length (upcoming c) < n)%nat → is_Some (m c).

Lemma lasts_M {A} n (m : M (solo W) A) : lasts n (call m).
Proof. intros c _. by eexists. Qed.

Lemma lasts_bind {A B} n (m : D (solo W) A) m' (f : A → D (solo W) B) :
  scripted m m' → lasts n m → (∀ a, lasts n (f a)) → lasts n (m ≫= f).
Proof.
  intros Hs Hm Hf c Hc. unfold mbind, D_bind. destruct (Hm c Hc) as [[r c'] Hr]. rewrite Hr.
  destruct r as [a|e|msg]; [|by eexists..]. apply Hf.
  pose proof (scripted_shorter m m' c _ c' Hs Hr). lia.
Qed.

Lemma lasts_wrap {A} n f (m : D (solo W) A) : lasts n m → lasts n (wrapD f m).
Proof. intros Hm c Hc. unfold wrapD. destruct (Hm c Hc) as [[r c'] ->]. by eexists. Qed.

(** Out of script, the wait between two rounds is cut off. *)
Lemma wait_round_consumes (c c' : solo W) :
  wait_round c = (Ok tt, c') → (length (upcoming c') < length (upcoming c))%nat.
Proof.
  unfold wait_round. simpl. unfold meet. destruct (upcoming c) as [|w1 [|w2 ws]]; simpl; [done|..];
    destruct (rand_Intn 2500 w1) as [n v1]; simpl; [done|].
  destruct (select_after (wait_time n) w2) as [[] v2]; [done|]. intros [= <-]. simpl. lia.
Qed.

Lemma reconcileLbState_lasts fuel orders (desired actual : M (solo W) lbState) desired' actual' :
  script desired desired' → script actual actual' → lasts fuel (reconcileLbState fuel orders desired actual).
Proof.
  intros Hd Ha. revert orders. induction fuel as [|fuel IH]; intros orders c Hc; [lia|].
  cbn [reconcileLbState]. unfold mbind, D_bind, call.
  destruct (reconcileRound (orders 0%nat) desired actual c) as [r c1] eqn:Hr.
  destruct r as [[]|e|msg]; [|by eexists..].
  destruct (wait_round c1) as [r c2] eqn:Hw. destruct r as [[]|e|msg]; [|by eexists..].
  apply IH. apply wait_round_consumes in Hw.
  eapply script_shorter in Hr; [lia|by eapply reconcileRound_script].
Qed.

Lemma list_conflicts_lasts fuel info ips conflicts token :
  lasts fuel (list_conflicts fuel info ips conflicts token).
Proof.
  revert conflicts token. induction fuel as [|fuel IH]; intros conflicts token c Hc; [lia|].
  cbn [list_conflicts]. unfold mbind, D_bind, call, wrapM. simpl. unfold meets, meet.
  destruct (upcoming c) as [|w ws]; simpl in *; [by eexists|].
  destruct (Services_List token 250 w) as [[page|e|msg] w']; simpl; [|by eexists..].
  case_decide; [by eexists|]. apply IH. simpl. lia.
Qed.

Lemma ensureValidConfig_lasts `{MapOrder} fuel info : lasts fuel (ensureValidConfig fuel info).
Proof.
  assert (lasts fuel (findIPsAssignedElsewhere fuel info)) as Hips.
  { unfold findIPsAssignedElsewhere.
    eapply (lasts_bind _ (call (lift (annotationList info LoadBalancerFloatingIPs))));
      [apply script_lift|apply lasts_M|]. intros ips.
    case_decide; [apply lasts_M|apply list_conflicts_lasts]. }
  unfold ensureValidConfig. destruct (isSupported info) as [[] [e|]]; [..|apply lasts_M|apply lasts_M];
    (eapply lasts_bind; [apply scripted_wrap, findIPs_script|by apply lasts_wrap|];
     intros ips; case_decide; apply lasts_M).
Qed.

Lemma reconcileService_lasts `{MapOrder} fuel orders info nodes :
  lasts fuel (reconcileService fuel orders info nodes).
Proof.
  unfold reconcileService. eapply lasts_bind; [apply ensureValidConfig_script|apply ensureValidConfig_lasts|].
  intros _. eapply lasts_bind; [apply script_lift|apply lasts_M|]. intros selected.
  eapply lasts_bind; [apply warn_script|apply lasts_M|]. intros _.
  eapply reconcileLbState_lasts; [apply desiredState_script|apply actualLbState_script].
Qed.

(** A handler whose script ends has an outcome. *)
Lemma run_job_lasts j fuel : lasts fuel (run_job j fuel).
Proof.
  unfold run_job. destruct (job_handler j).
  - intros c Hc. unfold forget. assert (is_Some (@EnsureLoadBalancer _ _ _ _ _ _ _ (job_order j) fuel
      (job_orders j) (job_cluster j) (Some (job_service j)) nodes c)) as [[r c'] ->]; [|by eexists].
    revert c Hc. unfold EnsureLoadBalancer.
    eapply lasts_bind; [apply reconcileService_script|apply reconcileService_lasts|]. intros _.
    eapply lasts_bind; [apply actualLbState_script|apply lasts_M|]. intros actual.
    destruct (lb actual); [|apply lasts_M].
    eapply lasts_bind; [apply scripted_M, script_wrap, annotate_script|apply lasts_M|]. intros _.
    apply lasts_M.
  - apply reconcileService_lasts.
  - unfold EnsureLoadBalancerDeleted.
    eapply lasts_bind; [apply ensureValidConfig_script|apply ensureValidConfig_lasts|]. intros _.
    eapply reconcileLbState_lasts; [apply script_ret|apply actualLbState_script].
Qed.

End fuel.

(** More fuel does not change an outcome, in any world. *)
Section grows.
Context {V : Type} `{!Client V} `{!Kube V}.
Context `{GoExt} `{SDK} `{UUIDPackage} `{LabelsPackage}.
Implicit Types (info : serviceInfo).

Definition grows {A} (m m' : V → option (A * V)) : Prop :=
  ∀ c x, m c = Some x → m' c = Some x.

Lemma grows_refl {A} (m : V → option (A * V)) : grows m m.
Proof. by intros c x. Qed.
#[local] Hint Resolve grows_refl : core.

Lemma grows_bind {A B} (m m' : D (V) A) (f f' : A → D (V) B) :
  grows m m' → (∀ a, grows (f a) (f' a)) → grows (m ≫= f) (m' ≫= f').
Proof.
  intros Hm Hf c x. unfold mbind, D_bind. destruct (m c) as [[r c']|] eqn:Hr; [|done].
  rewrite (Hm _ _ Hr). destruct r as [a|e|msg]; [apply Hf|done..].
Qed.

Lemma forget_grows {A} (m m' : D (V) A) : grows m m' → grows (forget m) (forget m').
Proof.
  intros Hm c x. unfold forget. destruct (m c) as [[r c']|] eqn:Hr; [|done]. by rewrite (Hm _ _ Hr).
Qed.

Lemma wrap_grows {A} f (m m' : D (V) A) : grows m m' → grows (wrapD f m) (wrapD f m').
Proof.
  intros Hm c x. unfold wrapD. destruct (m c) as [[r c']|] eqn:Hr; [|done]. by rewrite (Hm _ _ Hr).
Qed.

Lemma reconcileLbState_grows fuel fuel' orders (desired actual : M (V) lbState) :
  (fuel ≤ fuel')%nat →
  grows (reconcileLbState fuel orders desired actual) (reconcileLbState fuel' orders desired actual).
Proof.
  revert fuel' orders. induction fuel as [|fuel IH]; intros fuel' orders Hle; [done|].
  destruct fuel' as [|fuel']; [lia|]. cbn [reconcileLbState].
  apply grows_bind; [done|]. intros []; [|done]. apply grows_bind; [done|]. intros _. apply IH. lia.
Qed.

Lemma list_conflicts_grows fuel fuel' info ips conflicts token :
  (fuel ≤ fuel')%nat →
  grows (list_conflicts fuel info ips conflicts token) (list_conflicts fuel' info ips conflicts token).
Proof.
  revert fuel' conflicts token. induction fuel as [|fuel IH]; intros fuel' conflicts token Hle; [done|].
  destruct fuel' as [|fuel']; [lia|]. cbn [list_conflicts].
  apply grows_bind; [done|]. intros page. case_decide; [done|]. apply IH. lia.
Qed.

Lemma ensureValidConfig_grows `{MapOrder} fuel fuel' info :
  (fuel ≤ fuel')%nat → grows (ensureValidConfig fuel info) (ensureValidConfig fuel' info).
Proof.
  intros Hle.
  assert (grows (findIPsAssignedElsewhere fuel info) (findIPsAssignedElsewhere fuel' info)) as Hf.
  { apply grows_bind; [done|]. intros ips. case_decide; [done|by apply list_conflicts_grows]. }
  unfold ensureValidConfig. destruct (isSupported info) as [[] [e|]]; [..|done|done];
    (apply grows_bind; [by apply wrap_grows|done]).
Qed.

Lemma reconcileService_grows `{MapOrder} fuel fuel' orders info nodes :
  (fuel ≤ fuel')%nat →
  grows (reconcileService fuel orders info nodes) (reconcileService fuel' orders info nodes).
Proof.
  intros Hle. apply grows_bind; [by apply ensureValidConfig_grows|]. intros _.
  apply grows_bind; [done|]. intros selected. apply grows_bind; [done|]. intros _.
  by apply reconcileLbState_grows.
Qed.

Lemma run_job_grows j fuel fuel' :
  (fuel ≤ fuel')%nat → grows (run_job j fuel) (run_job j fuel').
Proof.
  intros Hle. unfold run_job. destruct (job_handler j).
  - apply forget_grows, grows_bind; [by apply reconcileService_grows|done].
  - by apply reconcileService_grows.
  - apply grows_bind; [by apply ensureValidConfig_grows|]. intros _. by apply reconcileLbState_grows.
Qed.
End grows.

(** ** Threads go on *)

Section progress.
Context {W : Type} `{!Client W} `{!Kube W}.
Context `{GoExt} `{SDK} `{UUIDPackage} `{LabelsPackage}.
Context (jobs : list job).
Implicit Types (j : job) (s : system W) (calls : list (W * W)).
#[local] Existing Instance nobody.

(** The handler has made these calls so far. *)
Definition called j calls : Prop :=
  ∃ fuel r c, run_job j fuel (MkSolo calls.*1 [] false) = Some (r, c) ∧ past c = calls.

Lemma called_none j : called j [].
Proof.
  destruct (run_job_lasts (W := W) j 1 (MkSolo [] [] false)) as [[r c] Hr]; [simpl; lia|].
  exists 1%nat, r, c. split; [done|].
  destruct (scripted_consumes _ _ _ _ _ _ _ (run_job_script j 1) Hr) as (evs & Hl & Hp & _).
  symmetry in Hl. apply app_nil in Hl as [Hl _]. apply fmap_nil_inv in Hl as ->. done.
Qed.

Lemma called_next j calls w w' : next_call j calls w w' → called j (calls ++ [(w, w')]).
Proof.
  intros (fuel & r & c & Hr & Hp). exists fuel, r, c. split; [|done]. by rewrite fmap_app.
Qed.

(** The run with one more state makes one more call, if there is one. *)
Lemma called_run j calls w fuel r c :
  called j calls → run_job j fuel (MkSolo (calls.*1 ++ [w]) [] false) = Some (r, c) →
  past c = calls ∧ returned j calls ∨ ∃ w', past c = calls ++ [(w, w')].
Proof.
  intros (fuel0 & r0 & c0 & Hr0 & Hp0) Hr. set (n := (fuel0 + fuel)%nat).
  pose proof (run_job_grows (V := solo W) j fuel0 n ltac:(lia) _ _ Hr0) as Hn0.
  apply (run_job_grows (V := solo W) j fuel n ltac:(lia)) in Hr. destruct (cut c0) eqn:Hc.
  - right. destruct (scripted_resume _ _ _ _ _ _ w [] _ _ (run_job_script j n) Hn0 Hc Hr) as (w' & evs & Hp).
    exists w'. destruct (scripted_consumes _ _ _ _ _ _ _ (run_job_script j n) Hr) as (evs' & Hl & Hp' & _).
    simpl in Hp'. rewrite <- Hp', Hp, Hp0, fmap_app, <- app_assoc in Hl. apply app_inv_head in Hl.
    simpl in Hl. injection Hl as Hl. symmetry in Hl. apply app_nil in Hl as [Hl _].
    apply fmap_nil_inv in Hl as ->. by rewrite Hp, Hp0.
  - left. pose proof (scripted_extend _ _ _ _ _ _ [w] (run_job_script j n) Hn0 Hc) as He.
    rewrite Hr in He. injection He as -> ->. split; [done|]. by exists fuel0, r0, c0.
Qed.

(** Whatever state the world is in, the handler calls next or returns. *)
Lemma called_goes_on j calls w :
  called j calls → (∃ w', next_call j calls w w') ∨ returned j calls.
Proof.
  intros Hc. destruct (run_job_lasts j (S (S (length calls))) (MkSolo (calls.*1 ++ [w]) [] false))
    as [[r c] Hr]; [simpl; rewrite length_app, length_fmap; simpl; lia|].
  destruct (called_run j calls w _ r c Hc Hr) as [[_ Hret]|[w' Hp]]; [by right|].
  left. by exists w', (S (S (length calls))), r, c.
Qed.

Lemma calls_step s s' t j :
  jobs !! t = Some j → system_step jobs s s' → called j (calls_of t (history s)) →
  called j (calls_of t (history s')).
Proof.
  intros Hj Hs Hc. destruct Hs as [|l w h t' k w' Hk _ Hn| |]; simpl in *; [done| |done|].
  - rewrite calls_of_snoc. case_decide as Ht; [|done]. injection Ht as ->.
    rewrite Hj in Hk. injection Hk as <-. by apply called_next.
  - rewrite calls_of_snoc. by rewrite decide_False.
Qed.

Lemma reachable_called w s t j :
  system_reachable jobs w s → jobs !! t = Some j → called j (calls_of t (history s)).
Proof.
  intros Hr Hj. revert s Hr. apply (rtc_ind_r (λ s, called j (calls_of t (history s)))).
  - apply called_none.
  - intros s s' _ Hs. by apply calls_step.
Qed.

(** A step in which the thread [t] makes its next call, or moves on. *)
Definition moves s (t : nat) s' : Prop :=
  system_step jobs s s' ∧
    ((∃ w', history s' = history s ++ [(Some t, (world s, w'))]) ∨
     threads (lk s') !! t ≠ threads (lk s) !! t).

Definition can_move s (t : nat) : Prop := ∃ s', moves s t s'.

Lemma advance_moves l t l' : advance l t = Some l' → threads l' !! t ≠ threads l !! t.
Proof.
  intros (th & th' & Ht & Hl & _ & Hp)%advance_threads.
  rewrite Hl, list_lookup_insert_eq, Ht by (by apply lookup_lt_is_Some; eexists).
  intros [= ->]. lia.
Qed.

Lemma running_moves w s t :
  system_reachable jobs w s → running (lk s) t → can_move s t.
Proof.
  intros Hr Hrun. pose proof Hrun as (uid & mu & Ht).
  destruct (thread_job jobs s (reachable_threads jobs w s Hr) _ _ Ht) as (j & Hj & _).
  destruct (called_goes_on j _ (world s) (reachable_called w s t j Hr Hj)) as [[w' Hn]|Hret].
  - exists (MkSystem (lk s) w' (history s ++ [(Some t, (world s, w'))])). split; [|left; by exists w'].
    destruct s. by eapply step_call.
  - pose proof (waits_for_running (lk s) t _ (reachable_ok _ _ (system_locks jobs w s Hr)) Ht) as [l' Ha].
    exists (MkSystem l' (world s) (history s)). split; [|right; by eapply advance_moves].
    destruct s. by eapply step_return.
Qed.

Lemma idle_moves s t th :
  threads (lk s) !! t = Some th → thread_phase th ≠ 2%nat → is_Some (advance (lk s) t) → can_move s t.
Proof.
  intros Ht Hp [l' Ha]. exists (MkSystem l' (world s) (history s)).
  split; [|right; by eapply advance_moves]. destruct s. apply step_lock with t; [|done].
  intros (th' & Ht' & Hp')%running_phase. simpl in *. congruence.
Qed.

Lemma never_stuck w s t th :
  system_reachable jobs w s → threads (lk s) !! t = Some th →
  match th with
  | Fresh _ | Running _ _ => can_move s t
  | Locking uid mu =>
      can_move s t ∨ ∃ t', threads (lk s) !! t' = Some (Running uid mu) ∧ can_move s t'
  | Returned _ => True
  end.
Proof.
  intros Hr Ht. pose proof (reachable_ok _ _ (system_locks jobs w s Hr)) as Hok.
  pose proof (waits_for_running (lk s) t th Hok Ht) as Hw.
  destruct th as [uid|uid mu|uid mu|uid]; [by eapply idle_moves| |eapply running_moves; [done|by eexists _, _]|done].
  destruct Hw as [Hw|(t' & Ht' & _)]; [left; by eapply idle_moves|].
  right. exists t'. split; [done|]. eapply running_moves; [done|by eexists _, _].
Qed.

(** C25. The handlers never deadlock: a thread that has not returned can make its
    next call or return, whatever the state of the world, or it waits for the
    lock of a thread that handles the same service and can go on. *)
Theorem system_progress w s t th :
  system_reachable jobs w s → threads (lk s) !! t = Some th →
  match th with
  | Fresh _ | Running _ _ => can_move s t
  | Locking uid mu =>
      can_move s t ∨ ∃ t', threads (lk s) !! t' = Some (Running uid mu) ∧ can_move s t'
  | Returned _ => True
  end.
Proof. apply never_stuck. Qed.

(** A thread that has returned does not go on. *)
Lemma returned_stuck s t :
  (∀ th, threads (lk s) !! t = Some th → thread_phase th = 3%nat) → ¬ can_move s t.
Proof.
  intros Hret (s' & Hs & Hm).
  assert (∀ l', advance (lk s) t = Some l' → False) as Hno.
  { intros l' (th & th' & Ht & _ & _ & Hp)%advance_threads. pose proof (Hret th Ht).
    destruct th'; simpl in Hp; lia. }
  assert (¬ running (lk s) t) as Hnr.
  { intros (th & Ht & Hp)%running_phase. pose proof (Hret th Ht). lia. }
  destruct Hm as [[w' Hh]|Hne].
  - apply (f_equal (drop (length (history s)))) in Hh. rewrite drop_app_length in Hh.
    destruct Hs; simpl in *; rewrite ?drop_all, ?drop_app_length in Hh; try done. injection Hh as -> _. done.
  - destruct Hs as [l v h t' l' _ Ha|l v h t' k v' _ _ _|l v h t' k l' _ _ _ Ha|l v h v']; simpl in *; try done;
      (destruct (decide (t' = t)) as [->|]; [by eapply Hno|]); destruct Hne;
      apply advance_threads in Ha as (th & th' & _ & Hl & _); by rewrite Hl, list_lookup_insert_ne.
Qed.

(** A thread that has returned has made the calls after which its handler
    returns. *)
Lemma reachable_returned w s t j th :
  system_reachable jobs w s → jobs !! t = Some j →
  threads (lk s) !! t = Some th → thread_phase th = 3%nat → returned j (calls_of t (history s)).
Proof.
  intros Hr Hj. revert th. revert s Hr.
  apply (rtc_ind_r (λ s, ∀ th, threads (lk s) !! t = Some th → thread_phase th = 3%nat →
    returned j (calls_of t (history s)))).
  - intros th. simpl. rewrite !list_lookup_fmap. destruct (jobs !! t); [|done]. by intros [= <-].
  - intros s s' _ Hs IH th.
    destruct Hs as [l v h t' l' Hnr Ha|l v h t' k v' Hk Hrun _|l v h t' k l' Hk Hrun Hret Ha|l v h v']; simpl in *.
    + apply advance_threads in Ha as (th0 & th' & Ht & Hl & _ & Hp). rewrite Hl.
      destruct (decide (t' = t)) as [->|Hne]; [|rewrite list_lookup_insert_ne by done; apply IH].
      rewrite list_lookup_insert_eq by (by apply lookup_lt_is_Some; eexists). intros [= <-] Hp'.
      destruct Hnr. apply running_phase. exists th0. split; [done|lia].
    + intros Ht Hp. rewrite calls_of_snoc, decide_False; [by eapply IH|]. intros [= ->].
      apply running_phase in Hrun as (th0 & Ht0 & Hp0). assert (th0 = th) as -> by congruence. lia.
    + apply advance_threads in Ha as (th0 & th' & Ht & Hl & _ & _). rewrite Hl.
      destruct (decide (t' = t)) as [->|Hne]; [intros _ _; by replace j with k by congruence|].
      rewrite list_lookup_insert_ne by done. apply IH.
    + intros Ht Hp. rewrite calls_of_snoc, decide_False by done. by eapply IH.
Qed.

(** ** Running threads in turn *)

(** The next step of the thread [t], if it has one. *)
Definition turn s (t : nat) : option (system W) :=
  match threads (lk s) !! t, jobs !! t with
  | Some (Running _ _), Some j =>
      let calls := calls_of t (history s) in
      match run_job j (S (S (length calls))) (MkSolo (calls.*1 ++ [world s]) [] false) with
      | Some (_, c) =>
          match drop (length calls) (past c) with
          | [] => (λ l, MkSystem l (world s) (history s)) <$> advance (lk s) t
          | (_, w') :: _ => Some (MkSystem (lk s) w' (history s ++ [(Some t, (world s, w'))]))
          end
      | None => None
      end
  | Some _, Some _ => (λ l, MkSystem l (world s) (history s)) <$> advance (lk s) t
  | _, _ => None
  end.

Fixpoint turns s (ts : list nat) : system W :=
  match ts with
  | [] => s
  | t :: ts' => match turn s t with Some s' => turns s' ts' | None => s end
  end.

Lemma turn_step w s t s' : system_reachable jobs w s → turn s t = Some s' → system_step jobs s s'.
Proof.
  intros Hr. unfold turn. destruct (threads (lk s) !! t) as [th|] eqn:Ht; [|done].
  destruct (jobs !! t) as [j|] eqn:Hj; [|by destruct th].
  pose proof (reachable_called w s t j Hr Hj) as Hc. destruct s as [l v h]. simpl in *.
  assert (thread_phase th ≠ 2%nat →
    (λ l', MkSystem l' v h) <$> advance l t = Some s' → system_step jobs (MkSystem l v h) s') as Hlock.
  { intros Hp (l' & Ha & ->)%fmap_Some. apply step_lock with t; [|done].
    intros (th' & Ht' & Hp')%running_phase. congruence. }
  destruct th as [uid|uid mu|uid mu|uid]; [by apply Hlock|by apply Hlock| |by apply Hlock].
  assert (running l t) as Hrun by (by exists uid, mu).
  destruct (run_job j _ _) as [[r c]|] eqn:Hrj; [|done].
  destruct (called_run j _ v _ r c Hc Hrj) as [[-> Hret]|[w' Hp]].
  - rewrite drop_all. intros (l' & Ha & ->)%fmap_Some. by eapply step_return.
  - rewrite Hp, drop_app_length. intros [= <-]. eapply step_call; [done|done|].
    by exists (S (S (length (calls_of t h)))), r, c.
Qed.

Lemma turns_steps w s ts : system_reachable jobs w s → rtc (system_step jobs) s (turns s ts).
Proof.
  revert s. induction ts as [|t ts IH]; intros s Hr; [done|]. cbn [turns].
  destruct (turn s t) as [s'|] eqn:Hs; [|done].
  pose proof (turn_step w s t s' Hr Hs) as Hst. eapply rtc_l; [exact Hst|].
  apply IH. by eapply rtc_r.
Qed.

Lemma turn_taken w s t :
  system_reachable jobs w s → is_Some (turn s t) → system_step jobs s (turns s [t]).
Proof. intros Hr [s' Hs]. cbn [turns]. rewrite Hs. by eapply turn_step. Qed.

Lemma turns_prefix w s n ts :
  system_reachable jobs w s → rtc (system_step jobs) (turns s (take n ts)) (turns s ts).
Proof.
  revert s n. induction ts as [|t ts IH]; intros s n Hr; [by rewrite take_nil|].
  destruct n as [|n]; [exact (turns_steps w s _ Hr)|]. cbn [take turns].
  destruct (turn s t) as [s'|] eqn:Hs; [|done]. apply IH. eapply rtc_r; [exact Hr|]. by eapply turn_step.
Qed.

Lemma turns_reachable w s ts : system_reachable jobs w s → system_reachable jobs w (turns s ts).
Proof. intros Hr. unfold system_reachable in *. etrans; [exact Hr|]. by apply (turns_steps w). Qed.
End progress.
