(* ===== verification/Isolation.v ===== *)
(** * Isolation

    What handlers do to each other's load balancers: nothing.  The class
    [ApiScopes] states which part of the account a call can change, whether it
    fails or not, and that answers are about resources that exist.  With it, a
    harmless write ([Footprint]) is confined to the load balancers, the name
    and the Floating IPs of its service; with the locks, the load balancers of
    a service are only changed by the one handler that runs for it. *)

From stdpp Require Import base tactics list gmap strings relations.
From Stdlib Require Import ZArith.
From S2P Require Import Prelude.
From S2P Require Import GoStrings.
From S2P Require Import Cloudscale.
From S2P Require Import ServiceInfo.
From S2P Require Import Actions.
From S2P Require Import ActualState.
From S2P Require Import ActualStateSpec.
From S2P Require Import ApiLaws.
From S2P Require Import ProviderID.
From S2P Require Import KubeUtil.
From S2P Require Import LoadBalancerHandlers.
From S2P Require Import Locks.
From S2P Require Import Tasks.
From S2P Require Import Footprint.
From S2P Require Import Interleaving.

(** ** Confined changes *)

(** The load balancers with these UUIDs, their status aside, their pools with
    all parts, and their listeners without a pool are the same in both
    accounts; so each of them exists in both or in none. *)
Record untouched (uuids : list string) (x x' : api) : Prop := {
  untouched_lbs : Forall2 same_lb (filter (λ l, LoadBalancer.UUID l ∈ uuids) (api_lbs x))
    (filter (λ l, LoadBalancer.UUID l ∈ uuids) (api_lbs x'));
  untouched_pools : filter (λ p, Pool.LoadBalancer p ∈ uuids) (api_pools x') =
    filter (λ p, Pool.LoadBalancer p ∈ uuids) (api_pools x);
  untouched_parts p : p ∈ api_pools x → Pool.LoadBalancer p ∈ uuids → parts x' p = parts x p;
  untouched_floating u : u ∈ uuids →
    floating_listeners u (api_listeners x') = floating_listeners u (api_listeners x) }.

(** A Floating IP stays where it is, or, addressed by [ips], goes to one of the
    load balancers [lbs], or is left by one of them. *)
Definition ip_confined (lbs ips : string → Prop) (f f' : FloatingIP.t) : Prop :=
  FloatingIP.Network f' = FloatingIP.Network f ∧
  (FloatingIP.LoadBalancer f' = FloatingIP.LoadBalancer f ∨
   (ips (ip_of_cidr (FloatingIP.Network f)) ∧
     ∃ uuid, lbs uuid ∧ FloatingIP.LoadBalancer f' = Some uuid) ∨
   (∃ uuid, lbs uuid ∧ FloatingIP.LoadBalancer f = Some uuid ∧ FloatingIP.LoadBalancer f' = None)).

(** Only the load balancers [lbs] change, only [names] are given to load
    balancers, and only the Floating IPs [ips] are moved. *)
Record confined (lbs names ips : string → Prop) (x x' : api) : Prop := {
  confined_lbs uuids : (∀ u, u ∈ uuids → ¬ lbs u) → untouched uuids x x';
  confined_names l' : l' ∈ api_lbs x' → names (LoadBalancer.Name l') ∨
    ∃ l, l ∈ api_lbs x ∧ LoadBalancer.UUID l' = LoadBalancer.UUID l ∧
      LoadBalancer.Name l' = LoadBalancer.Name l;
  confined_ips : Forall2 (ip_confined lbs ips) (api_ips x) (api_ips x') }.

Definition none (_ : string) : Prop := False.
Definition quiet : api → api → Prop := confined none none none.

Lemma same_lb_refl l : same_lb l l.
Proof. by split; [split|]. Qed.

Lemma same_lb_trans l1 l2 l3 : same_lb l1 l2 → same_lb l2 l3 → same_lb l1 l3.
Proof. intros [[] ?] [[] ?]. split; [split|]; congruence. Qed.

Lemma untouched_refl uuids x : untouched uuids x x.
Proof. split; [|done..]. apply Forall_Forall2_diag, Forall_true. apply same_lb_refl. Qed.

Lemma untouched_trans uuids x1 x2 x3 :
  untouched uuids x1 x2 → untouched uuids x2 x3 → untouched uuids x1 x3.
Proof.
  intros [L1 P1 Q1 F1] [L2 P2 Q2 F2]. split.
  - clear -L1 L2. revert L2. generalize (filter (λ l, LoadBalancer.UUID l ∈ uuids) (api_lbs x3)).
    induction L1 as [|a b la lb Hab _ IH]; intros lc Hc; [done|].
    apply Forall2_cons_inv_l in Hc as (c & lc' & Hbc & Hc & ->).
    constructor; [by eapply same_lb_trans|by apply IH].
  - congruence.
  - intros p Hp Hu. rewrite <- Q1 by done. apply Q2; [|done].
    assert (p ∈ filter (λ p, Pool.LoadBalancer p ∈ uuids) (api_pools x2)) as Hin.
    { rewrite P1. by apply list_elem_of_filter. }
    by apply list_elem_of_filter in Hin as [_ ?].
  - intros u Hu. by rewrite F2, F1.
Qed.

#[export] Instance untouched_preorder uuids : PreOrder (untouched uuids).
Proof. split; [exact (untouched_refl uuids)|exact (untouched_trans uuids)]. Qed.

Lemma confined_weaken (P P' N N' I I' : string → Prop) x x' :
  confined P N I x x' → (∀ u, P u → P' u) → (∀ n, N n → N' n) → (∀ i, I i → I' i) →
  confined P' N' I' x x'.
Proof.
  intros [Hl Hn Hi] HP HN HI. split.
  - intros us Hus. apply Hl. intros u Hu Hp. by apply (Hus u Hu), HP.
  - intros l' Hl'. destruct (Hn l' Hl'); auto.
  - eapply Forall2_impl; [exact Hi|]. intros f f' [Hnet Hf]. split; [done|].
    destruct Hf as [Hf|[(Hf & u & Hu & Hf')|(u & Hu & Hf & Hf')]].
    + by left.
    + right; left. split; [auto|]. exists u. auto.
    + right; right. exists u. auto.
Qed.

Lemma quiet_refl x : quiet x x.
Proof.
  split.
  - intros us _. apply untouched_refl.
  - intros l Hl. right. by exists l.
  - apply Forall_Forall2_diag, Forall_true. intros f. by split; [|left].
Qed.

(** ** What calls can change *)

(** The load balancer a resource of the account belongs to. *)
Definition lb_of (r : resource) : string :=
  match r with
  | RLb l => LoadBalancer.UUID l
  | RPool p | RPart p _ => Pool.LoadBalancer p
  end.

(** A listener without a pool belongs to a load balancer as well. *)
Definition floating (x : api) (l : Listener.t) (uuid : string) : Prop :=
  l ∈ api_listeners x ∧ Listener.Pool l = None ∧ Listener.LoadBalancer l = uuid.

Definition located (x : api) (url uuid : string) : Prop :=
  (∃ r, holds x r ∧ href r = url ∧ lb_of r = uuid) ∨
  ∃ l, floating x l uuid ∧ Listener.HREF l = url.

(** The load balancer of the pool, the listener, the monitor with a UUID. *)
Definition pool_at (x : api) (pool uuid : string) : Prop :=
  ∃ p, p ∈ api_pools x ∧ Pool.UUID p = pool ∧ Pool.LoadBalancer p = uuid.

Definition listener_at (x : api) (listener uuid : string) : Prop :=
  (∃ p l, holds x (RPart p (PListener l)) ∧ Listener.UUID l = listener ∧
    Pool.LoadBalancer p = uuid) ∨
  ∃ l, floating x l uuid ∧ Listener.UUID l = listener.

Definition monitor_at (x : api) (monitor uuid : string) : Prop :=
  ∃ p m, holds x (RPart p (PMonitor m)) ∧ HealthMonitor.UUID m = monitor ∧
    Pool.LoadBalancer p = uuid.

(** The load balancers that appear between two states of the account. *)
Definition appears (x x' : api) (uuid : string) : Prop :=
  uuid ∈ LoadBalancer.UUID <$> api_lbs x' ∧ uuid ∉ LoadBalancer.UUID <$> api_lbs x.

Section scopes.
Context {W : Type} (resources : W → api).

(** Whatever a call returns, it changes the account within [R]. *)
Definition writes {A} (m : M W A) (R : api → api → Prop) : Prop :=
  ∀ w r w', m w = (r, w') → R (resources w) (resources w').

(** A call changes nothing, and its answer is about the state it met. *)
Definition reads {A} (m : M W A) (Q : api → A → Prop) : Prop :=
  ∀ w r w', m w = (r, w') → quiet (resources w) (resources w') ∧ ∀ a, r = Ok a → Q (resources w) a.

Definition listed {T} (f : api → list T) (x : api) (ts : list T) : Prop := ts ⊆ f x.
End scopes.

(** UUIDs identify load balancers. *)
Definition unique_lbs (x : api) : Prop := NoDup (LoadBalancer.UUID <$> api_lbs x).

(** A call may fail, before or after it took effect; a listing may be
    incomplete.  A write only changes the load balancer its target belongs to
    when it is done; a new load balancer has a new UUID. *)
Class ApiScopes (W : Type) `{Client W} := {
  resources : W → api;
  scope_get uuid : reads resources (LoadBalancers_Get uuid)
    (λ x l, l ∈ api_lbs x ∧ LoadBalancer.UUID l = uuid);
  scope_lbs : reads resources LoadBalancers_List (listed api_lbs);
  scope_pools : reads resources Pools_List (listed api_pools);
  scope_members uuid : reads resources (PoolMembers_List uuid) (listed (λ x, api_members x uuid));
  scope_listeners : reads resources Listeners_List (listed api_listeners);
  scope_monitors : reads resources HealthMonitors_List (listed api_monitors);
  scope_ips : writes resources FloatingIPs_List quiet;
  scope_server uuid : writes resources (Servers_Get uuid) quiet;
  scope_servers : writes resources Servers_List quiet;
  scope_ctx w : quiet (resources w) (resources (ctx_Err w).2);
  scope_select d w : quiet (resources w) (resources (select_after d w).2);
  scope_rand k w : quiet (resources w) (resources (rand_Intn k w).2);
  scope_request url : writes resources (NewRequest "DELETE" url) quiet;
  scope_delete url q w w1 : NewRequest "DELETE" url w = (Ok q, w1) →
    writes resources (Do q) (λ x, confined (located x url) none none x);
  scope_create_lb req : writes resources (LoadBalancers_Create req)
    (λ x x', unique_lbs x' →
       confined (appears x x') (λ n, n = LoadBalancerRequest.Name req) none x x');
  scope_rename uuid req : writes resources (LoadBalancers_Update uuid req)
    (confined (λ u, u = uuid) (λ n, n = LoadBalancerRequest.Name req) none);
  scope_create_pool req : writes resources (Pools_Create req)
    (confined (λ u, u = PoolRequest.LoadBalancer req) none none);
  scope_create_member uuid req : writes resources (PoolMembers_Create uuid req)
    (λ x, confined (pool_at x uuid) none none x);
  scope_create_listener req : writes resources (Listeners_Create req)
    (λ x, confined (pool_at x (ListenerRequest.Pool req)) none none x);
  scope_create_monitor req : writes resources (HealthMonitors_Create req)
    (λ x, confined (pool_at x (HealthMonitorRequest.Pool req)) none none x);
  scope_update_listener uuid req : writes resources (Listeners_Update uuid req)
    (λ x, confined (listener_at x uuid) none none x);
  scope_update_monitor uuid req : writes resources (HealthMonitors_Update uuid req)
    (λ x, confined (monitor_at x uuid) none none x);
  scope_assign ip uuid : writes resources (FloatingIPs_Update ip uuid)
    (confined (λ u, u = uuid) none (λ i, i = ip)) }.

(** The calls to the cluster leave the account alone. *)
Class KubeScopes (W : Type) `{ApiScopes W, !Kube W} := {
  scope_patch namespace name patch : writes resources (Services_Patch namespace name patch) quiet;
  scope_services token limit : writes resources (Services_List token limit) quiet;
  scope_version : writes resources ServerVersion quiet;
  scope_event service type_ reason message w :
    quiet (resources w) (resources (Recorder_Event service type_ reason message w)) }.

(** ** The registry of an execution *)

(** The registry is right about the account. *)
Record filed (reg : registry) (x : api) : Prop := {
  filed_lb l : l ∈ api_lbs x → url_lb reg (LoadBalancer.HREF l) = LoadBalancer.UUID l;
  filed_pool p : p ∈ api_pools x → pool_filed reg p;
  filed_member uuid m : m ∈ api_members x uuid → member_filed reg uuid m;
  filed_listener l : l ∈ api_listeners x → listener_filed reg l;
  filed_monitor m : m ∈ api_monitors x → monitor_filed reg m }.

Section filed.
Context (reg : registry) (x : api) (Hx : filed reg x).

Lemma filed_part p y :
  p ∈ api_pools x → y ∈ parts x p → url_lb reg (part_href y) = Pool.LoadBalancer p ∧
  match y with
  | PListener l => listener_lb reg (Listener.UUID l) = Pool.LoadBalancer p
  | PMonitor m => monitor_lb reg (HealthMonitor.UUID m) = Pool.LoadBalancer p
  | PMember _ => True
  end.
Proof.
  intros Hp. destruct (filed_pool _ _ Hx p Hp) as [_ Hu].
  unfold parts. rewrite !elem_of_app, !list_elem_of_fmap.
  intros [(m & -> & Hm)|[(l & -> & Hl)|(m & -> & Hm)]]; simpl.
  - split; [|done]. rewrite <- Hu. by apply (filed_member _ _ Hx).
  - apply list_elem_of_filter in Hl as [Hlp Hl]. rewrite <- Hu.
    by apply (filed_listener _ _ Hx l Hl).
  - apply list_elem_of_filter in Hm as [Hmp Hm]. rewrite <- Hu, <- Hmp.
    by apply (filed_monitor _ _ Hx m Hm).
Qed.

Lemma filed_located url uuid : located x url uuid → url_lb reg url = uuid.
Proof.
  intros [(r & Hr & <- & <-)|(l & (Hl & Hp & <-) & <-)].
  2: { by apply (proj2 (filed_listener _ _ Hx l Hl)). }
  destruct Hr as [l Hl|p Hp|p y Hp Hy]; simpl.
  - by apply (filed_lb _ _ Hx).
  - by apply (filed_pool _ _ Hx).
  - by apply filed_part.
Qed.

Lemma filed_pool_at pool uuid : pool_at x pool uuid → pool_lb reg pool = uuid.
Proof. intros (p & Hp & <- & <-). by apply (filed_pool _ _ Hx). Qed.

Lemma filed_listener_at listener uuid : listener_at x listener uuid → listener_lb reg listener = uuid.
Proof.
  intros [(p & l & Hl & <- & <-)|(l & (Hl & Hp & <-) & <-)].
  - inversion Hl; subst. by apply (filed_part p (PListener l)).
  - by apply (proj2 (filed_listener _ _ Hx l Hl)).
Qed.

Lemma filed_monitor_at monitor uuid : monitor_at x monitor uuid → monitor_lb reg monitor = uuid.
Proof. intros (p & m & Hm & <- & <-). inversion Hm; subst. by apply (filed_part p (PMonitor m)). Qed.
End filed.

(** ** A handler alone is watched *)

(** The load balancers that carry the service's name or UUID were made for it. *)
Definition named_right (reg : registry) (info : serviceInfo) (x : api) : Prop :=
  ∀ l, l ∈ api_lbs x → belongs info l → mine reg info (LoadBalancer.UUID l).

(** What a handler of the service may do in one call. *)
Definition own_step (reg : registry) (info : serviceInfo) (x x' : api) : Prop :=
  unique_lbs x' → confined (λ u, mine reg info u ∨ appears x x' u) (own_name info) (own_ip info) x x'.

Section watched.
Context (reg : registry) (info : serviceInfo).
Context {W : Type} `{!Client W} `{!ApiScopes W} `{!Kube W} `{!KubeScopes W}.

Definition met (w : W) : Prop := filed reg (resources w) ∧ named_right reg info (resources w).

Definition solo_fine (c : solo W) : Prop :=
  Forall met (upcoming c) ∧ Forall (λ e, own_step reg info (resources e.1) (resources e.2)) (past c).

Lemma meet_fine {R} (alone : R) (m : W → R * W) (Q : R → Prop) c r c' :
  Q alone →
  (∀ w r w', met w → m w = (r, w') → own_step reg info (resources w) (resources w') ∧ Q r) →
  solo_fine c → meet alone m c = (r, c') → solo_fine c' ∧ Q r.
Proof.
  intros Ha Hm [Hu Hp]. unfold meet. destruct (upcoming c) as [|w ws]; [by intros [= <- <-]|].
  apply Forall_cons in Hu as [Hw Hu]. destruct (m w) as [r0 w'] eqn:Hr. intros [= <- <-].
  destruct (Hm w r0 w' Hw Hr) as [Hs HQ]. split; [|done]. split; [done|]. simpl.
  apply Forall_app. by rewrite Forall_singleton.
Qed.

Lemma meets_keeps {A} (m : M W A) (Q : A → Prop) :
  (∀ w r w', met w → m w = (r, w') →
    own_step reg info (resources w) (resources w') ∧ ∀ a, r = Ok a → Q a) →
  keeps solo_fine (meets m) Q.
Proof. intros Hm c r c'. by apply (meet_fine _ _ (λ r, ∀ a, r = Ok a → Q a)). Qed.

Lemma quiet_own x x' : quiet x x' → own_step reg info x x'.
Proof. intros Hq _. by eapply confined_weaken. Qed.

Lemma reads_keeps {A} (m : M W A) (Q : api → A → Prop) (Q' : A → Prop) :
  reads resources m Q →
  (∀ w a, met w → Q (resources w) a → Q' a) → keeps solo_fine (meets m) Q'.
Proof.
  intros Hr HQ. apply meets_keeps. intros w r w' Hw Hm. destruct (Hr w r w' Hm) as [Hq Ha].
  split; [by apply quiet_own|]. naive_solver.
Qed.

Lemma quiet_keeps {A} (m : M W A) : writes resources m quiet → keeps solo_fine (meets m) any.
Proof. intros Hq. apply meets_keeps. intros w r w' Hw Hm. split; [|done]. eapply quiet_own, Hq, Hm. Qed.

Lemma writes_keeps {A} (m : M W A) (R : api → api → Prop) :
  writes resources m R → (∀ w x', met w → R (resources w) x' → own_step reg info (resources w) x') →
  keeps solo_fine (meets m) any.
Proof. intros Hw HR. apply meets_keeps. intros w r w' Hm Hr. split; [|done]. apply HR; [done|]. by eapply Hw. Qed.

(** A write whose target is on load balancers of the service. *)
Lemma targeted_keeps {A} (m : M W A) (P : api → string → Prop) :
  writes resources m (λ x, confined (P x) none none x) →
  (∀ x u, filed reg x → P x u → mine reg info u) → keeps solo_fine (meets m) any.
Proof.
  intros Hw HP. eapply writes_keeps; [exact Hw|]. intros w x' [Hf _] Hc _.
  eapply confined_weaken; [exact Hc|..]; [|by intros ? []..]. intros u Hu. left. by eapply HP.
Qed.

Lemma meet_quiet {R} (alone : R) (m : W → R * W) c :
  (∀ w, quiet (resources w) (resources (m w).2)) → solo_fine c → solo_fine (meet alone m c).2.
Proof.
  intros Hm Hc. destruct (meet alone m c) as [r c'] eqn:He.
  apply (meet_fine alone m (λ _, True) c r c') in He; [by destruct He|done| |done].
  intros w r0 w' _ Hr. split; [|done]. apply quiet_own. specialize (Hm w). by rewrite Hr in Hm.
Qed.

#[export] Program Instance solo_watched : Watched reg info (solo W) := {|
  fine := solo_fine;
  asks q url := ∃ w w' : W, NewRequest "DELETE" url w = (Ok q, w') |}.
Next Obligation.
  intros uuid. eapply reads_keeps; [apply scope_get|]. intros w l [Hf Hn] [Hl Hu].
  split; [done|]. split; [by apply (filed_lb _ _ Hf)|by apply Hn].
Qed.
Next Obligation.
  eapply reads_keeps; [apply scope_lbs|]. intros w ls [Hf Hn] Hls l Hl%Hls.
  split; [by apply (filed_lb _ _ Hf)|by apply Hn].
Qed.
Next Obligation.
  eapply reads_keeps; [apply scope_pools|]. intros w ps [Hf _] Hps p Hp%Hps. by apply (filed_pool _ _ Hf).
Qed.
Next Obligation.
  intros uuid. eapply reads_keeps; [apply scope_members|]. intros w ms [Hf _] Hms m Hm%Hms.
  by apply (filed_member _ _ Hf).
Qed.
Next Obligation.
  eapply reads_keeps; [apply scope_listeners|]. intros w ls [Hf _] Hls l Hl%Hls.
  by apply (filed_listener _ _ Hf).
Qed.
Next Obligation.
  eapply reads_keeps; [apply scope_monitors|]. intros w ms [Hf _] Hms m Hm%Hms.
  by apply (filed_monitor _ _ Hf).
Qed.
Next Obligation. apply quiet_keeps, scope_ips. Qed.
Next Obligation. intros uuid. apply quiet_keeps, scope_server. Qed.
Next Obligation. apply quiet_keeps, scope_servers. Qed.
Next Obligation. intros c. apply meet_quiet, scope_ctx. Qed.
Next Obligation. intros d c. apply meet_quiet, scope_select. Qed.
Next Obligation. intros k c. apply meet_quiet, scope_rand. Qed.
Next Obligation.
  intros url. apply meets_keeps. intros w r w' _ Hr. split; [eapply quiet_own, scope_request, Hr|].
  intros q ->. by exists w, w'.
Qed.
Next Obligation.
  intros q url (w & w' & Hq) Hm. eapply targeted_keeps; [by eapply scope_delete|].
  intros x u Hf Hu. by rewrite <- (filed_located _ _ Hf _ _ Hu).
Qed.
Next Obligation.
  intros req Hn. eapply writes_keeps; [apply scope_create_lb|]. intros w x' _ Hc Hu.
  eapply confined_weaken; [exact (Hc Hu)|by right|by intros ? ->|by intros ? []].
Qed.
Next Obligation.
  intros uuid req Hm Hn. eapply writes_keeps; [apply scope_rename|]. intros w x' _ Hc _.
  eapply confined_weaken; [exact Hc|intros ? ->; by left|by intros ? ->|by intros ? []].
Qed.
Next Obligation.
  intros req Hm. eapply (targeted_keeps _ (λ _ u, u = PoolRequest.LoadBalancer req));
    [apply scope_create_pool|by intros ? ? _ ->].
Qed.
Next Obligation.
  intros uuid req Hm. eapply targeted_keeps; [apply scope_create_member|].
  intros x u Hf Hu. by rewrite <- (filed_pool_at _ _ Hf _ _ Hu).
Qed.
Next Obligation.
  intros req Hm. eapply targeted_keeps; [apply scope_create_listener|].
  intros x u Hf Hu. by rewrite <- (filed_pool_at _ _ Hf _ _ Hu).
Qed.
Next Obligation.
  intros req Hm. eapply targeted_keeps; [apply scope_create_monitor|].
  intros x u Hf Hu. by rewrite <- (filed_pool_at _ _ Hf _ _ Hu).
Qed.
Next Obligation.
  intros uuid req Hm. eapply targeted_keeps; [apply scope_update_listener|].
  intros x u Hf Hu. by rewrite <- (filed_listener_at _ _ Hf _ _ Hu).
Qed.
Next Obligation.
  intros uuid req Hm. eapply targeted_keeps; [apply scope_update_monitor|].
  intros x u Hf Hu. by rewrite <- (filed_monitor_at _ _ Hf _ _ Hu).
Qed.
Next Obligation.
  intros ip uuid Hi Hm. eapply writes_keeps; [apply scope_assign|]. intros w x' _ Hc _.
  eapply confined_weaken; [exact Hc|intros ? ->; by left|by intros ? []|by intros ? ->].
Qed.

#[export] Instance solo_watched_kube : WatchedKube reg info (solo W).
Proof.
  split.
  - intros patch. apply quiet_keeps, scope_patch.
  - intros token limit. apply quiet_keeps, scope_services.
  - apply quiet_keeps, scope_version.
  - intros service type_ reason message c. apply meet_quiet. intros w. apply scope_event.
Qed.
End watched.
