(* ===== verification/SystemIsolation.v ===== *)
(** * SystemIsolation

    The executions of a system of handlers ([Interleaving]) on an API with
    [ApiScopes]: every call of a handler is confined to the load balancers, the
    name and the Floating IPs of its service, and from one call of a handler to
    its next nobody changes the load balancers of its service, so that it runs
    as if it were alone with them. *)

From stdpp Require Import base tactics list gmap strings relations.
From Stdlib Require Import ZArith.
From S2P Require Import Prelude.
From S2P Require Import GoStrings.
From S2P Require Import Cloudscale.
From S2P Require Import ServiceInfo.
From S2P Require Import ActualStateSpec.
From S2P Require Import ApiLaws.
From S2P Require Import ProviderID.
From S2P Require Import Reconcile.
From S2P Require Import KubeUtil.
From S2P Require Import LoadBalancerHandlers.
From S2P Require Import Locks.
From S2P Require Import Footprint.
From S2P Require Import Interleaving.
From S2P Require Import Isolation.

Section system.
Context {W : Type} `{!Client W} `{!ApiScopes W} `{!Kube W} `{!KubeScopes W}.
Context `{GoExt} `{SDK} `{UUIDPackage} `{LabelsPackage}.
Context (reg : registry) (jobs : list job).
Implicit Types (j : job) (s : system W) (h : list (event W)) (w : W).

(** Services do not share the name of a load balancer, and a UUID in the
    annotations of a service is that of a load balancer made for it. *)
Record services_apart : Prop := {
  apart_names i k j1 j2 : jobs !! i = Some j1 → jobs !! k = Some j2 → job_uid j1 ≠ job_uid j2 →
    annotation (job_info j1) LoadBalancerName ≠ annotation (job_info j2) LoadBalancerName;
  apart_uuids i j : jobs !! i = Some j → annotation (job_info j) LoadBalancerUUID ≠ "" →
    mine reg (job_info j) (annotation (job_info j) LoadBalancerUUID) }.

(** The registry is a record of the execution: no address or UUID is used
    twice, and a load balancer that appears during a call of a handler was made
    for its service.  What happens outside leaves the load balancers and the
    names of the services alone. *)
Record recorded h : Prop := {
  recorded_filed o b a : (o, (b, a)) ∈ h → filed reg (resources b);
  recorded_unique o b a : (o, (b, a)) ∈ h → unique_lbs (resources a);
  recorded_created t j b a uuid : (Some t, (b, a)) ∈ h → jobs !! t = Some j →
    appears (resources b) (resources a) uuid → mine reg (job_info j) uuid;
  recorded_outside b a : (None, (b, a)) ∈ h →
    confined (λ u, ∀ i j, jobs !! i = Some j → ¬ mine reg (job_info j) u)
      (λ n, ∀ i j, jobs !! i = Some j → ¬ own_name (job_info j) n) (λ _, True)
      (resources b) (resources a) }.

(** Every load balancer with the name or UUID of a service was made for it. *)
Definition all_named (w : W) : Prop :=
  ∀ i j, jobs !! i = Some j → named_right reg (job_info j) (resources w).

(** What a handler may do, once it is known what it created. *)
Definition own_call j (b a : W) : Prop :=
  confined (mine reg (job_info j)) (own_name (job_info j)) (own_ip (job_info j))
    (resources b) (resources a).

Lemma recorded_prefix h h' : recorded (h ++ h') → recorded h.
Proof.
  intros [Hf Hu Hc Ho]. split; intros.
  - eapply Hf, elem_of_app; eauto.
  - eapply Hu, elem_of_app; eauto.
  - eapply Hc; eauto. eapply elem_of_app; eauto.
  - eapply Ho, elem_of_app; eauto.
Qed.

Lemma forget_kept {A} inv (m : D (solo W) A) Q : keepsD inv m Q → keepsD inv (forget m) any.
Proof.
  intros Hm c r c' Hc. unfold forget. destruct (m c) as [[r0 c0]|] eqn:Hr; [|done].
  intros [= <- <-]. by destruct (Hm _ _ _ Hc Hr).
Qed.

Lemma run_job_kept j fuel : keepsD (fine reg (job_info j) (W := solo W)) (run_job j fuel) any.
Proof.
  unfold run_job, job_info. destruct (job_handler j).
  - apply (forget_kept _ _ any). apply (EnsureLoadBalancer_kept reg (job_service j) (job_cluster j)).
  - apply (UpdateLoadBalancer_kept reg (job_service j) (job_cluster j)).
  - apply (EnsureLoadBalancerDeleted_kept reg (job_service j) (job_cluster j)).
Qed.

(** The next call is harmless if all the states met so far were as recorded. *)
Lemma next_call_own j calls w w' :
  Forall (λ e, met reg (job_info j) e.1) calls → met reg (job_info j) w →
  next_call j calls w w' → own_step reg (job_info j) (resources w) (resources w').
Proof.
  intros Hcs Hw (fuel & r & c & Hr & Hc).
  apply (run_job_kept j) in Hr as [[_ Hp] _].
  - rewrite Hc in Hp. apply Forall_app in Hp as [_ Hp]. rewrite Forall_singleton in Hp. exact Hp.
  - split; simpl; [|constructor]. apply Forall_app. rewrite Forall_singleton, Forall_fmap. by split.
Qed.

(** ** Names stay right *)

Lemma untouched_lb uuids x x' l' :
  untouched uuids x x' → l' ∈ api_lbs x' → LoadBalancer.UUID l' ∈ uuids →
  ∃ l, l ∈ api_lbs x ∧ same_lb l l'.
Proof.
  intros [Hl _ _ _] Hin Hu.
  assert (l' ∈ filter (λ l, LoadBalancer.UUID l ∈ uuids) (api_lbs x')) as Hf.
  { by apply list_elem_of_filter. }
  apply list_elem_of_lookup in Hf as [i Hi].
  destruct (Forall2_lookup_r _ _ _ _ _ Hl Hi) as (l & Hl0 & Hs). exists l. split; [|done].
  apply list_elem_of_lookup_2, list_elem_of_filter in Hl0. tauto.
Qed.

Lemma same_lb_names info l l' : same_lb l l' → belongs info l' → belongs info l.
Proof. intros [[_ Hu _ _ _] Hn]. unfold belongs. by rewrite Hu, Hn. Qed.

(** A confined change keeps the names of a service right, unless it gives its
    name to a load balancer that was not made for it. *)
Lemma named_kept P N I i j x x' :
  services_apart → jobs !! i = Some j → confined P N I x x' →
  (∀ u, Decision (P u)) →
  (∀ u n, P u → N n → own_name (job_info j) n → mine reg (job_info j) u) →
  named_right reg (job_info j) x → named_right reg (job_info j) x'.
Proof.
  intros Hap Hj [Hl Hn _] Hdec HN Hx l' Hin Hb.
  destruct (decide (P (LoadBalancer.UUID l'))) as [HP|HP].
  - destruct Hb as [[Hne Hu]|Hb]; [rewrite Hu; by eapply apart_uuids|].
    destruct (Hn l' Hin) as [HNl|(l & Hl0 & Hu & Hnm)]; [by eapply HN|].
    rewrite Hu. apply Hx; [done|]. right. congruence.
  - destruct (untouched_lb [LoadBalancer.UUID l'] x x' l') as (l & Hl0 & Hs);
      [apply Hl; by intros u ->%list_elem_of_singleton|done|by left|].
    rewrite (same_lb_uuid _ _ (proj1 Hs)). apply Hx; [done|]. by eapply same_lb_names.
Qed.

#[local] Instance mine_dec info u : Decision (mine reg info u).
Proof. unfold mine. apply _. Defined.

Lemma own_call_named t j w w' :
  services_apart → jobs !! t = Some j → own_call j w w' → all_named w → all_named w'.
Proof.
  intros Hap Ht Hc Hw i k Hk. eapply named_kept; [done|done|exact Hc|apply _| |by eapply Hw].
  intros u n Hu Hn Hk'. unfold mine in *.
  destruct (decide (job_uid j = job_uid k)) as [Heq|Hne]; [unfold job_uid in Heq; simpl in *; congruence|].
  destruct (apart_names Hap t i j k Ht Hk Hne). unfold own_name in *. congruence.
Qed.

Lemma outside_named w w' :
  services_apart →
  confined (λ u, ∀ i j, jobs !! i = Some j → ¬ mine reg (job_info j) u)
    (λ n, ∀ i j, jobs !! i = Some j → ¬ own_name (job_info j) n) (λ _, True)
    (resources w) (resources w') → all_named w → all_named w'.
Proof.
  intros Hap Hc Hw i j Hj. pose proof Hc as [Hl Hn _]. intros l' Hin Hb.
  destruct (decide (mine reg (job_info j) (LoadBalancer.UUID l'))) as [|Hno]; [done|].
  destruct Hb as [[Hne Hu]|Hb]; [rewrite Hu; by eapply apart_uuids|].
  destruct (Hn l' Hin) as [HN|(l & Hl0 & Hu & Hnm)]; [by destruct (HN i j Hj)|].
  rewrite Hu. eapply Hw; [done|done|]. right. congruence.
Qed.
(** ** The invariant *)

(** Names are right, now and at every call; every call is confined. *)
Record system_ok s : Prop := {
  ok_named : all_named (world s);
  ok_met o b a : (o, (b, a)) ∈ history s → all_named b;
  ok_calls t j b a : jobs !! t = Some j → (Some t, (b, a)) ∈ history s → own_call j b a }.

Lemma start_ok w : all_named w → system_ok (system_start jobs w).
Proof. intros Hw. split; simpl; [done|by intros ? ? ? ?%not_elem_of_nil|by intros ? ? ? ? ? ?%not_elem_of_nil]. Qed.

Lemma met_calls s t j :
  system_ok s → recorded (history s) → jobs !! t = Some j →
  Forall (λ e, met reg (job_info j) e.1) (calls_of t (history s)).
Proof.
  intros Hok Hr Hj. apply Forall_forall. intros [b a] He%elem_of_calls. split; simpl.
  - by eapply recorded_filed.
  - by eapply ok_met.
Qed.

(** A call of a handler, once recorded, is confined. *)
Lemma call_own l w h t j w' :
  system_ok (MkSystem l w h) → recorded (h ++ [(Some t, (w, w'))]) → jobs !! t = Some j →
  next_call j (calls_of t h) w w' → own_call j w w'.
Proof.
  intros Hok Hr Hj Hn.
  assert ((Some t, (w, w')) ∈ h ++ [(Some t, (w, w'))]) as Hin by set_solver.
  assert (own_step reg (job_info j) (resources w) (resources w')) as Hs.
  { eapply next_call_own; [|split|exact Hn].
    - apply (met_calls (MkSystem l w h)); [done| |done]. by eapply recorded_prefix.
    - by eapply recorded_filed.
    - by eapply (ok_named _ Hok). }
  eapply confined_weaken; [apply Hs; by eapply recorded_unique| |done..].
  intros u [Hu|Hu]; [done|]. by eapply (recorded_created _ Hr).
Qed.

Lemma system_step_ok s s' :
  services_apart → recorded (history s') → system_step jobs s s' → system_ok s → system_ok s'.
Proof.
  intros Hap Hr Hs Hok. destruct Hs as [l w h t l' _ _|l w h t j w' Hj _ Hn|l w h t j l' _ _ _ _|l w h w'];
    pose proof Hok as [Hnm Hmet Hcalls]; simpl in *; [done| |done|].
  - pose proof (call_own l w h t j w' Hok Hr Hj Hn) as Hown. split; simpl.
    + by eapply own_call_named.
    + intros o b a [Hin|[= -> -> ->]%list_elem_of_singleton]%elem_of_app; [by eapply Hmet|done].
    + intros t' k b a Hk [Hin|[= -> -> ->]%list_elem_of_singleton]%elem_of_app; [by eapply Hcalls|].
      rewrite Hj in Hk. by injection Hk as <-.
  - split; simpl.
    + eapply outside_named; [done| |done]. apply (recorded_outside _ Hr). set_solver.
    + intros o b a [Hin|[= -> -> ->]%list_elem_of_singleton]%elem_of_app; [by eapply Hmet|done].
    + intros t k b a Hk [Hin|Hin%list_elem_of_singleton]%elem_of_app; [by eapply Hcalls|done].
Qed.

Lemma reachable_system_ok w s :
  services_apart → all_named w → system_reachable jobs w s → recorded (history s) → system_ok s.
Proof.
  intros Hap Hw. revert s. apply (rtc_ind_r (λ s, recorded (history s) → system_ok s));
    [intros _; by apply start_ok|]. intros s s' _ Hs IH Hrec.
  eapply system_step_ok; [done|done|exact Hs|]. apply IH.
  destruct (step_history _ _ _ Hs) as [h Hh]. rewrite Hh in Hrec. by eapply recorded_prefix.
Qed.

(** ** While a handler runs *)

(** Two threads that run handle different services. *)
Lemma running_apart w s t1 t2 j1 j2 :
  system_reachable jobs w s → running (lk s) t1 → running (lk s) t2 → t1 ≠ t2 →
  jobs !! t1 = Some j1 → jobs !! t2 = Some j2 → job_uid j1 ≠ job_uid j2.
Proof.
  intros Hr (u1 & mu1 & Ht1) (u2 & mu2 & Ht2) Hne Hj1 Hj2 Heq. apply Hne.
  pose proof (reachable_threads jobs w s Hr) as [Hj _].
  destruct (Hj _ _ Ht1) as (k1 & Hk1 & Hu1). destruct (Hj _ _ Ht2) as (k2 & Hk2 & Hu2).
  simpl in *. assert (u1 = u2) as -> by congruence.
  eapply exclusive; [|exact Ht1|exact Ht2]. by eapply reachable_ok, system_locks.
Qed.

(** A step that is not its own leaves the load balancers of a running handler
    alone. *)
Lemma protected w s s' t j :
  services_apart → all_named w → system_reachable jobs w s → system_step jobs s s' →
  recorded (history s') → running (lk s) t → jobs !! t = Some j →
  (∀ e, history s' ≠ history s ++ [(Some t, e)]) →
  ∀ uuids, (∀ u, u ∈ uuids → mine reg (job_info j) u) →
    untouched uuids (resources (world s)) (resources (world s')).
Proof.
  intros Hap Hw Hr Hs Hrec Hrun Hj Hother uuids Hm.
  assert (system_ok s) as Hok.
  { eapply reachable_system_ok; [done..|]. destruct (step_history _ _ _ Hs) as [h Hh].
    rewrite Hh in Hrec. by eapply recorded_prefix. }
  destruct Hs as [l v h t' l' _ _|l v h t' k v' Hk Hrun' Hn|l v h t' k l' _ _ _ _|l v h v'];
    simpl in *; [done| |done|].
  - assert (t' ≠ t) as Hne by (by intros ->; eapply Hother).
    pose proof (call_own l v h t' k v' Hok Hrec Hk Hn) as [Hl _ _]. apply Hl.
    intros u Hu. unfold mine in *. rewrite (Hm u Hu). intros Heq.
    by eapply (running_apart w (MkSystem l v h) t' t).
  - assert ((None, (v, v')) ∈ h ++ [(None, (v, v'))]) as Hin by set_solver.
    apply (confined_lbs _ _ _ _ _ (recorded_outside _ Hrec _ _ Hin)).
    intros u Hu Hno. by eapply Hno, Hm.
Qed.

(** ** From one call to the next *)

Definition own_untouched j (w w' : W) : Prop :=
  ∀ uuids, (∀ u, u ∈ uuids → mine reg (job_info j) u) → untouched uuids (resources w) (resources w').

Record linked_ok s : Prop := {
  ok_linked t j : jobs !! t = Some j → linked (own_untouched j) (calls_of t (history s));
  ok_last t j e : jobs !! t = Some j → running (lk s) t → last (calls_of t (history s)) = Some e →
    own_untouched j e.2 (world s) }.

Lemma advance_running l t0 l' t :
  advance l t0 = Some l' → running l' t →
  running l t ∨ ∃ th, threads l !! t = Some th ∧ (thread_phase th < 2)%nat.
Proof.
  intros (th & th' & Ht & Hl & _ & Hp)%advance_threads (th1 & Ht1 & Hp1)%running_phase.
  rewrite Hl in Ht1. destruct (decide (t0 = t)) as [<-|Hne].
  - rewrite list_lookup_insert_eq in Ht1 by (by apply lookup_lt_is_Some; eexists).
    injection Ht1 as <-. right. exists th. split; [done|lia].
  - rewrite list_lookup_insert_ne in Ht1 by done. left. apply running_phase. by exists th1.
Qed.

Lemma linked_advance l w h t0 l' :
  advance l t0 = Some l' → threads_ok jobs (MkSystem l w h) → linked_ok (MkSystem l w h) →
  linked_ok (MkSystem l' w h).
Proof.
  intros Ha [_ Hidle] [Hlk Hla]. split; simpl in *; [done|]. intros t j e Hj Hrun He.
  destruct (advance_running l t0 l' t Ha Hrun) as [Hrun0|(th & Ht & Hp)]; [by eapply Hla|].
  by rewrite (Hidle t th Ht Hp) in He.
Qed.

Lemma linked_call w0 l w h o w' :
  services_apart → all_named w0 → system_reachable jobs w0 (MkSystem l w h) →
  system_step jobs (MkSystem l w h) (MkSystem l w' (h ++ [(o, (w, w'))])) →
  recorded (h ++ [(o, (w, w'))]) → (∀ t, o = Some t → running l t) →
  linked_ok (MkSystem l w h) → linked_ok (MkSystem l w' (h ++ [(o, (w, w'))])).
Proof.
  intros Hap Hw0 Hr Hs Hrec Ho [Hlk Hla]. split; simpl in *.
  - intros t j Hj. rewrite calls_of_snoc. case_decide as Ht; [|by apply Hlk].
    apply linked_snoc; [by apply Hlk|]. intros e0 He0. eapply Hla; [done|by apply Ho|done].
  - intros t j e Hj Hrun. rewrite calls_of_snoc. case_decide as Ht.
    + rewrite last_snoc. intros [= <-] uuid _. by apply untouched_refl.
    + intros He uuid Hm. eapply untouched_trans; [by eapply Hla|].
      eapply (protected w0 _ _ t j Hap Hw0 Hr Hs Hrec Hrun Hj); [|done].
      intros e'. simpl. intros [= ?]%app_inv_head. congruence.
Qed.

Lemma reachable_linked w s :
  services_apart → all_named w → system_reachable jobs w s → recorded (history s) → linked_ok s.
Proof.
  intros Hap Hw. revert s.
  apply (rtc_ind_r (λ s, recorded (history s) → linked_ok s)); [intros _; split; simpl; [done|]|].
  { by intros t j e Hj _ [=]. }
  intros s s' Hr Hs IH Hrec.
  assert (linked_ok s) as Hok.
  { apply IH. destruct (step_history _ _ _ Hs) as [h Hh]. rewrite Hh in Hrec. by eapply recorded_prefix. }
  pose proof (reachable_threads jobs w s Hr) as Hth. pose proof Hs as Hs0.
  destruct Hs as [l v h t0 l' _ Ha|l v h t0 k v' Hk Hrun Hn|l v h t0 k l' _ _ _ Ha|l v h v'].
  - by eapply linked_advance.
  - eapply (linked_call w); try done. by intros ? [= <-].
  - by eapply linked_advance.
  - by eapply (linked_call w).
Qed.

(** ** Properties *)

(** C9. However the calls of the handlers interleave, and whether they succeed or
    fail: no call of a handler changes a load balancer that was not made for
    its service, gives a load balancer a name that is not its service's, or
    moves a Floating IP that is not in its annotations. *)
Theorem handlers_confined w s t j b a :
  services_apart → all_named w → system_reachable jobs w s → recorded (history s) →
  jobs !! t = Some j → (Some t, (b, a)) ∈ history s →
  confined (mine reg (job_info j)) (own_name (job_info j)) (own_ip (job_info j))
    (resources b) (resources a).
Proof. intros Hap Hw Hr Hrec Hj Hin. by eapply (ok_calls s (reachable_system_ok w s Hap Hw Hr Hrec)). Qed.

(** C8. A handler runs as if it were alone with the load balancers of its service:
    each of its calls meets them, their pools and all their parts as its call
    before left them, whatever other handlers did in between. *)
Theorem handlers_alone w s t j i b1 a1 b2 a2 uuids :
  services_apart → all_named w → system_reachable jobs w s → recorded (history s) →
  jobs !! t = Some j →
  calls_of t (history s) !! i = Some (b1, a1) → calls_of t (history s) !! S i = Some (b2, a2) →
  (∀ u, u ∈ uuids → mine reg (job_info j) u) → untouched uuids (resources a1) (resources b2).
Proof.
  intros Hap Hw Hr Hrec Hj Hi1 Hi2 Hm.
  by apply (ok_linked s (reachable_linked w s Hap Hw Hr Hrec) t j Hj i _ _ Hi1 Hi2).
Qed.
End system.
