(* ===== verification/SystemConverge.v ===== *)
(** * SystemConverge

    Convergence in the interleaved system.  A handler runs as a thread of
    [Interleaving], other threads and the world outside act between any two of
    its calls, and all of them spare its service.  Then the handler does not go
    on calling forever, and when it has returned, it has succeeded and the
    account holds what was asked for.

    The calls of a thread lead to an interference: after each call, the others
    do what led to the state its next call met ([rejoin]).  In the world
    disturbed by it, the handler makes the same calls ([scripted_tracks]), and
    [HandlersDisturbed] tells how it ends. *)

From stdpp Require Import base tactics list gmap strings relations.
From Stdlib Require Import ZArith ConstructiveEpsilon.
From S2P Require Import Prelude.
From S2P Require Import GoStrings.
From S2P Require Import Cloudscale.
From S2P Require Import ServiceInfo.
From S2P Require Import Actions.
From S2P Require Import LbState.
From S2P Require Import LbStateSpec.
From S2P Require Import NextActionsPlan.
From S2P Require Import ActualState.
From S2P Require Import ActualStateSpec.
From S2P Require Import Reconcile.
From S2P Require Import ApiLaws.
From S2P Require Import Converge.
From S2P Require Import Realisable.
From S2P Require Import ProviderID.
From S2P Require Import ServerMapper.
From S2P Require Import KubeUtil.
From S2P Require Import LoadBalancerHandlers.
From S2P Require Import HandlersConverge.
From S2P Require Import Sharing.
From S2P Require Import Others.
From S2P Require Import Disturbed.
From S2P Require Import HandlersDisturbed.
From S2P Require Import Locks.
From S2P Require Import Interleaving.
From S2P Require Import Scripts.
From S2P Require Import Causality.

(** ** What a handler is asked for *)

Section asked.
Context {W : Type} `{!Client W} `{!ApiLaws W} `{!Kube W} `{!KubeLaws W}.
Context `{GoExt} `{SDK} `{UUIDPackage} `{LabelsPackage}.
Implicit Types (j : job) (x y : api) (P Q : api → Prop).

(** An account with [P] can be brought to [Q] by the handler. *)
Inductive asks_for j : (api → Prop) → (api → Prop) → Prop :=
| asks_ensure nodes desired dlb algorithms protocols :
    job_handler j = EnsureLb nodes → status_known (job_info j) →
    wanted (job_info j) nodes desired dlb algorithms protocols →
    asks_for j (Converge.reachable (job_info j) desired dlb algorithms protocols)
      (λ x, ∃ l, in_place (job_info j) desired dlb x l)
| asks_update nodes desired dlb algorithms protocols :
    job_handler j = UpdateLb nodes →
    wanted (job_info j) nodes desired dlb algorithms protocols →
    asks_for j (Converge.reachable (job_info j) desired dlb algorithms protocols)
      (λ x, ∃ l, in_place (job_info j) desired dlb x l)
| asks_delete :
    job_handler j = DeleteLb →
    asks_for j (λ x, no_owner (job_info j) x ∨ ∃ l, owner (job_info j) x l) (no_owner (job_info j)).

(** Both are about what the service sees. *)
Lemma asked_view j P Q x : asks_for j P Q → api_ok x → P x → P (view (job_info j) x).
Proof.
  intros [nodes desired dlb algorithms protocols _ _ Hw|nodes desired dlb algorithms protocols _ Hw|_] Hok.
  - apply view_reachable; [done|by eapply wanted_ips].
  - apply view_reachable; [done|by eapply wanted_ips].
  - by apply at_most_one_view.
Qed.

Lemma asked_sees j P Q x y : asks_for j P Q → api_ok x → sees (job_info j) x y → Q y → Q x.
Proof.
  intros [nodes desired dlb algorithms protocols _ _ _|nodes desired dlb algorithms protocols _ _|_] Hok Hs.
  - intros [l Hl]. by eapply sees_in_place.
  - intros [l Hl]. by eapply sees_in_place.
  - by apply sees_no_owner.
Qed.

Lemma admitted_more fuel fuel' info : (fuel ≤ fuel')%nat → admitted fuel info → admitted fuel' info.
Proof.
  intros Hle (Hc & Hi & ps & Hps & Hf & Hn). split; [done|]. split; [done|].
  exists ps. split; [done|]. split; [lia|done].
Qed.

(** With enough fuel the handler of a job succeeds among considerate others. *)
Lemma job_reaches `{!Interference W} j P Q pages (s : disturbed W) y :
  Considerate W (job_info j) → admitted pages (job_info j) → asks_for j P Q →
  seen_good (job_info j) s y → P y →
  ∃ n, ∀ fuel, (n ≤ fuel)%nat → ∃ s' y',
    run_job j fuel s = Some (Ok tt, s') ∧ seen_good (job_info j) s' y' ∧ Q y'.
Proof.
  intros Hcon Ha Hasks Hg HP.
  destruct Hasks as [nodes desired dlb algorithms protocols Hj Hk Hw
    |nodes desired dlb algorithms protocols Hj Hw|Hj]; unfold run_job; rewrite Hj.
  - exists (pages + S (rounds_bound (W := W) desired y))%nat. intros fuel Hf.
    destruct (ensure_seen (H3 := job_order j) fuel (job_orders j) desired dlb algorithms protocols
      (job_service j) (job_cluster j) nodes s y Hcon) as (status & s' & y' & l & Hr & Hg' & Hin);
      [eapply admitted_more, Ha; lia|done..|lia|].
    exists s', y'. split; [unfold forget; by rewrite Hr|]. split; [done|by exists l].
  - exists (pages + S (rounds_bound (W := W) desired y))%nat. intros fuel Hf.
    destruct (update_seen (H3 := job_order j) fuel (job_orders j) desired dlb algorithms protocols
      (job_info j) nodes s y Hcon) as (s' & y' & l & Hr & Hg' & Hin);
      [eapply admitted_more, Ha; lia|done..|lia|].
    exists s', y'. split; [done|]. split; [done|by exists l].
  - exists (pages + S (patience (W := W)))%nat. intros fuel Hf.
    destruct (delete_seen (H3 := job_order j) fuel (job_orders j)
      (job_service j) (job_cluster j) s y Hcon) as (s' & y' & Hr & Hg' & Hno);
      [eapply admitted_more, Ha; lia|done..|lia|].
    by exists s', y'.
Qed.
End asked.

(** ** The others of a thread, as an interference *)

Section rejoin.
Context {W : Type} `{!EqDecision W}.
Implicit Types (τ : nat → option (W * W)) (calls : list (W * W)).

(** After the n-th call of [τ], if it left the world as in [τ], the others do
    what led to the next one. *)
Definition rejoin τ : Interference W := {|
  others n w :=
    match τ n, τ (S n) with
    | Some e, Some e' => if decide (w = e.2) then e'.1 else w
    | _, _ => w
    end |}.

Lemma rejoin_tracks τ calls :
  (∀ i e, calls !! i = Some e → τ i = Some e) → @tracks W (rejoin τ) 0 calls.
Proof.
  intros Hτ i e e' He He'. simpl. by rewrite (Hτ _ _ He), (Hτ _ _ He'), decide_True.
Qed.

(** A run among them ends in what its last call left. *)
Lemma rejoin_walk calls w e :
  last calls = Some e →
  inner (@walk W (rejoin (λ i, calls !! i)) (MkDisturbed w 0) calls) = e.2.
Proof.
  intros Hl. set (I := rejoin (λ i, calls !! i)).
  assert (∀ cs d, @walk W I d (cs ++ [e]) =
    MkDisturbed (@others W I (calls_made d + length cs) e.2) (S (calls_made d + length cs))) as Hw.
  { induction cs as [|[v v'] cs IH]; intros d; destruct e as [b a]; simpl.
    - by rewrite Nat.add_0_r.
    - rewrite IH. simpl. by rewrite Nat.add_succ_r. }
  apply last_Some in Hl as [cs Hcs]. rewrite Hcs, Hw. simpl.
  rewrite Hcs. rewrite (lookup_app_r cs [e] (S (length cs))) by lia.
  replace (S (length cs) - length cs)%nat with 1%nat by lia. simpl. by destruct (_ !! _).
Qed.

Context `{!Client W} `{!ApiLaws W}.

Lemma rejoin_considerate τ info :
  looked_up known_names known_uuids info →
  (∀ ip, ip ∈ service_ips info → known_ips ip) →
  (∀ n e e', τ n = Some e → τ (S n) = Some e' → spares info e.2 e'.1) →
  @Considerate W _ _ (rejoin τ) info.
Proof.
  intros Hk Hi Hs. split; [done..|]. intros n w. simpl.
  destruct (τ n) as [e|] eqn:He, (τ (S n)) as [e'|] eqn:He'; try apply spares_refl.
  case_decide as Hw; [|apply spares_refl]. subst. by eapply Hs.
Qed.
End rejoin.

(** ** The calls of a thread *)

Section calls.
Context {W : Type} `{!EqDecision W}.
Context `{!Client W} `{!ApiLaws W} `{!Kube W} `{!KubeLaws W}.
Context `{GoExt} `{SDK} `{UUIDPackage} `{LabelsPackage}.
Implicit Types (j : job) (x y : api) (P Q : api → Prop) (calls : list (W * W)).

(** After [calls], the handler returns without an error. *)
Definition succeeded j calls : Prop :=
  ∃ fuel c, run_job j fuel (MkSolo calls.*1 [] false) = Some (Ok tt, c) ∧
    past c = calls ∧ cut c = false.

(** A service the laws cover and this program admits. *)
Record served (pages : nat) info : Prop := {
  served_known : looked_up known_names known_uuids info;
  served_ips ip : ip ∈ service_ips info → known_ips ip;
  served_admitted : admitted pages info }.

(** A handler whose calls follow [τ], the others sparing its service, makes a
    bounded number of calls, and succeeds when it returns. *)
Lemma job_tracks j P Q pages (τ : nat → option (W * W)) w y :
  served pages (job_info j) → asks_for j P Q → seen_good (job_info j) (MkDisturbed w 0) y → P y →
  (∀ n e e', τ n = Some e → τ (S n) = Some e' → spares (job_info j) e.2 e'.1) →
  (∀ e, τ 0%nat = Some e → w = e.1) →
  ∃ n s' y', seen_good (job_info j) s' y' ∧ Q y' ∧
    ∀ calls, (∀ i e, calls !! i = Some e → τ i = Some e) → called j calls →
      (length calls ≤ n)%nat ∧
      (returned j calls → succeeded j calls ∧ s' = @walk W (rejoin τ) (MkDisturbed w 0) calls).
Proof.
  intros [Hk Hi Ha] Hasks Hg HP Hsp Hw. set (I := rejoin τ).
  pose proof (rejoin_considerate τ (job_info j) Hk Hi Hsp) as Hcon.
  destruct (job_reaches (Interference0 := I) j P Q pages (MkDisturbed w 0) y Hcon Ha Hasks Hg HP) as [n Hn].
  destruct (Hn n (Nat.le_refl n)) as (s' & y' & Hr & Hg' & HQ).
  exists (calls_made s'), s', y'. split; [done|]. split; [done|]. intros calls Hτ Hcalled.
  assert (∀ fuel r c, run_job j fuel (MkSolo calls.*1 [] false) = Some (r, c) → past c = calls →
    (length calls ≤ calls_made s')%nat ∧ (cut c = false → r = Ok tt ∧ s' = walk (MkDisturbed w 0) calls)) as Hrun.
  { intros fuel r c Hc Hp. set (m := (n + fuel)%nat).
    pose proof (run_job_grows (V := solo W) j fuel m ltac:(lia) _ _ Hc) as Hc'.
    pose proof (run_job_grows (V := disturbed W) j n m ltac:(lia) _ _ Hr) as Hr'.
    destruct (scripted_tracks _ _ [] calls r c _ _ _ (run_job_script j m) Hc' Hp Hr') as [Hle Heq].
    - intros e He. apply Hw. by destruct calls; [|apply (Hτ 0%nat)].
    - by apply rejoin_tracks.
    - split; [exact Hle|]. intros Hcut. by destruct (Heq Hcut). }
  split.
  - destruct Hcalled as (fuel & r & c & Hc & Hp). by apply (Hrun fuel r c).
  - intros (fuel & r & c & Hc & Hp & Hcut). destruct (Hrun fuel r c Hc Hp) as [_ Heq].
    destruct (Heq Hcut) as [-> Hs]. split; [|done]. by exists fuel, c.
Qed.
End calls.

(** ** In a system *)

Section system.
Context {W : Type} `{!EqDecision W}.
Context `{!Client W} `{!ApiLaws W} `{!Kube W} `{!KubeLaws W}.
Context `{GoExt} `{SDK} `{UUIDPackage} `{LabelsPackage}.
Context (jobs : list job) (t : nat) (j : job) (Hj : jobs !! t = Some j).
Implicit Types (s : system W) (x y : api) (P Q : api → Prop) (h : list (event W)) (calls : list (W * W)).

(** Every event after [s0] that is not a call of the thread spares its service. *)
Definition spared s0 s : Prop :=
  ∃ h, history s = history s0 ++ h ∧
    ∀ o b a, (o, (b, a)) ∈ h → o ≠ Some t → spares (job_info j) b a.

(** From one call to the next, from [s0] to the first and from the last to [s]. *)
Record spared_calls s0 s : Prop := {
  spared_linked : linked (spares (job_info j)) (calls_of t (history s));
  spared_first e : head (calls_of t (history s)) = Some e → spares (job_info j) (world s0) e.1;
  spared_last : match last (calls_of t (history s)) with
    | Some e => spares (job_info j) e.2 (world s)
    | None => spares (job_info j) (world s0) (world s)
    end }.

Lemma spared_event s0 l w h o w' :
  (o ≠ Some t → spares (job_info j) w w') →
  spared_calls s0 (MkSystem l w h) → spared_calls s0 (MkSystem l w' (h ++ [(o, (w, w'))])).
Proof.
  intros Ho [Hlk Hf Hla]. simpl in *. split; simpl; rewrite calls_of_snoc; case_decide as Ht.
  - apply linked_snoc; [done|]. intros e He. simpl. by rewrite He in Hla.
  - done.
  - intros e He. destruct (calls_of t h) as [|e0 cs]; [injection He as <-; done|by apply Hf].
  - done.
  - rewrite last_snoc. apply spares_refl.
  - destruct (last _); by eapply spares_trans, Ho.
Qed.

Lemma spared_reach s0 s :
  calls_of t (history s0) = [] → rtc (system_step jobs) s0 s → spared s0 s → spared_calls s0 s.
Proof.
  intros Hnone Hr. revert s Hr.
  apply (rtc_ind_r (λ s, spared s0 s → spared_calls s0 s)).
  - intros _. split; rewrite Hnone; simpl; [done|done|apply spares_refl].
  - intros s s' Hr Hs IH (h' & Hh' & Hsp).
    destruct (rtc_history _ _ _ Hr) as [h Hh].
    assert (spared s0 s) as Hspared.
    { exists h. split; [done|]. intros o b a Hin. apply Hsp.
      destruct (step_history _ _ _ Hs) as [h1 Hh1]. rewrite Hh1, Hh, <- app_assoc in Hh'.
      apply app_inv_head in Hh' as <-. apply elem_of_app. by left. }
    specialize (IH Hspared).
    destruct Hs as [l w h0 t0 l' _ _|l w h0 t0 k w' _ _ _|l w h0 t0 k l' _ _ _ _|l w h0 w'];
      [by destruct IH| |by destruct IH|]; (apply spared_event; [|done]); intros Ho; eapply Hsp, Ho;
      simpl in *; rewrite Hh, <- app_assoc in Hh'; apply app_inv_head in Hh' as <-; set_solver.
Qed.
(** The service sees the same in the state its first call meets. *)
Lemma first_seen s0 w x :
  spares (job_info j) (world s0) w → good (world s0) x →
  seen_good (job_info j) (MkDisturbed w 0) (view (job_info j) x).
Proof.
  intros Hs Hg. destruct (Hs x Hg) as (x1 & Hg1 & Hu & _). exists x1. split; [done|].
  eapply sees_unconcerned; [apply sees_view|done].
Qed.

(** Take a thread that has not called yet, in a state in which its service is
    served and asks for something that can be reached.  If all other events
    spare the service, then, when the handler returns, it returns without an
    error and the account holds what was asked for. *)
Lemma handler_ends w0 s0 s x P Q pages :
  served pages (job_info j) → asks_for j P Q →
  system_reachable jobs w0 s0 → calls_of t (history s0) = [] → good (world s0) x → P x →
  rtc (system_step jobs) s0 s → spared s0 s → returned j (calls_of t (history s)) →
  succeeded j (calls_of t (history s)) ∧ ∃ x', good (world s) x' ∧ Q x'.
Proof.
  intros Hserved Hasks Hr0 Hnone Hg HP Hr Hsp Hret.
  destruct (spared_reach s0 s Hnone Hr Hsp) as [Hlk Hf Hla].
  assert (system_reachable jobs w0 s) as Hrs by (unfold system_reachable in *; by etrans).
  pose proof (reachable_called jobs w0 s t j Hrs Hj) as Hcalled.
  set (calls := calls_of t (history s)) in *.
  set (w := match head calls with Some e => e.1 | None => world s0 end).
  destruct (job_tracks j P Q pages (λ i, calls !! i) w (view (job_info j) x) Hserved Hasks)
    as (n & s' & y' & (x' & Hg' & Hs') & HQ & Hrun).
  - apply (first_seen s0); [|done]. unfold w. destruct (head calls) as [e|]; [by apply Hf|apply spares_refl].
  - eapply asked_view; [done|by eapply good_ok|done].
  - intros i e e'. apply Hlk.
  - intros e He. unfold w. by rewrite head_lookup, He.
  - destruct (Hrun calls (λ i e He, He) Hcalled) as [_ Hend]. destruct (Hend Hret) as [Hok ->].
    split; [done|].
    assert (spares (job_info j) (inner (@walk W (rejoin (λ i, calls !! i)) (MkDisturbed w 0) calls)) (world s))
      as Hsp'.
    { destruct (last calls) as [e|] eqn:Hlast; [by rewrite (rejoin_walk calls w e Hlast)|].
      apply last_None in Hlast. unfold w. by rewrite Hlast. }
    destruct (Hsp' x' Hg') as (x2 & Hg2 & Hu & _). exists x2. split; [done|].
    eapply asked_sees; [done|by eapply good_ok|by eapply sees_unconcerned|done].
Qed.

(** ** Endless executions *)

Section endless.
Context (σ : nat → system W) (Hσ : ∀ n, system_step jobs (σ n) (σ (S n))).

Lemma endless_rtc n m : (n ≤ m)%nat → rtc (system_step jobs) (σ n) (σ m).
Proof. induction 1; [done|]. by eapply rtc_r. Qed.

Lemma endless_prefix n m i e :
  (n ≤ m)%nat → calls_of t (history (σ n)) !! i = Some e → calls_of t (history (σ m)) !! i = Some e.
Proof.
  intros Hle. induction Hle as [|m _ IH]; [done|]. intros He%IH.
  destruct (step_history _ _ _ (Hσ m)) as [h ->]. unfold calls_of in *.
  rewrite filter_app, fmap_app. by apply lookup_app_l_Some.
Qed.

Context (forever : ∀ k, ∃ n, (k ≤ length (calls_of t (history (σ n))))%nat).

(** When the thread has made its first calls. *)
Definition calls_by (k : nat) : nat :=
  proj1_sig (constructive_indefinite_ground_description_nat
    (λ n, (k ≤ length (calls_of t (history (σ n))))%nat)
    (λ n, le_dec k (length (calls_of t (history (σ n))))) (forever k)).

Lemma calls_by_spec k : (k ≤ length (calls_of t (history (σ (calls_by k)))))%nat.
Proof. unfold calls_by. by destruct (constructive_indefinite_ground_description_nat _ _ _). Qed.

(** All its calls. *)
Definition all_calls (i : nat) : option (W * W) := calls_of t (history (σ (calls_by (S i)))) !! i.

Lemma all_calls_Some n i e : calls_of t (history (σ n)) !! i = Some e → all_calls i = Some e.
Proof.
  intros He. unfold all_calls. set (k := calls_by (S i)).
  destruct (lookup_lt_is_Some_2 (calls_of t (history (σ k))) i) as [e' He'];
    [pose proof (calls_by_spec (S i)); unfold k; lia|].
  rewrite He'. apply (endless_prefix n (n `max` k)%nat) in He; [|lia].
  apply (endless_prefix k (n `max` k)%nat) in He'; [|lia]. congruence.
Qed.

Lemma all_calls_at n i e : (calls_by (S i) ≤ n)%nat → all_calls i = Some e →
  calls_of t (history (σ n)) !! i = Some e.
Proof. intros Hle He. by eapply endless_prefix. Qed.
End endless.

(** Under the same conditions there is no endless execution in which the thread
    makes more and more calls. *)
Lemma handler_stops w0 (σ : nat → system W) x P Q pages :
  served pages (job_info j) → asks_for j P Q →
  system_reachable jobs w0 (σ 0%nat) → calls_of t (history (σ 0%nat)) = [] →
  good (world (σ 0%nat)) x → P x →
  (∀ n, system_step jobs (σ n) (σ (S n))) → (∀ n, spared (σ 0%nat) (σ n)) →
  ¬ ∀ k, ∃ n, (k ≤ length (calls_of t (history (σ n))))%nat.
Proof.
  intros Hserved Hasks Hr0 Hnone Hg HP Hσ Hsp Hinf.
  assert (∀ n, spared_calls (σ 0%nat) (σ n)) as Hcalls.
  { intros n. apply spared_reach; [done|by apply endless_rtc; [|lia]|done]. }
  set (τ := all_calls σ Hinf).
  assert (∀ i e, τ i = Some e → ∃ n, calls_of t (history (σ n)) !! i = Some e) as Hat.
  { intros i e He. eexists. by apply (all_calls_at σ Hσ Hinf _ i e (Nat.le_refl _)). }
  set (w := match τ 0%nat with Some e => e.1 | None => world (σ 0%nat) end).
  destruct (job_tracks j P Q pages τ w (view (job_info j) x) Hserved Hasks)
    as (n & s' & y' & _ & _ & Hrun).
  - apply (first_seen (σ 0%nat)); [|done]. unfold w. destruct (τ 0%nat) as [e|] eqn:He; [|apply spares_refl].
    destruct (Hat _ _ He) as [m Hm]. apply (spared_first _ _ (Hcalls m)). by rewrite head_lookup.
  - eapply asked_view; [done|by eapply good_ok|done].
  - intros i e e' He He'. destruct (Hat _ _ He) as [m1 Hm1], (Hat _ _ He') as [m2 Hm2].
    apply (endless_prefix σ Hσ m1 (m1 `max` m2)%nat) in Hm1; [|lia].
    apply (endless_prefix σ Hσ m2 (m1 `max` m2)%nat) in Hm2; [|lia].
    by apply (spared_linked _ _ (Hcalls (m1 `max` m2)%nat) i).
  - intros e He. unfold w. by rewrite He.
  - destruct (Hinf (S n)) as [m Hm]. destruct (Hrun (calls_of t (history (σ m)))) as [Hle _].
    + intros i e. by apply all_calls_Some.
    + eapply reachable_called; [|exact Hj]. unfold system_reachable in *.
      etrans; [exact Hr0|]. by apply endless_rtc; [|lia].
    + lia.
Qed.
End system.
