(* ===== verification/SystemSpared.v ===== *)
(** * SystemSpared

    The handlers of other services spare a service: their calls are confined
    ([SystemIsolation]), so that what the service sees of the account stays the
    same ([Sharing]).  With [SystemConverge], all handlers of a system converge
    together: each of them, when it returns, has brought about what its service
    asks for, and none of them goes on calling forever. *)

From stdpp Require Import base tactics list gmap strings relations.
From Stdlib Require Import ZArith.
From S2P Require Import Prelude.
From S2P Require Import GoStrings.
From S2P Require Import Cloudscale.
From S2P Require Import ServiceInfo.
From S2P Require Import Actions.
From S2P Require Import LbState.
From S2P Require Import ActualState.
From S2P Require Import ActualStateSpec.
From S2P Require Import ApiLaws.
From S2P Require Import Converge.
From S2P Require Import ProviderID.
From S2P Require Import KubeUtil.
From S2P Require Import LoadBalancerHandlers.
From S2P Require Import HandlersConverge.
From S2P Require Import Sharing.
From S2P Require Import Others.
From S2P Require Import Disturbed.
From S2P Require Import Locks.
From S2P Require Import Footprint.
From S2P Require Import Interleaving.
From S2P Require Import Causality.
From S2P Require Import Isolation.
From S2P Require Import SystemIsolation.
From S2P Require Import SystemConverge.

(** ** A confined change, seen by another service *)

Section confined.
Context (reg : registry) (info other : serviceInfo).
Context (apart : Service.UID (svc info) ≠ Service.UID (svc other)).
Context (x x' : api).
Hypothesis change : confined (mine reg other) (own_name other) (Footprint.own_ip other) x x'.
Hypothesis unique : NoDup (LoadBalancer.UUID <$> api_lbs x).
Hypothesis named : named_right reg info x.
Hypothesis named' : named_right reg info x'.

Lemma service_own_ip i ip : ip ∈ service_ips i ↔ Footprint.own_ip i ip.
Proof.
  unfold service_ips, Footprint.own_ip. destruct (annotationList i LoadBalancerFloatingIPs) as [cidrs|e|msg].
  - rewrite list_elem_of_fmap. split.
    + intros (cidr & -> & Hc). by exists cidrs, cidr.
    + intros (cidrs' & cidr & [= <-] & Hc & ->). by exists cidr.
  - split; [by intros ?%not_elem_of_nil|by intros (? & ? & ? & _)].
  - split; [by intros ?%not_elem_of_nil|by intros (? & ? & ? & _)].
Qed.

Lemma own_not_other u : u ∈ own_uuids info x → ¬ mine reg other u.
Proof.
  intros (l & -> & [Hb Hl]%list_elem_of_filter)%list_elem_of_fmap. unfold mine.
  rewrite (named l Hl Hb). done.
Qed.

Lemma own_untouched_there : untouched (own_uuids info x) x x'.
Proof. apply change, own_not_other. Qed.

(** The service's load balancers are those with its UUIDs, before and after. *)
Lemma own_lbs_before : own_lbs info x = filter (λ l, LoadBalancer.UUID l ∈ own_uuids info x) (api_lbs x).
Proof.
  apply filter_ext_elem. intros l Hl. split.
  - intros Hb. apply list_elem_of_fmap_2. by apply list_elem_of_filter.
  - intros (k & Hu & [Hb Hk]%list_elem_of_filter)%list_elem_of_fmap.
    by rewrite (NoDup_key_inj _ _ l k unique Hl Hk Hu).
Qed.

Lemma own_lbs_after : own_lbs info x' = filter (λ l, LoadBalancer.UUID l ∈ own_uuids info x) (api_lbs x').
Proof.
  apply filter_ext_elem. intros l' Hl'. split.
  - intros Hb. assert (untouched [LoadBalancer.UUID l'] x x') as Hun.
    { apply change. intros u ->%list_elem_of_singleton. unfold mine. by rewrite (named' l' Hl' Hb). }
    destruct (untouched_lb _ x x' l' Hun Hl') as (l & Hl & Hs); [by left|].
    rewrite (same_lb_uuid _ _ (proj1 Hs)). apply list_elem_of_fmap_2, list_elem_of_filter.
    split; [|done]. by apply (same_lb_belongs info l l').
  - intros Hu. destruct (untouched_lb _ x x' l' own_untouched_there Hl' Hu) as (l & Hl & Hs).
    apply (same_lb_belongs info l l' Hs). rewrite (same_lb_uuid _ _ (proj1 Hs)) in Hu.
    assert (l ∈ own_lbs info x) as [? _]%list_elem_of_filter by (rewrite own_lbs_before; by apply list_elem_of_filter).
    done.
Qed.

Lemma own_lbs_spared : Forall2 same_lb (own_lbs info x) (own_lbs info x').
Proof. rewrite own_lbs_before, own_lbs_after. apply own_untouched_there. Qed.

(** No address of one of the services is on a load balancer of the other, nor
    asked for by both. *)
Hypothesis addresses : ∀ ip, Footprint.own_ip info ip → ¬ Footprint.own_ip other ip.
Hypothesis here : ∀ f u, f ∈ api_ips x → FloatingIP.LoadBalancer f = Some u → mine reg info u →
  ¬ Footprint.own_ip other (ip_of_cidr (FloatingIP.Network f)).
Hypothesis there : ∀ f u, f ∈ api_ips x → FloatingIP.LoadBalancer f = Some u → mine reg other u →
  ¬ Footprint.own_ip info (ip_of_cidr (FloatingIP.Network f)).

Lemma mine_here u : u ∈ own_uuids info x → mine reg info u.
Proof. intros (l & -> & [Hb Hl]%list_elem_of_filter)%list_elem_of_fmap. by apply named. Qed.

Lemma address_spared f f' :
  f ∈ api_ips x → ip_confined (mine reg other) (Footprint.own_ip other) f f' →
  (Sharing.own_ip info (own_uuids info x) f ↔ Sharing.own_ip info (own_uuids info x) f') ∧
  (Sharing.own_ip info (own_uuids info x) f → f' = f).
Proof.
  intros Hf [Hnet Hcase].
  assert (∀ g, Sharing.own_ip info (own_uuids info x) g ↔
    Footprint.own_ip info (ip_of_cidr (FloatingIP.Network g)) ∨
    ∃ u, FloatingIP.LoadBalancer g = Some u ∧ u ∈ own_uuids info x) as Hown.
  { intros g. unfold Sharing.own_ip. rewrite service_own_ip, list_elem_of_fmap. naive_solver. }
  rewrite !Hown, Hnet. destruct Hcase as [Hsame|[(Hip & u & Hu & Hto)|(u & Hu & Hfrom & Hto)]].
  - rewrite Hsame. split; [done|]. intros _. destruct f, f'; simpl in *; congruence.
  - assert (¬ (Footprint.own_ip info (ip_of_cidr (FloatingIP.Network f)) ∨
      ∃ v, FloatingIP.LoadBalancer f = Some v ∧ v ∈ own_uuids info x)) as Hno.
    { intros [Hi|(v & Hv & Hin)]; [by apply (addresses _ Hi)|by apply (here f v Hf Hv (mine_here v Hin))]. }
    split; [|done]. split; [done|]. intros [Hi|(v & Hv & Hin)]; [by left|].
    assert (v = u) as -> by congruence. by destruct (own_not_other u Hin).
  - assert (¬ (Footprint.own_ip info (ip_of_cidr (FloatingIP.Network f)) ∨
      ∃ v, FloatingIP.LoadBalancer f = Some v ∧ v ∈ own_uuids info x)) as Hno.
    { intros [Hi|(v & Hv & Hin)]; [by apply (there f u Hf Hfrom Hu)|].
      assert (v = u) as -> by congruence. by destruct (own_not_other u Hin). }
    split; [|done]. split; [done|]. rewrite Hto. intros [Hi|(v & [=] & _)]. by left.
Qed.

Lemma own_ips_spared : own_ips info x' = own_ips info x.
Proof.
  assert (own_uuids info x' = own_uuids info x) as Hus by apply (shown_same_uuids _ _ own_lbs_spared).
  unfold own_ips. rewrite Hus.
  assert (∀ fs fs', Forall2 (ip_confined (mine reg other) (Footprint.own_ip other)) fs fs' →
    fs ⊆ api_ips x →
    filter (Sharing.own_ip info (own_uuids info x)) fs' = filter (Sharing.own_ip info (own_uuids info x)) fs) as Hfs.
  { induction 1 as [|f f' fs fs' Hff _ IH]; intros Hsub; [done|]. rewrite !filter_cons.
    destruct (address_spared f f') as [Hiff Heq]; [apply Hsub; by left|done|].
    rewrite IH by (intros g Hg; apply Hsub; by right).
    destruct (decide (Sharing.own_ip info (own_uuids info x) f)) as [Ho|Ho].
    - rewrite decide_True by (by apply Hiff). by rewrite Heq.
    - by rewrite decide_False by (by rewrite <- Hiff). }
  by apply Hfs; [apply change|].
Qed.

(** A change that is confined to another service does not concern this one. *)
Lemma confined_unconcerned : unconcerned info x x'.
Proof.
  pose proof own_untouched_there as [_ Hp Hq Hf]. split.
  - apply own_lbs_spared.
  - unfold own_pools, own_uuids. by rewrite (shown_same_uuids _ _ own_lbs_spared).
  - intros p [Hu Hin]%list_elem_of_filter. by apply Hq.
  - exact Hf.
  - apply own_ips_spared.
Qed.
End confined.

(** ** In a system *)

Lemma app_nil_r_inv {A} (l k : list A) : l ++ k = l → k = [].
Proof. intros Heq. apply (app_inv_head l). by rewrite app_nil_r. Qed.

Section system.
Context {W : Type} `{!EqDecision W}.
Context `{!Client W} `{!ApiLaws W} `{!ApiScopes W} `{!Kube W} `{!KubeLaws W} `{!KubeScopes W}.
Context `{GoExt} `{SDK} `{UUIDPackage} `{LabelsPackage}.
Context (reg : registry) (jobs : list job).
Implicit Types (i j k : job) (s : system W) (w b a : W) (h : list (event W)) (x : api).

(** No two services ask for the same address. *)
Definition addresses_apart : Prop := ∀ m n j k ip,
  jobs !! m = Some j → jobs !! n = Some k → job_uid j ≠ job_uid k →
  Footprint.own_ip (job_info j) ip → ¬ Footprint.own_ip (job_info k) ip.

(** An address on a load balancer of one service is not asked for by another. *)
Definition addresses_right w : Prop := ∀ m n j k f u,
  jobs !! m = Some j → jobs !! n = Some k → job_uid j ≠ job_uid k →
  f ∈ api_ips (resources w) → FloatingIP.LoadBalancer f = Some u → mine reg (job_info j) u →
  ¬ Footprint.own_ip (job_info k) (ip_of_cidr (FloatingIP.Network f)).

(** The account the laws are about is the one whose resources are listed; calls
    of handlers keep it in order, and load balancers of other services are not
    busy for longer; what happens outside spares every service. *)
Record orderly h : Prop := {
  orderly_whole o b a x : (o, (b, a)) ∈ h → good b x → x = resources b;
  orderly_kept t b a : (Some t, (b, a)) ∈ h → good b (resources b) → good a (resources a);
  orderly_busy t k b a u : (Some t, (b, a)) ∈ h → jobs !! t = Some k →
    ¬ mine reg (job_info k) u → (busy a u ≤ busy b u)%nat;
  orderly_outside b a m j : (None, (b, a)) ∈ h → jobs !! m = Some j → spares (job_info j) b a }.

Lemma orderly_prefix h h' : orderly (h ++ h') → orderly h.
Proof.
  intros [Hw Hk Hb Ho]. split; intros.
  - eapply Hw; [|done]. eapply elem_of_app; eauto.
  - eapply Hk; [|done]. eapply elem_of_app; eauto.
  - eapply Hb; [|done..]. eapply elem_of_app; eauto.
  - eapply Ho; [|done]. eapply elem_of_app; eauto.
Qed.

(** ** Addresses stay right *)

Lemma addresses_confined (P N I : string → Prop) w w' :
  confined P N I (resources w) (resources w') →
  (∀ m n j k u ip, jobs !! m = Some j → jobs !! n = Some k → job_uid j ≠ job_uid k →
     P u → mine reg (job_info j) u → I ip → ¬ Footprint.own_ip (job_info k) ip) →
  addresses_right w → addresses_right w'.
Proof.
  intros [_ _ Hi] HP Hw m n j k f' u Hj Hk Hne [x Hx]%list_elem_of_lookup Hu Hm.
  destruct (Forall2_lookup_r _ _ _ _ _ Hi Hx) as (f & Hf & Hnet & Hcase).
  apply list_elem_of_lookup_2 in Hf. rewrite Hnet.
  destruct Hcase as [Hsame|[(Hip & v & Hv & Hto)|(v & Hv & Hfrom & Hto)]].
  - apply (Hw m n j k f u); [done..|congruence|done].
  - rewrite Hto in Hu. injection Hu as ->. by apply (HP m n j k u).
  - congruence.
Qed.

Lemma call_addresses t j w w' :
  addresses_apart → jobs !! t = Some j → own_call reg j w w' → addresses_right w → addresses_right w'.
Proof.
  intros Hap Hj Hc. apply (addresses_confined _ _ _ w w' Hc).
  intros m n k1 k2 u ip Hk1 Hk2 Hne Hu Hm Hip. eapply (Hap t n j k2); [done..| |done].
  unfold mine in *. unfold job_uid in *. simpl in *. congruence.
Qed.

Lemma outside_addresses h w w' :
  recorded reg jobs h → (None, (w, w')) ∈ h → addresses_right w → addresses_right w'.
Proof.
  intros Hrec Hin. apply (addresses_confined _ _ _ w w' (recorded_outside _ _ _ Hrec _ _ Hin)).
  intros m n j k u ip Hj _ _ Hu Hm _. by destruct (Hu m j Hj).
Qed.

Lemma reachable_addresses w s :
  services_apart reg jobs → addresses_apart → all_named reg jobs w → addresses_right w →
  system_reachable jobs w s → recorded reg jobs (history s) → addresses_right (world s).
Proof.
  intros Hap Hips Hnm Hw. revert s.
  apply (rtc_ind_r (λ s, recorded reg jobs (history s) → addresses_right (world s))); [done|].
  intros s s' Hr Hs IH Hrec.
  destruct (step_history _ _ _ Hs) as [h Hh]. pose proof Hrec as Hrec0.
  rewrite Hh in Hrec0. apply recorded_prefix in Hrec0. specialize (IH Hrec0).
  pose proof (reachable_system_ok reg jobs w s Hap Hnm Hr Hrec0) as Hok.
  destruct Hs as [l v g t l' _ _|l v g t k v' Hk _ Hn|l v g t k l' _ _ _ _|l v g v']; simpl in *;
    [done| |done|].
  - eapply call_addresses; [done|exact Hk| |exact IH]. by eapply (call_own reg jobs l v g t k v').
  - eapply outside_addresses; [exact Hrec| |exact IH]. set_solver.
Qed.

(** ** Other services spare a service *)

Lemma others_spare w s s' t j o b a :
  services_apart reg jobs → addresses_apart → all_named reg jobs w → addresses_right w →
  system_reachable jobs w s → system_step jobs s s' →
  recorded reg jobs (history s') → orderly (history s') →
  jobs !! t = Some j → history s' = history s ++ [(o, (b, a))] →
  (∀ t' k, o = Some t' → running (lk s) t' → jobs !! t' = Some k → job_uid j ≠ job_uid k) →
  spares (job_info j) b a.
Proof.
  intros Hap Hips Hnm Hw Hr Hs Hrec Hord Hj Hh Ho.
  assert ((o, (b, a)) ∈ history s') as Hin by (rewrite Hh; set_solver).
  assert (recorded reg jobs (history s)) as Hrec0 by (rewrite Hh in Hrec; by eapply recorded_prefix).
  pose proof (reachable_system_ok reg jobs w s Hap Hnm Hr Hrec0) as Hok.
  assert (system_ok reg jobs s') as Hok' by (by eapply system_step_ok).
  pose proof (reachable_addresses w s Hap Hips Hnm Hw Hr Hrec0) as Hadd.
  destruct o as [t'|]; [|by eapply (orderly_outside _ Hord)].
  assert (∃ k, jobs !! t' = Some k ∧ running (lk s) t' ∧ b = world s ∧ a = world s') as (k & Hk & Hrun' & -> & ->).
  { destruct Hs as [l v g t0 l' _ _|l v g t0 k v' Hk Hrun0 _|l v g t0 k l' _ _ _ _|l v g v']; simpl in *.
    - symmetry in Hh. by apply app_nil_r_inv in Hh.
    - apply app_inv_head in Hh. injection Hh as <- <- <-. by exists k.
    - symmetry in Hh. by apply app_nil_r_inv in Hh.
    - by apply app_inv_head in Hh. }
  pose proof (Ho t' k eq_refl Hrun' Hk) as Hne.
  pose proof (ok_calls _ _ _ Hok' t' k _ _ Hk Hin) as Hcall.
  intros x Hg. pose proof (orderly_whole _ Hord _ _ _ _ Hin Hg) as ->.
  pose proof (orderly_kept _ Hord _ _ _ Hin Hg) as Hg'.
  pose proof (lb_uuids _ (good_ok _ _ Hg)) as Hnd.
  exists (resources (world s')). split; [done|]. split.
  - apply (confined_unconcerned reg (job_info j) (job_info k) Hne _ _ Hcall Hnd).
    + by eapply (ok_named _ _ _ Hok).
    + by eapply (ok_named _ _ _ Hok').
    + intros ip. by apply (Hips t t').
    + intros f u Hf Hu Hm. by eapply (Hadd t t').
    + intros f u Hf Hu Hm. by eapply (Hadd t' t).
  - intros u Hu. eapply (orderly_busy _ Hord); [done..|].
    apply (own_not_other reg (job_info j) (job_info k) Hne (resources (world s))); [|exact Hu].
    by eapply (ok_named _ _ _ Hok).
Qed.

(** While a handler runs, those that run are of other services. *)
Lemma running_others w s t j o :
  system_reachable jobs w s → running (lk s) t → jobs !! t = Some j → o ≠ Some t →
  ∀ t' k, o = Some t' → running (lk s) t' → jobs !! t' = Some k → job_uid j ≠ job_uid k.
Proof.
  intros Hr Hrun Hj Ho t' k -> Hrun' Hk. eapply (running_apart jobs w s t t'); [done..| |done|done]. congruence.
Qed.

(** ** From its first call to its return *)

Lemma step_phase s s' t th :
  system_step jobs s s' → threads (lk s) !! t = Some th →
  ∃ th', threads (lk s') !! t = Some th' ∧ (thread_phase th ≤ thread_phase th')%nat.
Proof.
  intros Hs Ht.
  assert (∀ l', advance (lk s) t = Some l' ∨ (∃ t', t' ≠ t ∧ advance (lk s) t' = Some l') →
    ∃ th', threads l' !! t = Some th' ∧ (thread_phase th ≤ thread_phase th')%nat) as Hadv.
  { intros l' [(th0 & th' & Ht0 & Hl & _ & Hp)%advance_threads|(t' & Hne & (th0 & th' & Ht0 & Hl & _)%advance_threads)];
      rewrite Hl.
    - exists th'. rewrite list_lookup_insert_eq by (by apply lookup_lt_is_Some; eexists).
      split; [done|]. assert (th0 = th) as -> by congruence. lia.
    - exists th. by rewrite list_lookup_insert_ne. }
  destruct Hs as [l v h t' l' _ Ha|l v h t' k v' _ _ _|l v h t' k l' _ _ _ Ha|l v h v']; simpl in *;
    [|by exists th| |by exists th]; apply Hadv; (destruct (decide (t' = t)) as [->|]; [by left|right; by exists t']).
Qed.

Lemma rtc_phase s s' t th :
  rtc (system_step jobs) s s' → threads (lk s) !! t = Some th →
  ∃ th', threads (lk s') !! t = Some th' ∧ (thread_phase th ≤ thread_phase th')%nat.
Proof.
  intros Hr. revert th. induction Hr as [s|s1 s2 s3 Hs _ IH]; intros th Ht; [by exists th|].
  destruct (step_phase s1 s2 t th Hs Ht) as (th2 & Ht2 & Hle2).
  destruct (IH th2 Ht2) as (th3 & Ht3 & Hle3). exists th3. split; [done|lia].
Qed.

Lemma running_between s0 s s' t :
  rtc (system_step jobs) s0 s → rtc (system_step jobs) s s' →
  running (lk s0) t → running (lk s') t → running (lk s) t.
Proof.
  intros Hr0 Hr1 (th0 & Ht0 & Hp0)%running_phase (th2 & Ht2 & Hp2)%running_phase.
  destruct (rtc_phase _ _ _ _ Hr0 Ht0) as (th1 & Ht1 & Hle1).
  destruct (rtc_phase _ _ _ _ Hr1 Ht1) as (th2' & Ht2' & Hle2).
  apply running_phase. exists th1. split; [done|]. assert (th2' = th2) as -> by congruence. lia.
Qed.

(** A thread is spared from one state to another if no other thread of its
    service calls in between. *)
Lemma spared_between w s0 s t j :
  services_apart reg jobs → addresses_apart → all_named reg jobs w → addresses_right w →
  system_reachable jobs w s0 → jobs !! t = Some j →
  (∀ s1 t' k, rtc (system_step jobs) s0 s1 → rtc (system_step jobs) s1 s → t' ≠ t →
     running (lk s1) t' → jobs !! t' = Some k → job_uid j ≠ job_uid k) →
  rtc (system_step jobs) s0 s → recorded reg jobs (history s) → orderly (history s) →
  spared t j s0 s.
Proof.
  intros Hap Hips Hnm Hw Hr0 Hj Hone Hr. revert s Hr Hone.
  apply (rtc_ind_r (λ s, (∀ s1 t' k, rtc (system_step jobs) s0 s1 → rtc (system_step jobs) s1 s → t' ≠ t →
     running (lk s1) t' → jobs !! t' = Some k → job_uid j ≠ job_uid k) →
    recorded reg jobs (history s) → orderly (history s) → spared t j s0 s)).
  { intros _ _ _. exists []. rewrite app_nil_r. split; [done|]. by intros o b a ?%not_elem_of_nil. }
  intros s s' Hr Hs IH Hone Hrec Hord.
  destruct (step_history _ _ _ Hs) as [h1 Hh1].
  destruct IH as (h & Hh & Hsp); [intros s1 t' k Hr1 Hr2; eapply Hone; [done|by eapply rtc_r]|rewrite Hh1 in Hrec; by eapply recorded_prefix
    |rewrite Hh1 in Hord; by eapply orderly_prefix|].
  exists (h ++ h1). split; [by rewrite Hh1, Hh, app_assoc|].
  intros o b a [Hin|Hin]%elem_of_app Ho; [by eapply Hsp|].
  assert (history s' = history s ++ [(o, (b, a))]) as Hev.
  { clear -Hs Hh1 Hin. destruct Hs; simpl in *; (apply app_inv_head in Hh1 as <- || apply app_nil_r_inv in Hh1 as ->
      || (symmetry in Hh1; apply app_nil_r_inv in Hh1 as ->)); try (by apply not_elem_of_nil in Hin);
      by apply list_elem_of_singleton in Hin as ->. }
  eapply (others_spare w s s' t j o b a); try done.
  - unfold system_reachable in *. by etrans.
  - intros t' k -> Hrun' Hk. apply (Hone s t' k); [done|by apply rtc_once|congruence|done..].
Qed.

(** While a handler runs, it is spared. *)
Lemma spared_running w s0 s t j :
  services_apart reg jobs → addresses_apart → all_named reg jobs w → addresses_right w →
  system_reachable jobs w s0 → jobs !! t = Some j → running (lk s0) t →
  rtc (system_step jobs) s0 s → running (lk s) t → recorded reg jobs (history s) → orderly (history s) →
  spared t j s0 s.
Proof.
  intros Hap Hips Hnm Hw Hr0 Hj Hrun0 Hr Hrun Hrec Hord. apply (spared_between w); try done.
  intros s1 t' k Hr1 Hr2 Hne Hrun' Hk.
  eapply (running_others w s1 t j (Some t')); [|by eapply running_between|done|congruence|done..].
  unfold system_reachable in *. by etrans.
Qed.

(** A handler of a system that returns has succeeded: it returns without an
    error, and the account then holds what its service asks for. *)
Lemma system_succeeds w s0 s s' t j x P Q pages :
  services_apart reg jobs → addresses_apart → all_named reg jobs w → addresses_right w →
  jobs !! t = Some j → served pages (job_info j) → asks_for j P Q →
  system_reachable jobs w s0 → running (lk s0) t → calls_of t (history s0) = [] →
  good (world s0) x → P x →
  rtc (system_step jobs) s0 s → recorded reg jobs (history s) → orderly (history s) →
  running (lk s) t → system_step jobs s s' → ¬ running (lk s') t →
  succeeded j (calls_of t (history s')) ∧ ∃ x', good (world s') x' ∧ Q x'.
Proof.
  intros Hap Hips Hnm Hw Hj Hserved Hasks Hr0 Hrun0 Hnone Hg HP Hr Hrec Hord Hrun Hs Hnrun.
  pose proof (spared_running w s0 s t j Hap Hips Hnm Hw Hr0 Hj Hrun0 Hr Hrun Hrec Hord) as Hsp.
  assert (returned j (calls_of t (history s)) ∧ world s' = world s ∧ history s' = history s) as (Hret & -> & ->).
  { destruct Hs as [l v h t' l' Hnr Ha|l v h t' k v' _ _ _|l v h t' k l' Hk _ Hret Ha|l v h v']; simpl in *;
      [|done| |done].
    - destruct Hnrun. apply advance_threads in Ha as (th & th' & Ht & Hl & _ & _).
      destruct Hrun as (uid & mu & Hrun). exists uid, mu. rewrite Hl.
      rewrite list_lookup_insert_ne; [done|]. intros ->. destruct Hnr. by exists uid, mu.
    - destruct (decide (t' = t)) as [->|Hne]; [by rewrite Hj in Hk; injection Hk as ->|].
      destruct Hnrun. apply advance_threads in Ha as (th & th' & Ht & Hl & _ & _).
      destruct Hrun as (uid & mu & Hrun). exists uid, mu. by rewrite Hl, list_lookup_insert_ne. }
  by eapply handler_ends.
Qed.

(** And it does not go on calling forever: under the same conditions there is
    no endless execution in which the handler runs and makes more and more
    calls. *)
Lemma system_stops w (σ : nat → system W) t j x P Q pages :
  services_apart reg jobs → addresses_apart → all_named reg jobs w → addresses_right w →
  jobs !! t = Some j → served pages (job_info j) → asks_for j P Q →
  system_reachable jobs w (σ 0%nat) → calls_of t (history (σ 0%nat)) = [] →
  good (world (σ 0%nat)) x → P x →
  (∀ n, system_step jobs (σ n) (σ (S n))) → (∀ n, running (lk (σ n)) t) →
  (∀ n, recorded reg jobs (history (σ n))) → (∀ n, orderly (history (σ n))) →
  ¬ ∀ m : nat, ∃ n : nat, (m ≤ length (calls_of t (history (σ n))))%nat.
Proof.
  intros Hap Hips Hnm Hw Hj Hserved Hasks Hr0 Hnone Hg HP Hσ Hrun Hrec Hord.
  eapply handler_stops; try done. intros n.
  apply (spared_running w); try done. apply endless_rtc; [done|lia].
Qed.
End system.
