(* ===== verification/SystemSettles.v ===== *)
(** * SystemSettles

    A handler of a system comes to its return, if it is not left waiting
    forever, and has then brought about what its service asks for
    ([system_converges]).  A whole system of handlers, one for each of several
    services, comes to an end together, after finitely many steps
    ([system_ends]), and then the account holds what every service asks for
    ([system_settles]). *)

From stdpp Require Import base tactics list gmap strings relations.
From Stdlib Require Import ZArith Classical_Prop Classical_Pred_Type.
From S2P Require Import Prelude.
From S2P Require Import GoStrings.
From S2P Require Import Cloudscale.
From S2P Require Import ServiceInfo.
From S2P Require Import Actions.
From S2P Require Import LbState.
From S2P Require Import ActualState.
From S2P Require Import ActualStateSpec.
From S2P Require Import ApiLaws.
From S2P Require Import Converge.
From S2P Require Import ProviderID.
From S2P Require Import KubeUtil.
From S2P Require Import LoadBalancerHandlers.
From S2P Require Import HandlersConverge.
From S2P Require Import Sharing.
From S2P Require Import Others.
From S2P Require Import Disturbed.
From S2P Require Import Locks.
From S2P Require Import Footprint.
From S2P Require Import Interleaving.
From S2P Require Import Causality.
From S2P Require Import Isolation.
From S2P Require Import SystemIsolation.
From S2P Require Import SystemConverge.
From S2P Require Import SystemSpared.

Section system.
Context {W : Type} `{!EqDecision W}.
Context `{!Client W} `{!ApiLaws W} `{!ApiScopes W} `{!Kube W} `{!KubeLaws W} `{!KubeScopes W}.
Context `{GoExt} `{SDK} `{UUIDPackage} `{LabelsPackage}.
Context (reg : registry) (jobs : list job).
Implicit Types (j k : job) (s : system W) (x y : api).

(** One handler for each service, and each is asked for something that can be
    reached from the account. *)
Record jobs_asked (pages : nat) (P Q : nat → api → Prop) (x : api) : Prop := {
  asked_once m n j k : jobs !! m = Some j → jobs !! n = Some k → m ≠ n → job_uid j ≠ job_uid k;
  asked_served t j : jobs !! t = Some j → served pages (job_info j);
  asked_goal t j : jobs !! t = Some j → asks_for j (P t) (Q t);
  asked_reachable t j : jobs !! t = Some j → P t x }.

(** The start of a system: services that have names and addresses of their own
    in an account that is in order. *)
Record well_started (w : W) (x : api) : Prop := {
  started_apart : services_apart reg jobs;
  started_addresses : addresses_apart jobs;
  started_named : all_named reg jobs w;
  started_right : addresses_right reg jobs w;
  started_good : good w x }.

(** ** A handler comes to its return *)

(** In a fair execution, a handler that runs moves again. *)
Definition fair (σ : nat → system W) (t : nat) : Prop :=
  ∀ n, running (lk (σ n)) t → ∃ m, (n ≤ m)%nat ∧ moves jobs (σ m) t (σ (S m)).

Lemma calls_grow s s' t :
  rtc (system_step jobs) s s' →
  (length (calls_of t (history s)) ≤ length (calls_of t (history s')))%nat.
Proof.
  induction 1 as [|s1 s2 s3 Hs _ IH]; [done|]. etrans; [|exact IH].
  destruct (step_history _ _ _ Hs) as [h ->]. unfold calls_of.
  rewrite filter_app, fmap_app, length_app. apply Nat.le_add_r.
Qed.

(** The move of a handler that goes on running is a call. *)
Lemma running_move_calls s s' t :
  moves jobs s t s' → running (lk s) t → running (lk s') t →
  length (calls_of t (history s')) = S (length (calls_of t (history s))).
Proof.
  intros [Hs [[w' ->]|Hne]] (uid & mu & Hr) Hr'.
  - rewrite calls_of_snoc, decide_True, length_app by done. simpl. lia.
  - assert (∀ l t' l', advance l t' = Some l' → threads l !! t = Some (Running uid mu) →
      running l' t → threads l' !! t = Some (Running uid mu)) as Hadv.
    { intros l t' l' (th & th' & Ht & Hl & _ & Hp)%advance_threads Hr0 Hr1. rewrite Hl.
      destruct (decide (t' = t)) as [->|]; [|by rewrite list_lookup_insert_ne].
      destruct (proj1 (running_phase _ _) Hr1) as (th1 & Ht1 & Hp1).
      rewrite Hl, list_lookup_insert_eq in Ht1 by (by apply lookup_lt_is_Some; eexists).
      injection Ht1 as <-. rewrite Hr0 in Ht. injection Ht as <-. simpl in *. lia. }
    destruct Hne. rewrite Hr. destruct Hs; simpl in *; [by eapply Hadv|done|by eapply Hadv|done].
Qed.

Lemma running_calls_more (σ : nat → system W) t :
  (∀ n, system_step jobs (σ n) (σ (S n))) → fair σ t → (∀ n, running (lk (σ n)) t) →
  ∀ m, ∃ n, (m ≤ length (calls_of t (history (σ n))))%nat.
Proof.
  intros Hσ Hfair Hrun. induction m as [|m [n Hn]]; [exists 0%nat; lia|].
  destruct (Hfair n (Hrun n)) as (n' & Hle & Hm). exists (S n').
  rewrite (running_move_calls _ _ t Hm) by done. apply le_n_S. etrans; [exact Hn|].
  apply calls_grow, endless_rtc; done.
Qed.

(** Between a state in which a thread runs and one in which it does not, it
    stops running. *)
Lemma last_running (σ : nat → system W) t n :
  running (lk (σ 0%nat)) t → ¬ running (lk (σ n)) t →
  ∃ m, running (lk (σ m)) t ∧ ¬ running (lk (σ (S m))) t.
Proof.
  intros Hrun0. induction n as [|n IH]; intros Hn; [done|].
  destruct (classic (running (lk (σ n)) t)) as [|Hno]; [by exists n|by apply IH].
Qed.

(** A thread that stops running has returned. *)
Lemma stopped_returned w s s' t j :
  system_reachable jobs w s → jobs !! t = Some j → system_step jobs s s' →
  running (lk s) t → ¬ running (lk s') t → threads (lk s') !! t = Some (Returned (job_uid j)).
Proof.
  intros Hr Hj Hs (th & Ht & Hp)%running_phase Hno.
  destruct (step_phase jobs s s' t th Hs Ht) as (th' & Ht' & Hle).
  assert (system_reachable jobs w s') as Hr' by (by eapply rtc_r).
  destruct (thread_job jobs s' (reachable_threads jobs w s' Hr') _ _ Ht') as (k & Hk & Hu).
  assert (k = j) as -> by congruence.
  destruct th'; simpl in *; [lia|lia| |congruence]. destruct Hno. by eexists _, _.
Qed.


Section started.
Context (w : W) (x : api) (pages : nat) (P Q : nat → api → Prop).
Hypothesis start : well_started w x.
Hypothesis asked : jobs_asked pages P Q x.

(** From the start on, every service is spared by the handlers of the others. *)
Lemma started_spared s t j :
  system_reachable jobs w s → recorded reg jobs (history s) → orderly reg jobs (history s) →
  jobs !! t = Some j → spared t j (system_start jobs w) s.
Proof.
  intros Hr Hrec Hord Hj. destruct start.
  apply (spared_between reg jobs w); try done; [apply rtc_refl|].
  intros s1 t' k _ _ Hne _ Hk. by apply (asked_once _ _ _ _ asked t t').
Qed.

(** A thread that cannot go on has returned, unless it waits for its lock. *)
Lemma stuck_returned s t j :
  system_reachable jobs w s → jobs !! t = Some j → (∀ t', ¬ can_move jobs s t') →
  threads (lk s) !! t = Some (Returned (job_uid j)).
Proof.
  intros Hr Hj Hstuck.
  destruct (rtc_phase jobs (system_start jobs w) s t (Fresh (job_uid j)) Hr) as (th & Ht & _).
  { simpl. by rewrite !list_lookup_fmap, Hj. }
  destruct (thread_job jobs s (reachable_threads jobs w s Hr) _ _ Ht) as (k & Hk & Hu).
  assert (k = j) as -> by congruence.
  pose proof (never_stuck jobs w s t th Hr Ht) as Hp.
  destruct th as [uid|uid mu|uid mu|uid]; simpl in *; subst; [|destruct Hp as [|(t' & _ & ?)]| |done]; by edestruct Hstuck.
Qed.

(** C4. A system settles.  Take one handler for each of several services that
    have names and addresses of their own, and an account from which what each
    of them is asked for can be reached.  However the calls of the handlers
    interleave: when none of them can go on, all have returned without an
    error, and the account holds what every service asks for. *)
Theorem system_settles s :
  system_reachable jobs w s → recorded reg jobs (history s) → orderly reg jobs (history s) →
  (∀ y, good (world s) y → y = resources (world s)) → (∀ t, ¬ can_move jobs s t) →
  ∀ t j, jobs !! t = Some j →
    threads (lk s) !! t = Some (Returned (job_uid j)) ∧ succeeded j (calls_of t (history s)) ∧
    good (world s) (resources (world s)) ∧ Q t (resources (world s)).
Proof.
  intros Hr Hrec Hord Hwhole Hstuck t j Hj.
  pose proof (stuck_returned s t j Hr Hj Hstuck) as Ht. split; [done|].
  destruct (handler_ends jobs t j Hj w (system_start jobs w) s x (P t) (Q t) pages) as (Hok & x' & Hg' & HQ).
  - by apply (asked_served _ _ _ _ asked t).
  - by apply (asked_goal _ _ _ _ asked).
  - apply rtc_refl.
  - done.
  - apply start.
  - by apply (asked_reachable _ _ _ _ asked t j).
  - done.
  - by apply started_spared.
  - by eapply reachable_returned.
  - by rewrite <- (Hwhole x' Hg').
Qed.

(** ** How far a thread is *)

Definition progress (t : nat) s : nat :=
  from_option thread_phase 0%nat (threads (lk s) !! t) + length (calls_of t (history s)).

Definition total s : nat := sum_list_with (λ t, progress t s) (seq 0 (length jobs)).

Lemma progress_step t s s' : system_step jobs s s' → (progress t s ≤ progress t s')%nat.
Proof.
  intros Hs. unfold progress. apply Nat.add_le_mono.
  - destruct (threads (lk s) !! t) as [th|] eqn:Ht; simpl; [|lia].
    destruct (step_phase jobs s s' t th Hs Ht) as (th' & -> & Hle). exact Hle.
  - by apply calls_grow, rtc_once.
Qed.

Lemma progress_moves t s s' : moves jobs s t s' → (progress t s < progress t s')%nat.
Proof.
  intros [Hs [[w' Hh]|Hne]].
  - destruct Hs as [l v h t' l' _ _|l v h t' k v' _ _ _|l v h t' k l' _ _ _ _|l v h v']; simpl in *;
      try (symmetry in Hh; by apply app_nil_r_inv in Hh); unfold progress; simpl.
    + apply app_inv_head in Hh. injection Hh as -> _. rewrite calls_of_snoc, decide_True by done.
      rewrite length_app. simpl. lia.
    + by apply app_inv_head in Hh.
  - assert (∀ l l' t' v h, advance l t' = Some l' → threads l' !! t ≠ threads l !! t →
      (progress t (MkSystem l v h) < progress t (MkSystem l' v h))%nat) as Hadv.
    { intros l l' t' v h (th & th' & Ht & Hl & _ & Hp)%advance_threads Hch. unfold progress. simpl.
      rewrite Hl in *. destruct (decide (t' = t)) as [->|]; [|by rewrite list_lookup_insert_ne in Hch].
      rewrite list_lookup_insert_eq, Ht by (by apply lookup_lt_is_Some; eexists). simpl. lia. }
    destruct Hs; simpl in *; [by eapply Hadv|done|by eapply Hadv|done].
Qed.

Lemma moves_job t s s' : system_reachable jobs w s → moves jobs s t s' → (t < length jobs)%nat.
Proof.
  intros Hr [Hs Hm].
  assert (is_Some (threads (lk s) !! t)) as [th Ht].
  { destruct Hm as [[w' Hh]|Hne].
    - destruct Hs as [l v h t' l' _ _|l v h t' k v' _ Hrun _|l v h t' k l' _ _ _ _|l v h v']; simpl in *;
        try (symmetry in Hh; by apply app_nil_r_inv in Hh); apply app_inv_head in Hh; [|done].
      injection Hh as -> _. destruct Hrun as (? & ? & ->). by eexists.
    - destruct (threads (lk s) !! t) as [th|] eqn:Ht; [by eexists|]. destruct Hne.
      assert (∀ t' l', advance (lk s) t' = Some l' → threads l' !! t = None) as Hadv.
      { intros t' l' (th & th' & Ht' & Hl & _)%advance_threads. rewrite Hl.
        rewrite list_lookup_insert_ne; [done|congruence]. }
      destruct Hs; simpl in *; [by eapply Hadv|done|by eapply Hadv|done]. }
  destruct (thread_job jobs s (reachable_threads jobs w s Hr) _ _ Ht) as (k & Hk & _).
  by eapply lookup_lt_Some.
Qed.

Lemma total_moves t s s' : system_reachable jobs w s → moves jobs s t s' → (total s < total s')%nat.
Proof.
  intros Hr Hm. pose proof (moves_job t s s' Hr Hm) as Hlt.
  assert (∀ ts, t ∈ ts → sum_list_with (λ t, progress t s) ts < sum_list_with (λ t, progress t s') ts)%nat as Hsum.
  { assert (∀ ts, sum_list_with (λ t, progress t s) ts ≤ sum_list_with (λ t, progress t s') ts)%nat as Hle.
    { induction ts as [|t' ts IH]; simpl; [lia|]. pose proof (progress_step t' _ _ (proj1 Hm)). lia. }
    induction ts as [|t' ts IH]; intros Hin; [by apply not_elem_of_nil in Hin|]. simpl.
    pose proof (progress_step t' _ _ (proj1 Hm)). specialize (Hle ts).
    apply elem_of_cons in Hin as [<-|Hin]; [pose proof (progress_moves t s s' Hm)|specialize (IH Hin)]; lia. }
  apply Hsum, elem_of_seq. lia.
Qed.

(** ** The end *)

(** Sequences that are bounded have a bounded sum. *)
Lemma bounded_sum (f : nat → nat → nat) (ts : list nat) :
  (∀ t, t ∈ ts → ∃ b, ∀ n, (f t n ≤ b)%nat) → ∃ b, ∀ n, (sum_list_with (λ t, f t n) ts ≤ b)%nat.
Proof.
  induction ts as [|t ts IH]; intros Hb; [by exists 0%nat|].
  destruct (Hb t ltac:(by left)) as [b1 Hb1]. destruct IH as [b2 Hb2]; [intros t' Ht'; apply Hb; by right|].
  exists (b1 + b2)%nat. intros n. simpl. specialize (Hb1 n). specialize (Hb2 n). lia.
Qed.

Lemma thread_phase_bound th : (thread_phase th ≤ 3)%nat.
Proof. destruct th; simpl; lia. Qed.

(** C5. A system comes to an end: however the steps of the handlers interleave,
    they cannot go on forever. *)
Theorem system_ends (σ : nat → system W) :
  σ 0%nat = system_start jobs w →
  (∀ n, recorded reg jobs (history (σ n))) → (∀ n, orderly reg jobs (history (σ n))) →
  ¬ ∀ n, ∃ t, moves jobs (σ n) t (σ (S n)).
Proof.
  intros Hstart Hrec Hord Hmoves.
  assert (∀ n, system_step jobs (σ n) (σ (S n))) as Hσ by (intros n; by destruct (Hmoves n) as (t & Hs & _)).
  assert (∀ n, system_reachable jobs w (σ n)) as Hreach.
  { intros n. unfold system_reachable. rewrite <- Hstart. apply endless_rtc; [done|lia]. }
  assert (∀ n, (n ≤ total (σ n))%nat) as Htotal.
  { induction n as [|n IH]; [lia|]. destruct (Hmoves n) as [t Hm]. pose proof (total_moves t _ _ (Hreach n) Hm). lia. }
  destruct (bounded_sum (λ t n, progress t (σ n)) (seq 0 (length jobs))) as [b Hb].
  - intros t [_ Ht]%elem_of_seq. destruct (lookup_lt_is_Some_2 jobs t ltac:(lia)) as [j Hj].
    apply NNPP. intros Hunb. apply (handler_stops jobs t j Hj w σ x (P t) (Q t) pages).
    + by apply (asked_served _ _ _ _ asked t).
    + by apply (asked_goal _ _ _ _ asked).
    + apply Hreach.
    + by rewrite Hstart.
    + rewrite Hstart. apply start.
    + by apply (asked_reachable _ _ _ _ asked t j).
    + done.
    + intros n. rewrite Hstart. by apply started_spared.
    + intros m. apply NNPP. intros Hno. apply Hunb. exists (3 + m)%nat. intros n. unfold progress.
      assert (from_option thread_phase 0%nat (threads (lk (σ n)) !! t) ≤ 3)%nat.
      { destruct (threads (lk (σ n)) !! t); simpl; [apply thread_phase_bound|lia]. }
      assert (¬ (m ≤ length (calls_of t (history (σ n))))%nat) by (intros Hle; apply Hno; by exists n). lia.
  - specialize (Htotal (S b)). specialize (Hb (S b)). unfold total in Htotal. lia.
Qed.
End started.
End system.
