(* ===== verification/FakeScopes.v ===== *)
(** * FakeScopes

    The simulated cluster of [FakeCluster] has [ApiScopes] and [KubeScopes],
    and two handlers for two services, run on it with their calls taking turns,
    are an execution to which the theorems of [SystemIsolation] and
    [Causality] apply. *)

From stdpp Require Import base tactics list gmap strings pretty relations.
From Stdlib Require Import ZArith.
From S2P Require Import Prelude.
From S2P Require Import GoStrings.
From S2P Require Import Json.
From S2P Require Import Cloudscale.
From S2P Require Import ServiceInfo.
From S2P Require Import Actions.
From S2P Require Import ActualState.
From S2P Require Import ActualStateSpec.
From S2P Require Import Examples.
From S2P Require Import ApiLaws.
From S2P Require Import FakeApi.
From S2P Require Import Reconcile.
From S2P Require Import ProviderID.
From S2P Require Import KubeUtil.
From S2P Require Import LoadBalancerHandlers.
From S2P Require Import FakeCluster.
From S2P Require Import Locks.
From S2P Require Import Footprint.
From S2P Require Import Interleaving.
From S2P Require Import Causality.
From S2P Require Import Isolation.
From S2P Require Import SystemIsolation.

(** ** The scopes of the simulated calls *)

Lemma same_lb_filter (uuids : list string) ls ls' :
  Forall2 same_lb ls ls' →
  Forall2 same_lb (filter (λ l, LoadBalancer.UUID l ∈ uuids) ls)
    (filter (λ l, LoadBalancer.UUID l ∈ uuids) ls').
Proof.
  induction 1 as [|l l' ls ls' Hs _ IH]; [constructor|]. rewrite !filter_cons.
  rewrite (same_lb_uuid _ _ (proj1 Hs)). case_decide; [by constructor|done].
Qed.

Lemma ips_kept P I fs : Forall2 (ip_confined P I) fs fs.
Proof. apply Forall_Forall2_diag, Forall_true. intros f. by split; [|left]. Qed.

Lemma names_kept (N : string → Prop) ls ls' :
  Forall2 same_lb ls ls' → ∀ l', l' ∈ ls' → N (LoadBalancer.Name l') ∨
    ∃ l, l ∈ ls ∧ LoadBalancer.UUID l' = LoadBalancer.UUID l ∧ LoadBalancer.Name l' = LoadBalancer.Name l.
Proof.
  intros Hall l' [i Hi]%list_elem_of_lookup. right.
  destruct (Forall2_lookup_r _ _ _ _ _ Hall Hi) as (l & Hl & Hs & Hn).
  exists l. split_and!; [by eapply list_elem_of_lookup_2|by apply same_lb_uuid|done].
Qed.

(** A change below the pools. *)
Lemma parts_confined P x x' :
  Forall2 same_lb (api_lbs x) (api_lbs x') → api_pools x' = api_pools x → api_ips x' = api_ips x →
  (∀ p, p ∈ api_pools x → ¬ P (Pool.LoadBalancer p) → parts x' p = parts x p) →
  (∀ u, ¬ P u → floating_listeners u (api_listeners x') = floating_listeners u (api_listeners x)) →
  confined P none none x x'.
Proof.
  intros Hl Hp Hi Hparts Hfloat. split.
  - intros us Hus. split; [by apply same_lb_filter|by rewrite Hp| |].
    + intros p Hin Hu. by apply Hparts, Hus.
    + intros u Hu. by apply Hfloat, Hus.
  - by apply names_kept.
  - rewrite Hi. apply ips_kept.
Qed.

Lemma shown_same_lbs (v w : account) (ls : list LoadBalancer.t) :
  Forall2 same_lb (shown_lb v <$> ls) (shown_lb w <$> ls).
Proof. apply Forall2_fmap_2, Forall_Forall2_diag, Forall_true. intros l. by split; [split|]. Qed.

Lemma parts_of_lists x x' p :
  api_members x' (Pool.UUID p) = api_members x (Pool.UUID p) →
  listeners_of (api_listeners x') p = listeners_of (api_listeners x) p →
  monitors_of (api_monitors x') p = monitors_of (api_monitors x) p → parts x' p = parts x p.
Proof. intros Hm Hl Hmo. unfold parts. by rewrite Hm, Hl, Hmo. Qed.

(** The account of a cluster, and calls on it. *)
Definition held (c : cluster) : api := api_of (acct c).

Lemma on_account_writes {A} (m : M account A) (R : api → api → Prop) :
  (∀ a r a', m a = (r, a') → R (api_of a) (api_of a')) → writes held (on_account m) R.
Proof.
  intros Hm c r c'. unfold on_account. destruct (m (acct c)) as [r0 a] eqn:Hr.
  intros [= <- <-]. by apply (Hm _ r0).
Qed.

Lemma on_account_reads {A} (m : M account A) (Q : api → A → Prop) :
  (∀ a, (m a).2 = a ∧ ∀ b, (m a).1 = Ok b → Q (api_of a) b) → reads held (on_account m) Q.
Proof.
  intros Hm c r c'. unfold on_account. destruct (Hm (acct c)) as [Ha HQ].
  destruct (m (acct c)) as [r0 a]. simpl in *. subst. intros [= <- <-].
  split; [apply quiet_refl|done].
Qed.

(** A simulated listing is complete. *)
Lemma gives_listed {T} (f : account → list T) (g : api → list T) a :
  (∀ a, g (api_of a) = f a) →
  (gives f a).2 = a ∧ ∀ ts, (gives f a).1 = Ok ts → listed g (api_of a) ts.
Proof. intros Hf. split; [done|]. intros ts [= <-]. unfold listed. by rewrite Hf. Qed.

Lemma on_account_quiet {A} (m : M account A) :
  (∀ a, (m a).2 = a) → writes held (on_account m) quiet.
Proof.
  intros Hm. apply on_account_writes. intros a r a' Hr. specialize (Hm a). rewrite Hr in Hm.
  simpl in Hm. subst. apply quiet_refl.
Qed.

Lemma filter_kept_by {A} (P Q : A → Prop) `{!∀ a, Decision (P a), !∀ a, Decision (Q a)} (l : list A) :
  (∀ a, a ∈ l → P a → Q a) → filter P (filter Q l) = filter P l.
Proof.
  induction l as [|a l IH]; intros HPQ; [done|].
  assert (filter P (filter Q l) = filter P l) as Hl by (apply IH; intros; apply HPQ; [by right|done]).
  rewrite !filter_cons. destruct (decide (Q a)) as [HQ|HQ]; [by rewrite filter_cons, Hl|].
  rewrite decide_False; [done|]. intros HP. apply HQ, HPQ; [by left|done].
Qed.

Lemma shown_filter (uuids : list string) v w (Q : LoadBalancer.t → Prop) `{∀ l, Decision (Q l)} ls :
  (∀ l, l ∈ ls → LoadBalancer.UUID l ∈ uuids → Q l) →
  Forall2 same_lb (filter (λ l, LoadBalancer.UUID l ∈ uuids) (shown_lb v <$> ls))
    (filter (λ l, LoadBalancer.UUID l ∈ uuids) (shown_lb w <$> filter Q ls)).
Proof.
  induction ls as [|l ls IH]; intros HQ; [constructor|].
  rewrite fmap_cons, !filter_cons. simpl.
  assert (∀ k, k ∈ ls → LoadBalancer.UUID k ∈ uuids → Q k) as Hls by (intros; apply HQ; [by right|done]).
  destruct (decide (Q l)) as [Hl|Hl].
  - rewrite fmap_cons, filter_cons. simpl. case_decide; [|by apply IH].
    constructor; [by split; [split|]|by apply IH].
  - rewrite decide_False; [by apply IH|]. intros Hu. apply Hl, HQ; [by left|done].
Qed.

Lemma delete_scope url a r a' :
  fake_delete url a = (r, a') → confined (located (api_of a) url) none none (api_of a) (api_of a').
Proof.
  intros [= <- <-]. split; simpl.
  - intros us Hus. split; simpl.
    + apply shown_filter. intros l Hl Hlu Hurl. apply (Hus _ Hlu). left. exists (RLb (shown_lb a l)).
      split; [|by split]. constructor. simpl. by apply list_elem_of_fmap_2.
    + apply filter_kept_by. intros p Hp Hpu Hurl. apply (Hus _ Hpu). left. exists (RPool p).
      by split; [constructor|].
    + intros p Hp Hpu. assert (∀ y, y ∈ parts (api_of a) p → part_href y ≠ url) as Hy.
      { intros y Hy Hurl. apply (Hus _ Hpu). left. exists (RPart p y). by split; [constructor|]. }
      apply parts_of_lists; simpl.
      * f_equal. apply filter_kept_by. intros m Hm Hmp. apply (Hy (PMember m.2)).
        unfold parts. apply elem_of_app. left. apply list_elem_of_fmap_2. simpl.
        apply list_elem_of_fmap_2. by apply list_elem_of_filter.
      * apply filter_kept_by. intros l Hl Hlp. apply (Hy (PListener l)).
        unfold parts. rewrite !elem_of_app. right; left. apply list_elem_of_fmap_2. simpl.
        by apply list_elem_of_filter.
      * apply filter_kept_by. intros m Hm Hmp. apply (Hy (PMonitor m)).
        unfold parts. rewrite !elem_of_app. right; right. apply list_elem_of_fmap_2. simpl.
        by apply list_elem_of_filter.
    + intros u Hu. apply filter_kept_by. intros l Hl [Hlp Hlu] Hurl. apply (Hus u Hu). right.
      by exists l.
  - intros l' (l & -> & Hl)%list_elem_of_fmap. right. exists (shown_lb a l).
    apply list_elem_of_filter in Hl as [_ Hl]. split; [by apply list_elem_of_fmap_2|done].
  - apply ips_kept.
Qed.

Lemma create_lb_scope req a r a' :
  fake_create_lb req a = (r, a') → unique_lbs (api_of a') →
  confined (appears (api_of a) (api_of a')) (λ n, n = LoadBalancerRequest.Name req) none
    (api_of a) (api_of a').
Proof.
  intros [= <- <-]. unfold unique_lbs. simpl. rewrite fmap_app, fmap_app, !shown_uuids. simpl.
  intros (_ & Hnew & _)%NoDup_app. split; simpl.
  - intros us Hus. assert (fresh "lb" a ∉ us) as Hne.
    { intros Hin. apply (Hus _ Hin). unfold appears. simpl. rewrite fmap_app, fmap_app, !shown_uuids. simpl.
      split; [set_solver|]. intros Hold. apply (Hnew _ Hold). by left. }
    split; simpl; [|done..]. rewrite fmap_app, filter_app. simpl.
    rewrite filter_cons, decide_False, filter_nil, app_nil_r by done.
    apply same_lb_filter, shown_same_lbs.
  - intros l'. rewrite fmap_app. intros [Hl|Hl]%elem_of_app.
    + right. apply list_elem_of_fmap in Hl as (l & -> & Hl). exists (shown_lb a l).
      split; [by apply list_elem_of_fmap_2|done].
    + left. simpl in Hl. apply list_elem_of_singleton in Hl as ->. done.
  - apply ips_kept.
Qed.

Lemma rename_scope uuid req a r a' :
  fake_rename uuid req a = (r, a') →
  confined (λ u, u = uuid) (λ n, n = LoadBalancerRequest.Name req) none (api_of a) (api_of a').
Proof.
  intros [= <- <-]. split; simpl.
  - intros us Hus. split; simpl; [|done..].
    match goal with |- context [shown_lb (with_parts ?a ?b ?c ?d ?e ?f ?g)] =>
      generalize (with_parts a b c d e f g) end.
    intros v. induction (lbs a) as [|l ls IH]; [constructor|].
    simpl. rewrite ?fmap_cons, !filter_cons. simpl.
    destruct (decide (LoadBalancer.UUID l = uuid)) as [Hl|Hl]; simpl.
    + rewrite !decide_False by (intros Hin; by apply (Hus _ Hin)). exact IH.
    + destruct (decide (LoadBalancer.UUID l ∈ us)); [|exact IH].
      constructor; [by split; [split|]|exact IH].
  - intros l' (k & -> & (l & <- & Hl)%list_elem_of_In%in_map_iff)%list_elem_of_fmap.
    case_decide; [by left|]. right. exists (shown_lb a l). split; [|done].
    by apply list_elem_of_fmap_2, list_elem_of_In.
  - apply ips_kept.
Qed.

Lemma create_pool_scope req a r a' :
  fake_create_pool req a = (r, a') →
  confined (λ u, u = PoolRequest.LoadBalancer req) none none (api_of a) (api_of a').
Proof.
  intros [= <- <-]. split; simpl.
  - intros us Hus. split; simpl; [apply same_lb_filter, shown_same_lbs| |done..].
    rewrite filter_app, filter_cons. simpl. rewrite decide_False by (intros Hin; by apply (Hus _ Hin)).
    by rewrite filter_nil, app_nil_r.
  - apply names_kept, shown_same_lbs.
  - apply ips_kept.
Qed.

Lemma create_member_scope uuid req a r a' :
  fake_create_member uuid req a = (r, a') →
  confined (pool_at (api_of a) uuid) none none (api_of a) (api_of a').
Proof.
  intros [= <- <-]. apply parts_confined; try done; [apply shown_same_lbs|].
  intros p Hp Hu. apply parts_of_lists; [|done..]. simpl.
  rewrite filter_app, filter_cons. simpl. rewrite decide_False by (intros ->; apply Hu; by exists p).
  by rewrite filter_nil, app_nil_r.
Qed.

Lemma create_listener_scope req a r a' :
  fake_create_listener req a = (r, a') →
  confined (pool_at (api_of a) (ListenerRequest.Pool req)) none none (api_of a) (api_of a').
Proof.
  intros [= <- <-]. apply parts_confined; try done; [apply shown_same_lbs|..].
  - intros p Hp Hu. apply parts_of_lists; [done| |done]. unfold listeners_of. simpl.
    rewrite filter_app, filter_cons. simpl.
    rewrite decide_False by (intros [= Heq]; apply Hu; by exists p). by rewrite filter_nil, app_nil_r.
  - intros u _. unfold floating_listeners. simpl. rewrite filter_app. apply app_nil_r.
Qed.

Lemma create_monitor_scope req a r a' :
  fake_create_monitor req a = (r, a') →
  confined (pool_at (api_of a) (HealthMonitorRequest.Pool req)) none none (api_of a) (api_of a').
Proof.
  intros [= <- <-]. apply parts_confined; try done; [apply shown_same_lbs|].
  intros p Hp Hu. apply parts_of_lists; [done..|]. unfold monitors_of. simpl.
  rewrite filter_app, filter_cons. simpl.
  rewrite decide_False by (intros Heq; apply Hu; by exists p). by rewrite filter_nil, app_nil_r.
Qed.

(** An update in place that does not concern the selected items. *)
Lemma filter_updated {A} (P Q : A → Prop) `{!∀ a, Decision (P a), !∀ a, Decision (Q a)}
    (f : A → A) (l : list A) :
  (∀ a, P (f a) ↔ P a) → (∀ a, a ∈ l → P a → ¬ Q a) →
  filter P ((λ a, if decide (Q a) then f a else a) <$> l) = filter P l.
Proof.
  intros Hf HPQ. induction l as [|a l IH]; [done|].
  assert (filter P ((λ a, if decide (Q a) then f a else a) <$> l) = filter P l) as Hl.
  { apply IH. intros b Hb. apply HPQ. by right. }
  rewrite fmap_cons, !filter_cons, Hl. pose proof (HPQ a ltac:(by left)) as Ha. pose proof (Hf a).
  destruct (decide (Q a)); [|done]. rewrite !decide_False by tauto. done.
Qed.

Lemma update_listener_scope uuid req a r a' :
  fake_update_listener uuid req a = (r, a') →
  confined (listener_at (api_of a) uuid) none none (api_of a) (api_of a').
Proof.
  intros [= <- <-]. apply parts_confined; try done; [apply shown_same_lbs|..].
  - intros p Hp Hu. apply parts_of_lists; [done| |done]. unfold listeners_of. simpl.
    apply (filter_updated _ (λ l, Listener.UUID l = uuid) (patch_listener req)); [done|].
    intros l Hl Hlp <-. apply Hu. left. exists p, l. split; [|done]. constructor; [done|].
    unfold parts. rewrite !elem_of_app. right; left. apply list_elem_of_fmap_2. simpl.
    by apply list_elem_of_filter.
  - intros u Hu. unfold floating_listeners. simpl.
    apply (filter_updated _ (λ l, Listener.UUID l = uuid) (patch_listener req)); [done|].
    intros l Hl [Hlp Hlu] <-. apply Hu. right. by exists l.
Qed.

Lemma update_monitor_scope uuid req a r a' :
  fake_update_monitor uuid req a = (r, a') →
  confined (monitor_at (api_of a) uuid) none none (api_of a) (api_of a').
Proof.
  intros [= <- <-]. apply parts_confined; try done; [apply shown_same_lbs|].
  intros p Hp Hu. apply parts_of_lists; [done..|]. unfold monitors_of. simpl.
  apply (filter_updated _ (λ m, HealthMonitor.UUID m = uuid) (λ m, at_2 (patch_monitor req m))); [done|].
  intros m Hm Hmp <-. apply Hu. exists p, m. split; [|done]. constructor; [done|].
  unfold parts. rewrite !elem_of_app. right; right. apply list_elem_of_fmap_2. simpl.
  by apply list_elem_of_filter.
Qed.

Lemma assign_scope ip uuid a r a' :
  fake_assign ip uuid a = (r, a') →
  confined (λ u, u = uuid) none (λ i, i = ip) (api_of a) (api_of a').
Proof.
  intros [= <- <-]. split; simpl.
  - intros us _. split; simpl; [apply same_lb_filter, shown_same_lbs|done..].
  - apply names_kept, shown_same_lbs.
  - apply Forall2_fmap_r, Forall_Forall2_diag, Forall_true. intros f. split; [done|]. simpl.
    case_decide; [|by left]. right; left. split; [done|]. by exists uuid.
Qed.

Lemma pause_scope d a : quiet (api_of a) (api_of (fake_pause d a).2).
Proof. apply parts_confined; try done. apply shown_same_lbs. Qed.

#[export, program] Instance cluster_scopes : ApiScopes cluster := {| resources := held |}.
Next Obligation.
  intros uuid. apply on_account_reads. intros a. split; [done|]. intros l. unfold fake_get. simpl.
  destruct (outage a); [done|]. destruct (get_lb (api_of a) uuid) as [k|] eqn:Hk; [|done]. intros [= ->].
  unfold get_lb in Hk. assert (l ∈ filter (λ l, LoadBalancer.UUID l = uuid) (api_lbs (api_of a))) as Hin.
  { destruct (filter _ _); [done|]. injection Hk as ->. by left. }
  apply list_elem_of_filter in Hin. tauto.
Qed.
Next Obligation. apply on_account_reads. intros a. by apply gives_listed. Qed.
Next Obligation. apply on_account_reads. intros a. by apply gives_listed. Qed.
Next Obligation. intros uuid. apply on_account_reads. intros a. by apply gives_listed. Qed.
Next Obligation. apply on_account_reads. intros a. by apply gives_listed. Qed.
Next Obligation. apply on_account_reads. intros a. by apply gives_listed. Qed.
Next Obligation. by apply on_account_quiet. Qed.
Next Obligation. intros uuid. by apply on_account_quiet. Qed.
Next Obligation. by apply on_account_quiet. Qed.
Next Obligation. intros c. apply quiet_refl. Qed.
Next Obligation.
  intros d c. exact (pause_scope d (acct c)).
Qed.
Next Obligation. intros k c. apply quiet_refl. Qed.
Next Obligation. intros url c r c' [= <- <-]. apply quiet_refl. Qed.
Next Obligation. intros url q w w1 [= <- <-]. apply on_account_writes. intros a r a'. apply delete_scope. Qed.
Next Obligation. intros req. apply (on_account_writes _ _ (create_lb_scope req)). Qed.
Next Obligation. intros uuid req. apply (on_account_writes _ _ (rename_scope uuid req)). Qed.
Next Obligation. intros req. apply (on_account_writes _ _ (create_pool_scope req)). Qed.
Next Obligation.
  intros uuid req. apply (on_account_writes _ (λ x, confined (pool_at x uuid) none none x)).
  apply create_member_scope.
Qed.
Next Obligation.
  intros req. apply (on_account_writes _ (λ x, confined (pool_at x (ListenerRequest.Pool req)) none none x)).
  apply create_listener_scope.
Qed.
Next Obligation.
  intros req.
  apply (on_account_writes _ (λ x, confined (pool_at x (HealthMonitorRequest.Pool req)) none none x)).
  apply create_monitor_scope.
Qed.
Next Obligation.
  intros uuid req. apply (on_account_writes _ (λ x, confined (listener_at x uuid) none none x)).
  apply update_listener_scope.
Qed.
Next Obligation.
  intros uuid req. apply (on_account_writes _ (λ x, confined (monitor_at x uuid) none none x)).
  apply update_monitor_scope.
Qed.
Next Obligation. intros ip uuid. apply (on_account_writes _ _ (assign_scope ip uuid)). Qed.

#[export] Instance cluster_kube_scopes : KubeScopes cluster.
Proof.
  split.
  - intros ns name patch c r c' [= <- <-]. apply quiet_refl.
  - intros token limit c r c' [= <- <-]. apply quiet_refl.
  - intros c r c' [= <- <-]. apply quiet_refl.
  - intros service type_ reason message c. apply quiet_refl.
Qed.

(** ** Two handlers, taking turns *)

(** The registry of an execution that deletes nothing, read off its last
    state; the load balancers were made for the services that have their
    names. *)
Definition find_key {A} (key : A → string) (value : A → string) (l : list A) (k : string) : string :=
  default "" (value <$> head (filter (λ a, key a = k) l)).

Definition pool_registry (a : account) : string → string :=
  find_key Pool.UUID Pool.LoadBalancer (acc_pools a).

Definition registry_of (jobs : list job) (a : account) : registry :=
  let pool_lb := pool_registry a in
  {| url_lb := find_key fst snd
       (((λ l, (LoadBalancer.HREF l, LoadBalancer.UUID l)) <$> lbs a) ++
        ((λ p, (Pool.HREF p, Pool.LoadBalancer p)) <$> acc_pools a) ++
        ((λ m, (PoolMember.HREF m.2, pool_lb m.1)) <$> acc_members a) ++
        ((λ l, (Listener.HREF l, pool_lb (default "" (Listener.Pool l)))) <$> acc_listeners a) ++
        ((λ m, (HealthMonitor.HREF m, pool_lb (HealthMonitor.Pool m))) <$> acc_monitors a));
     Footprint.pool_lb := pool_lb;
     listener_lb := find_key Listener.UUID (λ l, pool_lb (default "" (Listener.Pool l))) (acc_listeners a);
     monitor_lb := find_key HealthMonitor.UUID (λ m, pool_lb (HealthMonitor.Pool m)) (acc_monitors a);
     lb_service u :=
       find_key (λ j, annotation (job_info j) LoadBalancerName) job_uid jobs
         (find_key LoadBalancer.UUID LoadBalancer.Name (lbs a) u) |}.

#[export] Instance account_eq_dec : EqDecision account.
Proof. solve_decision. Defined.
#[export] Instance cluster_eq_dec : EqDecision cluster.
Proof. solve_decision. Defined.

(** [filed] and [recorded], decidable on the simulated cluster, where nothing
    changes on its own. *)
Definition filed_account (reg : registry) (a : account) : Prop :=
  Forall (λ l, url_lb reg (LoadBalancer.HREF l) = LoadBalancer.UUID l) (lbs a) ∧
  Forall (λ p, url_lb reg (Pool.HREF p) = Pool.LoadBalancer p ∧
               pool_lb reg (Pool.UUID p) = Pool.LoadBalancer p) (acc_pools a) ∧
  Forall (λ m, url_lb reg (PoolMember.HREF m.2) = pool_lb reg m.1) (acc_members a) ∧
  Forall (λ l, match Listener.Pool l with
               | Some u => url_lb reg (Listener.HREF l) = pool_lb reg u ∧
                           listener_lb reg (Listener.UUID l) = pool_lb reg u
               | None => url_lb reg (Listener.HREF l) = Listener.LoadBalancer l ∧
                         listener_lb reg (Listener.UUID l) = Listener.LoadBalancer l
               end) (acc_listeners a) ∧
  Forall (λ m, url_lb reg (HealthMonitor.HREF m) = pool_lb reg (HealthMonitor.Pool m) ∧
               monitor_lb reg (HealthMonitor.UUID m) = pool_lb reg (HealthMonitor.Pool m))
    (acc_monitors a).

Definition event_recorded (reg : registry) (jobs : list job) (e : event cluster) : Prop :=
  let '(o, (b, a)) := e in
  filed_account reg (acct b) ∧ NoDup (LoadBalancer.UUID <$> lbs (acct a)) ∧
  match o with
  | None => a = b
  | Some t =>
      match jobs !! t with
      | Some j => Forall (λ l, LoadBalancer.UUID l ∈ LoadBalancer.UUID <$> lbs (acct b) ∨
                    lb_service reg (LoadBalancer.UUID l) = job_uid j) (lbs (acct a))
      | None => True
      end
  end.

#[export] Instance event_recorded_dec reg jobs e : Decision (event_recorded reg jobs e).
Proof.
  assert (∀ l, Decision (match Listener.Pool l with
    | Some u => url_lb reg (Listener.HREF l) = pool_lb reg u ∧
                listener_lb reg (Listener.UUID l) = pool_lb reg u
    | None => url_lb reg (Listener.HREF l) = Listener.LoadBalancer l ∧
              listener_lb reg (Listener.UUID l) = Listener.LoadBalancer l
    end)) as Hl by (intros l; destruct (Listener.Pool l); apply _).
  destruct e as [[t|] [b a]]; unfold event_recorded, filed_account; [destruct (jobs !! t)|]; apply _.
Defined.

Lemma filed_account_filed reg (c : cluster) : filed_account reg (acct c) → filed reg (resources c).
Proof.
  intros (Hl & Hp & Hm & Hli & Hmo). rewrite !Forall_forall in *. split; simpl.
  - intros l (k & -> & Hk)%list_elem_of_fmap. exact (Hl k Hk).
  - intros p Hin. exact (Hp p Hin).
  - intros u m ([u' m'] & -> & [Hu Hin]%list_elem_of_filter)%list_elem_of_fmap. simpl in *. subst.
    exact (Hm _ Hin).
  - intros l Hin. specialize (Hli l Hin).
    split; [intros u Hu|intros Hu]; by rewrite Hu in Hli.
  - intros m Hin. exact (Hmo m Hin).
Qed.

Lemma events_recorded reg jobs (h : list (event cluster)) :
  Forall (event_recorded reg jobs) h → recorded reg jobs h.
Proof.
  intros Hall. rewrite Forall_forall in Hall. split.
  - intros o b a (Hf & _)%Hall. by apply filed_account_filed.
  - intros o b a (_ & Hu & _)%Hall. unfold unique_lbs. simpl. by rewrite shown_uuids.
  - intros t j b a u (_ & _ & Ht)%Hall Hj [Hin Hnew]. rewrite Hj, Forall_forall in Ht.
    simpl in *. rewrite shown_uuids in Hin, Hnew. apply list_elem_of_fmap in Hin as (l & -> & Hl).
    by destruct (Ht l Hl).
  - intros b a (_ & _ & ->)%Hall. apply (confined_weaken _ _ _ _ _ _ _ _ (quiet_refl _)); done.
Qed.

Section examples.
#[local] Existing Instance example_GoExt.
#[local] Existing Instance example_SDK.
#[local] Existing Instance example_UUID.
#[local] Existing Instance example_labels.

Definition http_service (uid name : string) : Service.t :=
  {| Service.Namespace := "default"; Service.Name := name; Service.UID := uid;
     Service.Annotations := None; Service.Type_ := "LoadBalancer";
     Service.LoadBalancerClass := None; Service.ExternalTrafficPolicy := "Cluster";
     Service.HealthCheckNodePort := 0;
     Service.Ports := [ServicePort.Mk "http" "TCP" 80 30080] |}.

Definition two_jobs : list job :=
  [MkJob (http_service "u1" "web") "kubernetes" (EnsureLb example_nodes) default_order
     (λ _, default_order);
   MkJob (http_service "u2" "shop") "kubernetes" (EnsureLb example_nodes) reverse_order
     (λ _, reverse_order)].

Fixpoint alternate (n : nat) : list nat :=
  match n with O => [] | S n' => [0; 1]%nat ++ alternate n' end.

(** Both handlers have created their load balancer, and look at it. *)
Definition two_started : system cluster := system_start two_jobs example_cluster.
Definition two_running : system cluster := turns two_jobs two_started (alternate 8).
Definition two_registry : registry := registry_of two_jobs (acct (world two_running)).

Lemma two_running_reachable : system_reachable two_jobs example_cluster two_running.
Proof. apply turns_reachable. apply rtc_refl. Qed.

Lemma two_recorded : recorded two_registry two_jobs (history two_running).
Proof. apply events_recorded. by_decide. Qed.

Lemma two_apart : services_apart two_registry two_jobs.
Proof.
  split.
  - intros i k j1 j2 Hi Hk Hne.
    destruct i as [|[|i]], k as [|[|k]]; try done; injection Hi as <-; injection Hk as <-; try done;
      by_decide.
  - intros i j Hi Hu. destruct Hu. destruct i as [|[|i]]; try done; injection Hi as <-; by_decide.
Qed.

Lemma two_named : all_named two_registry two_jobs example_cluster.
Proof. intros i j _ l Hl. exact (False_ind _ (not_elem_of_nil l Hl)). Qed.

(** The calls of the first handler around the creation of its load balancer. *)
Definition web_call (i : nat) : cluster * cluster :=
  default (example_cluster, example_cluster) (calls_of 0 (history two_running) !! i).

Lemma web_call_lookup i :
  (i < length (calls_of 0 (history two_running)))%nat →
  calls_of 0 (history two_running) !! i = Some ((web_call i).1, (web_call i).2).
Proof.
  intros [e He]%lookup_lt_is_Some. unfold web_call. rewrite He.
  destruct e as [b a]. exact eq_refl.
Qed.

Lemma web_calls : (5 < length (calls_of 0 (history two_running)))%nat.
Proof. by_decide. Qed.

Definition web_job : job :=
  MkJob (http_service "u1" "web") "kubernetes" (EnsureLb example_nodes) default_order
    (λ _, default_order).

Lemma handlers_confined_witness :
  lbs (acct (web_call 4).1) = [] ∧ length (lbs (acct (web_call 4).2)) = 1%nat ∧
  confined (mine two_registry (job_info web_job)) (own_name (job_info web_job))
    (own_ip (job_info web_job)) (resources (web_call 4).1) (resources (web_call 4).2).
Proof.
  split; [by_decide|]. split; [by_decide|].
  apply (handlers_confined two_registry two_jobs example_cluster two_running 0 web_job).
  - exact two_apart.
  - exact two_named.
  - exact two_running_reachable.
  - exact two_recorded.
  - reflexivity.
  - refine (proj1 (elem_of_calls _ _ _ _) (list_elem_of_lookup_2 _ 4 _ (web_call_lookup 4 _))).
    pose proof web_calls. lia.
Defined.

(** Between the creation and the next call, the other handler has created a
    load balancer as well. *)
Lemma handlers_alone_witness :
  length (lbs (acct (web_call 4).2)) = 1%nat ∧ length (lbs (acct (web_call 5).1)) = 2%nat ∧
  untouched ["lb-0"] (resources (web_call 4).2) (resources (web_call 5).1).
Proof.
  split; [by_decide|]. split; [by_decide|].
  apply (handlers_alone two_registry two_jobs example_cluster two_running 0 web_job 4
    (web_call 4).1 (web_call 4).2 (web_call 5).1 (web_call 5).2 ["lb-0"]).
  - exact two_apart.
  - exact two_named.
  - exact two_running_reachable.
  - exact two_recorded.
  - reflexivity.
  - apply web_call_lookup. pose proof web_calls. lia.
  - apply web_call_lookup. pose proof web_calls. lia.
  - intros u ->%list_elem_of_singleton. vm_compute. reflexivity.
Defined.

(** The deletion of the first service waits for its creation. *)
Definition three_jobs : list job :=
  two_jobs ++ [MkJob (http_service "u1" "web") "kubernetes" DeleteLb default_order (λ _, default_order)].

Definition three_waiting : system cluster :=
  turns three_jobs (system_start three_jobs example_cluster) [0; 2; 0; 1]%nat.

Lemma system_progress_witness :
  threads (lk three_waiting) = [Running "u1" 0; Locking "u2" 2; Locking "u1" 0]%nat ∧
  (can_move three_jobs three_waiting 2 ∨
   ∃ t', threads (lk three_waiting) !! t' = Some (Running "u1" 0%nat) ∧
     can_move three_jobs three_waiting t').
Proof.
  split; [vm_compute; reflexivity|].
  refine (system_progress three_jobs example_cluster three_waiting 2 (Locking "u1" 0) _ _).
  - apply turns_reachable, rtc_refl.
  - vm_compute. reflexivity.
Defined.
End examples.
