(* ===== verification/FakeSystem.v ===== *)
(** * FakeSystem

    An execution of the simulated cluster of [FakeScopes] to which
    [system_converges] applies: the load balancer of one service is deleted
    while that of another is created, their calls taking turns.  That an
    execution is recorded and orderly is checked event by event. *)

From stdpp Require Import base tactics list gmap strings pretty relations.
From Stdlib Require Import ZArith.
From S2P Require Import Prelude.
From S2P Require Import GoStrings.
From S2P Require Import Cloudscale.
From S2P Require Import ServiceInfo.
From S2P Require Import Actions.
From S2P Require Import LbState.
From S2P Require Import ActualState.
From S2P Require Import ActualStateSpec.
From S2P Require Import Examples.
From S2P Require Import ApiLaws.
From S2P Require Import FakeApi.
From S2P Require Import Reconcile.
From S2P Require Import Converge.
From S2P Require Import FakeApiLaws.
From S2P Require Import ProviderID.
From S2P Require Import KubeUtil.
From S2P Require Import LoadBalancerHandlers.
From S2P Require Import HandlersConverge.
From S2P Require Import FakeCluster.
From S2P Require Import FakeClusterLaws.
From S2P Require Import Sharing.
From S2P Require Import Others.
From S2P Require Import Disturbed.
From S2P Require Import Locks.
From S2P Require Import Footprint.
From S2P Require Import Interleaving.
From S2P Require Import Causality.
From S2P Require Import Isolation.
From S2P Require Import SystemIsolation.
From S2P Require Import SystemConverge.
From S2P Require Import SystemSpared.
From S2P Require Import SystemSettles.
From S2P Require Import FakeScopes.

#[local] Existing Instance example_GoExt.
#[local] Existing Instance example_SDK.
#[local] Existing Instance example_UUID.
#[local] Existing Instance example_labels.

(** ** Checking an execution *)

(** Names that end in a number below the counter. *)
Definition numbered_b (bound : nat) (s : string) : bool :=
  existsb (λ n, let t := String "-" (pretty n) in
    String.eqb s (substring 0 (String.length s - String.length t) s +:+ t)) (seq 0 bound).

Lemma numbered_b_sound bound s : numbered_b bound s = true → numbered bound s.
Proof.
  unfold numbered_b. intros (n & Hn%in_seq & Heq%String.eqb_eq)%existsb_exists.
  eexists _, n. split; [exact Heq|lia].
Qed.

(** [wf], decidable. *)
Definition wf_checked (w : account) : Prop :=
  (outage w = None ∧ acc_servers w = example_servers) ∧
  map_Forall (λ _ n, (n ≤ 2)%nat) (settling w) ∧ NoDup (hrefs w) ∧
  Forall (λ s, numbered_b (counter w) s = true) (hrefs w ++ references w) ∧
  Forall (λ l, LoadBalancer.HREF l = "/" +:+ LoadBalancer.UUID l) (lbs w) ∧
  Forall (λ p, Pool.HREF p = "/" +:+ Pool.UUID p) (acc_pools w) ∧
  Forall (λ l, Listener.HREF l = "/" +:+ Listener.UUID l) (acc_listeners w) ∧
  Forall (λ m, HealthMonitor.HREF m = "/" +:+ HealthMonitor.UUID m) (acc_monitors w) ∧
  Forall (λ m, default 2%positive (addr <$> (HealthMonitor.HTTP m ≫= MonitorHTTP.Host)) = 2%positive)
    (acc_monitors w).

Lemma wf_checked_sound w : wf_checked w → wf w.
Proof.
  intros ([Ho Hs] & Hset & Hnd & Hnum & Hl & Hp & Hli & Hm & Hh). rewrite !Forall_forall in *.
  split; try done.
  - intros u. unfold pauses_left. destruct (settling w !! u) as [n|] eqn:Hu; simpl; [|lia].
    exact (Hset u n Hu).
  - apply Forall_forall. intros s Hin. apply numbered_b_sound, Hnum, elem_of_app. by left.
  - apply Forall_forall. intros s Hin. apply numbered_b_sound, Hnum, elem_of_app. by right.
  - intros m h q Hin Hhttp Hhost. specialize (Hh m Hin). rewrite Hhttp in Hh. simpl in Hh.
    by rewrite Hhost in Hh.
Qed.

(** [orderly], decidable where nothing happens outside. *)
Definition event_orderly (reg : registry) (jobs : list job) (e : event cluster) : Prop :=
  let '(o, (b, a)) := e in
  match o with
  | None => a = b
  | Some t =>
      wf_checked (acct a) ∧ (version a = ("1", "31") ∧ kservices a = ip_pages) ∧
      match jobs !! t with
      | Some k => map_Forall (λ u n, lb_service reg u = job_uid k ∨ (n ≤ pauses_left (acct b) u)%nat)
                    (settling (acct a))
      | None => True
      end
  end.

#[export] Instance event_orderly_dec reg jobs e : Decision (event_orderly reg jobs e).
Proof.
  destruct e as [[t|] [b a]]; unfold event_orderly, wf_checked; [destruct (jobs !! t)|]; apply _.
Defined.

Lemma events_orderly reg jobs (h : list (event cluster)) :
  Forall (event_orderly reg jobs) h → orderly reg jobs h.
Proof.
  intros Hall. rewrite Forall_forall in Hall. split.
  - by intros o b a x _ [[-> _] _].
  - intros t b a (Hwf & Hst & _)%Hall _. split; [|exact Hst]. split; [done|by apply wf_checked_sound].
  - intros t k b a u (_ & _ & Hk)%Hall Hj Hu. rewrite Hj in Hk. simpl. unfold pauses_left at 1.
    destruct (settling (acct a) !! u) as [n|] eqn:Hn; simpl; [|lia]. by destruct (Hk u n Hn).
  - intros b a m j ->%Hall _. apply spares_refl.
Qed.

(** ** Two handlers, run to the end of one *)

(** The service with the Floating IP is deleted, while another one is created. *)
Definition gone_job : job :=
  MkJob ip_service "kubernetes" DeleteLb default_order (λ _, default_order).

Definition shop_job : job :=
  MkJob (http_service "u2" "shop") "kubernetes" (EnsureLb example_nodes) reverse_order
    (λ _, reverse_order).

Definition pair_jobs : list job := [gone_job; shop_job].
Definition pair_world : cluster := ip_cluster fake_owned.

(** Both have their locks, and none has called. *)
Definition pair_start : system cluster :=
  turns pair_jobs (system_start pair_jobs pair_world) [0; 0; 1; 1]%nat.

(** The other handler creates its load balancer; then the deleting one calls for
    the last time, and returns. *)
Definition pair_turns : list nat := alternate 5 ++ replicate 22 0%nat.
Definition pair_returned : system cluster := turns pair_jobs pair_start pair_turns.

(** The registry of an execution that deletes the load balancers it started
    with. *)
Definition pair_registry : registry :=
  let a := acct (world pair_returned) in
  registry_of pair_jobs (with_parts a (lbs (acct pair_world) ++ lbs a) (acc_pools a) (acc_members a)
    (acc_monitors a) (acc_listeners a) (ips a)).

Lemma pair_reachable : system_reachable pair_jobs pair_world pair_start.
Proof. apply turns_reachable, rtc_refl. Qed.

(** Facts about all pairs of jobs. *)
Lemma pair_ind (R : job → job → Prop) :
  R gone_job shop_job → R shop_job gone_job →
  ∀ m n j k, pair_jobs !! m = Some j → pair_jobs !! n = Some k → job_uid j ≠ job_uid k → R j k.
Proof.
  intros H01 H10 m n j k Hj Hk Hne.
  destruct m as [|[|m]], n as [|[|n]]; try done; injection Hj as <-; injection Hk as <-; done.
Qed.

Lemma pair_apart reg : services_apart reg pair_jobs.
Proof.
  split.
  - apply (pair_ind (λ j k, annotation (job_info j) LoadBalancerName ≠
      annotation (job_info k) LoadBalancerName)); by_decide.
  - intros i j Hi Hu. destruct Hu. destruct i as [|[|i]]; try done; injection Hi as <-; by_decide.
Qed.

Lemma pair_addresses : addresses_apart pair_jobs.
Proof.
  assert (∀ ip, ¬ own_ip (job_info shop_job) ip) as Hno.
  { intros ip (cidrs & cidr & Hc & Hin & _). vm_compute in Hc. injection Hc as <-.
    by apply elem_of_nil in Hin. }
  intros m n j k ip Hj Hk Hne. revert ip. revert m n j k Hj Hk Hne.
  apply (pair_ind (λ j k, ∀ ip, own_ip (job_info j) ip → ¬ own_ip (job_info k) ip));
    [by intros ip _|by intros ip ?%Hno].
Qed.

Lemma pair_named reg : lb_service reg "lb-0" = "deadbeef" → all_named reg pair_jobs pair_world.
Proof.
  intros Hreg i j Hj l Hl. apply list_elem_of_singleton in Hl as ->.
  destruct i as [|[|i]]; try done; injection Hj as <-; [by intros _|].
  intros Hb. exfalso. revert Hb. by_decide.
Qed.

Lemma pair_registered : all_named pair_registry pair_jobs pair_world.
Proof. apply pair_named. by_decide. Qed.

Lemma pair_addresses_right reg : addresses_right reg pair_jobs pair_world.
Proof. intros m n j k f u _ _ _ ->%list_elem_of_singleton [=]. Qed.

Lemma gone_served : served 60 (job_info gone_job).
Proof. split; [split; [vm_compute; discriminate|done]|done|exact ip_admitted]. Qed.

Lemma gone_asked :
  asks_for gone_job (λ x, no_owner (job_info gone_job) x ∨ ∃ l, owner (job_info gone_job) x l)
    (no_owner (job_info gone_job)).
Proof. by apply asks_delete. Qed.

Lemma pair_owned :
  no_owner (job_info gone_job) (api_of fake_owned) ∨ ∃ l, owner (job_info gone_job) (api_of fake_owned) l.
Proof.
  right. eexists. intros l. split.
  - by intros [Hl%list_elem_of_singleton _].
  - intros ->. split; [by left|by_decide].
Qed.

Lemma pair_good : good (world pair_start) (api_of fake_owned).
Proof. split; [|done]. apply fake_single_good. Qed.

(** ** An endless execution *)

(** Nothing happens any more, apart from what happens outside. *)
Definition stutter (s : system cluster) : system cluster :=
  MkSystem (lk s) (world s) (history s ++ [(None, (world s, world s))]).

Section play.
Context (jobs : list job) (w : cluster) (s : system cluster) (ts : list nat).
Hypothesis from : system_reachable jobs w s.

Definition taken (n : nat) : Prop :=
  is_Some (turn jobs (turns jobs s (take n ts)) (default 0%nat (ts !! n))).
Hypothesis all_taken : Forall taken (seq 0 (length ts)).

(** The threads take their turns; then time stands still. *)
Definition play (n : nat) : system cluster :=
  Nat.iter (n - length ts) stutter (turns jobs s (take n ts)).

Lemma play_early n : (n ≤ length ts)%nat → play n = turns jobs s (take n ts).
Proof. intros Hn. unfold play. by replace (n - length ts)%nat with 0%nat by lia. Qed.

Lemma play_late n : (length ts ≤ n)%nat → play (S n) = stutter (play n).
Proof. intros Hn. unfold play. rewrite !take_ge by lia. by rewrite Nat.sub_succ_l. Qed.

Lemma turns_snoc s0 us t :
  Forall (λ n, is_Some (turn jobs (turns jobs s0 (take n us)) (default 0%nat (us !! n)))) (seq 0 (length us)) →
  turns jobs s0 (us ++ [t]) = turns jobs (turns jobs s0 us) [t].
Proof.
  revert s0. induction us as [|u us IH]; intros s0 Hall; [done|].
  cbn [app turns]. rewrite Forall_forall in Hall.
  destruct (Hall 0%nat) as [s1 Hs1]; [apply elem_of_seq; simpl; lia|]. cbn in Hs1. rewrite Hs1.
  apply IH. apply Forall_forall. intros n Hn%elem_of_seq.
  specialize (Hall (S n) ltac:(apply elem_of_seq; simpl; lia)). cbn [take turns lookup list_lookup] in Hall.
  by rewrite Hs1 in Hall.
Qed.

Lemma play_step n : system_reachable jobs w (play n) → system_step jobs (play n) (play (S n)).
Proof.
  intros Hr. destruct (decide (n < length ts)%nat) as [Hn|Hn].
  - rewrite !play_early in * by lia. destruct (lookup_lt_is_Some_2 ts n Hn) as [t Ht].
    rewrite (take_S_r _ _ _ Ht). rewrite Forall_forall in all_taken.
    rewrite turns_snoc.
    + eapply turn_taken; [done|]. specialize (all_taken n ltac:(apply elem_of_seq; lia)).
      unfold taken in all_taken. by rewrite Ht in all_taken.
    + apply Forall_forall. intros m [_ Hm]%elem_of_seq. rewrite length_take in Hm.
      rewrite take_take, lookup_take_lt, Nat.min_l by lia. apply all_taken, elem_of_seq. lia.
  - rewrite play_late by lia. destruct (play n) as [l v h]. apply step_outside.
Qed.

Lemma play_reachable n : system_reachable jobs w (play n).
Proof.
  induction n as [|n IH]; [by rewrite play_early by lia|]. eapply rtc_r; [exact IH|by apply play_step].
Qed.

Lemma play_still n : (length ts ≤ n)%nat →
  lk (play n) = lk (turns jobs s ts) ∧ world (play n) = world (turns jobs s ts).
Proof.
  induction 1 as [|n Hle [IHl IHw]]; [by rewrite play_early, take_ge by lia|].
  by rewrite play_late by lia.
Qed.

(** What holds of the events of the turns, and when nothing happens. *)
Lemma play_events (P : event cluster → Prop) :
  let c := world (turns jobs s ts) in
  Forall P (history (turns jobs s ts)) → P (None, (c, c)) → ∀ n, Forall P (history (play n)).
Proof.
  intros c Hall Hnone n. destruct (decide (n ≤ length ts)%nat) as [Hn|Hn].
  - rewrite play_early by done. destruct (rtc_history jobs (turns jobs s (take n ts)) (turns jobs s ts)) as [h Hh].
    { by apply (turns_prefix jobs w). }
    rewrite Hh in Hall. by apply Forall_app in Hall as [? _].
  - replace n with (length ts + (n - length ts))%nat by lia. generalize (n - length ts)%nat. intros k.
    induction k as [|k IH]; [by rewrite Nat.add_0_r, play_early, take_ge by lia|].
    rewrite Nat.add_succ_r, play_late by lia. simpl. apply Forall_app. split; [done|].
    apply Forall_singleton. destruct (play_still (length ts + k)) as [_ ->]; [lia|done].
Qed.

(** If the last turn is the return of a thread, it was not left waiting. *)
Lemma play_fair n t uid mu :
  length ts = S n → threads (lk (turns jobs s (take n ts))) !! t = Some (Running uid mu) →
  threads (lk (turns jobs s ts)) !! t = Some (Returned uid) → fair jobs play t.
Proof.
  intros Hlen Hrun Hret m Hm. destruct (decide (m ≤ n)%nat) as [Hle|Hgt].
  - exists n. split; [done|]. split; [apply play_step, play_reachable|]. right.
    destruct (play_still (S n)) as [-> _]; [lia|]. by rewrite Hret, play_early, Hrun by lia.
  - destruct Hm as (u & mu' & Hm). destruct (play_still m) as [Hl _]; [lia|].
    rewrite Hl, Hret in Hm. discriminate Hm.
Qed.
End play.

(** ** The theorem, applied *)

Lemma pair_taken : Forall (taken pair_jobs pair_start pair_turns) (seq 0 (length pair_turns)).
Proof. by_decide. Qed.

(** The execution, checked at once. *)
Lemma pair_events :
  Forall (λ e, event_recorded pair_registry pair_jobs e ∧ event_orderly pair_registry pair_jobs e)
    (history pair_returned) ∧
  (threads (lk (turns pair_jobs pair_start (take 31 pair_turns))) !! 0%nat = Some (Running "deadbeef" 0) ∧
   threads (lk pair_returned) !! 0%nat = Some (Returned "deadbeef")) ∧
  event_recorded pair_registry pair_jobs (None, (world pair_returned, world pair_returned)) ∧
  LoadBalancer.Name <$> lbs (acct (world pair_returned)) = ["k8s-service-u2"].
Proof. by_decide. Qed.

Lemma pair_played n :
  Forall (λ e, event_recorded pair_registry pair_jobs e ∧ event_orderly pair_registry pair_jobs e)
    (history (play pair_jobs pair_start pair_turns n)).
Proof.
  apply (play_events pair_jobs pair_world); [exact pair_reachable|apply pair_events|].
  split; [apply pair_events|done].
Qed.

