(* ===== verification/FakeSettles.v ===== *)
(** * FakeSettles

    The system of [FakeSystem], run until both handlers have returned: the load
    balancer of one service is gone, that of the other is as desired.  The
    theorems of [SystemSettles] apply to it. *)

From stdpp Require Import base tactics list gmap strings pretty relations.
From Stdlib Require Import ZArith.
From S2P Require Import Prelude.
From S2P Require Import GoStrings.
From S2P Require Import Cloudscale.
From S2P Require Import ServiceInfo.
From S2P Require Import Actions.
From S2P Require Import LbState.
From S2P Require Import LbStateSpec.
From S2P Require Import NextActionsPlan.
From S2P Require Import ActualState.
From S2P Require Import ActualStateSpec.
From S2P Require Import Examples.
From S2P Require Import ApiLaws.
From S2P Require Import FakeApi.
From S2P Require Import Reconcile.
From S2P Require Import Converge.
From S2P Require Import Settings.
From S2P Require Import Realisable.
From S2P Require Import FakeApiLaws.
From S2P Require Import ProviderID.
From S2P Require Import ServerMapper.
From S2P Require Import InstancesSpec.
From S2P Require Import KubeUtil.
From S2P Require Import LoadBalancerHandlers.
From S2P Require Import HandlersConverge.
From S2P Require Import FakeCluster.
From S2P Require Import FakeClusterLaws.
From S2P Require Import Sharing.
From S2P Require Import Others.
From S2P Require Import Disturbed.
From S2P Require Import Locks.
From S2P Require Import Footprint.
From S2P Require Import Interleaving.
From S2P Require Import Causality.
From S2P Require Import Isolation.
From S2P Require Import SystemIsolation.
From S2P Require Import SystemConverge.
From S2P Require Import SystemSpared.
From S2P Require Import SystemSettles.
From S2P Require Import FakeScopes.
From S2P Require Import FakeSystem.

#[local] Existing Instance example_GoExt.
#[local] Existing Instance example_SDK.
#[local] Existing Instance example_UUID.
#[local] Existing Instance example_labels.
#[local] Existing Instance default_order.

Definition shop_desired : lbState :=
  state_or_zero (desiredLbState (job_info shop_job) example_nodes example_servers).

Lemma shop_ready :
  service_ready (W := cluster) (job_info shop_job) example_servers api_algorithms api_protocols.
Proof.
  split.
  - split; [vm_compute; discriminate|done].
  - done.
  - by_decide.
  - by_decide.
  - by_decide.
  - by_decide.
  - by_decide.
  - by_decide.
  - exact ip_subnets.
  - right; right. by_decide.
  - intros h q Hh Hq. vm_compute in Hh. injection Hh as <-. discriminate Hq.
Qed.

Lemma shop_wanted :
  wanted (W := cluster) (job_info shop_job) example_nodes shop_desired (Examples.lb_of shop_desired)
    api_algorithms api_protocols.
Proof.
  split; [by apply example_parse_no_panic| |by vm_compute].
  exists example_nodes, example_servers. split; [by vm_compute|].
  split; [|split; [by vm_compute|exact shop_ready]].
  repeat constructor; right; by vm_compute.
Qed.

Lemma shop_reachable :
  Converge.reachable (job_info shop_job) shop_desired (Examples.lb_of shop_desired)
    api_algorithms api_protocols (api_of fake_owned).
Proof.
  split.
  - unfold ips_known. apply Forall_forall. by_decide.
  - left. unfold no_owner. apply Forall_forall. by_decide.
Qed.

Lemma shop_admitted : admitted 60 (job_info shop_job).
Proof.
  split; [done|]. split; [by eexists; vm_compute|].
  exists ip_pages. split; [exact (last_listed (W := cluster) "" eq_refl)|].
  split; [simpl; lia|]. intros (ips & ip & service & Hi & Hin & _).
  vm_compute in Hi. injection Hi as <-. by apply not_elem_of_nil in Hin.
Qed.

(** What the handlers start from, and what they are asked for. *)
Definition pair_from (t : nat) (x : api) : Prop :=
  match t with
  | O => no_owner (job_info gone_job) x ∨ ∃ l, owner (job_info gone_job) x l
  | _ => Converge.reachable (job_info shop_job) shop_desired (Examples.lb_of shop_desired)
           api_algorithms api_protocols x
  end.

Definition pair_to (t : nat) (x : api) : Prop :=
  match t with
  | O => no_owner (job_info gone_job) x
  | _ => ∃ l, in_place (job_info shop_job) shop_desired (Examples.lb_of shop_desired) x l
  end.

Lemma pair_cases (R : nat → job → Prop) :
  R 0%nat gone_job → R 1%nat shop_job → ∀ t j, pair_jobs !! t = Some j → R t j.
Proof. intros H0 H1 [|[|t]] j; [by intros [= <-]|by intros [= <-]|done]. Qed.

Lemma pair_asked : jobs_asked pair_jobs 60 pair_from pair_to (api_of fake_owned).
Proof.
  split.
  - intros [|[|m]] [|[|n]] j k; try done; intros [= <-] [= <-]; done.
  - apply (pair_cases (λ _ j, served 60 (job_info j))); [exact gone_served|].
    split; [split; [vm_compute; discriminate|done]|done|exact shop_admitted].
  - apply (pair_cases (λ t j, asks_for j (pair_from t) (pair_to t))); [exact gone_asked|].
    apply (asks_ensure shop_job example_nodes); [done| |exact shop_wanted].
    right; left. by vm_compute.
  - apply (pair_cases (λ t _, pair_from t (api_of fake_owned))); [exact pair_owned|exact shop_reachable].
Qed.

(** ** To the end *)

Definition settle_turns : list nat :=
  [0; 0; 1; 1]%nat ++ alternate 5 ++ replicate 22 0%nat ++ replicate 54 1%nat.

Definition settled : system cluster :=
  turns pair_jobs (system_start pair_jobs pair_world) settle_turns.

Definition settle_registry : registry :=
  let a := acct (world settled) in
  registry_of pair_jobs (with_parts a (lbs (acct pair_world) ++ lbs a) (acc_pools a) (acc_members a)
    (acc_monitors a) (acc_listeners a) (ips a)).

Lemma settled_facts :
  Forall (λ e, event_recorded settle_registry pair_jobs e ∧ event_orderly settle_registry pair_jobs e)
    (history settled) ∧
  threads (lk settled) = [Returned "deadbeef"; Returned "u2"] ∧
  LoadBalancer.Name <$> lbs (acct (world settled)) = ["k8s-service-u2"] ∧
  lb_service settle_registry "lb-0" = "deadbeef".
Proof. by_decide. Qed.

Lemma settle_named : all_named settle_registry pair_jobs pair_world.
Proof. apply pair_named, settled_facts. Qed.

Lemma settled_recorded : recorded settle_registry pair_jobs (history settled).
Proof. apply events_recorded. by eapply Forall_impl; [apply settled_facts|intros e []]. Qed.

Lemma settled_orderly : orderly settle_registry pair_jobs (history settled).
Proof. apply events_orderly. by eapply Forall_impl; [apply settled_facts|intros e []]. Qed.

Lemma settled_started : well_started settle_registry pair_jobs pair_world (api_of fake_owned).
Proof.
  split; [exact (pair_apart _)|exact pair_addresses|exact settle_named|exact (pair_addresses_right _)|].
  exact pair_good.
Qed.

Lemma settled_reachable : system_reachable pair_jobs pair_world settled.
Proof. apply turns_reachable, rtc_refl. Qed.

Lemma settled_stuck t : ¬ can_move pair_jobs settled t.
Proof.
  apply returned_stuck. intros th. destruct settled_facts as (_ & -> & _).
  destruct t as [|[|t]]; [by intros [= <-]|by intros [= <-]|done].
Qed.

Lemma system_settles_witness :
  LoadBalancer.Name <$> lbs (acct (world settled)) = ["k8s-service-u2"] ∧
  threads (lk settled) !! 1%nat = Some (Returned (job_uid shop_job)) ∧
  succeeded shop_job (calls_of 1 (history settled)) ∧
  good (world settled) (resources (world settled)) ∧ pair_to 1 (resources (world settled)).
Proof.
  split; [apply settled_facts|].
  apply (system_settles settle_registry pair_jobs pair_world (api_of fake_owned) 60 pair_from pair_to).
  - exact settled_started.
  - exact pair_asked.
  - exact settled_reachable.
  - exact settled_recorded.
  - exact settled_orderly.
  - by intros y [[-> _] _].
  - exact settled_stuck.
  - reflexivity.
Defined.

(** The same execution, step by step. *)
Definition settling_at (n : nat) : system cluster :=
  turns pair_jobs (system_start pair_jobs pair_world) (take n settle_turns).

Lemma settling_prefix n : ∃ h, history settled = history (settling_at n) ++ h.
Proof. eapply rtc_history, (turns_prefix _ pair_world), rtc_refl. Qed.

Lemma system_ends_witness :
  settling_at 0 = system_start pair_jobs pair_world ∧
  ¬ ∀ n, ∃ t, moves pair_jobs (settling_at n) t (settling_at (S n)).
Proof.
  split; [reflexivity|].
  apply (system_ends settle_registry pair_jobs pair_world (api_of fake_owned) 60 pair_from pair_to).
  - exact settled_started.
  - exact pair_asked.
  - reflexivity.
  - intros n. destruct (settling_prefix n) as [h Hh]. apply (recorded_prefix _ _ _ h).
    rewrite <- Hh. exact settled_recorded.
  - intros n. destruct (settling_prefix n) as [h Hh]. apply (orderly_prefix _ _ _ h).
    rewrite <- Hh. exact settled_orderly.
Defined.
