(* ===== verification/Cloud.v ===== *)
(** * Cloud

    src/pkg/cloudscale_ccm/cloud.go: the configuration read from the
    environment, how the token is shown in the log, how the provider and its
    parts are put together, and which interfaces it offers.  [os.Getenv] is
    an argument; of the HTTP client made from the configuration the token,
    the timeout and the user agent are kept.  The log is a list of lines, and
    client-go is a class. *)

From stdpp Require Import base tactics list strings.
From Stdlib Require Import ZArith.
From S2P Require Import Prelude.
From S2P Require Import GoStrings.
From S2P Require Import Json.
From S2P Require Import Cloudscale.
From S2P Require Import Actions.
From S2P Require Import ProviderID.

Definition accessToken : string := "CLOUDSCALE_ACCESS_TOKEN".
Definition apiURL : string := "CLOUDSCALE_API_URL".
Definition apiTimeoutEnv : string := "CLOUDSCALE_API_TIMEOUT".
Definition DefaultTimeout : Z := wrap64 (20 * Second).

(** [%.4s]: the first [n] runes; a byte that starts none counts as one. *)
Fixpoint take_runes (n : nat) (s : list ascii) : list ascii :=
  match n with
  | O => []
  | S n' =>
      let w := match rune_width s with Some w => w | None => 1%nat end in
      take w s ++ take_runes n' (drop w s)
  end.

Definition maskAccessToken (token : string) : string :=
  if decide (String.length token < 4)%nat then ""
  else
    string_of_list_ascii (take_runes 4 (list_ascii_of_string token)) +:+
    Repeat "*" (String.length token - 4).

(** The error of [Atoi] is dropped, its value is used. *)
Definition apiTimeout (Getenv : string → string) : Z :=
  let '(seconds, _) := Atoi (Getenv apiTimeoutEnv) in
  if (0 <? seconds)%Z then wrap64 (seconds * Second) else DefaultTimeout.

(** ** Log *)

(** What package klog writes, in order.  Values are given as text. *)
Inductive log_line : Type :=
| LogInfo (text : string)
| LogInfoS (text : string) (values : list (string * string))
| LogWarning (text : string)
| LogFatal (text : string).

#[global] Instance log_line_eq_dec : EqDecision log_line.
Proof. solve_decision. Defined.

Definition logs : Type := list log_line.

Definition klog (line : log_line) : M logs unit := λ w, (Ok tt, w ++ [line]).

(** ** The provider *)

(** The user agent of a client of the SDK and the version of the build. *)
Class Build := { sdk_UserAgent : string; GitVersion : string }.

(** Types of k8s.io/client-go. *)
Class ClientGoTypes := {
  ClientBuilder : Type;
  KubeClient : Type;
  Broadcaster : Type;
  EventRecorder : Type }.

(** Its functions that [Initialize] calls, in the state [W]; the sink is given
    by its client and namespace. *)
Class ClientGo (W : Type) `{ClientGoTypes} := {
  ClientOrDie : ClientBuilder → string → M W KubeClient;
  NewBroadcaster : M W Broadcaster;
  StartRecordingToSink : Broadcaster → KubeClient → string → M W unit;
  NewRecorder : Broadcaster → string → M W EventRecorder;
  Shutdown : Broadcaster → M W unit }.

(** What a client of the API is made of. *)
Record clientConfig : Type := MkClientConfig {
  token : string; timeout : Z; UserAgent : string }.

Record serverMapper : Type := MkServerMapper { server_client : clientConfig }.
Record lbMapper : Type := MkLbMapper { lb_client : clientConfig }.
Record instances : Type := MkInstances { instances_srv : serverMapper }.

Section cloud.
Context `{Build} `{ClientGoTypes}.

(** The locks of the load balancer are modelled in [Locks]. *)
Record loadbalancer : Type := MkLoadbalancer {
  lbs : lbMapper;
  srv : serverMapper;
  k8s : option KubeClient;
  recorder : option EventRecorder }.

Record cloud : Type := MkCloud {
  cloud_instances : instances;
  cloud_loadbalancer : loadbalancer;
  eventRecorder : option EventRecorder }.

Definition newCloudscaleClient (Getenv : string → string) (token : string) (timeout : Z)
    : M logs clientConfig :=
  _ ← klog (LogInfoS "cloudscale API client"
        [("url", Getenv apiURL); ("token", maskAccessToken (Getenv accessToken));
         ("timeout", Duration_String timeout)]);
  mret (MkClientConfig token timeout (sdk_UserAgent +:+ " ccm/" +:+ GitVersion)).

(** [config] tells whether there is a configuration file. *)
Definition newCloudscaleProvider (Getenv : string → string) (config : bool) : M logs cloud :=
  _ ← (if config then klog (LogWarning "--cloud-config received but ignored") else mret tt);
  let token := Getenv accessToken in
  if decide (token = "") then throw (ErrorString ("no " +:+ accessToken +:+ " configured"))
  else
    client ← newCloudscaleClient Getenv token (apiTimeout Getenv);
    mret {| cloud_instances := MkInstances (MkServerMapper client);
            cloud_loadbalancer :=
              MkLoadbalancer (MkLbMapper client) (MkServerMapper client) None None;
            eventRecorder := None |}.

Definition component : string := "cloudscale-cloud-controller-manager".

(** The new contents of [c], and what is left for the goroutine that waits
    until the stop channel is closed. *)
Definition Initialize {W} `{!ClientGo W} (c : cloud) (clientBuilder : ClientBuilder)
    : M W (cloud * M W unit) :=
  client ← ClientOrDie clientBuilder component;
  let lb := cloud_loadbalancer c in
  eventBroadcaster ← NewBroadcaster;
  _ ← StartRecordingToSink eventBroadcaster client "";
  r ← NewRecorder eventBroadcaster component;
  mret ({| cloud_instances := cloud_instances c;
           cloud_loadbalancer := MkLoadbalancer (lbs lb) (srv lb) (Some client) (Some r);
           eventRecorder := Some r |}, Shutdown eventBroadcaster).

(** The second component tells whether the interface is supported. *)
Definition cloud_LoadBalancer (c : cloud) : loadbalancer * bool := (cloud_loadbalancer c, true).
Definition cloud_Instances (c : cloud) : option unit * bool := (None, false).
Definition cloud_InstancesV2 (c : cloud) : instances * bool := (cloud_instances c, true).
Definition cloud_Zones (c : cloud) : option unit * bool := (None, false).
Definition cloud_Clusters (c : cloud) : option unit * bool := (None, false).
Definition cloud_Routes (c : cloud) : option unit * bool := (None, false).
Definition cloud_ProviderName (c : cloud) : string := ProviderName.
Definition cloud_HasClusterID (c : cloud) : bool := false.
End cloud.

(** ** Facts *)

Lemma length_Repeat s n : String.length (Repeat s n) = (n * String.length s)%nat.
Proof.
  induction n as [|n IH]; [done|]. cbn [Repeat]. rewrite length_string_app, IH. lia.
Qed.

Lemma take_runes_ascii n s :
  Forall (λ c, in_bytes 0 127 c = true) s → take_runes n s = take n s.
Proof.
  revert s. induction n as [|n IH]; intros s Hs; [done|].
  destruct Hs as [|c s Hc Hs]; cbn [take_runes].
  - cbn. rewrite IH by constructor. by destruct n.
  - unfold rune_width. rewrite Hc. cbn. by rewrite IH.
Qed.

(** ** Properties *)

(** Of a token in ASCII at most the first four characters are shown, and
    nothing of one that is shorter than four; the mask keeps the length. *)
Theorem maskAccessToken_correct (token : string) :
  Forall (λ c, in_bytes 0 127 c = true) (list_ascii_of_string token) →
  (String.length token < 4)%nat ∧ maskAccessToken token = "" ∨
  String.length (maskAccessToken token) = String.length token ∧
  ∃ shown hidden, token = shown +:+ hidden ∧ String.length shown = 4%nat ∧
    maskAccessToken token = shown +:+ Repeat "*" (String.length hidden).
Proof.
  intros Hascii. unfold maskAccessToken. case_decide as Hlen; [by left|right].
  rewrite (take_runes_ascii _ _ Hascii).
  set (shown := string_of_list_ascii (take 4 (list_ascii_of_string token))).
  set (hidden := string_of_list_ascii (drop 4 (list_ascii_of_string token))).
  assert (token = shown +:+ hidden) as Heq.
  { unfold shown, hidden. rewrite <- string_of_list_ascii_app, take_drop.
    by rewrite string_of_list_ascii_of_string. }
  assert (String.length shown = 4%nat) as Hshown.
  { unfold shown. rewrite length_string_of_list_ascii, length_take.
    rewrite length_list_ascii_of_string. lia. }
  assert (String.length token - 4 = String.length hidden)%nat as ->.
  { rewrite Heq, length_string_app. lia. }
  split; [|by exists shown, hidden]. rewrite length_string_app, length_Repeat, Heq.
  rewrite length_string_app. cbn. lia.
Qed.

(** C38. A positive number of seconds that fits a duration is used as it is, and
    without one the default holds; but a number that overflows the integer
    type is not rejected: it gives a timeout of minus one second. *)
Theorem apiTimeout_correct (Getenv : string → string) :
  (∀ n, Getenv apiTimeoutEnv = Itoa n → (0 < n ≤ maxInt64 / Second)%Z →
     apiTimeout Getenv = (n * Second)%Z) ∧
  (∀ n, Getenv apiTimeoutEnv = Itoa n → (minInt64 ≤ n ≤ 0)%Z →
     apiTimeout Getenv = (20 * Second)%Z) ∧
  (Getenv apiTimeoutEnv = "" → apiTimeout Getenv = (20 * Second)%Z) ∧
  (Getenv apiTimeoutEnv = "9223372036854775808" → apiTimeout Getenv = (- Second)%Z).
Proof.
  unfold apiTimeout. split_and!; [| |by intros ->|by intros ->; vm_compute].
  - intros n -> Hn. assert (maxInt64 / Second = 9223372036)%Z as Hm by (by vm_compute).
    rewrite Hm in Hn. rewrite Atoi_Itoa by (unfold minInt64, maxInt64; lia).
    rewrite (proj2 (Z.ltb_lt 0 n)) by lia. apply wrap64_id.
    unfold minInt64, maxInt64, Second, Millisecond. lia.
  - intros n -> Hn. rewrite Atoi_Itoa by (unfold minInt64, maxInt64 in *; lia).
    rewrite (proj2 (Z.ltb_ge 0 n)) by lia. reflexivity.
Qed.

(** What the log shows of a new client. *)
Definition client_line (Getenv : string → string) : log_line :=
  LogInfoS "cloudscale API client"
    [("url", Getenv apiURL); ("token", maskAccessToken (Getenv accessToken));
     ("timeout", Duration_String (apiTimeout Getenv))].

Definition config_lines (config : bool) : logs :=
  if config then [LogWarning "--cloud-config received but ignored"] else [].

Definition new_client `{Build} (Getenv : string → string) : clientConfig :=
  MkClientConfig (Getenv accessToken) (apiTimeout Getenv)
    (sdk_UserAgent +:+ " ccm/" +:+ GitVersion).

Definition new_cloud `{Build} `{ClientGoTypes} (Getenv : string → string) : cloud :=
  {| cloud_instances := MkInstances (MkServerMapper (new_client Getenv));
     cloud_loadbalancer := MkLoadbalancer (MkLbMapper (new_client Getenv))
       (MkServerMapper (new_client Getenv)) None None;
     eventRecorder := None |}.

Lemma newCloudscaleProvider_eq `{Build} `{ClientGoTypes} Getenv config w :
  newCloudscaleProvider Getenv config w =
  if decide (Getenv accessToken = "")
  then (Err (ErrorString ("no " +:+ accessToken +:+ " configured")), w ++ config_lines config)
  else (Ok (new_cloud Getenv), (w ++ config_lines config) ++ [client_line Getenv]).
Proof.
  unfold newCloudscaleProvider, config_lines. destruct config; unfold mbind, M_bind, klog, mret, M_ret;
    rewrite ?app_nil_r; by case_decide.
Qed.

(** A provider is made exactly if a token is configured, whatever configuration
    file is given; all its parts use one client, with that token and the
    configured timeout, and the log shows the masked token. *)
Theorem newCloudscaleProvider_correct `{Build} `{ClientGoTypes} (Getenv : string → string)
    (config : bool) (w : logs) :
  match newCloudscaleProvider Getenv config w with
  | (Ok c, w') =>
      let client := new_client Getenv in
      Getenv accessToken ≠ "" ∧ w' = (w ++ config_lines config) ++ [client_line Getenv] ∧
      instances_srv (cloud_InstancesV2 c).1 = MkServerMapper client ∧
      cloud_LoadBalancer c =
        (MkLoadbalancer (MkLbMapper client) (MkServerMapper client) None None, true)
  | (Err _, w') => Getenv accessToken = "" ∧ w' = w ++ config_lines config
  | (Panic _, _) => False
  end.
Proof. rewrite newCloudscaleProvider_eq. by case_decide. Qed.

(** Initializing gives the load balancer the Kubernetes client and the
    recorder of the cloud, which writes to the broadcaster that is shut down
    in the end, and leaves the clients of the API alone. *)
Theorem Initialize_correct `{Build} `{ClientGoTypes} {W} `{!ClientGo W} c builder (w : W) c' stopped w' :
  Initialize c builder w = (Ok (c', stopped), w') →
  ∃ client broadcaster r w1 w2 w3,
    ClientOrDie builder component w = (Ok client, w1) ∧
    NewBroadcaster w1 = (Ok broadcaster, w2) ∧
    StartRecordingToSink broadcaster client "" w2 = (Ok tt, w3) ∧
    NewRecorder broadcaster component w3 = (Ok r, w') ∧
    k8s (cloud_loadbalancer c') = Some client ∧
    recorder (cloud_loadbalancer c') = Some r ∧ eventRecorder c' = Some r ∧
    lbs (cloud_loadbalancer c') = lbs (cloud_loadbalancer c) ∧
    srv (cloud_loadbalancer c') = srv (cloud_loadbalancer c) ∧
    cloud_instances c' = cloud_instances c ∧ stopped = Shutdown broadcaster.
Proof.
  unfold Initialize. intros (client & w1 & Hc & Hr)%M_bind_Ok.
  apply M_bind_Ok in Hr as (b & w2 & Hb & Hr). apply M_bind_Ok in Hr as ([] & w3 & Hs & Hr).
  apply M_bind_Ok in Hr as (r & w4 & Hn & Hr). injection Hr as <- <- <-.
  by exists client, b, r, w1, w2, w3.
Qed.

Lemma maskAccessToken_correct_witness :
  let token := "abcdefgh" in
  maskAccessToken token = "abcd****" ∧
  ((String.length token < 4)%nat ∧ maskAccessToken token = "" ∨
   String.length (maskAccessToken token) = String.length token ∧
   ∃ shown hidden, token = shown +:+ hidden ∧ String.length shown = 4%nat ∧
     maskAccessToken token = shown +:+ Repeat "*" (String.length hidden)).
Proof.
  intros token. split; [vm_compute; reflexivity|].
  apply (maskAccessToken_correct token). repeat constructor.
Defined.
