(* ===== verification/Command.v ===== *)
(** * Command

    src/cmd/cloudscale-cloud-controller-manager/main.go, and the registration
    of the provider in src/pkg/cloudscale_ccm/cloud.go: how the process
    starts, when it exits, and with which status.

    The command line framework of k8s.io/cloud-provider is the class
    [Framework], its registry of providers the class [Plugins].  The process
    ends at the first exit: what would run after it does not happen. *)

From stdpp Require Import base tactics list strings.
From Stdlib Require Import ZArith.
From S2P Require Import Prelude.
From S2P Require Import GoStrings.
From S2P Require Import Cloudscale.
From S2P Require Import ProviderID.
From S2P Require Import Cloud.

(** ** Processes *)

(** How a piece of the process ends: it returns, or the process is over. *)
Inductive outcome (A : Type) : Type :=
| Returned (a : A)
| Exited (status : Z)
| Crashed (msg : string).
Arguments Returned {A} a.
Arguments Exited {A} status.
Arguments Crashed {A} msg.

Definition proc (A : Type) : Type := logs → outcome A * logs.

#[global] Instance proc_ret : MRet proc := λ A a w, (Returned a, w).
#[global] Instance proc_bind : MBind proc := λ A B f m w,
  match m w with
  | (Returned a, w') => f a w'
  | (Exited status, w') => (Exited status, w')
  | (Crashed msg, w') => (Crashed msg, w')
  end.

(** A call that returns a value and an error. *)
Definition outcome_of {A} (m : M logs A) : proc (result A) := λ w,
  match m w with
  | (Ok a, w') => (Returned (Ok a), w')
  | (Err e, w') => (Returned (Err e), w')
  | (Panic msg, w') => (Crashed msg, w')
  end.

Definition write (line : log_line) : proc unit := λ w, (Returned tt, w ++ [line]).

(** The status package klog exits with after a fatal line. *)
Class Klog := fatal_status : Z.

Definition Fatalf `{Klog} {A} (text : string) : proc A := λ w,
  (Exited fatal_status, w ++ [LogFatal text]).

Definition os_Exit {A} (status : Z) : proc A := λ w, (Exited status, w).

(** The text of an error, for a format with [%v]. *)
Class ErrorText := error_text : error → string.

(** ** The framework *)

Section command.
Context `{Build} `{ClientGoTypes} `{ErrorText} `{Klog}.

(** What a provider is made with: whether there is a configuration file. *)
Definition factory : Type := bool → M logs cloud.

(** Package k8s.io/cloud-provider: the registry of providers.  The name and
    the path of a configuration file give a provider, or nil. *)
Class Plugins := {
  plugins : Type;
  RegisterCloudProvider : string → factory → plugins → plugins;
  InitCloudProvider : plugins → string → string → M logs (option cloud) }.

(** The part of the configuration the initializer reads. *)
Record config : Type := MkConfig {
  Name : string;
  CloudConfigFile : string;
  AllowUntaggedCloud : bool }.

(** Package k8s.io/cloud-provider/app: the options of the command, the setter
    of the provider's name, and the run of the command, which calls the
    initializer with the completed configuration. *)
Class Framework := {
  Options : Type;
  NewCloudControllerManagerOptions : option Options * option error;
  set_provider_name : string → Options → Options;
  Run_command : Options → (config → proc (option cloud)) → proc Z }.

Context `{!Plugins}.

(** [init] of package cloudscale_ccm. *)
Definition init (Getenv : string → string) (ps : plugins) : plugins :=
  RegisterCloudProvider ProviderName (newCloudscaleProvider Getenv) ps.

Definition untagged_warning : string :=
  "Detected a cluster without a ClusterID. A ClusterID will be required in the future. Please tag your cluster to avoid any future issues".

Definition untagged_fatal : string :=
  "No ClusterID found. A ClusterID is required for the cloud provider to function properly. This check can be bypassed by setting the allow-untagged-cloud option".

Definition cloudInitializer (ps : plugins) (config : config) : proc (option cloud) :=
  initialized ← outcome_of (InitCloudProvider ps (Name config) (CloudConfigFile config));
  match initialized with
  | Err err => Fatalf ("Cloud provider could not be initialized: " +:+ error_text err)
  | Panic msg => λ w, (Crashed msg, w)
  | Ok None => Fatalf "Cloud provider is nil"
  | Ok (Some cloud) =>
      _ ← (if negb (cloud_HasClusterID cloud) then
             if AllowUntaggedCloud config then write (LogWarning untagged_warning)
             else Fatalf untagged_fatal
           else mret tt);
      _ ← write (LogInfo "cloudscale-cloud-controller-manager initialized");
      mret (Some cloud)
  end.

Definition nil_options : string := "invalid memory address or nil pointer dereference".

(** The options are dereferenced before the error is looked at. *)
Definition main `{!Framework} (ps : plugins) : proc unit :=
  let '(ccmOptions, err) := NewCloudControllerManagerOptions in
  match ccmOptions with
  | None => λ w, (Crashed nil_options, w)
  | Some options =>
      let options := set_provider_name ProviderName options in
      match err with
      | Some err => Fatalf ("unable to initialize command options: " +:+ error_text err)
      | None =>
          status ← Run_command options (cloudInitializer ps);
          os_Exit status
      end
  end.
End command.

(** ** Properties *)

Section spec.
Context `{Build} `{ClientGoTypes} `{ErrorText} `{Klog} `{!Plugins} `{!Framework}.

(** A registered provider is made without a configuration file if none is
    named; its error is wrapped. *)
Class PluginsLaws := {
  init_error : error → error;
  law_registered f ps w :
    InitCloudProvider (RegisterCloudProvider ProviderName f ps) ProviderName "" w =
    match f false w with
    | (Ok c, w') => (Ok (Some c), w')
    | (Err e, w') => (Err (init_error e), w')
    | (Panic msg, w') => (Panic msg, w')
    end }.

(** A run of the command completes the configuration from the options and the
    flags, calls the initializer, and serves what it returns.  The name set
    on the options is only the default of a flag, so nothing is assumed about
    the name of the completed configuration. *)
Class FrameworkLaws := {
  complete : Options → proc config;
  serve : config → option cloud → proc Z;
  law_run o f : Run_command o f = (c ← complete o; cloud ← f c; serve c cloud) }.

Context `{!PluginsLaws} `{!FrameworkLaws}.

Lemma cloudInitializer_eq Getenv ps (c : config) w :
  Name c = ProviderName → CloudConfigFile c = "" →
  cloudInitializer (init Getenv ps) c w =
  if decide (Getenv accessToken = "") then
    (Exited fatal_status, w ++ [LogFatal ("Cloud provider could not be initialized: " +:+
       error_text (init_error (ErrorString ("no " +:+ accessToken +:+ " configured"))))])
  else if AllowUntaggedCloud c then
    (Returned (Some (new_cloud Getenv)), w ++ [client_line Getenv; LogWarning untagged_warning;
       LogInfo "cloudscale-cloud-controller-manager initialized"])
  else (Exited fatal_status, w ++ [client_line Getenv; LogFatal untagged_fatal]).
Proof.
  intros Hn Hf. unfold cloudInitializer, init, outcome_of, mbind, proc_bind. rewrite Hn, Hf, law_registered.
  rewrite newCloudscaleProvider_eq. simpl. rewrite app_nil_r.
  case_decide; simpl; [done|]. destruct (AllowUntaggedCloud c); simpl; by rewrite <- !app_assoc.
Qed.

(** [os.Exit] after the command. *)
Definition exits_with (r : outcome Z * logs) : outcome unit * logs :=
  match r with
  | (Returned status, w) => (Exited status, w)
  | (Exited status, w) => (Exited status, w)
  | (Crashed msg, w) => (Crashed msg, w)
  end.

Definition init_fatal (err : error) : string :=
  "Cloud provider could not be initialized: " +:+ error_text err.

(** C34. The process always ends with an exit or a crash.  With usable options,
    and if the completed configuration names this provider and no file, it
    serves the provider, and exits with the status of the command, exactly if
    a token is configured and clusters without an ID are allowed: the provider
    never has one.  Otherwise it exits at once with a fatal line: the missing
    token or the missing cluster ID.  Whatever the configuration names, an
    error of the registry, or no provider from it, ends the process with that
    reason.  An error of the options is reported only if they are not nil;
    else the process crashes. *)
Theorem main_correct Getenv ps w :
  let run := main (init Getenv ps) w in
  match NewCloudControllerManagerOptions with
  | (None, _) => run = (Crashed nil_options, w)
  | (Some _, Some err) => run =
      (Exited fatal_status,
       w ++ [LogFatal ("unable to initialize command options: " +:+ error_text err)])
  | (Some options, None) =>
      match complete (set_provider_name ProviderName options) w with
      | (Returned c, w1) =>
          (Name c = ProviderName → CloudConfigFile c = "" →
           (Getenv accessToken ≠ "" ∧ AllowUntaggedCloud c = true ∧
              run = exits_with (serve c (Some (new_cloud Getenv))
                (w1 ++ [client_line Getenv; LogWarning untagged_warning;
                        LogInfo "cloudscale-cloud-controller-manager initialized"]))) ∨
           (Getenv accessToken ≠ "" ∧ AllowUntaggedCloud c = false ∧
              run = (Exited fatal_status, w1 ++ [client_line Getenv; LogFatal untagged_fatal])) ∨
           (Getenv accessToken = "" ∧
              run = (Exited fatal_status, w1 ++ [LogFatal
                (init_fatal (init_error (ErrorString ("no " +:+ accessToken +:+ " configured"))))]))) ∧
          (∀ err w2, InitCloudProvider (init Getenv ps) (Name c) (CloudConfigFile c) w1 = (Err err, w2) →
             run = (Exited fatal_status, w2 ++ [LogFatal (init_fatal err)])) ∧
          (∀ w2, InitCloudProvider (init Getenv ps) (Name c) (CloudConfigFile c) w1 = (Ok None, w2) →
             run = (Exited fatal_status, w2 ++ [LogFatal "Cloud provider is nil"]))
      | (Exited status, w1) => run = (Exited status, w1)
      | (Crashed msg, w1) => run = (Crashed msg, w1)
      end
  end.
Proof.
  intros run. unfold run, main. clear run.
  destruct NewCloudControllerManagerOptions as [[options|] [err|]]; [done| |done..].
  unfold mbind, proc_bind. rewrite law_run. unfold mbind, proc_bind.
  destruct (complete _ w) as [[c|status|msg] w1]; [|done..]. split_and!.
  - intros Hn Hf. rewrite (cloudInitializer_eq Getenv ps c w1 Hn Hf).
    case_decide as Ht; [by right; right|]. destruct (AllowUntaggedCloud c) eqn:Ha; [left|by right; left].
    split; [done|]. split; [done|]. by destruct (serve _ _ _) as [[]].
  - intros err w2 Hi. unfold cloudInitializer, outcome_of, mbind, proc_bind. by rewrite Hi.
  - intros w2 Hi. unfold cloudInitializer, outcome_of, mbind, proc_bind. by rewrite Hi.
Qed.
End spec.

(** ** A command line of its own *)

Module Example_command.
#[local] Instance build : Build := {| sdk_UserAgent := "cloudscale/go"; GitVersion := "v1.0.0" |}.
#[local] Instance types : ClientGoTypes :=
  {| ClientBuilder := unit; KubeClient := unit; Broadcaster := unit; EventRecorder := unit |}.
#[local] Instance text : ErrorText := λ err,
  match err with ErrorString msg => msg | _ => "" end.
#[local] Instance status : Klog := 255%Z.

(** The registry: the providers by name, the last one first. *)
#[local] Instance registry : Plugins := {|
  plugins := list (string * factory);
  RegisterCloudProvider name f ps := (name, f) :: ps;
  InitCloudProvider ps name file :=
    match head (filter (λ p, p.1 = name) ps) with
    | Some (_, f) => c ← f (bool_decide (file ≠ "")); mret (Some c)
    | None => throw (ErrorString "unknown cloud provider")
    end |}.

#[local] Instance framework : Framework := {|
  Options := config;
  NewCloudControllerManagerOptions := (Some (MkConfig "" "" true), None);
  set_provider_name name o := MkConfig name (CloudConfigFile o) (AllowUntaggedCloud o);
  Run_command o f := _ ← f o; mret 0%Z |}.

#[local, program] Instance registry_laws : PluginsLaws := {| init_error err := err |}.
Next Obligation.
  intros f ps w. simpl. unfold mbind, M_bind. by destruct (f false w) as [[]].
Qed.

#[local, program] Instance laws : FrameworkLaws := {|
  complete o := mret o;
  serve _ _ := mret 0%Z |}.
Next Obligation. done. Qed.

Definition no_plugins : plugins := [].

Definition env (name : string) : string :=
  if decide (name = accessToken) then "secret-token" else "".

(** The process serves and exits with the status 0. *)
Lemma main_correct_witness :
  main (init env no_plugins) [] =
    (Exited 0%Z, [client_line env; LogWarning untagged_warning;
                LogInfo "cloudscale-cloud-controller-manager initialized"]).
Proof.
  pose proof (main_correct env no_plugins []) as Hmain. cbv zeta in Hmain.
  cbn [NewCloudControllerManagerOptions framework complete laws mret proc_ret] in Hmain.
  destruct (proj1 Hmain eq_refl eq_refl) as [(_ & _ & Hrun)|[(_ & Hf & _)|(Ht & _)]].
  - exact Hrun.
  - discriminate Hf.
  - vm_compute in Ht. discriminate Ht.
Defined.
End Example_command.
