(* ===== verification/Http.v ===== *)
(** * Http

    What the programs here use of Go's net/http: the patterns of a
    [http.ServeMux] that consist of a method and literal path segments, their
    conflicts, how a request finds its handler, and what a [http.Server]
    answers itself.  Patterns with a host or with wildcards do not occur and
    are refused.  A path is the escaped one of the URL; the router decodes its
    segments, which is not modelled: percent-encoded paths are left out. *)

From stdpp Require Import base tactics list strings.
From Stdlib Require Import ZArith.
From S2P Require Import Prelude.
From S2P Require Import GoStrings.

(** [strings.Split(s, sep)] for a separator of one byte. *)
Fixpoint Split (s : string) (sep : ascii) : list string :=
  match s with
  | EmptyString => [""]
  | String c s' =>
      if Ascii.eqb c sep then "" :: Split s' sep
      else match Split s' sep with
           | [] => [String c ""]
           | x :: l => String c x :: l
           end
  end.

(** ** Patterns *)

(** A trailing slash matches every rest that begins with a slash. *)
Inductive segment : Type := Lit (s : string) | Multi.

#[global] Instance segment_eq_dec : EqDecision segment.
Proof. solve_decision. Defined.

#[global] Instance Lit_inj : Inj (=) (=) Lit.
Proof. by intros a b [=]. Qed.

Record pattern : Type := MkPattern { pattern_method : string; pattern_path : list segment }.

#[global] Instance pattern_eq_dec : EqDecision pattern.
Proof. solve_decision. Defined.

(** The segments of a path that begins with a slash. *)
Definition path_segments (path : string) : option (list string) :=
  match path with
  | String "/" rest => Some (Split rest "/")
  | _ => None
  end.

(** [cleanPath] leaves the path as it is: only its last segment may be empty. *)
Definition clean_segments (segs : list string) : bool :=
  forallb (λ s, negb (bool_decide (s = "" ∨ s = "." ∨ s = ".."))) (removelast segs) &&
  negb (bool_decide (default "" (last segs) = "." ∨ default "" (last segs) = "..")).

Fixpoint pattern_segments (segs : list string) : list segment :=
  match segs with
  | [] => []
  | [s] => if decide (s = "") then [Multi] else [Lit s]
  | s :: segs' => Lit s :: pattern_segments segs'
  end.

Definition is_blank (c : ascii) : bool := Ascii.eqb c " " || Ascii.eqb c "009".

(** [s[:i]] and [s[i+1:]] at the first blank. *)
Fixpoint cut_blank (s : string) : option (string * string) :=
  match s with
  | EmptyString => None
  | String c s' =>
      if is_blank c then Some ("", s')
      else '(a, b) ← cut_blank s'; Some (String c a, b)
  end.

(** The bytes of a method. *)
Definition token_byte (c : ascii) : bool :=
  let n := Z.of_N (N_of_ascii c) in
  ((65 <=? n) && (n <=? 90) || (97 <=? n) && (n <=? 122) || (48 <=? n) && (n <=? 57))%Z ||
  Contains "!#$%&'*+-.^_`|~" (String c "").

(** [parsePattern], for patterns without a host and wildcards. *)
Definition parse_pattern (s : string) : option pattern :=
  let '(method, rest) := match cut_blank s with
                         | Some (m, r) => (m, TrimLeft is_blank r)
                         | None => ("", s)
                         end in
  if negb (all_bytes token_byte method) then None
  else if negb (without "{" rest) then None
  else
    segs ← path_segments rest;
    if negb (clean_segments segs) && bool_decide (method ≠ "" ∧ method ≠ "CONNECT") then None
    else Some (MkPattern method (pattern_segments segs)).

(** ** Conflicts *)

Inductive relationship : Type := equivalent | moreGeneral | moreSpecific | disjoint | overlaps.

#[global] Instance relationship_eq_dec : EqDecision relationship.
Proof. solve_decision. Defined.

Definition inverse (r : relationship) : relationship :=
  match r with moreGeneral => moreSpecific | moreSpecific => moreGeneral | _ => r end.

Definition combine (r1 r2 : relationship) : relationship :=
  match r1 with
  | equivalent => r2
  | disjoint => disjoint
  | overlaps => if decide (r2 = disjoint) then disjoint else overlaps
  | moreGeneral | moreSpecific =>
      if decide (r2 = equivalent) then r1
      else if decide (r2 = inverse r1) then overlaps else r2
  end.

Definition compareMethods (m1 m2 : string) : relationship :=
  if decide (m1 = m2) then equivalent
  else if decide (m1 = "") then moreGeneral
  else if decide (m2 = "") then moreSpecific
  else if decide (m1 = "GET" ∧ m2 = "HEAD") then moreGeneral
  else if decide (m2 = "GET" ∧ m1 = "HEAD") then moreSpecific
  else disjoint.

(** A multi segment is always the last. *)
Fixpoint comparePaths (p1 p2 : list segment) : relationship :=
  match p1, p2 with
  | [], [] => equivalent
  | [Multi], [Multi] => equivalent
  | [Multi], _ :: _ => moreGeneral
  | _ :: _, [Multi] => moreSpecific
  | Lit a :: p1', Lit b :: p2' => if decide (a = b) then comparePaths p1' p2' else disjoint
  | _, _ => disjoint
  end.

Definition conflicts (p q : pattern) : bool :=
  let r := combine (compareMethods (pattern_method p) (pattern_method q))
             (comparePaths (pattern_path p) (pattern_path q)) in
  bool_decide (r = equivalent ∨ r = overlaps).

(** ** Routing *)

Section mux.
Context {A : Type}.

(** What is registered with a mux, in order. *)
Definition ServeMux : Type := list (pattern * A).

Definition err_conflict : string := "pattern conflicts with another pattern".

(** [Handle] panics on a pattern it cannot parse or that conflicts. *)
Definition Handle (mux : ServeMux) (pattern : string) (handler : A) : result ServeMux :=
  match parse_pattern pattern with
  | None => Panic ("parsing " +:+ pattern)
  | Some p =>
      if existsb (λ r, conflicts p r.1) mux then Panic err_conflict
      else Ok (mux ++ [(p, handler)])
  end.

(** The rest of a path below its first segment. *)
Definition child (seg : string) (r : list segment * (pattern * A)) : option (list segment * (pattern * A)) :=
  match r.1 with
  | Lit s :: rest => if decide (s = seg) then Some (rest, r.2) else None
  | _ => None
  end.

Definition with_rest (rest : list segment) (rs : list (list segment * (pattern * A)))
    : option (pattern * A) :=
  snd <$> head (filter (λ r, r.1 = rest) rs).

(** Literal segments come first, then the subtree of this node. *)
Fixpoint match_path (rs : list (list segment * (pattern * A))) (path : list string)
    : option (pattern * A) :=
  match path with
  | [] => with_rest [] rs
  | seg :: path' =>
      match match_path (omap (child seg) rs) path' with
      | Some r => Some r
      | None => with_rest [Multi] rs
      end
  end.

Definition match_in (mux : ServeMux) (method : string) (path : list string)
    : option (pattern * A) :=
  match_path ((λ r, (pattern_path r.1, r)) <$> filter (λ r, pattern_method r.1 = method) mux) path.

Definition match_request (mux : ServeMux) (method : string) (path : list string)
    : option (pattern * A) :=
  match match_in mux method path with
  | Some r => Some r
  | None =>
      match (if decide (method = "HEAD") then match_in mux "GET" path else None) with
      | Some r => Some r
      | None => match_in mux "" path
      end
  end.

Definition trailing_slash (path : list string) : bool := bool_decide (last path = Some "").

Definition exactMatch (r : option (pattern * A)) (path : list string) : bool :=
  match r with
  | None => false
  | Some (p, _) =>
      if decide (last (pattern_path p) = Some Multi)
      then trailing_slash path && bool_decide (length (pattern_path p) = length path)
      else true
  end.

(** What a mux does with a request. *)
Inductive route : Type :=
| Handler (handler : A)
| Redirect
| MethodNotAllowed
| NotFound.

(** The path is known for some method. *)
Definition other_method (mux : ServeMux) (path : list string) : bool :=
  existsb (λ r, match match_in mux (pattern_method r.1) path with
                | Some _ => true | None => false end) mux.

(** Paths are cleaned by a redirect, but not for the method CONNECT, which may
    come with no path at all. *)
Definition cleans (method : string) : bool := negb (bool_decide (method = "CONNECT")).

Definition find_handler (mux : ServeMux) (method path : string) : route :=
  match path_segments path with
  | None => if cleans method then Redirect else NotFound
  | Some segs =>
      let found := match_request mux method segs in
      if negb (exactMatch found segs) && negb (trailing_slash segs) &&
         exactMatch (match_request mux method (segs ++ [""])) (segs ++ [""]) then Redirect
      else if negb (clean_segments segs) && cleans method then Redirect
      else
        match found with
        | Some (_, handler) => Handler handler
        | None => if other_method mux segs || other_method mux (segs ++ [""])
                  then MethodNotAllowed else NotFound
        end
  end.
End mux.
Arguments ServeMux A : clear implicits.
Arguments route A : clear implicits.

(** ** Requests and responses *)

Record response : Type := MkResponse { status : Z; body : string }.

Definition http_Error (status : Z) (text : string) : response :=
  MkResponse status (text +:+ String "010" "").

(** The answers of a mux itself; the page of a redirect is left empty. *)
Definition mux_response {A} (r : route A) : option response :=
  match r with
  | Handler _ => None
  | Redirect => Some (MkResponse 301 "")
  | MethodNotAllowed => Some (http_Error 405 "Method Not Allowed")
  | NotFound => Some (http_Error 404 "404 page not found")
  end.

(** A [http.Server] answers [OPTIONS *] itself, before any handler, and a mux
    refuses the target [*] of other methods. *)
Definition general_options (method target : string) : bool :=
  bool_decide (method = "OPTIONS" ∧ target = "*").

Definition options_answer : response := MkResponse 200 "".
Definition star_answer : response := MkResponse 400 "".

(** The answer that is sent: to HEAD, without the body a handler wrote. *)
Definition sent (method : string) (answer : response) : response :=
  MkResponse (status answer) (if decide (method = "HEAD") then "" else body answer).

(** ** Facts *)

Lemma Split_app a b c :
  without c a = true → Split (a +:+ String c b) c = a :: Split b c.
Proof.
  induction a as [|d a IH]; intros Ha; rewrite ?append_cons, ?append_nil.
  - simpl. by rewrite Ascii.eqb_refl.
  - rewrite without_cons in Ha. apply andb_true_iff in Ha as [Hd Ha].
    apply negb_true_iff in Hd. simpl. rewrite Hd, IH by done. done.
Qed.

Lemma Split_without a c : without c a = true → Split a c = [a].
Proof.
  induction a as [|d a IH]; intros Ha; [done|].
  rewrite without_cons in Ha. apply andb_true_iff in Ha as [Hd Ha].
  apply negb_true_iff in Hd. simpl. by rewrite Hd, IH.
Qed.

Lemma Split_not_nil s c : Split s c ≠ [].
Proof. destruct s as [|d s]; [done|]. simpl. case_match; [done|]. by case_match. Qed.

Lemma Split_inj c s t : Split s c = Split t c → s = t.
Proof.
  revert t. induction s as [|d s IH]; intros [|e t]; simpl; try done.
  - destruct (Ascii.eqb e c); [intros [= Heq]; by destruct (Split_not_nil _ _ (eq_sym Heq))|].
    by destruct (Split t c).
  - destruct (Ascii.eqb d c); [intros [= Heq]; by destruct (Split_not_nil _ _ Heq)|].
    by destruct (Split s c).
  - pose proof (Split_not_nil s c). pose proof (Split_not_nil t c).
    destruct (Ascii.eqb d c) eqn:Hd, (Ascii.eqb e c) eqn:He.
    + intros [= Heq]. apply IH in Heq as ->.
      apply Ascii.eqb_eq in Hd as ->. by apply Ascii.eqb_eq in He as ->.
    + destruct (Split t c) eqn:Ht; [done|]. by intros [=].
    + destruct (Split s c) eqn:Hs; [done|]. by intros [=].
    + destruct (Split s c) eqn:Hs, (Split t c) eqn:Ht; try done.
      intros [= Hde Hx Hl]. f_equal; [done|apply IH; congruence].
Qed.

Lemma path_segments_inj p q segs : path_segments p = Some segs → path_segments q = Some segs → p = q.
Proof.
  assert (∀ p segs, path_segments p = Some segs → ∃ rest, p = String "/" rest ∧ Split rest "/" = segs) as Hp.
  { intros [|c rest]; [done|]. simpl. intros s Hs. exists rest.
    destruct c as [[] [] [] [] [] [] [] []]; try done. by injection Hs as <-. }
  intros (a & -> & Ha)%Hp (b & -> & Hb)%Hp. f_equal. apply (Split_inj "/"). congruence.
Qed.

Lemma match_path_nil {A} (path : list string) : match_path (A := A) [] path = None.
Proof. induction path as [|seg path IH]; [done|]. cbn. by rewrite IH. Qed.

(** ** Plain paths *)

(** A path that names one resource and means the same as a pattern. *)
Definition plain_path (p : string) : bool :=
  match path_segments p with
  | Some segs => clean_segments segs && negb (trailing_slash segs) &&
      without "{" p && all_bytes (λ c, negb (is_blank c)) p
  | None => false
  end.

Lemma plain_not_star p : plain_path p = true → p ≠ "*".
Proof. by intros Hp ->. Qed.

Lemma plain_path_segments p : plain_path p = true → ∃ segs,
  path_segments p = Some segs ∧ clean_segments segs = true ∧ trailing_slash segs = false ∧ segs ≠ [].
Proof.
  unfold plain_path. destruct (path_segments p) as [segs|] eqn:Hp; [|done].
  rewrite !andb_true_iff, negb_true_iff. intros [[[Hc Ht] _] _]. exists segs. split_and!; [done..|].
  intros ->. destruct p as [|[[] [] [] [] [] [] [] []] p]; try done. simpl in Hp.
  injection Hp as Hp. by destruct (Split_not_nil _ _ Hp).
Qed.

Lemma cut_blank_None s : all_bytes (λ c, negb (is_blank c)) s = true → cut_blank s = None.
Proof.
  induction s as [|c s IH]; [done|]. simpl. rewrite andb_true_iff, negb_true_iff.
  intros [-> Hs]. by rewrite IH.
Qed.

Lemma pattern_segments_literal segs :
  trailing_slash segs = false → pattern_segments segs = Lit <$> segs.
Proof.
  unfold trailing_slash. rewrite bool_decide_eq_false.
  induction segs as [|s [|s' segs] IH]; intros Ht; [done| |].
  - cbn. rewrite decide_False; [done|]. by intros ->.
  - change (Lit s :: pattern_segments (s' :: segs) = Lit s :: (Lit <$> (s' :: segs))).
    f_equal. by apply IH.
Qed.

Lemma parse_plain p segs :
  plain_path p = true → path_segments p = Some segs →
  parse_pattern p = Some (MkPattern "" (Lit <$> segs)).
Proof.
  unfold plain_path. intros Hp Hs. rewrite Hs, !andb_true_iff, negb_true_iff in Hp.
  destruct Hp as [[[Hc Ht] Hw] Hb]. unfold parse_pattern. rewrite cut_blank_None by done.
  rewrite Hw, Hs. cbn. rewrite Hc, pattern_segments_literal by done. done.
Qed.

(** Literal patterns only conflict with themselves. *)
Lemma comparePaths_literal a b :
  comparePaths (Lit <$> a) (Lit <$> b) = if decide (a = b) then equivalent else disjoint.
Proof.
  revert b. induction a as [|x a IH]; intros [|y b]; [done..|]. cbn [fmap list_fmap comparePaths].
  destruct (decide (x = y)) as [->|Hne].
  - change (list_fmap _ _ Lit a) with (Lit <$> a). change (list_fmap _ _ Lit b) with (Lit <$> b).
    rewrite IH. destruct (decide (a = b)) as [->|Hab]; [by rewrite decide_True|].
    rewrite decide_False by congruence. done.
  - rewrite decide_False by congruence. done.
Qed.

Lemma conflicts_literal a b :
  conflicts (MkPattern "" (Lit <$> a)) (MkPattern "" (Lit <$> b)) = bool_decide (a = b).
Proof.
  unfold conflicts. cbn [pattern_method pattern_path]. unfold compareMethods.
  rewrite decide_True by done. cbn [combine]. rewrite comparePaths_literal.
  by destruct (decide (a = b)); [rewrite !bool_decide_true by tauto|rewrite !bool_decide_false by naive_solver].
Qed.

Lemma conflicts_root a :
  a ≠ [] → conflicts (MkPattern "" (Lit <$> a)) (MkPattern "" [Multi]) = false.
Proof. destruct a as [|x a]; [done|]. intros _. by destruct a. Qed.

(** ** Which route is taken *)

Section routes.
Context {A : Type}.
Implicit Types (rs : list (list segment * (pattern * A))) (path : list string).

Lemma with_rest_child rest seg rs :
  with_rest rest (omap (child seg) rs) = with_rest (Lit seg :: rest) rs.
Proof.
  unfold with_rest. induction rs as [|[p r] rs IH]; [done|]. cbn [omap list_omap].
  rewrite (filter_cons _ (p, r)). cbn [fst].
  destruct p as [|[s|] p]; cbn [child fst snd].
  - rewrite decide_False by done. exact IH.
  - destruct (decide (s = seg)) as [->|Hne].
    + rewrite filter_cons. cbn [fst]. destruct (decide (p = rest)) as [->|Hp].
      * by rewrite decide_True.
      * rewrite (decide_False (P := _ :: _ = _)) by congruence. exact IH.
    + rewrite (decide_False (P := _ :: _ = _)) by congruence. exact IH.
  - rewrite decide_False by done. exact IH.
Qed.

(** Without subtrees only the path itself matches. *)
Lemma match_path_literal rs path :
  (∀ r, r ∈ rs → Multi ∉ r.1) → match_path rs path = with_rest (Lit <$> path) rs.
Proof.
  revert rs. induction path as [|seg path IH]; intros rs Hl; [done|]. cbn [match_path].
  rewrite IH.
  2: { intros r ([p r0] & Hr & Hc)%list_elem_of_omap. unfold child in Hc.
       destruct p as [|[s|] p]; simpl in Hc; try done. case_decide; [|done]. injection Hc as <-.
       intros Hm. apply (Hl _ Hr). by right. }
  rewrite with_rest_child. cbn [fmap list_fmap].
  destruct (with_rest _ _); [done|]. unfold with_rest.
  assert (filter (λ r, r.1 = [Multi]) rs = []) as ->; [|done].
  apply elem_of_nil_inv. intros r [Hm Hr]%list_elem_of_filter. apply (Hl _ Hr). rewrite Hm. by left.
Qed.

(** With the root as the only subtree, it takes what no literal path does. *)
Lemma match_path_rooted rs path :
  path ≠ [] → (∀ r, r ∈ rs → r.1 = [Multi] ∨ Multi ∉ r.1) →
  match_path rs path =
  match with_rest (Lit <$> path) rs with Some r => Some r | None => with_rest [Multi] rs end.
Proof.
  destruct path as [|seg path]; [done|]. intros _ Hl. cbn [match_path].
  rewrite match_path_literal.
  2: { intros r ([p r0] & Hr & Hc)%list_elem_of_omap. unfold child in Hc.
       destruct p as [|[s|] p]; simpl in Hc; try done. case_decide; [|done]. injection Hc as <-.
       intros Hm. destruct (Hl _ Hr) as [Hroot|Hn]; [done|]. apply Hn. by right. }
  by rewrite with_rest_child.
Qed.

(** Only what is registered is found. *)
Lemma with_rest_elem rest rs r : with_rest rest rs = Some r → (rest, r) ∈ rs.
Proof.
  unfold with_rest. intros ([p r'] & Hh & Hr)%fmap_Some. simpl in Hr. subst r'.
  destruct (filter _ rs) as [|x l] eqn:Hf; [done|]. injection Hh as ->.
  assert ((p, r) ∈ filter (λ r, r.1 = rest) rs) as [Hp Hin]%list_elem_of_filter by (rewrite Hf; by left).
  simpl in Hp. by subst p.
Qed.

Lemma match_path_elem rs path r : match_path rs path = Some r → r ∈ rs.*2.
Proof.
  assert (∀ rest rs, with_rest rest rs = Some r → r ∈ rs.*2) as Hrest.
  { intros rest rs' Hr%with_rest_elem. by apply (list_elem_of_fmap_2 snd) in Hr. }
  revert rs. induction path as [|seg path IH]; intros rs; cbn [match_path]; [apply Hrest|].
  destruct (match_path (omap (child seg) rs) path) as [r'|] eqn:Hm; [|apply Hrest].
  intros [= ->]. apply IH, list_elem_of_fmap in Hm as ([p r'] & -> & ([q r0] & Hin & Hc)%list_elem_of_omap).
  unfold child in Hc. destruct q as [|[s|] q]; simpl in Hc; try done. case_decide; [|done].
  injection Hc as _ <-. simpl. by apply (list_elem_of_fmap_2 snd) in Hin.
Qed.

Lemma match_in_elem (mux : ServeMux A) method path r : match_in mux method path = Some r → r ∈ mux.
Proof.
  unfold match_in. intros Hr%match_path_elem. rewrite <- list_fmap_compose in Hr.
  apply list_elem_of_fmap in Hr as (y & -> & [_ Hy]%list_elem_of_filter). done.
Qed.

Lemma match_request_elem (mux : ServeMux A) method path r :
  match_request mux method path = Some r → r ∈ mux.
Proof.
  unfold match_request. destruct (match_in mux method path) as [r1|] eqn:H1.
  { intros [= <-]. by eapply match_in_elem. }
  destruct (if decide (method = "HEAD") then match_in mux "GET" path else None) as [r2|] eqn:H2.
  - intros [= <-]. case_decide; [|done]. by eapply match_in_elem.
  - apply match_in_elem.
Qed.

Lemma find_handler_elem (mux : ServeMux A) method target h :
  find_handler mux method target = Handler h → ∃ p, (p, h) ∈ mux.
Proof.
  unfold find_handler. destruct (path_segments target) as [segs|]; [|by destruct (cleans method)].
  destruct (_ && _ && _); [done|]. destruct (_ && _); [done|].
  destruct (match_request mux method segs) as [[p h']|] eqn:Hm; [|by destruct (_ || _)].
  intros [= <-]. exists p. by eapply match_request_elem.
Qed.

(** A registered root takes every path. *)
Lemma match_path_total rs path :
  path ≠ [] → is_Some (with_rest [Multi] rs) → is_Some (match_path rs path).
Proof. destruct path as [|seg path]; [done|]. intros _ Hr. cbn [match_path]. by destruct (match_path _ _). Qed.
End routes.
