(* ===== verification/HttpEcho.v ===== *)
(** * HttpEcho

    src/cmd/http-echo/main.go: a server that tells whether the connection of
    a request was made with the PROXY protocol.  Connections come from package
    go-proxyproto: a connection is one of its type or not, and may have a
    header.  Opening the socket is an argument, and so are the requests that
    come in: those net/http could read, and so passes on.  Their paths are
    not percent-encoded. *)

From stdpp Require Import base tactics list strings.
From Stdlib Require Import ZArith.
From S2P Require Import Prelude.
From S2P Require Import GoStrings.
From S2P Require Import Http.

(** [net.Conn]: for a [*proxyproto.Conn], whether it has a header. *)
Record Conn : Type := MkConn { proxy_header : option bool }.

(** The target of the request line and the path in it. *)
Record Request : Type := MkRequest {
  Method : string;
  Path : string;
  RequestURI : string;
  RemoteAddr : string;
  conn : Conn }.

(** The value [ConnContext] puts under [HasProxyHeader]. *)
Definition ConnContext (c : Conn) : bool :=
  match proxy_header c with Some header => header | None => false end.

Definition newline : string := String "010" "".

(** Writes 'true' if the PROXY protocol was used for the given connection. *)
Definition used_handler (r : Request) : response :=
  MkResponse 200 ((if ConnContext (conn r) then "true" else "false") +:+ newline).

Definition router : result (ServeMux (Request → response)) :=
  Handle [] "GET /proxy-protocol/used" used_handler.

(** [ServeHTTP] of the mux. *)
Definition ServeHTTP (mux : ServeMux (Request → response)) (r : Request) : response :=
  if decide (RequestURI r = "*") then star_answer
  else
  match find_handler mux (Method r) (Path r) with
  | Handler h => h r
  | other => default (http_Error 404 "404 page not found") (mux_response other)
  end.

(** What is printed, line by line. *)
Definition stdout : Type := list string.

Definition log (h : Request → response) (r : Request) (out : stdout) : response * stdout :=
  (h r, out ++ [Method r +:+ " " +:+ RequestURI r +:+ " (" +:+ RemoteAddr r +:+ ")"]).

(** What [http.Server] does with a request: [OPTIONS *] does not reach the
    handler, and the body of an answer to HEAD is not sent. *)
Definition server_request (handler : Request → stdout → response * stdout) (r : Request)
    (out : stdout) : response * stdout :=
  let '(answer, out1) :=
    if general_options (Method r) (RequestURI r) then (options_answer, out) else handler r out in
  (sent (Method r) answer, out1).

(** The requests a server gets, one after the other. *)
Fixpoint serve_requests (handler : Request → stdout → response * stdout) (rs : list Request)
    (out : stdout) : list response * stdout :=
  match rs with
  | [] => ([], out)
  | r :: rs' =>
      let '(answer, out1) := server_request handler r out in
      let '(answers, out2) := serve_requests handler rs' out1 in
      (answer :: answers, out2)
  end.

Definition server_addr (host : string) (port : Z) : string := host +:+ ":" +:+ Itoa port.

(** [Listen] opens the socket or fails; then come the requests. *)
Definition serve (Listen : string → option string) (host : string) (port : Z) (rs : list Request)
    : result (list response * stdout) :=
  mux ← router;
  let addr := server_addr host port in
  match Listen addr with
  | Some err => Panic err
  | None => Ok (serve_requests (log (ServeHTTP mux)) rs ["Listening on " +:+ addr])
  end.

(** The flags, where they are given. *)
Definition main (Listen : string → option string) (host : option string) (port : option Z)
    (rs : list Request) : result (list response * stdout) :=
  serve Listen (default "127.0.0.1" host) (default 8080%Z port) rs.

(** ** Properties *)

(** The connection was made with the PROXY protocol and has its header. *)
Definition proxied (r : Request) : bool := bool_decide (proxy_header (conn r) = Some true).

(** [OPTIONS *], which the server answers itself. *)
Definition for_server (r : Request) : Prop := Method r = "OPTIONS" ∧ RequestURI r = "*".

#[global] Instance for_server_dec r : Decision (for_server r).
Proof. unfold for_server. apply _. Defined.

(** The answer to one request. *)
Record echoes (r : Request) (answer : response) : Prop := {
  echo_star : RequestURI r = "*" →
    answer = MkResponse (if decide (Method r = "OPTIONS") then 200 else 400) "";
  echo_get : RequestURI r ≠ "*" → Path r = "/proxy-protocol/used" → Method r = "GET" →
    answer = MkResponse 200 ((if proxied r then "true" else "false") +:+ newline);
  echo_head : RequestURI r ≠ "*" → Path r = "/proxy-protocol/used" → Method r = "HEAD" →
    answer = MkResponse 200 "";
  echo_method : RequestURI r ≠ "*" → Path r = "/proxy-protocol/used" →
    Method r ≠ "GET" → Method r ≠ "HEAD" → status answer = 405%Z;
  echo_200 : RequestURI r ≠ "*" → status answer = 200%Z →
    Path r = "/proxy-protocol/used" ∧ (Method r = "GET" ∨ Method r = "HEAD") }.

(** The one route. *)
Definition used_segments : list string := ["proxy-protocol"; "used"].
Definition used_pattern : pattern := MkPattern "GET" (Lit <$> used_segments).
Definition used_mux : ServeMux (Request → response) := [(used_pattern, used_handler)].

Lemma router_Ok : router = Ok used_mux.
Proof. reflexivity. Qed.

Lemma used_match_path path :
  match_path [(Lit <$> used_segments, (used_pattern, used_handler))] path =
  if decide (path = used_segments) then Some (used_pattern, used_handler) else None.
Proof.
  unfold used_segments. destruct path as [|a path]; [reflexivity|]. cbn [match_path].
  destruct (decide ("proxy-protocol" = a)) as [<-|Ha].
  2: { unfold child. simpl. rewrite !decide_False by congruence. by rewrite match_path_nil. }
  change (omap (child "proxy-protocol") _) with [([Lit "used"], (used_pattern, used_handler))].
  destruct path as [|b path]; [reflexivity|]. cbn [match_path].
  destruct (decide ("used" = b)) as [<-|Hb].
  2: { unfold child. simpl. rewrite !decide_False by congruence. by rewrite match_path_nil. }
  change (omap (child "used") _) with [([] : list segment, (used_pattern, used_handler))].
  destruct path as [|c path]; [reflexivity|]. cbn. rewrite match_path_nil.
  by rewrite decide_False by congruence.
Qed.

Lemma used_match_in method path :
  match_in used_mux method path =
  if decide (method = "GET" ∧ path = used_segments) then Some (used_pattern, used_handler) else None.
Proof.
  unfold match_in.
  change (filter _ used_mux) with (if decide ("GET" = method) then used_mux else []).
  destruct (decide ("GET" = method)) as [<-|Hm].
  - etrans; [apply used_match_path|]. destruct (decide (path = used_segments)).
    + by rewrite decide_True.
    + rewrite decide_False; [done|]. by intros [_ ?].
  - rewrite decide_False; [apply match_path_nil|]. intros [-> _]. done.
Qed.

Lemma used_match method path :
  match_request used_mux method path =
  if decide ((method = "GET" ∨ method = "HEAD") ∧ path = used_segments)
  then Some (used_pattern, used_handler) else None.
Proof.
  unfold match_request. destruct (decide (path = used_segments)) as [Hp|Hp].
  - destruct (decide (method = "GET")) as [->|Hg].
    { rewrite used_match_in, !decide_True by tauto. done. }
    rewrite (used_match_in method), decide_False by tauto.
    destruct (decide (method = "HEAD")) as [->|Hh].
    + rewrite used_match_in, !decide_True by tauto. done.
    + rewrite used_match_in, !decide_False by (try tauto; intros [??]; done). done.
  - assert (∀ m, match_in used_mux m path = None) as Hn.
    { intros m. rewrite used_match_in. apply decide_False. tauto. }
    rewrite !Hn, (decide_False (P := _ ∧ _)) by tauto. by destruct (decide (method = "HEAD")).
Qed.

Lemma used_exact method path :
  exactMatch (match_request used_mux method path) path =
  bool_decide ((method = "GET" ∨ method = "HEAD") ∧ path = used_segments).
Proof. 
  rewrite used_match. destruct (decide _) as [H|H].
  - by rewrite bool_decide_true.
  - by rewrite bool_decide_false.
Qed.

(** How a request is routed: the one address answers reads and refuses other
    methods, and every other request is redirected or not found. *)
Lemma used_route method path :
  find_handler used_mux method path =
  match path_segments path with
  | None => if cleans method then Redirect else NotFound
  | Some segs =>
      if negb (clean_segments segs) && cleans method then Redirect
      else if decide (segs = used_segments) then
        if decide (method = "GET" ∨ method = "HEAD") then Handler used_handler else MethodNotAllowed
      else NotFound
  end.
Proof.
  unfold find_handler. destruct (path_segments path) as [segs|]; [|done].
  rewrite !used_exact, used_match.
  assert (bool_decide ((method = "GET" ∨ method = "HEAD") ∧ segs ++ [""] = used_segments) = false) as ->.
  { apply bool_decide_false. intros [_ Heq]. apply (f_equal last) in Heq.
    rewrite last_snoc in Heq. discriminate. }
  rewrite !andb_false_r. destruct (_ && cleans method); [done|].
  assert (∀ path, other_method used_mux path = bool_decide (path = used_segments)) as Hother.
  { intros p. unfold other_method. cbn [existsb used_mux]. rewrite used_match_in, orb_false_r.
    destruct (decide (p = used_segments)) as [->|Hp].
    - by rewrite decide_True, bool_decide_true.
    - by rewrite decide_False, bool_decide_false by tauto. }
  destruct (decide (segs = used_segments)) as [->|Hs].
  - destruct (decide (method = "GET" ∨ method = "HEAD")) as [Hm|Hm].
    + by rewrite decide_True.
    + rewrite decide_False by tauto. by rewrite Hother, bool_decide_true.
  - rewrite (decide_False (P := _ ∧ _)) by tauto.
    rewrite !Hother, !bool_decide_false; [done| |done]. intros Heq. apply (f_equal last) in Heq.
    rewrite last_snoc in Heq. discriminate.
Qed.

Lemma ConnContext_proxied r : ConnContext (conn r) = proxied r.
Proof. unfold ConnContext, proxied. by destruct (proxy_header (conn r)) as [[]|]. Qed.

(** What the mux answers a request for a path. *)
Lemma ServeHTTP_path r :
  RequestURI r ≠ "*" → Path r = "/proxy-protocol/used" →
  ServeHTTP used_mux r =
  if decide (Method r = "GET" ∨ Method r = "HEAD") then used_handler r
  else http_Error 405 "Method Not Allowed".
Proof.
  intros Hu Hp. unfold ServeHTTP. rewrite decide_False, used_route, Hp by done.
  change (path_segments "/proxy-protocol/used") with (Some used_segments).
  change (clean_segments used_segments) with true. cbn [negb andb].
  rewrite decide_True by done. by destruct (decide (_ ∨ _)).
Qed.

Lemma ServeHTTP_200 r :
  RequestURI r ≠ "*" → status (ServeHTTP used_mux r) = 200%Z →
  Path r = "/proxy-protocol/used" ∧ (Method r = "GET" ∨ Method r = "HEAD").
Proof.
  intros Hu. unfold ServeHTTP. rewrite decide_False, used_route by done.
  destruct (path_segments (Path r)) as [segs|] eqn:Hp; [|by destruct (cleans _)].
  destruct (negb _ && _); [done|].
  destruct (decide (segs = used_segments)) as [->|]; [|done].
  destruct (decide (_ ∨ _)) as [Hm|]; [|done]. intros _. split; [|done].
  by apply (path_segments_inj _ "/proxy-protocol/used" used_segments).
Qed.

Definition log_of (r : Request) : string :=
  Method r +:+ " " +:+ RequestURI r +:+ " (" +:+ RemoteAddr r +:+ ")".

Definition logged (rs : list Request) : list string := log_of <$> filter (λ r, ¬ for_server r) rs.

Lemma server_request_echoes r out :
  ∃ answer, server_request (log (ServeHTTP used_mux)) r out = (answer, out ++ logged [r]) ∧
    echoes r answer.
Proof.
  unfold server_request, general_options, logged. rewrite filter_cons, filter_nil. fold (for_server r).
  destruct (decide (for_server r)) as [[Hm Hu]|Hno].
  - rewrite bool_decide_true by done. rewrite decide_False by (intros Hn; by apply Hn).
    eexists. split; [by rewrite app_nil_r|]. unfold sent. rewrite Hm. split; try done.
    intros _. by rewrite Hm.
  - rewrite bool_decide_false, decide_True by done. unfold log. fold (log_of r).
    eexists. split; [reflexivity|]. split.
    + intros Hu. unfold ServeHTTP. rewrite decide_True by done.
      rewrite decide_False by (intros ?; by apply Hno). unfold sent. simpl. by destruct (decide _).
    + intros Hu Hp Hm. rewrite ServeHTTP_path, decide_True by tauto. unfold used_handler, sent.
      by rewrite ConnContext_proxied, Hm.
    + intros Hu Hp Hm. by rewrite ServeHTTP_path, Hm by done.
    + intros Hu Hp Hg Hh. rewrite ServeHTTP_path, decide_False by tauto. done.
    + intros Hu. apply (ServeHTTP_200 r Hu).
Qed.

Lemma serve_requests_echoes rs out :
  ∃ answers, serve_requests (log (ServeHTTP used_mux)) rs out = (answers, out ++ logged rs) ∧
    Forall2 echoes rs answers.
Proof.
  revert out. induction rs as [|r rs IH]; intros out.
  { exists []. by rewrite app_nil_r. }
  cbn [serve_requests]. destruct (server_request_echoes r out) as (answer & -> & Hr).
  destruct (IH (out ++ logged [r])) as (answers & -> & Hall).
  exists (answer :: answers). split; [|by constructor].
  unfold logged. by rewrite <- app_assoc, <- fmap_app, <- filter_app.
Qed.

(** C37. The server panics if it cannot listen.  Else it says where it listens and
    answers every request in turn: a GET of the one address with whether the
    connection had a PROXY header, a HEAD of it likewise but without a body,
    other methods with 405, and no other path with 200.  Requests for [*] are
    answered by net/http, 200 to OPTIONS and 400 to others.  One line per
    request is printed, in their order, except for [OPTIONS *], which does not
    reach the program.  Percent-encoded paths are left out. *)
Theorem serve_correct Listen host port rs :
  Forall (λ r, without "%" (Path r) = true) rs →
  match Listen (server_addr host port) with
  | Some err => serve Listen host port rs = Panic err
  | None => ∃ answers,
      serve Listen host port rs =
        Ok (answers, ("Listening on " +:+ server_addr host port) :: logged rs) ∧
      Forall2 echoes rs answers
  end.
Proof.
  intros _. unfold serve. rewrite router_Ok, Ok_bind. destruct (Listen _); [done|].
  destruct (serve_requests_echoes rs ["Listening on " +:+ server_addr host port])
    as (answers & -> & Hall). by exists answers.
Qed.

(** Some requests and their answers. *)
Definition used_by (method : string) (header : option bool) : Request :=
  MkRequest method "/proxy-protocol/used" "/proxy-protocol/used" "10.0.0.1:80" (MkConn header).

Definition some_requests : list Request :=
  [used_by "GET" (Some true); used_by "HEAD" None; used_by "POST" None;
   MkRequest "OPTIONS" "*" "*" "10.0.0.2:80" (MkConn None)].

Lemma serve_correct_witness :
  ∃ answers, serve (λ _, None) "127.0.0.1" 8080 some_requests =
      Ok (answers, ["Listening on 127.0.0.1:8080"; "GET /proxy-protocol/used (10.0.0.1:80)";
                    "HEAD /proxy-protocol/used (10.0.0.1:80)"; "POST /proxy-protocol/used (10.0.0.1:80)"]) ∧
    Forall2 echoes some_requests answers.
Proof.
  refine (serve_correct (λ _, None) "127.0.0.1" 8080 some_requests _). by_decide.
Defined.
