(* ===== verification/Testkit.v ===== *)
(** * Testkit

    src/pkg/internal/testkit: the mock API server and its lifecycle (api.go),
    the client that reads the greeting of nginx (http.go), and the builders of
    nodes and services (node.go, service.go).

    The mock server and the HTTP server it starts share the mux: it is a
    location in a heap of muxes.  A handler that [On] registers is kept as
    what its closure captures.  [json.Marshal] on the values of the SDK is an
    argument. *)

From stdpp Require Import base tactics list gmap strings.
From Stdlib Require Import ZArith.
From S2P Require Import Prelude.
From S2P Require Import GoStrings.
From S2P Require Import Cloudscale.
From S2P Require Import ServerMapper.
From S2P Require Import Http.

(** ** Builders *)

(** The setters change their receiver and return it. *)
Record NodeBuilder : Type := MkNodeBuilder { node_name : string; node_ProviderID : string }.

Definition NewNode (name : string) : NodeBuilder := MkNodeBuilder name "".
Definition Node_V1 (n : NodeBuilder) : Node.t := Node.Mk (node_name n) ∅ (node_ProviderID n).
Definition Node_WithProviderID (n : NodeBuilder) (id : string) : NodeBuilder :=
  MkNodeBuilder (node_name n) id.
Definition Node_WithName (n : NodeBuilder) (name : string) : NodeBuilder :=
  MkNodeBuilder name (node_ProviderID n).

Record ServiceBuilder : Type := MkServiceBuilder { service_name : string }.

Definition NewService (name : string) : ServiceBuilder := MkServiceBuilder name.
Definition Service_V1 (s : ServiceBuilder) : Service.t :=
  {| Service.Namespace := ""; Service.Name := service_name s; Service.UID := "";
     Service.Annotations := None; Service.Type_ := ""; Service.LoadBalancerClass := None;
     Service.ExternalTrafficPolicy := ""; Service.HealthCheckNodePort := 0;
     Service.Ports := [] |}.
Definition Service_WithName (s : ServiceBuilder) (name : string) : ServiceBuilder :=
  MkServiceBuilder name.

(** ** The mock API server *)

(** A request as handlers see it; reading the body may fail.  The target [*] of
    a request is also its path. *)
Record Request : Type := MkRequest { Method : string; Path : string; Body : result string }.

(** [json.Marshal] on the other values a test gives. *)
Class MockValues := {
  Any : Type;
  of_servers : list Server.t → Any;
  of_server : Server.t → Any;
  of_loadbalancers : list LoadBalancer.t → Any;
  of_loadbalancer : LoadBalancer.t → Any;
  json_Marshal : Any → result string }.

Section mock.
Context `{MockValues} {W : Type}.

(** The [data any] of [On]: a string, or something else. *)
Inductive data : Type := Text (s : string) | Value (v : Any).

(** A handler of the mux: the closure of [On] with what it captures, or one a
    test registers itself, which may change the state [W] of the test. *)
Inductive mock_handler : Type :=
| Responds (pattern : string) (status : Z) (d : data)
| Custom (f : Request → M W response).

(** [mux] and [server] are pointers: the mux is a location, and the server has
    the location its handler had when it was started, and an address. *)
Record MockAPIServer : Type := MkMock {
  mux : option nat;
  server : option (option nat * string);
  lastsent : string;
  muxes : list (ServeMux mock_handler) }.

Definition NewMockAPIServer : MockAPIServer := MkMock None None "" [].

(** [m.mux.HandleFunc] for the mux at a location. *)
Definition mux_HandleFunc (m : MockAPIServer) (loc : nat) (pattern : string) (h : mock_handler)
    : result MockAPIServer :=
  match muxes m !! loc with
  | None => Panic "invalid memory address or nil pointer dereference"
  | Some x =>
      x' ← Handle x pattern h;
      Ok (MkMock (mux m) (server m) (lastsent m) (<[loc := x']> (muxes m)))
  end.

(** The new mux with the default route, unless there is a mux. *)
Definition ensure_mux (m : MockAPIServer) : result (MockAPIServer * nat) :=
  match mux m with
  | Some loc => Ok (m, loc)
  | None =>
      let loc := length (muxes m) in
      let m' := MkMock (Some loc) (server m) (lastsent m) (muxes m ++ [[]]) in
      m'' ← mux_HandleFunc m' loc "/" (Responds "/" 404 (Text "{}"));
      Ok (m'', loc)
  end.

Definition On (m : MockAPIServer) (pattern : string) (status : Z) (d : data)
    : result MockAPIServer :=
  '(m', loc) ← ensure_mux m; mux_HandleFunc m' loc pattern (Responds pattern status d).

Definition HandleFunc (m : MockAPIServer) (pattern : string) (handler : Request → M W response)
    : result MockAPIServer :=
  '(m', loc) ← ensure_mux m; mux_HandleFunc m' loc pattern (Custom handler).

Definition WithServers (m : MockAPIServer) (servers : list Server.t) : result MockAPIServer :=
  m1 ← On m "/v1/servers" 200 (Value (of_servers servers));
  foldR (λ m server,
    if decide (Server.UUID server ≠ "")
    then On m ("/v1/servers/" +:+ Server.UUID server) 200 (Value (of_server server))
    else Ok m) m1 servers.

Definition WithLoadBalancers (m : MockAPIServer) (lbs : list LoadBalancer.t)
    : result MockAPIServer :=
  m1 ← On m "/v1/load-balancers" 200 (Value (of_loadbalancers lbs));
  foldR (λ m lb,
    if decide (LoadBalancer.UUID lb ≠ "")
    then On m ("/v1/load-balancers/" +:+ LoadBalancer.UUID lb) 200 (Value (of_loadbalancer lb))
    else Ok m) m1 lbs.

(** [url] is the address the new HTTP server gets. *)
Definition Start (m : MockAPIServer) (url : string) : result MockAPIServer :=
  match server m with
  | Some _ => Panic "must call Close() before starting another time"
  | None => Ok (MkMock (mux m) (Some (mux m, url)) (lastsent m) (muxes m))
  end.

Definition Close (m : MockAPIServer) : MockAPIServer :=
  match server m with
  | Some _ => MkMock None None (lastsent m) (muxes m)
  | None => m
  end.

(** The base URL of the client. *)
Definition Client (m : MockAPIServer) : result string :=
  match server m with
  | None => Panic "must call Start() before accessing the client"
  | Some (_, url) => Ok url
  end.

Definition LastSent {A} (unmarshal : string → result A) (m : MockAPIServer) : result A :=
  match unmarshal (lastsent m) with
  | Err _ => Panic ("failed to unmarshal: " +:+ lastsent m)
  | r => r
  end.

(** ** Requests *)

(** [WriteHeader] panics on other codes, and an informational one is not the
    status of the answer. *)
Definition valid_status (status : Z) : bool := ((100 <=? status) && (status <=? 999))%Z.
Definition final_status (status : Z) : Z :=
  if ((status <? 200) && negb (status =? 101))%Z then 200%Z else status.
Definition body_allowed (status : Z) : bool :=
  negb ((status =? 101) || (status =? 204) || (status =? 304))%Z.

Definition data_bytes (d : data) : result string :=
  match d with
  | Text s => Ok s
  | Value v =>
      match json_Marshal v with
      | Err _ => Panic "failed to marshal to json"
      | r => r
      end
  end.

Definition captures (method : string) : bool :=
  bool_decide (method = "POST" ∨ method = "PUT" ∨ method = "PATCH").

(** The closure of [On]: the answer and what it keeps of the request. *)
Definition respond (pattern : string) (code : Z) (d : data) (r : Request) (last : string)
    : result (response * string) :=
  if negb (valid_status code) then Panic "invalid WriteHeader code"
  else
    body ← data_bytes d;
    if bool_decide (body ≠ "") && negb (body_allowed (final_status code))
    then Panic ("failed to write body for " +:+ pattern)
    else
      last' ← (if captures (Method r) then
                 match Body r with
                 | Err _ => Panic ("failed read request " +:+ pattern)
                 | b => b
                 end
               else Ok last);
      Ok (MkResponse (final_status code) (if decide (Method r = "HEAD") then "" else body), last').

(** What the client of a request gets: the server is not running, the handler
    panicked and the connection was closed, or an answer. *)
Inductive reply : Type := Refused | Aborted | Reply (answer : response).

Definition with_lastsent (m : MockAPIServer) (last : string) : MockAPIServer :=
  MkMock (mux m) (server m) last (muxes m).

(** A handler of the mux, run. *)
Definition serve_handler (m : MockAPIServer) (h : mock_handler) (r : Request) (w : W)
    : reply * MockAPIServer * W :=
  match h with
  | Responds pattern code d =>
      match respond pattern code d r (lastsent m) with
      | Ok (answer, last) => (Reply answer, with_lastsent m last, w)
      | Err _ | Panic _ => (Aborted, m, w)
      end
  | Custom f =>
      match f r w with
      | (Ok answer, w') => (Reply (sent (Method r) answer), m, w')
      | (_, w') => (Aborted, m, w')
      end
  end.

(** The HTTP server and the mux answer a request for [*] themselves; the mux of
    a server that was started without one is nil, and a request to it
    panics. *)
Definition serve_request (m : MockAPIServer) (r : Request) (w : W) : reply * MockAPIServer * W :=
  match server m with
  | None => (Refused, m, w)
  | Some (handler, _) =>
      if general_options (Method r) (Path r) then (Reply options_answer, m, w)
      else if decide (Path r = "*") then (Reply star_answer, m, w)
      else
      match handler ≫= (λ loc, muxes m !! loc) with
      | None => (Aborted, m, w)
      | Some x =>
          match find_handler x (Method r) (Path r) with
          | Handler h => serve_handler m h r w
          | other => (Reply (sent (Method r)
              (default (http_Error 404 "404 page not found") (mux_response other))), m, w)
          end
      end
  end.
End mock.
Arguments MockAPIServer {_} W.
Arguments mock_handler {_} W.

(** ** The greeting of nginx *)

(** [time.Parse] and the zero [time.Time]. *)
Class TimePackage := {
  Time : Type;
  zero_time : Time;
  time_Parse : string → string → result Time }.

(** What an HTTP client does with a request in the state [W]: with a timeout
    and without keep-alives it gives a response, whose body is read and then
    closed. *)
Class HttpPackage (W : Type) := {
  ClientRequest : Type;
  Response : Type;
  NewRequestWithContext : string → string → result ClientRequest;
  client_Do : Z → bool → ClientRequest → M W Response;
  ReadAll : Response → M W string;
  Body_Close : Response → W → W }.

(** [net.JoinHostPort] *)
Definition JoinHostPort (host port : string) : string :=
  (if Contains host ":" then "[" +:+ host +:+ "]:" else host +:+ ":") +:+ port.

Section hello.
Context `{TimePackage}.

Record HelloResponse : Type := MkHelloResponse {
  ServerAddress : string;
  ServerName : string;
  Date : Time;
  URI : string;
  RequestID : string }.

Definition date_layout : string := "02/Jan/2006:15:04:05 -0700".

(** [strings.SplitN(line, ": ", 2)[1]], of a line with a prefix that ends so. *)
Definition after_colon (line : string) : result string :=
  match SplitN2 line ": " with
  | [_; v] => Ok v
  | _ => Panic "index out of range"
  end.

Definition HasPrefix (s prefix : string) : bool :=
  match drop_prefix prefix s with Some _ => true | None => false end.

(** One iteration of the loop over the lines. *)
Definition hello_line (r : HelloResponse) (line : string) : result HelloResponse :=
  if HasPrefix line "Server address: " then
    v ← after_colon line; Ok (MkHelloResponse v (ServerName r) (Date r) (URI r) (RequestID r))
  else if HasPrefix line "Server name: " then
    v ← after_colon line; Ok (MkHelloResponse (ServerAddress r) v (Date r) (URI r) (RequestID r))
  else if HasPrefix line "URI: " then
    v ← after_colon line; Ok (MkHelloResponse (ServerAddress r) (ServerName r) (Date r) v (RequestID r))
  else if HasPrefix line "Request ID: " then
    v ← after_colon line; Ok (MkHelloResponse (ServerAddress r) (ServerName r) (Date r) (URI r) v)
  else if HasPrefix line "Date: " then
    v ← after_colon line;
    t ← wrap_err (WrapError ("failed to parse " +:+ v +:+ ": ")) (time_Parse date_layout v);
    Ok (MkHelloResponse (ServerAddress r) (ServerName r) t (URI r) (RequestID r))
  else Ok r.

Definition hello_lines (body : string) : result HelloResponse :=
  foldR hello_line (MkHelloResponse "" "" zero_time "" "") (Split body "010").

Context {W : Type} `{!HttpPackage W}.

(** The body is closed after it was read, whatever comes of it. *)
Definition read_and_close (resp : Response) : M W string := λ w,
  let '(r, w') := ReadAll resp w in (wrap_err (WrapError "read failed: ") r, Body_Close resp w').

Definition HTTPRead (url : string) : M W string :=
  req ← lift (wrap_err (WrapError "failed to create request: ") (NewRequestWithContext "GET" url));
  resp ← wrapM (WrapError "request failed: ") (client_Do (5 * Second) true req);
  read_and_close resp.

Definition HelloNginx (address : string) (port : Z) : M W HelloResponse :=
  body ← HTTPRead ("http://" +:+ JoinHostPort address (Itoa port));
  lift (hello_lines body).
End hello.
