(* ===== verification/TestkitSpec.v ===== *)
(** * TestkitSpec

    What the mock API server promises to the tests: it answers from a finite
    map of paths, has a default for every other path, and refuses a path that
    is registered twice; and what the greeting of nginx is read as. *)

From stdpp Require Import base tactics list gmap strings relations.
From Stdlib Require Import ZArith.
From S2P Require Import Prelude.
From S2P Require Import GoStrings.
From S2P Require Import Cloudscale.
From S2P Require Import Http.
From S2P Require Import Testkit.

Lemma lookup_snoc {A} (l : list A) x : (l ++ [x]) !! length l = Some x.
Proof. by rewrite lookup_app_r, Nat.sub_diag. Qed.

Section spec.
Context `{MockValues} {W : Type}.
Implicit Types (m : MockAPIServer W) (answers : list (string * (Z * data))) (p : string).

(** ** The map of answers *)

Definition root_pattern : pattern := MkPattern "" [Multi].
Definition root_route : pattern * mock_handler W := (root_pattern, Responds "/" 404 (Text "{}")).

Definition plain_pattern p : pattern := MkPattern "" (Lit <$> default [] (path_segments p)).

Definition route_of (a : string * (Z * data)) : pattern * mock_handler W :=
  (plain_pattern a.1, Responds a.1 a.2.1 a.2.2).

Definition routes_of answers : ServeMux (mock_handler W) := root_route :: (route_of <$> answers).

(** The mux at a location answers from a map. *)
Record represents m (loc : nat) answers : Prop := {
  rep_mux : mux m = Some loc;
  rep_routes : muxes m !! loc = Some (routes_of answers);
  rep_plain : Forall (λ a, plain_path a.1 = true) answers;
  rep_distinct : NoDup answers.*1 }.

Lemma plain_pattern_inj p q :
  plain_path p = true → plain_path q = true → plain_pattern p = plain_pattern q → p = q.
Proof.
  intros (a & Ha & _)%plain_path_segments (b & Hb & _)%plain_path_segments.
  unfold plain_pattern. rewrite Ha, Hb. cbn. intros [= Heq].
  apply (inj (fmap Lit)) in Heq as ->. by apply (path_segments_inj p q b).
Qed.

Lemma Handle_plain answers p s d :
  Forall (λ a, plain_path a.1 = true) answers → plain_path p = true →
  Handle (routes_of answers) p (Responds p s d) =
  if decide (p ∈ answers.*1) then Panic err_conflict else Ok (routes_of (answers ++ [(p, (s, d))])).
Proof.
  intros Hall Hp. destruct (plain_path_segments p Hp) as (segs & Hs & _ & _ & Hne).
  unfold Handle. rewrite (parse_plain p segs Hp Hs). unfold routes_of. cbn [existsb fst root_route].
  unfold root_pattern. rewrite conflicts_root by done. cbn [orb].
  assert (existsb (λ r, conflicts (MkPattern "" (Lit <$> segs)) r.1) (route_of <$> answers) =
    bool_decide (p ∈ answers.*1)) as ->.
  { induction Hall as [|a answers Ha Hall IH]; [done|]. cbn [fmap list_fmap existsb].
    change (list_fmap _ _ route_of answers) with (route_of <$> answers). rewrite IH.
    destruct (plain_path_segments a.1 Ha) as (segs' & Hs' & _).
    unfold route_of at 1, plain_pattern. rewrite Hs'. cbn. rewrite conflicts_literal.
    apply eq_true_iff_eq. rewrite orb_true_iff, !bool_decide_eq_true, elem_of_cons.
    split; (intros [Heq|Hin]; [left|by right]).
    - apply (path_segments_inj p a.1 segs); congruence.
    - congruence. }
  case_decide as Hin; [by rewrite bool_decide_true|rewrite bool_decide_false by done].
  cbn. by rewrite fmap_app; unfold route_of at 3, plain_pattern; cbn; rewrite Hs.
Qed.

(** ** Registration *)

(** A plain path is added to the map, and refused if it is there. *)
Lemma On_represents m loc answers p s d :
  represents m loc answers → plain_path p = true →
  if decide (p ∈ answers.*1) then On m p s d = Panic err_conflict
  else ∃ m', On m p s d = Ok m' ∧ represents m' loc (answers ++ [(p, (s, d))]) ∧
    server m' = server m ∧ lastsent m' = lastsent m ∧
    (∀ loc', loc' ≠ loc → muxes m' !! loc' = muxes m !! loc').
Proof.
  intros [Hmux Hr Hp Hnd] Hplain. unfold On, ensure_mux. rewrite Hmux. cbn.
  unfold mux_HandleFunc. rewrite Hr, Handle_plain by done.
  case_decide as Hin; [done|]. cbn. eexists. split; [reflexivity|].
  split; [|split_and!; [done..|intros loc' Hne; cbn; by rewrite list_lookup_insert_ne]].
  split; cbn; [done| | |].
  - apply list_lookup_insert_eq. by eapply lookup_lt_Some.
  - apply Forall_app. split; [done|by apply Forall_singleton].
  - rewrite fmap_app. apply NoDup_app. split; [done|]. split; [|apply NoDup_singleton].
    intros q Hq ->%list_elem_of_singleton. done.
Qed.

(** The first registration makes the mux and its default. *)
Definition with_default m : MockAPIServer W :=
  MkMock (Some (length (muxes m))) (server m) (lastsent m) (muxes m ++ [routes_of []]).

Lemma ensure_mux_new m :
  mux m = None → ensure_mux m = Ok (with_default m, length (muxes m)).
Proof.
  intros Hmux. unfold ensure_mux. rewrite Hmux. unfold mux_HandleFunc. cbn [muxes mux server lastsent].
  rewrite lookup_snoc. change (Handle [] "/" _) with (Ok (routes_of [])). rewrite !Ok_bind.
  unfold with_default. by rewrite insert_app_r_alt, Nat.sub_diag.
Qed.

Lemma with_default_represents m : represents (with_default m) (length (muxes m)) [].
Proof.
  split; cbn [with_default mux muxes]; [done| |constructor|constructor].
  apply lookup_snoc.
Qed.

Lemma On_first m p s d :
  mux m = None → plain_path p = true → ∃ m', On m p s d = Ok m' ∧
    represents m' (length (muxes m)) [(p, (s, d))] ∧ server m' = server m ∧ lastsent m' = lastsent m.
Proof.
  intros Hmux Hplain.
  pose proof (On_represents _ _ [] p s d (with_default_represents m) Hplain) as Hon.
  rewrite decide_False in Hon by apply not_elem_of_nil.
  destruct Hon as (m' & Heq & Hr & Hs & Hl & _). exists m'. split; [|done].
  unfold On. rewrite (ensure_mux_new m Hmux). exact Heq.
Qed.

Lemma started_represents m m1 url loc answers :
  represents m loc answers → Start m url = Ok m1 →
  represents m1 loc answers ∧ server m1 = Some (Some loc, url).
Proof.
  intros [Hm Hr Hp Hnd]. unfold Start. destruct (server m); [done|]. intros [= <-].
  split; [by split|]. cbn. by rewrite Hm.
Qed.

(** ** Requests *)

Definition answer_at answers p : option (Z * data) := snd <$> head (filter (λ a, a.1 = p) answers).

Lemma with_rest_answers answers p segs :
  Forall (λ a, plain_path a.1 = true) answers → plain_path p = true → path_segments p = Some segs →
  with_rest (Lit <$> segs) ((λ r, (pattern_path r.1, r)) <$> (route_of <$> answers)) =
  (λ a, route_of (p, a)) <$> answer_at answers p.
Proof.
  intros Hall Hp Hs. unfold with_rest, answer_at.
  induction Hall as [|[q a] answers Ha Hall IH]; [done|]. cbn [fmap list_fmap].
  rewrite !filter_cons. cbn [fst route_of plain_pattern pattern_path].
  destruct (plain_path_segments q Ha) as (segs' & Hs' & _). rewrite Hs'. cbn [default].
  destruct (decide (q = p)) as [->|Hne].
  - rewrite Hs in Hs'. injection Hs' as ->. by rewrite !decide_True.
  - assert (segs' ≠ segs) as Hsegs.
    { intros ->. apply Hne. by apply (path_segments_inj q p segs). }
    rewrite decide_False; [exact IH|]. cbn. by intros Heq%(inj (fmap Lit)).
Qed.

Lemma multi_not_literal (segs : list string) : Multi ∉ Lit <$> segs.
Proof. by intros (s & Hs & _)%list_elem_of_fmap. Qed.

(** The routes of a map: its path, or else the root. *)
Lemma match_rooted answers path :
  path ≠ [] →
  match_path ((λ r, (pattern_path r.1, r)) <$> routes_of answers) path =
  Some (default root_route
    (with_rest (Lit <$> path) ((λ r, (pattern_path r.1, r)) <$> (route_of <$> answers)))).
Proof.
  intros Hpath. rewrite match_path_rooted; [|done|].
  - unfold routes_of. rewrite fmap_cons. unfold with_rest at 1 2. rewrite !filter_cons.
    cbn [fst root_route root_pattern pattern_path].
    rewrite decide_False, decide_True by (done || by destruct path as [|? [|? ?]]).
    fold (with_rest (Lit <$> path) ((λ r, (pattern_path r.1, r)) <$> (route_of <$> answers))).
    by destruct (with_rest _ _).
  - intros r. unfold routes_of. rewrite fmap_cons.
    intros [->|(x & -> & (a & -> & _)%list_elem_of_fmap)%list_elem_of_fmap]%elem_of_cons; [by left|right].
    apply multi_not_literal.
Qed.

Lemma find_plain answers method p :
  Forall (λ a, plain_path a.1 = true) answers → plain_path p = true → method ≠ "" →
  find_handler (routes_of answers) method p =
  Handler (match answer_at answers p with
           | Some (s, d) => Responds p s d
           | None => Responds "/" 404 (Text "{}")
           end).
Proof.
  intros Hall Hp Hm. destruct (plain_path_segments p Hp) as (segs & Hs & Hc & Ht & Hne).
  assert (∀ path, path ≠ [] → match_request (routes_of answers) method path =
    Some (default root_route (with_rest (Lit <$> path) ((λ r, (pattern_path r.1, r)) <$> (route_of <$> answers)))))
    as Hmatch.
  { intros path Hpath. unfold match_request.
    assert (∀ other, other ≠ "" → match_in (routes_of answers) other path = None) as Hother.
    { intros other Ho. unfold match_in.
      assert (filter (λ r, pattern_method r.1 = other) (routes_of answers) = []) as ->;
        [|apply match_path_nil].
      apply elem_of_nil_inv. intros r [Heq Hr]%list_elem_of_filter. apply Ho. rewrite <- Heq.
      apply elem_of_cons in Hr as [->|(a & -> & _)%list_elem_of_fmap]; done. }
    rewrite !Hother by done.
    assert ((if decide (method = "HEAD") then None else None) = @None (pattern * mock_handler W)) as ->
      by (by destruct (decide _)).
    unfold match_in.
    assert (filter (λ r, pattern_method r.1 = "") (routes_of answers) = routes_of answers) as ->.
    { apply filter_id. intros r Hr. apply elem_of_cons in Hr as [->|(a & -> & _)%list_elem_of_fmap]; done. }
    apply match_rooted; done. }
  unfold find_handler. rewrite Hs, Hmatch, Hmatch by (done || by destruct segs).
  rewrite (with_rest_answers answers p segs) by done. rewrite Hc. cbn [negb].
  assert (with_rest (Lit <$> (segs ++ [""])) ((λ r, (pattern_path r.1, r)) <$> (route_of <$> answers)) = None)
    as ->.
  { unfold with_rest.
    assert (filter (λ r, r.1 = Lit <$> (segs ++ [""]))
      ((λ r, (pattern_path r.1, r)) <$> (route_of <$> answers)) = []) as ->; [|done].
    apply elem_of_nil_inv. intros r [Heq Hr]%list_elem_of_filter.
    apply list_elem_of_fmap in Hr as (x & -> & (a & -> & Ha)%list_elem_of_fmap).
    rewrite Forall_forall in Hall. destruct (plain_path_segments a.1 (Hall a Ha)) as (segs' & Hs' & _ & Ht' & _).
    cbn in Heq. rewrite Hs' in Heq. apply (inj (fmap Lit)) in Heq. cbn in Heq. subst segs'.
    unfold trailing_slash in Ht'. by rewrite last_snoc, bool_decide_true in Ht'. }
  assert (exactMatch (Some root_route) (segs ++ [""]) = false) as Hex.
  { unfold exactMatch, root_route, root_pattern. cbn [pattern_path].
    rewrite decide_True by done. rewrite bool_decide_false; [by rewrite andb_false_r|].
    rewrite length_app. destruct segs; [done|]. cbn. lia. }
  cbn [default]. rewrite Hex, !andb_false_r. by destruct (answer_at answers p) as [[s d]|].
Qed.

(** A running server answers a plain path from the map, or by default. *)
Lemma serve_plain m loc answers url r w :
  represents m loc answers → server m = Some (Some loc, url) →
  plain_path (Path r) = true → Method r ≠ "" →
  serve_request m r w =
  let '(p, (s, d)) := default ("/", (404%Z, Text "{}"))
    ((λ a, (Path r, a)) <$> answer_at answers (Path r)) in
  match respond p s d r (lastsent m) with
  | Ok (answer, last) => (Reply answer, with_lastsent m last, w)
  | Err _ | Panic _ => (Aborted, m, w)
  end.
Proof.
  intros [_ Hr Hall _] Hs Hp Hm. pose proof (plain_not_star _ Hp) as Hstar.
  unfold serve_request, general_options. rewrite Hs, bool_decide_false, decide_False by tauto.
  cbn. rewrite Hr. rewrite find_plain by done. by destruct (answer_at answers (Path r)) as [[s d]|].
Qed.

Lemma answer_at_elem answers p a :
  NoDup answers.*1 → (p, a) ∈ answers → answer_at answers p = Some a.
Proof.
  unfold answer_at. induction answers as [|[q b] answers IH]; [by intros _ ?%elem_of_nil|].
  rewrite fmap_cons, NoDup_cons, elem_of_cons, filter_cons. cbn [fst]. intros [Hq Hnd] [[= -> ->]|Hin].
  - by rewrite decide_True.
  - rewrite decide_False; [by apply IH|]. intros ->. apply Hq. apply list_elem_of_fmap.
    by exists (p, a).
Qed.

Lemma answer_at_None answers p : p ∉ answers.*1 → answer_at answers p = None.
Proof.
  intros Hp. unfold answer_at.
  assert (filter (λ a, a.1 = p) answers = []) as ->; [|done].
  apply elem_of_nil_inv. intros a [<- Ha]%list_elem_of_filter. apply Hp. apply list_elem_of_fmap.
  by exists a.
Qed.

Lemma answer_at_Some answers p a : answer_at answers p = Some a → (p, a) ∈ answers.
Proof.
  unfold answer_at. intros ([q b] & Hh & ->)%fmap_Some.
  assert ((q, b) ∈ filter (λ a, a.1 = p) answers) as [<- Hin]%list_elem_of_filter; [|done].
  destruct (filter _ _); [done|]. injection Hh as ->. by left.
Qed.

Lemma respond_get p code d r last text :
  Method r = "GET" → (200 ≤ code ≤ 999)%Z → body_allowed code = true → data_bytes d = Ok text →
  respond p code d r last = Ok (MkResponse code text, last).
Proof.
  intros Hm Hc Hb Hd. unfold respond, valid_status, final_status.
  rewrite (proj2 (Z.leb_le 100 code)), (proj2 (Z.leb_le code 999)), (proj2 (Z.ltb_ge code 200)) by lia.
  cbn [andb negb]. rewrite Hd, Ok_bind, Hb, andb_false_r. unfold captures. by rewrite Hm.
Qed.

Lemma with_lastsent_same m : with_lastsent m (lastsent m) = m.
Proof. by destruct m. Qed.

(** ** A listing and its items *)

Section listing.
Context {A : Type} (base : string) (key : A → string) (value : A → Any) (all : Any).
Context (Hbase : ∀ u, base +:+ "/" +:+ u ≠ base).
Context (Hmarshal : ∀ v, ∃ text, json_Marshal v = Ok text).
Implicit Types (l : list A).

Definition item_path (a : A) : string := base +:+ "/" +:+ key a.

Definition item_answers l : list (string * (Z * data)) :=
  (λ a, (item_path a, (200%Z, Value (value a)))) <$> filter (λ a, key a ≠ "") l.

Definition register l m : result (MockAPIServer W) :=
  foldR (λ m a, if decide (key a ≠ "") then On m (item_path a) 200 (Value (value a)) else Ok m) m l.

Lemma register_represents l m loc answers :
  represents m loc answers → (∀ a, a ∈ l → key a ≠ "" → plain_path (item_path a) = true) →
  if decide (NoDup (answers.*1 ++ (item_answers l).*1))
  then ∃ m', register l m = Ok m' ∧ represents m' loc (answers ++ item_answers l) ∧
    server m' = server m
  else ∃ msg, register l m = Panic msg.
Proof.
  unfold register, item_answers. revert m answers.
  induction l as [|a l IH]; intros m answers Hrep Hplain; cbn [foldR].
  { rewrite filter_nil. cbn [fmap list_fmap]. rewrite !app_nil_r.
    rewrite decide_True by apply (rep_distinct _ _ _ Hrep). by exists m. }
  rewrite filter_cons. destruct (decide (key a ≠ "")) as [Hk|Hk]; cbn [mbind].
  2: { apply IH; [done|]. intros b Hb. apply Hplain. by right. }
  pose proof (On_represents m loc answers (item_path a) 200 (Value (value a)) Hrep
    (Hplain a ltac:(by left) Hk)) as Hon.
  destruct (decide (item_path a ∈ answers.*1)) as [Hin|Hin].
  - rewrite Hon. rewrite decide_False; [by eexists|]. cbn. rewrite NoDup_app.
    intros (_ & Hd & _). apply (Hd (item_path a) Hin). by left.
  - destruct Hon as (m1 & -> & Hrep1 & Hs1 & _). rewrite Ok_bind.
    specialize (IH m1 _ Hrep1 (λ b Hb, Hplain b ltac:(by right))).
    rewrite fmap_app, <- !app_assoc in IH. cbn in IH |- *.
    destruct (decide _); [|by destruct IH as [msg ->]; eexists].
    destruct IH as (m2 & -> & Hrep2 & Hs2). exists m2.
    split; [done|]. split; [exact Hrep2|congruence].
Qed.

Lemma item_paths l :
  NoDup ((base :: (item_answers l).*1)) ↔ NoDup (filter (λ u, u ≠ "") (key <$> l)).
Proof.
  assert ((item_answers l).*1 = (λ u, base +:+ "/" +:+ u) <$> filter (λ u, u ≠ "") (key <$> l)) as ->.
  { unfold item_answers, item_path. induction l as [|a l IH]; [done|]. cbn [fmap list_fmap].
    rewrite !filter_cons. destruct (decide (key a ≠ "")); cbn [fmap list_fmap]; [f_equal|]; exact IH. }
  rewrite NoDup_cons, NoDup_fmap.
  - split; [by intros [_ ?]|]. intros Hnd. split; [|done].
    intros (u & Hu & _)%list_elem_of_fmap. by apply (Hbase u).
  - intros u v Heq. by apply (inj (append base)), (inj (append "/")) in Heq.
Qed.

(** The answer to a read of a plain path. *)
Definition listing_answer l (path : string) (code : Z) (text : string) : Prop :=
  (path = base → code = 200%Z ∧ json_Marshal all = Ok text) ∧
  (∀ a, a ∈ l → key a ≠ "" → path = item_path a → code = 200%Z ∧ json_Marshal (value a) = Ok text) ∧
  (path ≠ base → (∀ a, a ∈ l → key a ≠ "" → path ≠ item_path a) → code = 404%Z ∧ text = "{}").

(** A running server with the answers for a listing and its items. *)
Lemma listing_served l m1 loc url r w :
  represents m1 loc ((base, (200%Z, Value all)) :: item_answers l) →
  server m1 = Some (Some loc, url) → Method r = "GET" → plain_path (Path r) = true →
  ∃ code text, serve_request m1 r w = (Reply (MkResponse code text), m1, w) ∧
    listing_answer l (Path r) code text.
Proof.
  intros Hrep1 Hs1 Hget Hpath. rewrite (serve_plain m1 _ _ url r w Hrep1 Hs1 Hpath) by (by rewrite Hget).
  destruct (answer_at _ (Path r)) as [[s d]|] eqn:Ha; cbn [from_option fmap option_fmap option_map id].
  - assert (s = 200%Z ∧ ∃ v, d = Value v) as [-> [v ->]].
    { apply answer_at_Some, elem_of_cons in Ha as [[= _ -> ->]|(a & [= _ -> ->] & _)%list_elem_of_fmap];
        by eauto. }
    destruct (Hmarshal v) as [text Htext]. exists 200%Z, text.
    rewrite (respond_get _ 200 (Value v) r _ text) by (done || by cbn; rewrite Htext).
    split; [by rewrite with_lastsent_same|].
    assert (∀ p v', (p, (200%Z, Value v')) ∈ (base, (200%Z, Value all)) :: item_answers l →
      Path r = p → 200%Z = 200%Z ∧ json_Marshal v' = Ok text) as Hfound.
    { intros p v' Hin <-. split; [done|].
      rewrite (answer_at_elem _ _ _ (rep_distinct _ _ _ Hrep1) Hin) in Ha. congruence. }
    split; [|split].
    + intros Hp. apply (Hfound base); [by left|done].
    + intros a Hal Hk Hp. apply (Hfound (item_path a)); [|done]. right. apply list_elem_of_fmap.
      exists a. split; [done|]. by apply list_elem_of_filter.
    + intros Hp Hitems. apply answer_at_Some, elem_of_cons in Ha as [[=]|Ha]; [done|].
      apply list_elem_of_fmap in Ha as (a & [= Hpa _] & [Hk Hal]%list_elem_of_filter).
      exfalso. by apply (Hitems a Hal Hk).
  - exists 404%Z, "{}". rewrite (respond_get _ 404 (Text "{}") r _ "{}") by done.
    split; [by rewrite with_lastsent_same|].
    assert (∀ p a, (p, a) ∈ (base, (200%Z, Value all)) :: item_answers l → Path r ≠ p) as Hnone.
    { intros p a Hin <-. by rewrite (answer_at_elem _ _ _ (rep_distinct _ _ _ Hrep1) Hin) in Ha. }
    split; [|split; [|done]].
    + intros Hp. by destruct (Hnone base (200%Z, Value all)); [left|].
    + intros a Hal Hk Hp. destruct (Hnone (item_path a) (200%Z, Value (value a))); [|done].
      right. apply list_elem_of_fmap. exists a. split; [done|]. by apply list_elem_of_filter.
Qed.

Lemma listing_correct l m m0 :
  On m base 200 (Value all) = Ok m0 → mux m = None → server m = None → plain_path base = true →
  (∀ a, a ∈ l → key a ≠ "" → plain_path (item_path a) = true) →
  (¬ NoDup (filter (λ u, u ≠ "") (key <$> l)) → ∃ msg, register l m0 = Panic msg) ∧
  (NoDup (filter (λ u, u ≠ "") (key <$> l)) → ∃ m', register l m0 = Ok m' ∧
   ∀ url r w, Method r = "GET" → plain_path (Path r) = true → ∃ m1 code text,
     Start m' url = Ok m1 ∧ serve_request m1 r w = (Reply (MkResponse code text), m1, w) ∧
     listing_answer l (Path r) code text).
Proof.
  intros Hon Hmux Hserver Hb Hplain.
  destruct (On_first m base 200 (Value all) Hmux Hb) as (m0' & Hon' & Hrep & Hs0 & _).
  rewrite Hon in Hon'. injection Hon' as <-.
  pose proof (register_represents l m0 _ _ Hrep Hplain) as Hreg. cbn [fmap list_fmap app fst] in Hreg.
  rewrite <- item_paths. split; intros Hnd.
  { by rewrite decide_False in Hreg. }
  rewrite decide_True in Hreg by done. destruct Hreg as (m' & Hm' & Hrep' & Hs').
  exists m'. split; [done|]. intros url r w Hget Hpath.
  unfold Start. rewrite Hs', Hs0, Hserver. set (m1 := MkMock _ _ _ _).
  assert (represents m1 (length (muxes m)) ((base, (200%Z, Value all)) :: item_answers l)) as Hrep1
    by (by destruct Hrep').
  assert (server m1 = Some (Some (length (muxes m)), url)) as Hs1
    by (unfold m1; cbn; by rewrite (rep_mux _ _ _ Hrep')).
  exists m1. destruct (listing_served l m1 _ url r w Hrep1 Hs1 Hget Hpath) as (code & text & Hserve & Hans).
  by exists code, text.
Qed.
End listing.

(** ** Properties *)

(** C36. A new mock server with the given servers: if two of them share a UUID, the
    registration panics.  Else, once it is started, it answers a read of the
    list with all servers, a read of a server by its UUID with that server,
    and a read of any other path with an empty object and the status 404. *)
Theorem WithServers_correct m (servers : list Server.t) :
  mux m = None → server m = None → (∀ v, ∃ text, json_Marshal v = Ok text) →
  (∀ s, s ∈ servers → Server.UUID s ≠ "" →
     plain_path (item_path "/v1/servers" Server.UUID s) = true) →
  let uuids := filter (λ u, u ≠ "") (Server.UUID <$> servers) in
  (¬ NoDup uuids → ∃ msg, WithServers m servers = Panic msg) ∧
  (NoDup uuids → ∃ m', WithServers m servers = Ok m' ∧
   ∀ url r w, Method r = "GET" → plain_path (Path r) = true → ∃ m1 code text,
     Start m' url = Ok m1 ∧ serve_request m1 r w = (Reply (MkResponse code text), m1, w) ∧
     listing_answer "/v1/servers" Server.UUID of_server (of_servers servers) servers
       (Path r) code text).
Proof.
  intros Hmux Hserver Hmarshal Hplain uuids.
  destruct (On_first m "/v1/servers" 200 (Value (of_servers servers)) Hmux eq_refl)
    as (m0 & Hon & _). unfold WithServers. rewrite Hon, Ok_bind.
  by apply (listing_correct "/v1/servers" Server.UUID of_server (of_servers servers) ltac:(by intros u)
    Hmarshal servers m m0).
Qed.

(** The same holds of load balancers. *)
Theorem WithLoadBalancers_correct m (lbs : list LoadBalancer.t) :
  mux m = None → server m = None → (∀ v, ∃ text, json_Marshal v = Ok text) →
  (∀ l, l ∈ lbs → LoadBalancer.UUID l ≠ "" →
     plain_path (item_path "/v1/load-balancers" LoadBalancer.UUID l) = true) →
  let uuids := filter (λ u, u ≠ "") (LoadBalancer.UUID <$> lbs) in
  (¬ NoDup uuids → ∃ msg, WithLoadBalancers m lbs = Panic msg) ∧
  (NoDup uuids → ∃ m', WithLoadBalancers m lbs = Ok m' ∧
   ∀ url r w, Method r = "GET" → plain_path (Path r) = true → ∃ m1 code text,
     Start m' url = Ok m1 ∧ serve_request m1 r w = (Reply (MkResponse code text), m1, w) ∧
     listing_answer "/v1/load-balancers" LoadBalancer.UUID of_loadbalancer (of_loadbalancers lbs) lbs
       (Path r) code text).
Proof.
  intros Hmux Hserver Hmarshal Hplain uuids.
  destruct (On_first m "/v1/load-balancers" 200 (Value (of_loadbalancers lbs)) Hmux eq_refl)
    as (m0 & Hon & _). unfold WithLoadBalancers. rewrite Hon, Ok_bind.
  by apply (listing_correct "/v1/load-balancers" LoadBalancer.UUID of_loadbalancer
    (of_loadbalancers lbs) ltac:(by intros u) Hmarshal lbs m m0).
Qed.

(** A registration takes effect on a server that is already running: it shares
    the mux with the mock server. *)
Theorem On_while_running m loc answers url p text r w :
  represents m loc answers → server m = Some (Some loc, url) →
  plain_path p = true → p ∉ answers.*1 → Method r = "GET" → Path r = p →
  (serve_request m r w).1.1 = Reply (MkResponse 404 "{}") ∧
  ∃ m', On m p 200 (Text text) = Ok m' ∧
    (serve_request m' r w).1.1 = Reply (MkResponse 200 text).
Proof.
  intros Hrep Hs Hp Hnew Hget Hpath. subst p. split.
  - rewrite (serve_plain m loc answers url r w Hrep Hs Hp) by (by rewrite Hget).
    rewrite answer_at_None by done. cbn [from_option fmap option_fmap option_map].
    by rewrite (respond_get _ 404 (Text "{}") r _ "{}").
  - pose proof (On_represents m loc answers (Path r) 200 (Text text) Hrep Hp) as Hon.
    rewrite decide_False in Hon by done. destruct Hon as (m' & Hm' & Hrep' & Hs' & _).
    exists m'. split; [done|].
    rewrite (serve_plain m' loc _ url r w Hrep') by (by rewrite ?Hs', ?Hget).
    rewrite (answer_at_elem _ _ (200%Z, Text text) (rep_distinct _ _ _ Hrep')).
    + cbn [from_option fmap option_fmap option_map id]. by rewrite (respond_get _ 200 (Text text) r _ text).
    + apply elem_of_app. right. by left.
Qed.
End spec.

(** ** Every mock server that can be reached *)

Section invariant.
Context `{MockValues} {W : Type}.
Implicit Types (m : MockAPIServer W).

(** What a test can do with a mock server, one call at a time. *)
Inductive mock_step m : MockAPIServer W → Prop :=
| step_On p s d m' : On m p s d = Ok m' → mock_step m m'
| step_HandleFunc p f m' : HandleFunc m p f = Ok m' → mock_step m m'
| step_Start url m' : Start m url = Ok m' → mock_step m m'
| step_Close : mock_step m (Close m)
| step_request r w : mock_step m (serve_request m r w).1.2.

(** Distinct routes never conflict, and the first is the default. *)
Definition mux_ok (x : ServeMux (mock_handler W)) : Prop :=
  (∃ rest, x = root_route :: rest) ∧
  ∀ i j p q, (i < j)%nat → x !! i = Some p → x !! j = Some q → conflicts q.1 p.1 = false.

Record mock_inv m : Prop := {
  inv_mux loc : mux m = Some loc → (loc < length (muxes m))%nat;
  inv_server loc url : server m = Some (Some loc, url) → (loc < length (muxes m))%nat;
  inv_muxes x : x ∈ muxes m → mux_ok x }.

Lemma Handle_ok x p h x' : mux_ok x → Handle x p h = Ok x' → mux_ok x'.
Proof.
  intros [[rest ->] Hc]. unfold Handle. destruct (parse_pattern p) as [q|]; [|done].
  destruct (existsb _ _) eqn:He; [done|]. intros [= <-]. split; [by exists (rest ++ [(q, h)])|].
  change (root_route :: rest ++ [(q, h)]) with ((root_route :: rest) ++ [(q, h)]).
  set (x := root_route :: rest) in *. intros i j a b Hij Ha Hb.
  apply lookup_app_Some in Hb as [Hb|[Hlen Hb]].
  - apply (Hc i j a b Hij); [|done].
    apply lookup_app_Some in Ha as [Ha|[Hi _]]; [done|]. apply lookup_lt_Some in Hb. lia.
  - apply list_lookup_singleton_Some in Hb as [Hj <-].
    apply lookup_app_Some in Ha as [Ha|[Hi _]]; [|lia]. cbn [fst].
    apply not_true_iff_false. intros Hconf. apply not_true_iff_false in He. apply He.
    apply existsb_exists. exists a. split; [|done].
    apply list_elem_of_In. by eapply list_elem_of_lookup_2.
Qed.

Lemma mux_HandleFunc_inv m loc p h m' :
  mock_inv m → mux_HandleFunc m loc p h = Ok m' → mock_inv m'.
Proof.
  intros [H1 H2 H3]. unfold mux_HandleFunc. destruct (muxes m !! loc) as [x|] eqn:Hx; [|done].
  intros (x' & Hh & Hm)%bind_Ok. injection Hm as <-. split; cbn.
  - intros loc'. rewrite length_insert. apply H1.
  - intros loc' url. rewrite length_insert. apply H2.
  - intros y [i Hi]%list_elem_of_lookup. destruct (decide (loc = i)) as [<-|Hne].
    + rewrite list_lookup_insert_eq in Hi by (by eapply lookup_lt_Some). injection Hi as <-.
      eapply Handle_ok; [|exact Hh]. apply H3. by eapply list_elem_of_lookup_2.
    + rewrite list_lookup_insert_ne in Hi by done. apply H3. by eapply list_elem_of_lookup_2.
Qed.

Lemma ensure_mux_inv m m' loc : mock_inv m → ensure_mux m = Ok (m', loc) → mock_inv m'.
Proof.
  intros Hinv He. destruct (mux m) as [loc'|] eqn:Hmux.
  { unfold ensure_mux in He. rewrite Hmux in He. by injection He as <- _. }
  rewrite (ensure_mux_new m Hmux) in He. injection He as <- _. destruct Hinv as [H1 H2 H3].
  split; cbn.
  - intros loc' [= <-]. rewrite length_app. cbn. lia.
  - intros loc' url Hs%H2. rewrite length_app. cbn. lia.
  - intros x [Hx| ->%list_elem_of_singleton]%elem_of_app; [by apply H3|].
    split; [by exists []|]. intros [|i] [|[|j]] p q Hij; cbn; try done; lia.
Qed.

(** A request changes at most what was sent last. *)
Lemma serve_request_same m r w :
  let m' := (serve_request m r w).1.2 in
  mux m' = mux m ∧ server m' = server m ∧ muxes m' = muxes m.
Proof.
  assert (∀ m', m' = m ∨ (∃ last, m' = with_lastsent m last) →
    mux m' = mux m ∧ server m' = server m ∧ muxes m' = muxes m) as Hsame
    by (by intros m' [->|[last ->]]).
  apply Hsame. unfold serve_request. destruct (server m) as [[h url]|]; [|by left].
  destruct (general_options _ _); [by left|]. destruct (decide _); [by left|].
  destruct (h ≫= _) as [x|]; [|by left].
  destruct (find_handler _ _ _) as [[p c d|f]| | |]; [| |by left..]; unfold serve_handler.
  - destruct (respond _ _ _ _ _) as [[answer last]| |]; [right; by exists last|by left..].
  - destruct (f r w) as [[answer| |] w']; by left.
Qed.

Lemma mock_step_inv m m' : mock_inv m → mock_step m m' → mock_inv m'.
Proof.
  intros Hinv Hstep. destruct Hstep as [p s d m' Hon|p f m' Hh|url m' Hs| |r w].
  - apply bind_Ok in Hon as ([m1 loc] & He & Hf). eapply mux_HandleFunc_inv; [|exact Hf].
    by eapply ensure_mux_inv.
  - apply bind_Ok in Hh as ([m1 loc] & He & Hf). eapply mux_HandleFunc_inv; [|exact Hf].
    by eapply ensure_mux_inv.
  - unfold Start in Hs. destruct (server m); [done|]. injection Hs as <-.
    destruct Hinv as [H1 H2 H3]. split; cbn; [done| |done].
    intros loc url' [= Hm _]. by apply H1.
  - unfold Close. destruct (server m); [|done]. by destruct Hinv; split.
  - destruct (serve_request_same m r w) as (Hm & Hs & Hx). destruct Hinv as [H1 H2 H3].
    split; rewrite ?Hm, ?Hs, ?Hx; done.
Qed.

(** With the default route every path is found. *)
Lemma rooted_route x method path :
  mux_ok x → (∃ rest, path = String "/" rest) →
  find_handler x method path = Redirect ∨ ∃ h, find_handler x method path = Handler h.
Proof.
  intros [[routes ->] _] [rest ->]. unfold find_handler.
  change (path_segments (String "/" rest)) with (Some (Split rest "/")).
  pose proof (Split_not_nil rest "/") as Hne. generalize dependent (Split rest "/"). intros segs Hne.
  destruct (_ && _ && _); [by left|]. destruct (_ && _); [by left|]. right.
  assert (is_Some (match_in (root_route :: routes) "" segs)) as [y Hy].
  { unfold match_in.
    change (filter (λ r, pattern_method r.1 = "") (root_route :: routes)) with
      (root_route :: filter (λ r, pattern_method r.1 = "") routes).
    apply match_path_total; [done|].
    rewrite fmap_cons. unfold with_rest. rewrite filter_cons, decide_True by done. by eexists. }
  assert (∃ p h, match_request (root_route :: routes) method segs = Some (p, h)) as (p & h & ->).
  { unfold match_request. rewrite Hy. destruct y as [p h].
    destruct (match_in _ method segs) as [[p1 h1]|]; [by exists p1, h1|].
    destruct (if decide _ then _ else _) as [[p2 h2]|]; [by exists p2, h2|by exists p, h]. }
  by exists h.
Qed.

(** C35. In every state a test can bring a mock server to, each mux has the default
    route and no two routes of it conflict.  So a running server whose mux
    was made before it was started answers every request for a path by running
    a handler that is registered with that mux, or by a redirect: the answers
    404 and 405 of the router itself never occur.  A server that was started
    before there was a mux aborts every such request. *)
Theorem mock_invariant m handler url r w :
  rtc mock_step NewMockAPIServer m →
  mock_inv m ∧
  (server m = Some (handler, url) → (∃ rest, Path r = String "/" rest) →
   match handler with
   | None => serve_request m r w = (Aborted, m, w)
   | Some loc => ∃ x, muxes m !! loc = Some x ∧
       ((∃ p h, (p, h) ∈ x ∧ serve_request m r w = serve_handler m h r w) ∨
        serve_request m r w = (Reply (MkResponse 301 ""), m, w))
   end).
Proof.
  intros Hsteps. assert (mock_inv m) as Hinv.
  { assert (mock_inv NewMockAPIServer) as H0
      by (split; [done|done|by intros x ?%elem_of_nil]).
    revert H0. induction Hsteps as [|m0 m1 m2 Hstep _ IH]; [done|]. intros H0.
    by eapply IH, mock_step_inv. }
  split; [done|]. intros Hs Hp.
  assert (Path r ≠ "*") as Hstar by (by destruct Hp as [rest ->]).
  unfold serve_request, general_options. rewrite Hs, bool_decide_false, decide_False by tauto.
  destruct handler as [loc|]; [|done].
  destruct (lookup_lt_is_Some_2 (muxes m) loc) as [x Hx]; [by eapply inv_server|].
  exists x. split; [done|]. cbn. rewrite Hx.
  destruct (rooted_route x (Method r) (Path r)) as [->|[h Hh]]; [|done|..].
  - apply (inv_muxes m Hinv). by eapply list_elem_of_lookup_2.
  - right. unfold sent. by destruct (decide (Method r = "HEAD")).
  - left. destruct (find_handler_elem _ _ _ _ Hh) as [p Hin]. exists p, h. by rewrite Hh.
Qed.
End invariant.

(** ** The greeting of nginx *)

Section hello.
Context `{TimePackage}.
Implicit Types (line : string) (lines : list string) (r : HelloResponse).

(** The value of the last line with a label. *)
Definition labelled (label : string) lines : option string := last (omap (drop_prefix label) lines).

Lemma labelled_snoc label lines line :
  labelled label (lines ++ [line]) =
  match drop_prefix label line with Some v => Some v | None => labelled label lines end.
Proof.
  unfold labelled. rewrite omap_app. cbn. destruct (drop_prefix label line); cbn.
  - by rewrite last_snoc.
  - by rewrite app_nil_r.
Qed.

Lemma foldR_snoc {A S} (f : S → A → result S) s l x :
  foldR f s (l ++ [x]) = (s' ← foldR f s l; f s' x).
Proof.
  revert s. induction l as [|y l IH]; intros s; cbn [app foldR].
  - unfold mbind, result_bind. by destruct (f s x).
  - unfold mbind, result_bind in *. destruct (f s y); [apply IH|done..].
Qed.

(** The date of a response: of the last line with one, which must parse. *)
Definition dated lines (t : Time) : Prop :=
  match labelled "Date: " lines with
  | Some v => time_Parse date_layout v = Ok t
  | None => t = zero_time
  end.

(** Every line with a date parses. *)
Definition dates_parse lines : Prop :=
  ∀ line v, line ∈ lines → drop_prefix "Date: " line = Some v → is_Ok (time_Parse date_layout v).

Definition greets lines r : Prop :=
  ServerAddress r = default "" (labelled "Server address: " lines) ∧
  ServerName r = default "" (labelled "Server name: " lines) ∧
  URI r = default "" (labelled "URI: " lines) ∧
  RequestID r = default "" (labelled "Request ID: " lines) ∧
  dated lines (Date r).

Lemma hello_line_cases r line :
  match drop_prefix "Date: " line with
  | Some v => hello_line r line =
      (t ← wrap_err (WrapError ("failed to parse " +:+ v +:+ ": ")) (time_Parse date_layout v);
       Ok (MkHelloResponse (ServerAddress r) (ServerName r) t (URI r) (RequestID r)))
  | None => hello_line r line = Ok (MkHelloResponse
      (default (ServerAddress r) (drop_prefix "Server address: " line))
      (default (ServerName r) (drop_prefix "Server name: " line)) (Date r)
      (default (URI r) (drop_prefix "URI: " line))
      (default (RequestID r) (drop_prefix "Request ID: " line)))
  end.
Proof.
  destruct (drop_prefix "Server address: " line) as [v|] eqn:H1;
    [by apply drop_prefix_Some in H1 as ->|].
  destruct (drop_prefix "Server name: " line) as [v|] eqn:H2;
    [by apply drop_prefix_Some in H2 as ->|].
  destruct (drop_prefix "URI: " line) as [v|] eqn:H3; [by apply drop_prefix_Some in H3 as ->|].
  destruct (drop_prefix "Request ID: " line) as [v|] eqn:H4;
    [by apply drop_prefix_Some in H4 as ->|].
  destruct (drop_prefix "Date: " line) as [v|] eqn:H5; [by apply drop_prefix_Some in H5 as ->|].
  unfold hello_line, HasPrefix. rewrite H1, H2, H3, H4, H5. by destruct r.
Qed.

Lemma dates_parse_snoc lines line :
  dates_parse (lines ++ [line]) ↔ dates_parse lines ∧
    match drop_prefix "Date: " line with
    | Some v => is_Ok (time_Parse date_layout v)
    | None => True
    end.
Proof.
  unfold dates_parse. split.
  - intros Hall. split; [intros l v Hl; apply Hall, elem_of_app; by left|].
    destruct (drop_prefix "Date: " line) as [v|] eqn:Hv; [|done].
    apply (Hall line v); [apply elem_of_app; right; by left|done].
  - intros [Hall Hline] l v [Hl| ->%list_elem_of_singleton]%elem_of_app Hv; [by apply (Hall l)|].
    by rewrite Hv in Hline.
Qed.

Lemma undated_step lines line r :
  greets lines r → drop_prefix "Date: " line = None →
  greets (lines ++ [line]) (MkHelloResponse
    (default (ServerAddress r) (drop_prefix "Server address: " line))
    (default (ServerName r) (drop_prefix "Server name: " line)) (Date r)
    (default (URI r) (drop_prefix "URI: " line))
    (default (RequestID r) (drop_prefix "Request ID: " line))).
Proof.
  intros (Ha & Hn & Hu & Hi & Hd) Hv. unfold greets, dated. rewrite !labelled_snoc, Hv.
  cbn [ServerAddress ServerName URI RequestID Date]. rewrite Ha, Hn, Hu, Hi.
  split_and!; try (case_match; reflexivity). exact Hd.
Qed.

(** A line with a date changes nothing else. *)
Lemma dated_step lines line v r :
  dates_parse lines → greets lines r → drop_prefix "Date: " line = Some v →
  match (t ← wrap_err (WrapError ("failed to parse " +:+ v +:+ ": ")) (time_Parse date_layout v);
         Ok (MkHelloResponse (ServerAddress r) (ServerName r) t (URI r) (RequestID r))) with
  | Ok r' => dates_parse (lines ++ [line]) ∧ greets (lines ++ [line]) r'
  | Err _ => ¬ dates_parse (lines ++ [line])
  | Panic _ => ∃ l v' msg, l ∈ lines ++ [line] ∧ drop_prefix "Date: " l = Some v' ∧
      time_Parse date_layout v' = Panic msg
  end.
Proof.
  intros Hd (Ha & Hn & Hu & Hi & _) Hv. destruct (time_Parse date_layout v) as [t|e|msg] eqn:Ht; cbn.
  - rewrite dates_parse_snoc, Hv, Ht. split; [split; [done|by eexists]|].
    unfold greets, dated. rewrite !labelled_snoc, Hv.
    by apply drop_prefix_Some in Hv as ->.
  - rewrite dates_parse_snoc, Hv, Ht. by intros [_ [? ?]].
  - exists line, v, msg. split; [apply elem_of_app; right; by left|done].
Qed.

(** C40. The greeting is read line by line: each field has the value of the last
    line with its label, and other lines are skipped.  It is an error exactly
    if some line has a date that does not parse, and a panic only if the
    parser of dates panics. *)
Theorem hello_lines_correct body :
  let lines := Split body "010" in
  match hello_lines body with
  | Ok r => dates_parse lines ∧ greets lines r
  | Err _ => ¬ dates_parse lines
  | Panic _ => ∃ line v msg, line ∈ lines ∧ drop_prefix "Date: " line = Some v ∧
      time_Parse date_layout v = Panic msg
  end.
Proof.
  intros lines. unfold hello_lines. fold lines. generalize lines. clear lines. intros lines.
  induction lines as [|line lines IH] using rev_ind.
  { split; [by intros ? ? ?%elem_of_nil|]. by split_and!. }
  rewrite foldR_snoc. destruct (foldR _ _ lines) as [r|e|msg].
  - rewrite Ok_bind. destruct IH as [Hd Hg]. pose proof (hello_line_cases r line) as Hc.
    destruct (drop_prefix "Date: " line) as [v|] eqn:Hv; rewrite Hc.
    + apply (dated_step lines line v r Hd Hg Hv).
    + rewrite dates_parse_snoc, Hv. split; [done|]. by apply undated_step.
  - cbn. intros Hd. apply IH. intros l v Hl. apply Hd.
    apply elem_of_app. by left.
  - cbn. destruct IH as (l & v & m & Hl & Hlv). exists l, v, m. split; [|done].
    apply elem_of_app. by left.
Qed.
End hello.

(** ** A mock server of its own *)

Module Example_mock.
#[local] Instance values : MockValues := {|
  Any := list string;
  of_servers servers := Server.UUID <$> servers;
  of_server s := [Server.UUID s];
  of_loadbalancers lbs := LoadBalancer.UUID <$> lbs;
  of_loadbalancer l := [LoadBalancer.UUID l];
  json_Marshal v := Ok (Join v ",") |}.

Definition server_of (uuid : string) : Server.t :=
  {| Server.UUID := uuid; Server.Name := ""; Server.Status := ""; Server.Zone := "";
     Server.Flavor := ""; Server.Interfaces := [] |}.

Definition fresh_mock : MockAPIServer unit := NewMockAPIServer.
Definition two_servers : list Server.t := [server_of "u1"; server_of ""; server_of "u2"].
Definition get (path : string) : Request := MkRequest "GET" path (Ok "").

Lemma WithServers_correct_witness :
  ∃ m' m1 code text, WithServers fresh_mock two_servers = Ok m' ∧ Start m' "http://mock" = Ok m1 ∧
    serve_request m1 (get "/v1/servers/u2") tt = (Reply (MkResponse code text), m1, tt) ∧
    listing_answer "/v1/servers" Server.UUID of_server (of_servers two_servers) two_servers
      "/v1/servers/u2" code text.
Proof.
  assert (NoDup (filter (λ u, u ≠ "") (Server.UUID <$> two_servers))) as Hnd by by_decide.
  destruct (WithServers_correct fresh_mock two_servers eq_refl eq_refl) as [_ Hok].
  - intros v. by eexists.
  - refine (proj1 (Forall_forall (λ s, Server.UUID s ≠ "" →
      plain_path (item_path "/v1/servers" Server.UUID s) = true) two_servers) _). by_decide.
  - destruct (Hok Hnd) as (m' & Hm' & Hserve).
    destruct (Hserve "http://mock" (get "/v1/servers/u2") tt eq_refl eq_refl)
      as (m1 & code & text & Hs & Hr & Ha).
    by exists m', m1, code, text.
Defined.

Lemma On_while_running_witness :
  ∃ m0 m1, On fresh_mock "/v1/servers" 200 (Text "[]") = Ok m0 ∧ Start m0 "http://mock" = Ok m1 ∧
    (serve_request m1 (get "/v1/foo") tt).1.1 = Reply (MkResponse 404 "{}") ∧
    ∃ m2, On m1 "/v1/foo" 200 (Text "foo") = Ok m2 ∧
      (serve_request m2 (get "/v1/foo") tt).1.1 = Reply (MkResponse 200 "foo").
Proof.
  destruct (On_first fresh_mock "/v1/servers" 200 (Text "[]") eq_refl eq_refl)
    as (m0 & Hon & Hrep & Hs & _).
  destruct (Start m0 "http://mock") as [m1|e|msg] eqn:Hstart;
    [|by unfold Start in Hstart; rewrite Hs in Hstart..].
  destruct (started_represents m0 m1 "http://mock" _ _ Hrep Hstart) as [Hrep1 Hs1].
  exists m0, m1. split; [done|]. split; [done|].
  apply (On_while_running m1 _ [("/v1/servers", (200%Z, Text "[]"))] "http://mock" "/v1/foo" "foo"
    (get "/v1/foo") tt Hrep1 Hs1); [reflexivity|by_decide|reflexivity|reflexivity].
Defined.

(** One answer is registered, then the server is started. *)
Definition or_fresh (r : result (MockAPIServer unit)) : MockAPIServer unit :=
  match r with Ok m => m | _ => fresh_mock end.

Definition mock_0 : MockAPIServer unit := or_fresh (On fresh_mock "/v1/foo" 204 (Text "")).
Definition mock_1 : MockAPIServer unit := or_fresh (Start mock_0 "http://mock").

Lemma mock_invariant_witness :
  mock_inv mock_1 ∧
  (serve_request mock_1 (MkRequest "POST" "/v1/bar" (Ok "")) tt).1.1 = Reply (MkResponse 404 "{}") ∧
  ∃ x, muxes mock_1 !! 0%nat = Some x ∧
    ((∃ p h, (p, h) ∈ x ∧ serve_request mock_1 (MkRequest "POST" "/v1/bar" (Ok "")) tt =
        serve_handler mock_1 h (MkRequest "POST" "/v1/bar" (Ok "")) tt) ∨
     serve_request mock_1 (MkRequest "POST" "/v1/bar" (Ok "")) tt = (Reply (MkResponse 301 ""), mock_1, tt)).
Proof.
  assert (rtc mock_step NewMockAPIServer mock_1) as Hsteps.
  { eapply rtc_l; [apply (step_On fresh_mock "/v1/foo" 204 (Text "") mock_0); reflexivity|].
    eapply rtc_l; [apply (step_Start mock_0 "http://mock" mock_1); reflexivity|]. apply rtc_refl. }
  destruct (mock_invariant mock_1 (Some 0%nat) "http://mock" (MkRequest "POST" "/v1/bar" (Ok "")) tt Hsteps)
    as [Hinv Hrun].
  split; [exact Hinv|]. split; [by vm_compute|]. exact (Hrun eq_refl (ex_intro _ "v1/bar" eq_refl)).
Defined.
End Example_mock.
